(** * Flintrock: a shallow embedding of [flintrock.py]

    The orchestrator talks to EC2 (boto), to the nodes (paramiko), to the
    local machine (ssh-keygen, files, the terminal) and to the Spark master
    UI (urllib).  The embedding keeps the Python control flow and replaces
    every such interaction by a typed call whose answer is supplied by an
    arbitrary handler, so that a statement proved for every handler holds
    for every behaviour of the outside world. *)

From Stdlib Require Import ZArith Ascii String.
From stdpp Require Import base list strings gmap pretty.

Local Open Scope Z_scope.

(** ** Python values and helpers *)

Definition nl : string := String "010"%char "".
Definition dquote : ascii := "034"%char.
Definition squote : ascii := "039"%char.
Definition backslash : ascii := "092"%char.

Definition chars (s : string) : list ascii := list_ascii_of_string s.
Definition text (l : list ascii) : string := string_of_list_ascii l.

(** [sep.join(parts)] *)
Fixpoint join (sep : string) (parts : list string) : string :=
  match parts with
  | [] => ""
  | [p] => p
  | p :: rest => p +:+ sep +:+ join sep rest
  end.

(** [s.startswith(prefix)] *)
Definition startswith (s prefix : string) : bool := String.prefix prefix s.

(** [s.replace(prefix, '', 1)] for a string [s] that starts with [prefix]
    (the only way [describe_ec2] calls it): the first occurrence is the
    prefix itself. *)
Definition drop_prefix (s prefix : string) : string :=
  String.substring (String.length prefix) (String.length s - String.length prefix) s.

(** [str(n)] for an integer *)
Definition str_Z (n : Z) : string := pretty n.
Definition str_nat (n : nat) : string := pretty n.

(** [sorted(names)] on strings: Python compares by code point. *)
Fixpoint insert_sorted (x : string) (l : list string) : list string :=
  match l with
  | [] => [x]
  | y :: l' => if String.leb x y then x :: l else y :: insert_sorted x l'
  end.

Definition sorted (l : list string) : list string := foldr insert_sorted [] l.

(** ** Exceptions

    The exception classes the program raises, catches, or lets through. *)

Inductive exn : Type :=
| ClusterNotFound (msg : string)
| IndexError
| KeyError (key : string)
| ValueError (msg : string)
| AttributeError (msg : string)
| RuntimeError (msg : string)
| EC2ResponseError (error_code : string)
| socket_timeout
| socket_error (errno : Z)
| AuthenticationException
| KeyboardInterrupt
| SystemExit (code : Z)
| Abort
| Exception (msg : string).

(** What a call into a library answers: a value or a raised exception. *)
Inductive result (A : Type) : Type :=
| Ok (a : A)
| Err (e : exn).
Arguments Ok {A} a.
Arguments Err {A} e.

(** ** Data model *)

(** [boto.ec2.group.Group]: a group membership entry of an instance. *)
Record Group := { group_id : string; group_name : string }.

(** [boto.ec2.instance.Instance]: the handle as last refreshed. *)
Record Instance := {
  instance_id : string;
  state : string;
  public_dns_name : string;
  ip_address : string;
  tags : gmap string string;
  groups : list Group }.

(** [boto.ec2.securitygroup.SecurityGroup] *)
Record SecurityGroup := {
  sg_id : string;
  sg_name : string;
  sg_vpc_id : option string }.

(** The [SecurityGroupRule] namedtuple of [get_or_create_ec2_security_groups]. *)
Record SecurityGroupRule := {
  ip_protocol : string;
  from_port : Z;
  to_port : Z;
  src_group : option SecurityGroup;
  cidr_ip : option string }.

Record KeyPair := { public : string; private : string }.

Record ClusterInfo := {
  name : string;
  ssh_key_pair : option KeyPair;
  master_host : string;
  slave_hosts : list string;
  spark_scratch_dir : string;
  spark_master_opts : string }.

(** The only module class of the program. *)
Inductive Module := Spark (version : string).

(** The keyword arguments of [connection.run_instances]. *)
Module Req.
Record RunInstances := {
  image_id : string;
  min_count : Z;
  max_count : Z;
  key_name : string;
  instance_type : string;
  placement : string;
  security_group_ids : list string;
  subnet_id : string;
  placement_group : string;
  tenancy : string;
  ebs_optimized : bool;
  instance_initiated_shutdown_behavior : string }.
End Req.
Abbreviation RunInstances := Req.RunInstances.

(** What [json.loads] makes of the Spark master's [/json/] page: any JSON
    value, with or without the fields that [health_check] reads.  The
    model does not look into the document; it keeps its [repr]. *)
Record Json := { json_repr : string }.

(** [boto.ec2.connection.EC2Connection], identified by its region. *)
Record Connection := { region_of : string }.

Inductive stream := stdout | stderr.

(** The shell programs sent over SSH.  The transport does not interpret
    them; each constructor stands for one command text of the source and
    carries the values that are formatted into it. *)
Inductive Command :=
| sh_install_keys (private_key public_key : string)
| sh_echo_java_home
| sh_install_java
| sh_install_spark (f spark_version distribution : string)
| sh_write_file (f p : string)
| sh_start_master (s m : string).

(** [functools.partial(provision_ec2_node, ...)] and
    [functools.partial(start_ec2_node, ...)]: a function and its keyword
    arguments, handed to the executor. *)
Inductive Job :=
| partial_provision_ec2_node
    (modules : list Module) (user host identity_file : string) (cluster_info : ClusterInfo)
| partial_start_ec2_node
    (modules : list Module) (user host identity_file : string) (cluster_info : ClusterInfo).

(** The values that [vars(cluster_info)] holds. *)
Inductive pyval :=
| py_str (s : string)
| py_None
| py_list (l : list string)
| py_KeyPair (k : KeyPair).

(** ** Calls into the outside world *)

Inductive call : Type -> Type :=
(* boto *)
| connect_to_region (region_name : option string) : call (result (option Connection))
| get_only_instances (connection : Connection) (filters : list (string * string))
  : call (result (list Instance))
| get_all_security_groups (connection : Connection) (group_names : list string)
  : call (result (list SecurityGroup))
| create_security_group (connection : Connection) (name description : string)
    (vpc_id : option string) : call (result SecurityGroup)
| authorize (group : SecurityGroup) (rule : SecurityGroupRule) : call (result unit)
| run_instances (connection : Connection) (request : RunInstances)
  : call (result (list Instance))
| create_tags (connection : Connection) (resource_ids : list string)
    (new_tags : list (string * string)) : call (result unit)
| instance_update (instance : Instance) : call (result Instance)
| instance_start (instance : Instance) : call (result Instance)
| instance_stop (instance : Instance) : call (result Instance)
| instance_terminate (instance : Instance) : call (result Instance)
(* urllib *)
| urlopen_read (url : string) : call (result string)
| urlopen_json (url : string) : call (result Json)
(* paramiko *)
| ssh_connect (username hostname key_filename : string) (timeout : Z) : call (result unit)
| transport_getpeername (hostname : string) : call (result string)
| exec_command (hostname : string) (command : Command) : call (result (Z * string * string))
| ssh_close (hostname : string) : call unit
(* the local machine *)
| ssh_keygen : call (result KeyPair)
| read_file (path : string) : call (result string)
| subprocess_call (args : list string) : call (result Z)
| time_sleep (seconds : Z) : call (result unit)
| datetime_now : call Z
| click_confirm (prompt : string) : call (result bool)
| print (file : stream) (line : string) : call unit
(* the interpreter itself *)
| python_format_map (template : string) (mapping : gmap string pyval)
  : call (result string)
| health_report (spark_ui_info : Json) : call (result string)
| iter_order (size : nat) : call (list nat)
(* asked by the executor while the main thread waits for the jobs *)
| loop_wait : call (result unit).

(** Instrumentation: points of the orchestration that the ordering
    statements refer to.  They cost nothing and ask nothing of the world. *)
Inductive marker :=
| cluster_info_built (cluster_info : ClusterInfo) (instances : list Instance)
| invoke (method : string) (position : nat) (module : Module)
| complete (method : string) (position : nat) (module : Module).

(** ** Programs

    A program is a tree of calls: each node names a call and continues
    with its answer.  [Spin] is a [while True] loop whose fuel ran out: the
    loop is still running.  [Fork] hands jobs to the executor and waits
    for them ([loop.run_until_complete(asyncio.wait(tasks))]): it
    continues with their results once all of them have finished, or with
    the exception that ended the wait before that (a [KeyboardInterrupt]
    that reaches the main thread while jobs are still running). *)

Inductive prog (A : Type) : Type :=
| Ret (a : A)
| Raise (e : exn)
| Spin
| Do {X : Type} (c : call X) (k : X -> prog A)
| Mark (m : marker) (k : prog A)
| Fork (jobs : list Job) (k : result (list (result unit)) -> prog A).
Arguments Ret {A} a.
Arguments Raise {A} e.
Arguments Spin {A}.
Arguments Do {A X} c k.
Arguments Mark {A} m k.
Arguments Fork {A} jobs k.

Fixpoint bind {A B : Type} (p : prog A) (f : A -> prog B) : prog B :=
  match p with
  | Ret a => f a
  | Raise e => Raise e
  | Spin => Spin
  | Do c k => Do c (fun x => bind (k x) f)
  | Mark m k => Mark m (bind k f)
  | Fork jobs k => Fork jobs (fun rs => bind (k rs) f)
  end.

Declare Scope prog_scope.
Delimit Scope prog_scope with prog.
Bind Scope prog_scope with prog.
Notation "x ← y ; z" := (bind y (fun x => z))
  (at level 20, y at level 100, z at level 200) : prog_scope.
Notation "y ;; z" := (bind y (fun _ => z))
  (at level 100, z at level 200, right associativity) : prog_scope.
Local Open Scope prog_scope.

(** A call whose answer is used as it is. *)
Definition ask {X : Type} (c : call X) : prog X := Do c Ret.

(** A call that raises what the library raised. *)
Definition perform {A : Type} (c : call (result A)) : prog A :=
  Do c (fun r => match r with Ok a => Ret a | Err e => Raise e end).

Definition mark (m : marker) : prog unit := Mark m (Ret tt).

(** [try: p except <the exceptions on which handler answers>: ...] *)
Fixpoint try_except {A : Type} (p : prog A) (handler : exn -> option (prog A)) : prog A :=
  match p with
  | Ret a => Ret a
  | Raise e => match handler e with Some q => q | None => Raise e end
  | Spin => Spin
  | Do c k => Do c (fun x => try_except (k x) handler)
  | Mark m k => Mark m (try_except k handler)
  | Fork jobs k => Fork jobs (fun rs => try_except (k rs) handler)
  end.

(** [try: p finally: q], which is what a [with] block does with its
    [__exit__]. *)
Fixpoint try_finally {A : Type} (p : prog A) (q : prog unit) : prog A :=
  match p with
  | Ret a => q ;; Ret a
  | Raise e => q ;; Raise e
  | Spin => Spin
  | Do c k => Do c (fun x => try_finally (k x) q)
  | Mark m k => Mark m (try_finally k q)
  | Fork jobs k => Fork jobs (fun rs => try_finally (k rs) q)
  end.

(** [for x in xs: body x] *)
Fixpoint for_each {A : Type} (xs : list A) (body : A -> prog unit) : prog unit :=
  match xs with
  | [] => Ret tt
  | x :: rest => body x ;; for_each rest body
  end.

(** ** Python strings: [repr], [str], [strip], [shlex.quote]

    A [string] stands for a Python [str] whose characters have code points
    below 256. *)

Definition hex_digit (n : N) : ascii :=
  nth (N.to_nat n) (chars "0123456789abcdef") "0"%char.

Definition code (c : ascii) : N := N_of_ascii c.

(** [repr(s)] of a [str] (CPython's [unicode_repr]). *)
Definition printable (c : ascii) : bool :=
  let n := code c in
  ((32 <=? n) && (n <? 127) || (161 <=? n) && negb (n =? 173))%N.

Definition repr_char (quote c : ascii) : list ascii :=
  if Ascii.eqb c quote || Ascii.eqb c backslash then [backslash; c]
  else if Ascii.eqb c "009"%char then [backslash; "t"%char]
  else if Ascii.eqb c "010"%char then [backslash; "n"%char]
  else if Ascii.eqb c "013"%char then [backslash; "r"%char]
  else if printable c then [c]
  else [backslash; "x"%char; hex_digit (code c / 16); hex_digit (code c mod 16)].

Definition repr_str (s : string) : string :=
  let cs := chars s in
  let quote :=
    if existsb (Ascii.eqb squote) cs && negb (existsb (Ascii.eqb dquote) cs)
    then dquote else squote in
  text (quote :: concat (map (repr_char quote) cs) ++ [quote]).

(** [str(v)], which is also [format(v, '')]. *)
Definition str (v : pyval) : string :=
  match v with
  | py_str s => s
  | py_None => "None"
  | py_list l => "[" +:+ join ", " (map repr_str l) +:+ "]"
  | py_KeyPair k =>
      "KeyPair(public=" +:+ repr_str (public k) +:+ ", private="
        +:+ repr_str (private k) +:+ ")"
  end.

(** [repr(v)] *)
Definition repr (v : pyval) : string :=
  match v with
  | py_str s => repr_str s
  | _ => str v
  end.

(** [ascii(v)]: the [repr] with every character above 127 escaped. *)
Definition ascii_escape (c : ascii) : list ascii :=
  if (code c <? 128)%N then [c]
  else [backslash; "x"%char; hex_digit (code c / 16); hex_digit (code c mod 16)].

Definition ascii_repr (v : pyval) : string :=
  text (concat (map ascii_escape (chars (repr v)))).

(** [s.strip()] removes the characters that [str.isspace] accepts; below
    256 these are the ASCII white space (9 to 13, 28 to 31 and 32), the
    next-line control U+0085 and the no-break space U+00A0. *)
Definition isspace (c : ascii) : bool :=
  let n := code c in
  ((n =? 32) || (9 <=? n) && (n <=? 13) || (28 <=? n) && (n <=? 31)
   || (n =? 133) || (n =? 160))%N.

Fixpoint lstrip_chars (l : list ascii) : list ascii :=
  match l with
  | c :: l' => if isspace c then lstrip_chars l' else l
  | [] => []
  end.

Definition strip (s : string) : string :=
  text (rev (lstrip_chars (rev (lstrip_chars (chars s))))).

(** [shlex.quote(s)] *)
Definition shell_safe (c : ascii) : bool :=
  let n := code c in
  ((48 <=? n) && (n <=? 57) || (65 <=? n) && (n <=? 90) || (97 <=? n) && (n <=? 122))%N
  || existsb (Ascii.eqb c) (chars "_@%+=:,./-").

Definition shlex_quote (s : string) : string :=
  match chars s with
  | [] => text [squote; squote]
  | cs =>
      if forallb shell_safe cs then s
      else
        let escaped c :=
          if Ascii.eqb c squote then [squote; dquote; squote; dquote; squote] else [c] in
        text (squote :: concat (map escaped cs) ++ [squote])
  end.

(** ** [str.format_map]

    The scanner follows CPython's [MarkupIterator_next] and [parse_field]
    (Python 3.5 and later): literal text with doubled braces, and
    replacement fields [{field_name!conversion:format_spec}]. *)

Inductive format_mode :=
| Literal
| Opened
| Closed
| FieldName (rname : list ascii) (in_bracket : bool)
| Conversion (rname : list ascii)
| AfterConversion (rname : list ascii) (conversion : ascii)
| FormatSpec (rname : list ascii) (conversion : option ascii) (rspec : list ascii)
    (depth : nat).

(** What formatting comes to: the text, an exception, or a replacement
    field whose meaning lies outside this model of the mini-language (an
    attribute or index lookup on the value, or a non-empty format
    specification). *)
Inductive formatted :=
| Formatted (s : string)
| FormatRaises (e : exn)
| Unmodelled.

(** [TemplateDict]: a [dict] whose [__missing__] gives the placeholder
    back. *)
Definition TemplateDict_getitem (mapping : gmap string pyval) (key : string) : pyval :=
  match mapping !! key with
  | Some v => v
  | None => py_str ("{" +:+ key +:+ "}")
  end.

Definition is_digit (c : ascii) : bool := ((48 <=? code c) && (code c <=? 57))%N.

(** The part of a field name before the first [.] or [[]. *)
Fixpoint first_part (l : list ascii) : list ascii * list ascii :=
  match l with
  | [] => ([], [])
  | c :: l' =>
      if Ascii.eqb c "."%char || Ascii.eqb c "["%char then ([], l)
      else let '(a, b) := first_part l' in (c :: a, b)
  end.

(** [PY_SSIZE_T_MAX], of a 64-bit build. *)
Definition PY_SSIZE_T_MAX : Z := 2 ^ 63 - 1.

(** CPython's [get_integer] on the first part of a field name: the digits
    are added up from the left; a character that is not a decimal digit
    ends the reading (the part is a name), and the reading fails as soon as
    the next digit would take the sum beyond [PY_SSIZE_T_MAX], whatever
    follows.  An empty part is not a number. *)
Inductive integer_reading :=
| NotInteger
| Index (n : Z)
| TooManyDigits.

Fixpoint get_integer_from (accumulator : Z) (l : list ascii) : integer_reading :=
  match l with
  | [] => Index accumulator
  | c :: l' =>
      if is_digit c
      then
        let digitval := Z.of_N (code c) - 48 in
        if (PY_SSIZE_T_MAX - digitval) / 10 <? accumulator then TooManyDigits
        else get_integer_from (accumulator * 10 + digitval) l'
      else NotInteger
  end.

Definition get_integer (l : list ascii) : integer_reading :=
  match l with
  | [] => NotInteger
  | _ :: _ => get_integer_from 0 l
  end.

(** The message of [do_conversion] for a conversion other than [s], [r]
    and [a]. *)
Definition unknown_conversion (c : ascii) : string :=
  "Unknown conversion specifier "
    +:+ (if (32 <? code c)%N && (code c <? 127)%N then text [c]
         else text ([backslash; "x"%char]
                      ++ (if (code c <? 16)%N then [] else [hex_digit (code c / 16)])
                      ++ [hex_digit (code c mod 16)])).

(** One replacement field: read the first part of the name, look it up,
    convert, format.  With [format_map] there are no positional arguments:
    an empty first part (automatic numbering) or a number is refused.  The
    scanner keeps a conversion as the character after [!], with the null
    character for none. *)
Definition render_field (mapping : gmap string pyval)
    (field_name : list ascii) (conversion : option ascii) (format_spec : list ascii)
  : formatted :=
  let '(first, rest) := first_part field_name in
  match get_integer first, first with
  | TooManyDigits, _ =>
      FormatRaises (ValueError "Too many decimal digits in format string")
  | Index _, _ | NotInteger, [] =>
      FormatRaises (ValueError "Format string contains positional fields")
  | NotInteger, _ :: _ =>
      match rest with
      | _ :: _ => Unmodelled
      | [] =>
          let obj := TemplateDict_getitem mapping (text first) in
          let converted :=
            match conversion with
            | None => Ok obj
            | Some c =>
                if (code c =? 0)%N then Ok obj
                else if Ascii.eqb c "s"%char then Ok (py_str (str obj))
                else if Ascii.eqb c "r"%char then Ok (py_str (repr obj))
                else if Ascii.eqb c "a"%char then Ok (py_str (ascii_repr obj))
                else Err (ValueError (unknown_conversion c))
            end in
          match converted with
          | Err e => FormatRaises e
          | Ok v =>
              match format_spec with
              | [] => Formatted (str v)
              | _ :: _ => Unmodelled
              end
          end
      end
  end.

Fixpoint format_scan (mapping : gmap string pyval) (mode : format_mode)
    (out : string) (input : list ascii) : formatted :=
  let emit rname conversion rspec rest :=
    match render_field mapping (rev rname) conversion (rev rspec) with
    | Formatted s => format_scan mapping Literal (out +:+ s) rest
    | other => other
    end in
  let in_name rname c rest :=
    if Ascii.eqb c "{"%char
    then FormatRaises (ValueError "unexpected '{' in field name")
    else if Ascii.eqb c "["%char then format_scan mapping (FieldName (c :: rname) true) out rest
    else if Ascii.eqb c "}"%char then emit rname None [] rest
    else if Ascii.eqb c ":"%char then format_scan mapping (FormatSpec rname None [] 1) out rest
    else if Ascii.eqb c "!"%char then format_scan mapping (Conversion rname) out rest
    else format_scan mapping (FieldName (c :: rname) false) out rest in
  match input with
  | [] =>
      match mode with
      | Literal => Formatted out
      | Opened => FormatRaises (ValueError "Single '{' encountered in format string")
      | Closed => FormatRaises (ValueError "Single '}' encountered in format string")
      | FieldName _ _ => FormatRaises (ValueError "expected '}' before end of string")
      | Conversion _ =>
          FormatRaises (ValueError "end of string while looking for conversion specifier")
      | AfterConversion _ _ | FormatSpec _ _ _ _ =>
          FormatRaises (ValueError "unmatched '{' in format spec")
      end
  | c :: rest =>
      match mode with
      | Literal =>
          if Ascii.eqb c "{"%char then format_scan mapping Opened out rest
          else if Ascii.eqb c "}"%char then format_scan mapping Closed out rest
          else format_scan mapping Literal (out +:+ text [c]) rest
      | Opened =>
          if Ascii.eqb c "{"%char then format_scan mapping Literal (out +:+ "{") rest
          else in_name [] c rest
      | Closed =>
          if Ascii.eqb c "}"%char then format_scan mapping Literal (out +:+ "}") rest
          else FormatRaises (ValueError "Single '}' encountered in format string")
      | FieldName rname true =>
          format_scan mapping (FieldName (c :: rname) (negb (Ascii.eqb c "]"%char))) out rest
      | FieldName rname false => in_name rname c rest
      | Conversion rname => format_scan mapping (AfterConversion rname c) out rest
      | AfterConversion rname conversion =>
          if Ascii.eqb c "}"%char then emit rname (Some conversion) [] rest
          else if Ascii.eqb c ":"%char
               then format_scan mapping (FormatSpec rname (Some conversion) [] 1) out rest
          else FormatRaises (ValueError "expected ':' after conversion specifier")
      | FormatSpec rname conversion rspec depth =>
          if Ascii.eqb c "{"%char
          then format_scan mapping (FormatSpec rname conversion (c :: rspec) (S depth)) out rest
          else if Ascii.eqb c "}"%char
          then match depth with
               | 1%nat | 0%nat => emit rname conversion rspec rest
               | S d => format_scan mapping (FormatSpec rname conversion (c :: rspec) d) out rest
               end
          else format_scan mapping (FormatSpec rname conversion (c :: rspec) depth) out rest
      end
  end.

(** [template.format_map(d)] for [d] the [TemplateDict] made from [mapping] *)
Definition format_map (template : string) (mapping : gmap string pyval) : formatted :=
  format_scan mapping Literal "" (chars template).

(** ** The program *)

Definition pad2 (n : Z) : string :=
  if n <? 10 then "0" +:+ str_Z n else str_Z n.

(** [str(end - start)] for two [datetime]s without microseconds, given
    the difference in seconds. *)
Definition str_timedelta (seconds : Z) : string :=
  let days := seconds / 86400 in
  let rest := seconds mod 86400 in
  let clock :=
    str_Z (rest / 3600) +:+ ":" +:+ pad2 (rest / 60 mod 60) +:+ ":" +:+ pad2 (rest mod 60) in
  if days =? 0 then clock
  else str_Z days +:+ " day" +:+ (if Z.abs days =? 1 then "" else "s") +:+ ", " +:+ clock.

Definition timeit {A : Type} (func_name : string) (func : prog A) : prog A :=
  start ← ask datetime_now;
  res ← func;
  end_ ← ask datetime_now;
  ask (print stdout (func_name +:+ " finished in " +:+ str_timedelta (end_ - start) +:+ "."));;
  Ret res.

Definition generate_ssh_key_pair : prog KeyPair := perform ssh_keygen.

(** [vars(cluster_info)] *)
Definition vars_ClusterInfo (cluster_info : ClusterInfo) : gmap string pyval :=
  {[ "name" := py_str (name cluster_info);
     "ssh_key_pair" :=
       match ssh_key_pair cluster_info with Some k => py_KeyPair k | None => py_None end;
     "master_host" := py_str (master_host cluster_info);
     "slave_hosts" := py_list (slave_hosts cluster_info);
     "spark_scratch_dir" := py_str (spark_scratch_dir cluster_info);
     "spark_master_opts" := py_str (spark_master_opts cluster_info) ]}.

Definition get_formatted_template (path : string) (mapping : gmap string pyval)
  : prog string :=
  f ← perform (read_file path);
  match format_map f mapping with
  | Formatted formatted => Ret formatted
  | FormatRaises e => Raise e
  | Unmodelled => perform (python_format_map f mapping)
  end.

(** [except Exception] catches everything but these two. *)
Definition is_Exception (e : exn) : bool :=
  match e with
  | KeyboardInterrupt | SystemExit _ => false
  | _ => true
  end.

(** A connected [paramiko.client.SSHClient], identified by the host it is
    connected to. *)
Definition SSHClient := string.

(** [ssh_client.get_transport().getpeername()[0]]: the address of the
    peer, or what the transport or its socket raises (the connection may
    be gone). *)
Definition getpeername (ssh_client : SSHClient) : prog string :=
  perform (transport_getpeername ssh_client).

Fixpoint rstrip_newlines_rev (l : list ascii) : list ascii :=
  match l with
  | c :: l' => if Ascii.eqb c "010"%char then rstrip_newlines_rev l' else l
  | [] => []
  end.

(** [s.rstrip('\n')] *)
Definition rstrip_newlines (s : string) : string :=
  text (rev (rstrip_newlines_rev (rev (chars s)))).

Definition ssh_check_output (client : SSHClient) (command : Command) : prog string :=
  r ← perform (exec_command client command);
  let '(exit_status, out, err) := r in
  if exit_status =? 0 then Ret (rstrip_newlines out)
  else Raise (Exception (rstrip_newlines out +:+ rstrip_newlines err)).

Definition install (self : Module) (ssh_client : SSHClient) (cluster_info : ClusterInfo)
  : prog unit :=
  let 'Spark version := self in
  let distribution := "hadoop1" in
  h ← getpeername ssh_client;
  ask (print stdout ("[" +:+ h +:+ "] Installing Spark..."));;
  try_except
    (template ← get_formatted_template "./install-spark.sh" (vars_ClusterInfo cluster_info);
     ssh_check_output ssh_client
       (sh_install_spark (shlex_quote template) (shlex_quote version)
          (shlex_quote distribution));;
     Ret tt)
    (fun e =>
       if is_Exception e
       then Some (ask (print stderr ("Could not find package for Spark " +:+ version
                                       +:+ " / " +:+ distribution +:+ "."));;
                  Raise e)
       else None).

Definition configure (self : Module) (ssh_client : SSHClient) (cluster_info : ClusterInfo)
  : prog unit :=
  let template_path := "./spark/conf/spark-env.sh" in
  template ← get_formatted_template ("templates/" +:+ template_path)
               (vars_ClusterInfo cluster_info);
  ssh_check_output ssh_client
    (sh_write_file (shlex_quote template) (shlex_quote template_path));;
  Ret tt.

Definition configure_master (self : Module) (ssh_client : SSHClient)
    (cluster_info : ClusterInfo) : prog unit :=
  host ← getpeername ssh_client;
  ask (print stdout ("[" +:+ host +:+ "] Configuring Spark master..."));;
  ssh_check_output ssh_client
    (sh_start_master (shlex_quote (join nl (slave_hosts cluster_info)))
       (shlex_quote (master_host cluster_info)));;
  Ret tt.

(** The fetch and the decoding of the page are inside the [try]; the
    report is built after it.  [health_report] stands for the argument of
    the final [print]: the report template, formatted with
    [spark_ui_info['status']], [len(spark_ui_info['workers'])],
    [spark_ui_info['cores']] and [spark_ui_info['memory'] / 1024] and
    dedented.  It gives the text of the report or raises what a field read
    raises: [KeyError] for a document without the field, [TypeError] for a
    value of another type. *)
Definition health_check (self : Module) (master_host : string) : prog unit :=
  let spark_master_ui := "http://" +:+ master_host +:+ ":8080/json/" in
  spark_ui_info ←
    try_except (perform (urlopen_json spark_master_ui))
      (fun e =>
         if is_Exception e
         then Some (ask (print stderr "Spark health check failed.");; Raise e)
         else None);
  report ← perform (health_report spark_ui_info);
  ask (print stdout report).

(** A method looked up on what [connect_to_region] gave back. *)
Definition connect (region : option string) (method : string) : prog Connection :=
  connection ← perform (connect_to_region region);
  match connection with
  | Some c => Ret c
  | None => Raise (AttributeError ("'NoneType' object has no attribute '" +:+ method +:+ "'"))
  end.

Definition repr_option (o : option string) : string :=
  match o with Some s => repr_str s | None => "None" end.

(** [repr(rule)] of the namedtuple. *)
Definition repr_rule (rule : SecurityGroupRule) : string :=
  "SecurityGroupRule(ip_protocol=" +:+ repr_str (ip_protocol rule)
    +:+ ", from_port=" +:+ str_Z (from_port rule)
    +:+ ", to_port=" +:+ str_Z (to_port rule)
    +:+ ", src_group="
    +:+ match src_group rule with
        | Some g => "SecurityGroup:" +:+ sg_name g
        | None => "None"
        end
    +:+ ", cidr_ip=" +:+ repr_option (cidr_ip rule) +:+ ")".

(** The body of the two [for rule in ...] loops. *)
Definition authorize_rule (group : SecurityGroup) (rule : SecurityGroupRule) : prog unit :=
  try_except (perform (authorize group rule))
    (fun e =>
       match e with
       | EC2ResponseError error_code =>
           Some (if String.eqb error_code "InvalidPermission.Duplicate" then Ret tt
                 else ask (print stdout ("Error adding rule: " +:+ repr_rule rule));;
                      Raise e)
       | _ => None
       end).

Definition client_rules (flintrock_client_cidr : string) : list SecurityGroupRule :=
  [ {| ip_protocol := "tcp"; from_port := 22; to_port := 22;
       cidr_ip := Some flintrock_client_cidr; src_group := None |};
    {| ip_protocol := "tcp"; from_port := 8080; to_port := 8081;
       cidr_ip := Some flintrock_client_cidr; src_group := None |};
    {| ip_protocol := "tcp"; from_port := 4040; to_port := 4040;
       cidr_ip := Some flintrock_client_cidr; src_group := None |} ].

Definition cluster_rules (cluster_group : SecurityGroup) : list SecurityGroupRule :=
  [ {| ip_protocol := "icmp"; from_port := -1; to_port := -1;
       src_group := Some cluster_group; cidr_ip := None |};
    {| ip_protocol := "tcp"; from_port := 0; to_port := 65535;
       src_group := Some cluster_group; cidr_ip := None |};
    {| ip_protocol := "udp"; from_port := 0; to_port := 65535;
       src_group := Some cluster_group; cidr_ip := None |} ].

Definition get_or_create_ec2_security_groups
    (cluster_name : string) (vpc_id : option string) (region : string)
  : prog (list SecurityGroup) :=
  connection ← connect (Some region) "get_all_security_groups";
  let flintrock_group_name := "flintrock" in
  let cluster_group_name := "flintrock-" +:+ cluster_name in
  search_results ←
    perform (get_all_security_groups connection [flintrock_group_name; cluster_group_name]);
  let flintrock_group :=
    List.find (fun sg => String.eqb (sg_name sg) flintrock_group_name) search_results in
  let cluster_group :=
    List.find (fun sg => String.eqb (sg_name sg) cluster_group_name) search_results in
  flintrock_group ←
    match flintrock_group with
    | Some g => Ret g
    | None =>
        perform (create_security_group connection flintrock_group_name
                   "flintrock base group" vpc_id)
    end;
  page ← perform (urlopen_read "http://checkip.amazonaws.com/");
  let flintrock_client_ip := strip page in
  let flintrock_client_cidr := flintrock_client_ip +:+ "/32" in
  for_each (client_rules flintrock_client_cidr) (authorize_rule flintrock_group);;
  cluster_group ←
    match cluster_group with
    | Some g => Ret g
    | None =>
        perform (create_security_group connection cluster_group_name
                   "Flintrock cluster group" vpc_id)
    end;
  for_each (cluster_rules cluster_group) (authorize_rule cluster_group);;
  Ret [flintrock_group; cluster_group].

(** [list(filter(function, iterable))]: the function is applied to every
    element, in order, and the first exception it raises ends the call. *)
Fixpoint py_filter {A : Type} (function : A -> result bool) (iterable : list A)
  : result (list A) :=
  match iterable with
  | [] => Ok []
  | x :: rest =>
      match function x with
      | Err e => Err e
      | Ok b =>
          match py_filter function rest with
          | Err e => Err e
          | Ok kept => Ok (if b then x :: kept else kept)
          end
      end
  end.

(** [i.tags['flintrock-role']] *)
Definition flintrock_role (i : Instance) : result string :=
  match tags i !! "flintrock-role" with
  | Some role => Ok role
  | None => Err (KeyError "flintrock-role")
  end.

Definition role_eq_master (i : Instance) : result bool :=
  match flintrock_role i with
  | Ok role => Ok (String.eqb role "master")
  | Err e => Err e
  end.

Definition role_ne_master (i : Instance) : result bool :=
  match flintrock_role i with
  | Ok role => Ok (negb (String.eqb role "master"))
  | Err e => Err e
  end.

Definition of_result {A : Type} (r : result A) : prog A :=
  match r with
  | Ok a => Ret a
  | Err e => Raise e
  end.

(** [l[0]] *)
Definition item0 {A : Type} (l : list A) : prog A :=
  match l with
  | x :: _ => Ret x
  | [] => Raise IndexError
  end.

Definition get_cluster_instances_ec2 (cluster_name region : string)
  : prog (Instance * list Instance) :=
  connection ← connect (Some region) "get_only_instances";
  cluster_instances ←
    perform (get_only_instances connection
               [("instance.group-name", "flintrock-" +:+ cluster_name)]);
  match cluster_instances with
  | [] => Raise (ClusterNotFound ("No such cluster: " +:+ cluster_name))
  | _ :: _ =>
      masters ← of_result (py_filter role_eq_master cluster_instances);
      master_instance ← item0 masters;
      slave_instances ← of_result (py_filter role_ne_master cluster_instances);
      Ret (master_instance, slave_instances)
  end.

(** The inner [for instance in instances] of the polling loops: the first
    handle whose cached state is not the awaited one, with its position. *)
Fixpoint first_not_in (awaited : string) (instances : list Instance) (position : nat)
  : option (nat * Instance) :=
  match instances with
  | [] => None
  | instance :: rest =>
      if String.eqb (state instance) awaited then first_not_in awaited rest (S position)
      else Some (position, instance)
  end.

(** The [while True] polling loop of [launch_ec2], [start_ec2] and
    [stop_ec2]: refresh the first handle that is not in the awaited state,
    sleep 3 seconds, scan again; leave when the scan finds none.  A handle
    is refreshed in place, so what comes back is the list of handles as
    last refreshed. *)
Fixpoint wait_for_state (awaited : string) (fuel : nat) (instances : list Instance)
  : prog (list Instance) :=
  match first_not_in awaited instances 0 with
  | None => Ret instances
  | Some (position, instance) =>
      match fuel with
      | O => Spin
      | S fuel' =>
          refreshed ← perform (instance_update instance);
          perform (time_sleep 3);;
          wait_for_state awaited fuel' (<[position := refreshed]> instances)
      end
  end.

(** [while True: try: client.connect(...) ...] *)
Fixpoint get_ssh_client (fuel : nat) (user host identity_file : string)
    (print_status : bool) : prog SSHClient :=
  match fuel with
  | O => Spin
  | S fuel' =>
      attempt ← ask (ssh_connect user host identity_file 3);
      match attempt with
      | Ok _ =>
          (if print_status then ask (print stdout ("[" +:+ host +:+ "] SSH online."))
           else Ret tt);;
          Ret host
      | Err socket_timeout =>
          perform (time_sleep 5);;
          get_ssh_client fuel' user host identity_file print_status
      | Err (socket_error errno) =>
          if negb (errno =? 61) then Raise (socket_error errno)
          else perform (time_sleep 5);;
               get_ssh_client fuel' user host identity_file print_status
      | Err AuthenticationException =>
          perform (time_sleep 5);;
          get_ssh_client fuel' user host identity_file print_status
      | Err e => Raise e
      end
  end.

(** [with client: body] *)
Definition with_client {A : Type} (client : SSHClient) (body : prog A) : prog A :=
  try_finally body (ask (ssh_close client)).

(** [cluster_info.ssh_key_pair.private] and [.public] *)
Definition key_pair_of (cluster_info : ClusterInfo) (attr : string) : prog KeyPair :=
  match ssh_key_pair cluster_info with
  | Some k => Ret k
  | None => Raise (AttributeError ("'NoneType' object has no attribute '" +:+ attr +:+ "'"))
  end.

Definition provision_ec2_node (fuel : nat) (modules : list Module)
    (user host identity_file : string) (cluster_info : ClusterInfo) : prog unit :=
  client ← get_ssh_client fuel user host identity_file true;
  with_client client
    (keys ← key_pair_of cluster_info "private";
     ssh_check_output client
       (sh_install_keys (shlex_quote (private keys)) (shlex_quote (public keys)));;
     java_home ← ssh_check_output client sh_echo_java_home;
     (if String.eqb (strip java_home) ""
      then ask (print stdout ("[" +:+ host +:+ "] Installing Java..."));;
           ssh_check_output client sh_install_java;;
           Ret tt
      else Ret tt);;
     for_each modules
       (fun module =>
          install module client cluster_info;;
          configure module client cluster_info)).

Definition destroy_message := "Are you sure you want to destroy this cluster?".
Definition stop_message := "Are you sure you want to stop this cluster?".

Definition get_cluster_state_ec2 (cluster_instances : list Instance) : string :=
  let instance_states : gset string := list_to_set (map state cluster_instances) in
  if decide (size instance_states = 1%nat)
  then match elements instance_states with
       | s :: _ => s
       | [] => ""
       end
  else "inconsistent".

Definition print_cluster_info_ec2 (cluster_name : string) (cluster_instances : list Instance)
  : prog unit :=
  ask (print stdout (cluster_name +:+ ":"));;
  ask (print stdout ("  state: " +:+ get_cluster_state_ec2 cluster_instances));;
  ask (print stdout ("  node-count: " +:+ str_nat (length cluster_instances)));;
  if String.eqb (get_cluster_state_ec2 cluster_instances) "running"
  then ask (print stdout
              (join (nl +:+ "    - ") ("  nodes:" :: map public_dns_name cluster_instances)))
  else Ret tt.

(** [for instance in instances: instance.method()], each handle refreshed
    in place by what the call returns. *)
Fixpoint for_each_handle (method : Instance -> call (result Instance))
    (instances : list Instance) : prog (list Instance) :=
  match instances with
  | [] => Ret []
  | instance :: rest =>
      refreshed ← perform (method instance);
      others ← for_each_handle method rest;
      Ret (refreshed :: others)
  end.

Definition destroy_ec2 (cluster_name : string) (assume_yes : bool) (region : string)
  : prog unit :=
  connection ← connect (Some region) "get_only_instances";
  cluster_instances ←
    perform (get_only_instances connection
               [("instance.group-name", "flintrock-" +:+ cluster_name)]);
  (match cluster_instances with
   | [] => ask (print stdout "No such cluster.");; Raise (SystemExit 0)
   | _ :: _ => Ret tt
   end);;
  (if negb assume_yes
   then print_cluster_info_ec2 cluster_name cluster_instances;;
        ask (print stdout "---");;
        perform (click_confirm destroy_message);;
        Ret tt
   else Ret tt);;
  ask (print stdout ("Terminating " +:+ str_nat (length cluster_instances) +:+ " instances..."));;
  for_each_handle instance_terminate cluster_instances;;
  Ret tt.

(** [{g.name for g in instance.groups}] *)
Definition group_names (instance : Instance) : gset string :=
  list_to_set (map group_name (groups instance)).

Definition describe_ec2 (cluster_name : option string) (master_hostname_only : bool)
    (region : option string) : prog unit :=
  connection ← connect region "get_only_instances";
  cluster_instances ←
    perform (get_only_instances connection
               [("instance.group-name",
                 match cluster_name with
                 | Some n => if String.eqb n "" then "flintrock" else "flintrock-" +:+ n
                 | None => "flintrock"
                 end)]);
  let security_groups := concat (map groups cluster_instances) in
  let security_group_names : gset string :=
    list_to_set
      (map group_name
         (List.filter (fun g => startswith (group_name g) "flintrock-") security_groups)) in
  let cluster_names :=
    map (fun n => drop_prefix n "flintrock-") (elements security_group_names) in
  ask (print stdout (str_nat (length cluster_names) +:+ " cluster"
                       +:+ (if decide (length cluster_names = 1%nat) then "" else "s")
                       +:+ " found."));;
  match cluster_names with
  | [] => Ret tt
  | _ :: _ =>
      ask (print stdout "---");;
      for_each (sorted cluster_names)
        (fun cluster_name =>
           let filtered_instances :=
             List.filter
               (fun instance =>
                  bool_decide ("flintrock-" +:+ cluster_name ∈ group_names instance))
               cluster_instances in
           print_cluster_info_ec2 cluster_name filtered_instances)
  end.

Definition ssh (user host identity_file : string) : prog unit :=
  perform (subprocess_call
             ["ssh"; "-o"; "StrictHostKeyChecking=no"; "-i"; identity_file;
              user +:+ "@" +:+ host]);;
  Ret tt.

Definition login_ec2 (cluster_name region identity_file user : string) : prog unit :=
  connection ← connect (Some region) "get_only_instances";
  found ←
    perform (get_only_instances connection
               [("instance.group-name", "flintrock-" +:+ cluster_name);
                ("tag:flintrock-role", "master")]);
  match found with
  | master_instance :: _ => ssh user (public_dns_name master_instance) identity_file
  | [] =>
      Raise (Exception ("Could not find a master for a cluster named '" +:+ cluster_name
                          +:+ "' in the " +:+ region +:+ " region."))
  end.

Definition start_ec2_node (fuel : nat) (modules : list Module)
    (user host identity_file : string) (cluster_info : ClusterInfo) : prog unit :=
  ssh_client ← get_ssh_client fuel user host identity_file true;
  with_client ssh_client
    (for_each modules (fun module => configure module ssh_client cluster_info)).

(** What the executor runs for a job. *)
Definition job_prog (fuel : nat) (job : Job) : prog unit :=
  match job with
  | partial_provision_ec2_node modules user host identity_file cluster_info =>
      provision_ec2_node fuel modules user host identity_file cluster_info
  | partial_start_ec2_node modules user host identity_file cluster_info =>
      start_ec2_node fuel modules user host identity_file cluster_info
  end.

(** [done, _ = loop.run_until_complete(asyncio.wait(tasks))] followed by
    [for future in done: future.result()].  [asyncio.wait] refuses an empty
    set; an exception that ends the wait is raised where the wait stands;
    [done] is a set, iterated in an order of its own. *)
Definition run_until_complete_wait (tasks : list Job) : prog unit :=
  match tasks with
  | [] => Raise (ValueError "Set of coroutines/Futures is empty.")
  | _ :: _ =>
      Fork tasks
        (fun waited =>
           match waited with
           | Err e => Raise e
           | Ok done =>
               order ← ask (iter_order (length done));
               for_each (order ++ seq 0 (length done))
                 (fun i =>
                    match done !! i with
                    | Some (Err e) => Raise e
                    | _ => Ret tt
                    end)
           end)
  end.

(** [for module in modules: body module], with the position of the module
    in the list for the instrumentation. *)
Fixpoint for_each_module (modules : list Module) (position : nat)
    (body : nat -> Module -> prog unit) : prog unit :=
  match modules with
  | [] => Ret tt
  | module :: rest => body position module;; for_each_module rest (S position) body
  end.

Section launch.

Variables (cluster_name : string) (num_slaves : Z) (modules : list Module).
Variables (key_name identity_file instance_type region availability_zone ami user : string).
Variables (spot_price : option string) (vpc_id : option string).
Variables (subnet_id placement_group tenancy : string) (ebs_optimized : bool).
Variables (instance_initiated_shutdown_behavior : string).

Definition launch_request (security_groups : list SecurityGroup) : RunInstances :=
  {| Req.image_id := ami;
     Req.min_count := num_slaves + 1;
     Req.max_count := num_slaves + 1;
     Req.key_name := key_name;
     Req.instance_type := instance_type;
     Req.placement := availability_zone;
     Req.security_group_ids := map sg_id security_groups;
     Req.subnet_id := subnet_id;
     Req.placement_group := placement_group;
     Req.tenancy := tenancy;
     Req.ebs_optimized := ebs_optimized;
     Req.instance_initiated_shutdown_behavior := instance_initiated_shutdown_behavior |}.

Definition master_tags : list (string * string) :=
  [("flintrock-role", "master"); ("Name", cluster_name +:+ "-master")].
Definition slave_tags : list (string * string) :=
  [("flintrock-role", "slave"); ("Name", cluster_name +:+ "-slave")].

Definition build_cluster_info (key_pair : option KeyPair)
    (master_instance : Instance) (slave_instances : list Instance) : ClusterInfo :=
  {| name := cluster_name;
     ssh_key_pair := key_pair;
     master_host := public_dns_name master_instance;
     slave_hosts := map public_dns_name slave_instances;
     spark_scratch_dir := "/mnt/spark";
     spark_master_opts := "" |}.

(** The [try] block of [launch_ec2]. *)
Definition launch_cluster (fuel : nat) (security_groups : list SecurityGroup)
  : prog unit :=
  connection ← connect (Some region) "run_instances";
  ask (print stdout ("Launching " +:+ str_Z (num_slaves + 1) +:+ " instances..."));;
  instances ← perform (run_instances connection (launch_request security_groups));
  perform (time_sleep 10);;
  instances ← wait_for_state "running" fuel instances;
  master_instance ← item0 instances;
  let slave_instances := tail instances in
  perform (create_tags connection [instance_id master_instance] master_tags);;
  perform (create_tags connection (map instance_id slave_instances) slave_tags);;
  key_pair ← generate_ssh_key_pair;
  let cluster_info := build_cluster_info (Some key_pair) master_instance slave_instances in
  mark (cluster_info_built cluster_info instances);;
  run_until_complete_wait
    (map (fun instance =>
            partial_provision_ec2_node modules user (ip_address instance) identity_file
              cluster_info)
         instances);;
  ask (print stdout ("All " +:+ str_nat (length instances) +:+ " instances provisioned."));;
  master_ssh_client ← get_ssh_client fuel user (ip_address master_instance) identity_file false;
  with_client master_ssh_client
    (for_each_module modules 0
       (fun position module =>
          mark (invoke "configure_master" position module);;
          configure_master module master_ssh_client cluster_info;;
          mark (complete "configure_master" position module);;
          perform (time_sleep 30);;
          mark (invoke "health_check" position module);;
          health_check module (master_host cluster_info);;
          mark (complete "health_check" position module))).

Definition launch_ec2 (fuel : nat) : prog unit :=
  timeit "launch_ec2"
    (found ←
       try_except (get_cluster_instances_ec2 cluster_name region;; Ret true)
         (fun e => match e with ClusterNotFound _ => Some (Ret false) | _ => None end);
     (if found : bool
      then ask (print stderr ("Cluster already exists: " +:+ cluster_name));;
           Raise (SystemExit 1)
      else Ret tt);;
     security_groups ← get_or_create_ec2_security_groups cluster_name vpc_id region;
     try_except (launch_cluster fuel security_groups)
       (fun e =>
          match e with
          | KeyboardInterrupt => Some (ask (print stdout "Exiting...");; Raise (SystemExit 1))
          | _ => None
          end)).

Definition start_ec2 (fuel : nat) : prog unit :=
  timeit "start_ec2"
    (found ←
       try_except
         (r ← get_cluster_instances_ec2 cluster_name region;
          let '(master_instance, slave_instances) := r in
          Ret (master_instance :: slave_instances))
         (fun e =>
            match e with
            | ClusterNotFound msg => Some (ask (print stdout msg);; Raise (SystemExit 0))
            | _ => None
            end);
     let cluster_instances := found in
     ask (print stdout ("Starting " +:+ str_nat (length cluster_instances)
                          +:+ " instances..."));;
     cluster_instances ← for_each_handle instance_start cluster_instances;
     cluster_instances ← wait_for_state "running" fuel cluster_instances;
     master_instance ← item0 cluster_instances;
     let slave_instances := tail cluster_instances in
     let cluster_info := build_cluster_info None master_instance slave_instances in
     let spark := Spark "Who knows?!" in
     let modules := [spark] in
     run_until_complete_wait
       (map (fun instance =>
               partial_start_ec2_node modules user (ip_address instance) identity_file
                 cluster_info)
            cluster_instances);;
     master_ssh_client ←
       get_ssh_client fuel user (ip_address master_instance) identity_file false;
     with_client master_ssh_client
       (for_each modules
          (fun module => configure_master module master_ssh_client cluster_info));;
     perform (time_sleep 30);;
     health_check spark (ip_address master_instance)).

Definition stop_ec2 (fuel : nat) (assume_yes : bool) : prog unit :=
  timeit "stop_ec2"
    (connection ← connect (Some region) "get_only_instances";
     cluster_instances ←
       perform (get_only_instances connection
                  [("instance.group-name", "flintrock-" +:+ cluster_name)]);
     (match cluster_instances with
      | [] => ask (print stdout "No such cluster.");; Raise (SystemExit 0)
      | _ :: _ => Ret tt
      end);;
     (if negb assume_yes
      then print_cluster_info_ec2 cluster_name cluster_instances;;
           ask (print stdout "---");;
           perform (click_confirm stop_message);;
           Ret tt
      else Ret tt);;
     ask (print stdout ("Stopping " +:+ str_nat (length cluster_instances)
                          +:+ " instances..."));;
     cluster_instances ← for_each_handle instance_stop cluster_instances;
     wait_for_state "stopped" fuel cluster_instances;;
     ask (print stdout (cluster_name +:+ " is now stopped."))).

End launch.

(** ** Running a program

    A run threads the state of the world through the calls and records
    what happened.  The executor's threads are stepped one call at a time
    in the order a schedule dictates.  When the schedule is used up the
    outside world says whether the wait of the main thread is left
    undisturbed ([loop_wait]).  If it is, the jobs still running are run to
    their end, so a join always sees every job that finishes.  If it is
    not, the main thread goes on with the exception while the jobs are
    where the schedule left them; what they do from then on is not part of
    the record. *)

Inductive outcome (A : Type) : Type :=
| Returned (a : A)
| Raised (e : exn)
| Spinning.
Arguments Returned {A} a.
Arguments Raised {A} e.
Arguments Spinning {A}.

Inductive event :=
| Called {X : Type} (c : call X) (x : X)
| Worker (job : nat) {X : Type} (c : call X) (x : X)
| Marked (m : marker)
| Forked (jobs : list Job)
| Finished (job : nat) (r : result unit)
| Joined
| Interrupted (e : exn).

(** A thread of the executor neither marks nor forks: there is no event
    loop in a worker thread. *)
Fixpoint settle (p : prog unit) : prog unit :=
  match p with
  | Mark _ k => settle k
  | Fork _ _ => Raise (RuntimeError "There is no current event loop in thread")
  | _ => p
  end.

Definition done_event (job : nat) (p : prog unit) : list event :=
  match p with
  | Ret a => [Finished job (Ok a)]
  | Raise e => [Finished job (Err e)]
  | _ => []
  end.

Definition done_outcome (job : nat) (o : outcome unit) : list event :=
  match o with
  | Returned a => [Finished job (Ok a)]
  | Raised e => [Finished job (Err e)]
  | Spinning => []
  end.

(** The results of the futures, when every job is done. *)
Fixpoint all_results (outs : list (outcome unit)) : option (list (result unit)) :=
  match outs with
  | [] => Some []
  | Spinning :: _ => None
  | Returned a :: rest => cons (Ok a) <$> all_results rest
  | Raised e :: rest => cons (Err e) <$> all_results rest
  end.

Section run.

Context {W : Type}.
Variable handler : forall X : Type, call X -> W -> X * W.
Variable body_of : Job -> prog unit.
Variable schedule : list nat.

(** A job run to its end on its own. *)
Fixpoint run_thread (job : nat) (p : prog unit) (w : W) : outcome unit * W * list event :=
  match p with
  | Ret a => (Returned a, w, [])
  | Raise e => (Raised e, w, [])
  | Spin => (Spinning, w, [])
  | Do c k =>
      let '(x, w1) := handler _ c w in
      let '(o, w2, tr) := run_thread job (k x) w1 in
      (o, w2, Worker job c x :: tr)
  | Mark _ k => run_thread job k w
  | Fork _ _ => (Raised (RuntimeError "There is no current event loop in thread"), w, [])
  end.

(** The threads stepped as the schedule says: entry [i] lets job [i] make
    its next call, if it has one. *)
Fixpoint par_steps (sched : list nat) (pool : list (prog unit)) (w : W)
  : list (prog unit) * W * list event :=
  match sched with
  | [] => (pool, w, [])
  | i :: sched' =>
      match pool !! i with
      | Some (Do c k) =>
          let '(x, w1) := handler _ c w in
          let p' := settle (k x) in
          let '(pool', w2, tr) := par_steps sched' (<[i := p']> pool) w1 in
          (pool', w2, Worker i c x :: done_event i p' ++ tr)
      | _ => par_steps sched' pool w
      end
  end.

(** The jobs still running, each run to its end, in order. *)
Fixpoint drain (job : nat) (pool : list (prog unit)) (w : W)
  : list (outcome unit) * W * list event :=
  match pool with
  | [] => ([], w, [])
  | p :: rest =>
      let '(o, w1, tr1) := run_thread job p w in
      let fin := match p with Do _ _ => done_outcome job o | _ => [] end in
      let '(os, w2, tr2) := drain (S job) rest w1 in
      (o :: os, w2, tr1 ++ fin ++ tr2)
  end.

Definition fork_join (jobs : list Job) (w : W) : list (outcome unit) * W * list event :=
  let pool := map (fun j => settle (body_of j)) jobs in
  let '(pool1, w1, tr1) := par_steps schedule pool w in
  let '(outs, w2, tr2) := drain 0 pool1 w1 in
  (outs, w2, Forked jobs :: concat (imap done_event pool) ++ tr1 ++ tr2).

(** The wait ended by an exception, after the steps of the schedule. *)
Definition fork_interrupted (jobs : list Job) (w : W) : option (exn * W * list event) :=
  let pool := map (fun j => settle (body_of j)) jobs in
  let '(_, w1, tr1) := par_steps schedule pool w in
  match handler _ loop_wait w1 with
  | (Err e, w2) => Some (e, w2, Forked jobs :: concat (imap done_event pool) ++ tr1)
  | (Ok _, _) => None
  end.

(** The main thread. *)
Fixpoint run {A : Type} (p : prog A) (w : W) : outcome A * W * list event :=
  match p with
  | Ret a => (Returned a, w, [])
  | Raise e => (Raised e, w, [])
  | Spin => (Spinning, w, [])
  | Do c k =>
      let '(x, w1) := handler _ c w in
      let '(o, w2, tr) := run (k x) w1 in
      (o, w2, Called c x :: tr)
  | Mark m k =>
      let '(o, w1, tr) := run k w in
      (o, w1, Marked m :: tr)
  | Fork jobs k =>
      match fork_interrupted jobs w with
      | Some (e, w1, tr1) =>
          let '(o, w2, tr2) := run (k (Err e)) w1 in
          (o, w2, tr1 ++ Interrupted e :: tr2)
      | None =>
          let '(outs, w1, tr1) := fork_join jobs w in
          match all_results outs with
          | Some results =>
              let '(o, w2, tr2) := run (k (Ok results)) w1 in
              (o, w2, tr1 ++ Joined :: tr2)
          | None => (Spinning, w1, tr1)
          end
      end
  end.

End run.

(** What the shell sees when the process ends: [sys.exit(n)] gives [n], any
    other exception that nobody caught gives 1. *)
Definition exit_status {A : Type} (o : outcome A) : option Z :=
  match o with
  | Returned _ => Some 0
  | Raised (SystemExit code) => Some code
  | Raised _ => Some 1
  | Spinning => None
  end.

(** What was printed on a stream by the main thread. *)
Definition printed (file : stream) (tr : list event) : list string :=
  omap (fun ev =>
          match ev with
          | Called (print f line) _ =>
              match f, file with
              | stdout, stdout | stderr, stderr => Some line
              | _, _ => None
              end
          | _ => None
          end) tr.

(** ** An in-memory provider

    A small world to run the program in: EC2 as a list of instances and a
    list of security groups with their rules, nodes that accept every SSH
    command, and a Spark master that is alive.  An instance moves on by
    one state each time it is refreshed. *)

Record World := {
  w_instances : list Instance;
  w_groups : list (SecurityGroup * list SecurityGroupRule);
  w_checkip : list string;
  w_next : nat;
  w_clock : Z;
  w_template : string }.

#[global] Instance SecurityGroup_eq_dec : EqDecision SecurityGroup.
Proof. solve_decision. Defined.
#[global] Instance SecurityGroupRule_eq_dec : EqDecision SecurityGroupRule.
Proof. solve_decision. Defined.

Definition set_instances (l : list Instance) (w : World) : World :=
  {| w_instances := l; w_groups := w_groups w; w_checkip := w_checkip w;
     w_next := w_next w; w_clock := w_clock w; w_template := w_template w |}.

Definition set_groups (g : list (SecurityGroup * list SecurityGroupRule)) (w : World) : World :=
  {| w_instances := w_instances w; w_groups := g; w_checkip := w_checkip w;
     w_next := w_next w; w_clock := w_clock w; w_template := w_template w |}.

(** One filter of [get_only_instances]. *)
Definition matches (i : Instance) (f : string * string) : bool :=
  let '(k, v) := f in
  if String.eqb k "instance.group-name"
  then existsb (fun g => String.eqb (group_name g) v) (groups i)
  else if startswith k "tag:"
  then bool_decide (tags i !! drop_prefix k "tag:" = Some v)
  else true.

Definition with_state (st : string) (i : Instance) : Instance :=
  {| instance_id := instance_id i; state := st;
     public_dns_name :=
       if String.eqb st "running" then "ec2-" +:+ instance_id i +:+ ".compute-1.amazonaws.com"
       else "";
     ip_address := if String.eqb st "running" then "ip-" +:+ instance_id i else "";
     tags := tags i; groups := groups i |}.

Definition next_state (st : string) : string :=
  if String.eqb st "pending" then "running"
  else if String.eqb st "stopping" then "stopped"
  else if String.eqb st "shutting-down" then "terminated"
  else st.

(** Apply [f] to the instance with the given id and answer with the
    result. *)
Fixpoint change (f : Instance -> Instance) (i : string) (l : list Instance)
  : option (Instance * list Instance) :=
  match l with
  | [] => None
  | x :: rest =>
      if String.eqb (instance_id x) i then Some (f x, f x :: rest)
      else match change f i rest with
           | Some (y, rest') => Some (y, x :: rest')
           | None => None
           end
  end.

Definition change_instance (f : Instance -> Instance) (i : Instance) (w : World)
  : result Instance * World :=
  match change f (instance_id i) (w_instances w) with
  | Some (y, l) => (Ok y, set_instances l w)
  | None => (Err (EC2ResponseError "InvalidInstanceID.NotFound"), w)
  end.

Definition add_tags (new_tags : list (string * string)) (i : Instance) : Instance :=
  {| instance_id := instance_id i; state := state i;
     public_dns_name := public_dns_name i; ip_address := ip_address i;
     tags := foldr (fun kv m => <[kv.1 := kv.2]> m) (tags i) new_tags;
     groups := groups i |}.

Definition fresh_instance (memberships : list Group) (n : nat) : Instance :=
  {| instance_id := "i-" +:+ str_nat n; state := "pending"; public_dns_name := "";
     ip_address := ""; tags := ∅; groups := memberships |}.

(** Add a rule to the group with the given id; a rule the group already
    has is refused as a duplicate. *)
Fixpoint add_rule (g : string) (r : SecurityGroupRule)
    (l : list (SecurityGroup * list SecurityGroupRule))
  : result (list (SecurityGroup * list SecurityGroupRule)) :=
  match l with
  | [] => Err (EC2ResponseError "InvalidGroup.NotFound")
  | (sg, rules) :: rest =>
      if String.eqb (sg_id sg) g
      then if bool_decide (r ∈ rules)
           then Err (EC2ResponseError "InvalidPermission.Duplicate")
           else Ok ((sg, rules ++ [r]) :: rest)
      else match add_rule g r rest with
           | Ok rest' => Ok ((sg, rules) :: rest')
           | Err e => Err e
           end
  end.

Definition memberships_of (w : World) (ids : list string) : list Group :=
  omap (fun i =>
          (fun sg => {| group_id := sg_id sg.1; group_name := sg_name sg.1 |})
            <$> List.find (fun sg => String.eqb (sg_id sg.1) i) (w_groups w))
       ids.

Definition fake (X : Type) (c : call X) (w : World) : X * World :=
  match c in call X return X * World with
  | connect_to_region region_name => (Ok (Build_Connection <$> region_name), w)
  | get_only_instances _ filters =>
      (Ok (List.filter (fun i => forallb (matches i) filters) (w_instances w)), w)
  | get_all_security_groups _ group_names =>
      (Ok (List.filter (fun sg => bool_decide (sg_name sg ∈ group_names))
             (map fst (w_groups w))), w)
  | create_security_group _ name description vpc_id =>
      let sg := {| sg_id := "sg-" +:+ name; sg_name := name; sg_vpc_id := vpc_id |} in
      (Ok sg, set_groups (w_groups w ++ [(sg, [])]) w)
  | authorize group rule =>
      match add_rule (sg_id group) rule (w_groups w) with
      | Ok l => (Ok tt, set_groups l w)
      | Err e => (Err e, w)
      end
  | run_instances _ request =>
      if Req.max_count request <=? 0
      then (Err (EC2ResponseError "InvalidParameterValue"), w)
      else
        let n := Z.to_nat (Req.max_count request) in
        let new :=
          map (fresh_instance (memberships_of w (Req.security_group_ids request)))
              (seq (w_next w) n) in
        (Ok new,
         {| w_instances := w_instances w ++ new; w_groups := w_groups w;
            w_checkip := w_checkip w; w_next := (w_next w + n)%nat;
            w_clock := w_clock w; w_template := w_template w |})
  | create_tags _ resource_ids new_tags =>
      (Ok tt,
       set_instances
         (map (fun i => if bool_decide (instance_id i ∈ resource_ids)
                        then add_tags new_tags i else i)
              (w_instances w)) w)
  | instance_update i => change_instance (fun x => with_state (next_state (state x)) x) i w
  | instance_start i => change_instance (with_state "pending") i w
  | instance_stop i => change_instance (with_state "stopping") i w
  | instance_terminate i => change_instance (with_state "shutting-down") i w
  | urlopen_read _ =>
      match w_checkip w with
      | [] => (Err (Exception "URLError"), w)
      | [ip] => (Ok (ip +:+ nl), w)
      | ip :: later =>
          (Ok (ip +:+ nl),
           {| w_instances := w_instances w; w_groups := w_groups w; w_checkip := later;
              w_next := w_next w; w_clock := w_clock w; w_template := w_template w |})
      end
  | urlopen_json _ =>
      (Ok {| json_repr := "{'status': 'ALIVE', 'workers': [{}, {}], 'cores': 2, 'memory': 6144}" |},
       w)
  | ssh_connect _ _ _ _ => (Ok tt, w)
  | transport_getpeername hostname => (Ok hostname, w)
  | exec_command _ command =>
      match command with
      | sh_echo_java_home => (Ok (0, "/usr/lib/jvm/jre" +:+ nl, ""), w)
      | _ => (Ok (0, "", ""), w)
      end
  | ssh_close _ => (tt, w)
  | ssh_keygen => (Ok {| public := "ssh-rsa AAAA flintrock"; private := "PRIVATE KEY" |}, w)
  | read_file _ => (Ok (w_template w), w)
  | subprocess_call _ => (Ok 0, w)
  | time_sleep seconds =>
      (Ok tt,
       {| w_instances := w_instances w; w_groups := w_groups w; w_checkip := w_checkip w;
          w_next := w_next w; w_clock := w_clock w + seconds; w_template := w_template w |})
  | datetime_now => (w_clock w, w)
  | click_confirm _ => (Ok true, w)
  | print _ _ => (tt, w)
  | python_format_map _ _ => (Err (ValueError "Invalid format specifier"), w)
  | health_report _ =>
      (Ok (join nl ["Spark Health Report:"; "  * Master: ALIVE"; "  * Workers: 2";
                    "  * Cores: 2"; "  * Memory: 6.0 GB"]), w)
  | iter_order size => (seq 0 size, w)
  | loop_wait => (Ok tt, w)
  end.

(** An instance of a cluster as EC2 lists it. *)
Definition member (cluster i st : string) (role : option string) : Instance :=
  {| instance_id := i; state := st;
     public_dns_name :=
       if String.eqb st "running" then "ec2-" +:+ i +:+ ".compute-1.amazonaws.com" else "";
     ip_address := if String.eqb st "running" then "ip-" +:+ i else "";
     tags := match role with Some r => {[ "flintrock-role" := r ]} | None => ∅ end;
     groups := [ {| group_id := "sg-flintrock"; group_name := "flintrock" |};
                 {| group_id := "sg-flintrock-" +:+ cluster;
                    group_name := "flintrock-" +:+ cluster |} ] |}.

Definition world_of (l : list Instance) : World :=
  {| w_instances := l; w_groups := []; w_checkip := ["203.0.113.7"]; w_next := 0;
     w_clock := 0; w_template := "export SPARK_MASTER_IP={master_host}" |}.

(** * Properties *)

(** ** The aggregated state of a cluster *)

Section cluster_state.

Implicit Types (l : list Instance) (s : string).

Lemma states_singleton l s :
  l ≠ [] → Forall (fun i => state i = s) l →
  (list_to_set (map state l) : gset string) = {[ s ]}.
Proof.
  intros Hne Hall. apply set_eq. intros x.
  rewrite elem_of_list_to_set, list_elem_of_fmap, elem_of_singleton.
  split.
  - intros (i & -> & Hi). rewrite Forall_forall in Hall. by apply Hall.
  - intros ->. destruct l as [|i l]; [done|].
    exists i. split; [|left]. symmetry. by apply (Forall_inv Hall).
Qed.

Lemma get_cluster_state_ec2_common l s :
  l ≠ [] → Forall (fun i => state i = s) l → get_cluster_state_ec2 l = s.
Proof.
  intros Hne Hall. unfold get_cluster_state_ec2.
  rewrite (states_singleton l s Hne Hall), size_singleton, elements_singleton.
  by rewrite decide_True.
Qed.

Lemma get_cluster_state_ec2_mixed l i j :
  i ∈ l → j ∈ l → state i ≠ state j → get_cluster_state_ec2 l = "inconsistent".
Proof.
  intros Hi Hj Hij. unfold get_cluster_state_ec2.
  rewrite decide_False; [done|]. intros Hsize.
  apply size_1_elem_of in Hsize as [x Hx].
  assert (state i = x) as Ei.
  { apply (elem_of_singleton (C:=gset string)). rewrite <- Hx.
    apply elem_of_list_to_set, list_elem_of_fmap. eauto. }
  assert (state j = x) as Ej.
  { apply (elem_of_singleton (C:=gset string)). rewrite <- Hx.
    apply elem_of_list_to_set, list_elem_of_fmap. eauto. }
  congruence.
Qed.

Lemma common_or_mixed l :
  l ≠ [] →
  (∃ s, Forall (fun i => state i = s) l) ∨ (∃ i j, i ∈ l ∧ j ∈ l ∧ state i ≠ state j).
Proof.
  intros Hne. destruct l as [|a l]; [done|].
  destruct (decide (Forall (fun i => state i = state a) l)) as [Hall|Hnot].
  - left. exists (state a). by constructor.
  - right. apply not_Forall_Exists in Hnot; [|solve_decision].
    apply Exists_exists in Hnot as (j & Hj & Hne').
    exists j, a. split_and!; [by right | by left | done].
Qed.

(** C6.  For a non-empty list of member instances none of which reports the
    literal state [inconsistent] (EC2 has no such state), the aggregated
    state is [inconsistent] exactly when two members are in different
    states, and it is the common state when all members share one. *)
Theorem get_cluster_state_ec2_spec l :
  l ≠ [] →
  Forall (fun i => state i ≠ "inconsistent") l →
  (get_cluster_state_ec2 l = "inconsistent"
     ↔ ∃ i j, i ∈ l ∧ j ∈ l ∧ state i ≠ state j)
  ∧ (∀ s, Forall (fun i => state i = s) l → get_cluster_state_ec2 l = s).
Proof.
  intros Hne Hvalid. split; [split|].
  - intros Hinc. destruct (common_or_mixed l Hne) as [[s Hall]|Hmixed]; [|done].
    exfalso. rewrite (get_cluster_state_ec2_common l s Hne Hall) in Hinc. subst s.
    destruct l as [|a l]; [done|].
    apply Forall_inv in Hvalid. apply Forall_inv in Hall. simpl in *. congruence.
  - intros (i & j & Hi & Hj & Hij). exact (get_cluster_state_ec2_mixed l i j Hi Hj Hij).
  - intros s Hall. by apply get_cluster_state_ec2_common.
Qed.

End cluster_state.

Definition node (i st : string) : Instance :=
  {| instance_id := i; state := st; public_dns_name := i +:+ ".compute.amazonaws.com";
     ip_address := "10.0.0.1"; tags := ∅; groups := [] |}.

Lemma get_cluster_state_ec2_spec_witness :
  (get_cluster_state_ec2 [node "i-1" "running"; node "i-2" "stopped"] = "inconsistent"
     ↔ ∃ i j, i ∈ [node "i-1" "running"; node "i-2" "stopped"]
              ∧ j ∈ [node "i-1" "running"; node "i-2" "stopped"] ∧ state i ≠ state j)
  ∧ (∀ s, Forall (fun i => state i = s) [node "i-1" "running"; node "i-2" "stopped"] →
          get_cluster_state_ec2 [node "i-1" "running"; node "i-2" "stopped"] = s).
Proof.
  apply get_cluster_state_ec2_spec; [done|].
  repeat constructor; simpl; discriminate.
Defined.

(** ** Runs of composed programs *)

Section run_facts.

Context {W : Type}.
Variable handler : forall X : Type, call X -> W -> X * W.
Variable body_of : Job -> prog unit.
Variable schedule : list nat.

Local Abbreviation run := (run handler body_of schedule).

Lemma run_bind {A B : Type} (p : prog A) (f : A -> prog B) (w : W) :
  run (bind p f) w =
  let '(o, w1, tr1) := run p w in
  match o with
  | Returned a => let '(o2, w2, tr2) := run (f a) w1 in (o2, w2, tr1 ++ tr2)
  | Raised e => (Raised e, w1, tr1)
  | Spinning => (Spinning, w1, tr1)
  end.
Proof.
  revert w. induction p as [a|e| |X c k IH|m k IH|jobs k IH]; intros w; simpl.
  - by destruct (run (f a) w) as [[o2 w2] tr2].
  - done.
  - done.
  - destruct (handler X c w) as [x w1]. rewrite IH.
    destruct (run (k x) w1) as [[o w2] tr].
    destruct o; [|done..]. by destruct (run (f a) w2) as [[o2 w3] tr2].
  - rewrite IH. destruct (run k w) as [[o w1] tr].
    destruct o; [|done..]. by destruct (run (f a) w1) as [[o2 w2] tr2].
  - destruct (fork_interrupted handler body_of schedule jobs w) as [[[e w1] tr1]|].
    { rewrite IH. destruct (run (k (Err e)) w1) as [[o w2] tr].
      destruct o; [|done..].
      destruct (run (f a) w2) as [[o2 w3] tr2]. by rewrite <- app_assoc. }
    destruct (fork_join handler body_of schedule jobs w) as [[outs w1] tr1].
    destruct (all_results outs) as [results|]; [|done].
    rewrite IH. destruct (run (k (Ok results)) w1) as [[o w2] tr].
    destruct o; [|done..].
    destruct (run (f a) w2) as [[o2 w3] tr2]. by rewrite <- app_assoc.
Qed.

Lemma run_try_except {A : Type} (p : prog A) (h : exn -> option (prog A)) (w : W) :
  run (try_except p h) w =
  let '(o, w1, tr1) := run p w in
  match o with
  | Raised e =>
      match h e with
      | Some q => let '(o2, w2, tr2) := run q w1 in (o2, w2, tr1 ++ tr2)
      | None => (Raised e, w1, tr1)
      end
  | _ => (o, w1, tr1)
  end.
Proof.
  revert w. induction p as [a|e| |X c k IH|m k IH|jobs k IH]; intros w; simpl.
  - done.
  - destruct (h e) as [q|]; [|done]. by destruct (run q w) as [[o2 w2] tr2].
  - done.
  - destruct (handler X c w) as [x w1]. rewrite IH.
    destruct (run (k x) w1) as [[o w2] tr].
    destruct o as [a|e|]; [done| |done].
    destruct (h e) as [q|]; [|done]. by destruct (run q w2) as [[o2 w3] tr2].
  - rewrite IH. destruct (run k w) as [[o w1] tr].
    destruct o as [a|e|]; [done| |done].
    destruct (h e) as [q|]; [|done]. by destruct (run q w1) as [[o2 w2] tr2].
  - destruct (fork_interrupted handler body_of schedule jobs w) as [[[e0 w1] tr1]|].
    { rewrite IH. destruct (run (k (Err e0)) w1) as [[o w2] tr].
      destruct o as [a|e|]; [done| |done].
      destruct (h e) as [q|]; [|done].
      destruct (run q w2) as [[o2 w3] tr2]. by rewrite <- app_assoc. }
    destruct (fork_join handler body_of schedule jobs w) as [[outs w1] tr1].
    destruct (all_results outs) as [results|]; [|done].
    rewrite IH. destruct (run (k (Ok results)) w1) as [[o w2] tr].
    destruct o as [a|e|]; [done| |done].
    destruct (h e) as [q|]; [|done].
    destruct (run q w2) as [[o2 w3] tr2]. by rewrite <- app_assoc.
Qed.

Lemma run_try_finally {A : Type} (p : prog A) (q : prog unit) (w : W) :
  run (try_finally p q) w =
  let '(o, w1, tr1) := run p w in
  match o with
  | Returned a => let '(o2, w2, tr2) := run (q ;; Ret a) w1 in (o2, w2, tr1 ++ tr2)
  | Raised e => let '(o2, w2, tr2) := run (q ;; Raise e) w1 in (o2, w2, tr1 ++ tr2)
  | Spinning => (Spinning, w1, tr1)
  end.
Proof.
  revert w. induction p as [a|e| |X c k IH|m k IH|jobs k IH]; intros w; simpl.
  - by destruct (run (q ;; Ret a) w) as [[o2 w2] tr2].
  - by destruct (run (q ;; Raise e) w) as [[o2 w2] tr2].
  - done.
  - destruct (handler X c w) as [x w1]. rewrite IH.
    destruct (run (k x) w1) as [[o w2] tr].
    destruct o as [a|e|]; [| |done].
    + by destruct (run (q ;; Ret a) w2) as [[o2 w3] tr2].
    + by destruct (run (q ;; Raise e) w2) as [[o2 w3] tr2].
  - rewrite IH. destruct (run k w) as [[o w1] tr].
    destruct o as [a|e|]; [| |done].
    + by destruct (run (q ;; Ret a) w1) as [[o2 w2] tr2].
    + by destruct (run (q ;; Raise e) w1) as [[o2 w2] tr2].
  - destruct (fork_interrupted handler body_of schedule jobs w) as [[[e0 w1] tr1]|].
    { rewrite IH. destruct (run (k (Err e0)) w1) as [[o w2] tr].
      destruct o as [a|e|]; [| |done].
      + destruct (run (q ;; Ret a) w2) as [[o2 w3] tr2]. by rewrite <- app_assoc.
      + destruct (run (q ;; Raise e) w2) as [[o2 w3] tr2]. by rewrite <- app_assoc. }
    destruct (fork_join handler body_of schedule jobs w) as [[outs w1] tr1].
    destruct (all_results outs) as [results|]; [|done].
    rewrite IH. destruct (run (k (Ok results)) w1) as [[o w2] tr].
    destruct o as [a|e|]; [| |done].
    + destruct (run (q ;; Ret a) w2) as [[o2 w3] tr2]. by rewrite <- app_assoc.
    + destruct (run (q ;; Raise e) w2) as [[o2 w3] tr2]. by rewrite <- app_assoc.
Qed.

End run_facts.

(** ** Looking a cluster up *)

Definition has_role_tag (i : Instance) : Prop := is_Some (tags i !! "flintrock-role").

Definition is_master (i : Instance) : bool :=
  bool_decide (tags i !! "flintrock-role" = Some "master").

Definition not_master (i : Instance) : bool := negb (is_master i).

Lemma role_eq_master_tagged i :
  has_role_tag i → role_eq_master i = Ok (is_master i) ∧ role_ne_master i = Ok (not_master i).
Proof.
  intros [role Hrole]. unfold role_eq_master, role_ne_master, flintrock_role, not_master, is_master.
  rewrite Hrole. destruct (String.eqb_spec role "master") as [->|Hne].
  - by rewrite bool_decide_true.
  - rewrite bool_decide_false; [done|]. congruence.
Qed.

Lemma py_filter_tagged l :
  Forall has_role_tag l →
  py_filter role_eq_master l = Ok (List.filter is_master l)
  ∧ py_filter role_ne_master l = Ok (List.filter not_master l).
Proof.
  induction 1 as [|i l Hi _ [IH1 IH2]]; [done|]. simpl.
  destruct (role_eq_master_tagged i Hi) as [-> ->]. rewrite IH1, IH2.
  unfold not_master. by destruct (is_master i).
Qed.

Lemma py_filter_untagged l :
  Exists (fun i => ¬ has_role_tag i) l →
  py_filter role_eq_master l = Err (KeyError "flintrock-role").
Proof.
  induction 1 as [i l Hi|i l _ IH]; simpl.
  - unfold role_eq_master, flintrock_role.
    destruct (tags i !! "flintrock-role") as [role|] eqn:E; [|done].
    destruct Hi. by exists role.
  - unfold role_eq_master at 1. unfold flintrock_role.
    destruct (tags i !! "flintrock-role"); [|done]. by rewrite IH.
Qed.

Lemma item0_filter l :
  item0 (List.filter is_master l)
  = match List.find is_master l with
    | Some m => Ret m
    | None => Raise IndexError
    end.
Proof.
  induction l as [|i l IH]; [done|]. simpl. by destruct (is_master i).
Qed.

Arguments py_filter : simpl never.

Section lookup.

Context {W : Type}.
Variable handler : forall X : Type, call X -> W -> X * W.
Variable body_of : Job -> prog unit.
Variable schedule : list nat.
Variables (cluster_name region : string).

Local Abbreviation run := (run handler body_of schedule).
Local Abbreviation lookup_filter := [("instance.group-name", "flintrock-" +:+ cluster_name)].

(** The lookup when EC2 answers with the list [l]. *)
Lemma get_cluster_instances_ec2_run (w w1 w2 : W) connection l :
  handler _ (connect_to_region (Some region)) w = (Ok (Some connection), w1) →
  handler _ (get_only_instances connection lookup_filter) w1 = (Ok l, w2) →
  run (get_cluster_instances_ec2 cluster_name region) w =
  ( match l with
    | [] => Raised (ClusterNotFound ("No such cluster: " +:+ cluster_name))
    | _ :: _ =>
        match py_filter role_eq_master l with
        | Err e => Raised e
        | Ok masters =>
            match masters with
            | [] => Raised IndexError
            | master_instance :: _ =>
                match py_filter role_ne_master l with
                | Err e => Raised e
                | Ok slave_instances => Returned (master_instance, slave_instances)
                end
            end
        end
    end,
    w2,
    [Called (connect_to_region (Some region)) (Ok (Some connection));
     Called (get_only_instances connection lookup_filter) (Ok l)] ).
Proof.
  intros H1 H2. unfold get_cluster_instances_ec2, connect. simpl.
  rewrite H1. simpl. rewrite H2. destruct l as [|i l]; simpl; [done|].
  destruct (py_filter role_eq_master (i :: l)) as [masters|e]; simpl; [|done].
  destruct masters as [|m masters]; simpl; [done|].
  by destruct (py_filter role_ne_master (i :: l)).
Qed.

Lemma get_cluster_instances_ec2_tagged (w w1 w2 : W) connection l :
  handler _ (connect_to_region (Some region)) w = (Ok (Some connection), w1) →
  handler _ (get_only_instances connection lookup_filter) w1 = (Ok l, w2) →
  l ≠ [] → Forall has_role_tag l →
  match List.find is_master l with
  | Some m =>
      (run (get_cluster_instances_ec2 cluster_name region) w).1.1
      = Returned (m, List.filter not_master l)
  | None => (run (get_cluster_instances_ec2 cluster_name region) w).1.1 = Raised IndexError
  end.
Proof.
  intros H1 H2 Hne Hall.
  rewrite (get_cluster_instances_ec2_run w w1 w2 connection l H1 H2). simpl.
  destruct (py_filter_tagged l Hall) as [-> ->].
  pose proof (item0_filter l) as Hitem.
  destruct l as [|i l]; [done|].
  destruct (List.filter is_master (i :: l)) as [|m ms];
    destruct (List.find is_master (i :: l)); simpl in Hitem; congruence.
Qed.

(** C10, amended.  When EC2 answers the lookup with a non-empty list: if
    every instance carries a [flintrock-role] tag, the lookup returns the
    first master-tagged instance and exactly the instances whose role is
    not [master], and fails on the unguarded index when no instance is
    master-tagged; if some instance carries no [flintrock-role] tag at all,
    the lookup fails with [KeyError].  So it returns exactly when every
    instance is tagged and one of them is a master. *)
Theorem get_cluster_instances_ec2_spec (w w1 w2 : W) connection l :
  handler _ (connect_to_region (Some region)) w = (Ok (Some connection), w1) →
  handler _ (get_only_instances connection lookup_filter) w1 = (Ok l, w2) →
  l ≠ [] →
  let o := (run (get_cluster_instances_ec2 cluster_name region) w).1.1 in
  (Forall has_role_tag l →
     match List.find is_master l with
     | Some m => o = Returned (m, List.filter not_master l)
     | None => o = Raised IndexError
     end)
  ∧ (Exists (fun i => ¬ has_role_tag i) l → o = Raised (KeyError "flintrock-role"))
  ∧ ((∃ r, o = Returned r) ↔ Forall has_role_tag l ∧ ∃ m, m ∈ l ∧ is_master m = true).
Proof.
  intros H1 H2 Hne o.
  assert (Forall has_role_tag l →
          match List.find is_master l with
          | Some m => o = Returned (m, List.filter not_master l)
          | None => o = Raised IndexError
          end) as Htagged.
  { intros Hall. unfold o. by eapply get_cluster_instances_ec2_tagged. }
  assert (Exists (fun i => ¬ has_role_tag i) l → o = Raised (KeyError "flintrock-role"))
    as Huntagged.
  { intros Hex. unfold o.
    rewrite (get_cluster_instances_ec2_run w w1 w2 connection l H1 H2). simpl.
    rewrite (py_filter_untagged l Hex). by destruct l. }
  split_and!; [done..|]. split.
  - intros [r Hr].
    destruct (decide (Forall has_role_tag l)) as [Hall|Hnot].
    + split; [done|]. specialize (Htagged Hall).
      destruct (List.find is_master l) as [m|] eqn:Hfind; [|congruence].
      apply find_some in Hfind as [Hin Hm]. exists m. by rewrite list_elem_of_In.
    + apply not_Forall_Exists in Hnot; [|intros i; unfold has_role_tag; apply _].
      specialize (Huntagged Hnot). congruence.
  - intros (Hall & m & Hin & Hm). specialize (Htagged Hall).
    destruct (List.find is_master l) as [m'|] eqn:Hfind; [eauto|].
    exfalso. apply list_elem_of_In in Hin.
    pose proof (find_none _ _ Hfind m Hin). congruence.
Qed.

End lookup.

Definition two_masters : list Instance :=
  [member "c" "i-0" "running" (Some "slave");
   member "c" "i-1" "running" (Some "master");
   member "c" "i-2" "running" (Some "master")].

Lemma get_cluster_instances_ec2_spec_witness :
  let o := (run fake (job_prog 0) [] (get_cluster_instances_ec2 "c" "us-east-1")
              (world_of two_masters)).1.1 in
  (Forall has_role_tag two_masters →
     match List.find is_master two_masters with
     | Some m => o = Returned (m, List.filter not_master two_masters)
     | None => o = Raised IndexError
     end)
  ∧ (Exists (fun i => ¬ has_role_tag i) two_masters → o = Raised (KeyError "flintrock-role"))
  ∧ ((∃ r, o = Returned r)
     ↔ Forall has_role_tag two_masters ∧ ∃ m, m ∈ two_masters ∧ is_master m = true).
Proof.
  apply (get_cluster_instances_ec2_spec fake (job_prog 0) [] "c" "us-east-1"
           (world_of two_masters) (world_of two_masters) (world_of two_masters)
           {| region_of := "us-east-1" |});
    [reflexivity | reflexivity | discriminate].
Defined.

(** C10 as stated fails where a master is present next to an instance
    without the tag: the lookup does not return the master and the other
    instance, it raises [KeyError]. *)
Lemma get_cluster_instances_ec2_untagged_member :
  let l := [member "c" "i-0" "running" (Some "master"); member "c" "i-1" "pending" None] in
  l ≠ []
  ∧ (∃ m, m ∈ l ∧ tags m !! "flintrock-role" = Some "master")
  ∧ (run fake (job_prog 0) [] (get_cluster_instances_ec2 "c" "us-east-1") (world_of l)).1.1
    = Raised (KeyError "flintrock-role").
Proof.
  split_and!; [done| |reflexivity].
  eexists. split; [left|reflexivity].
Qed.

(** ** Waiting for SSH *)

(** The failures of [client.connect] after which the loop sleeps and tries
    again: [socket.timeout], [socket.error] with [errno] 61 (the value the
    source tests for a refused connection), and
    [AuthenticationException]. *)
Definition retried (e : exn) : bool :=
  match e with
  | socket_timeout | AuthenticationException => true
  | socket_error errno => errno =? 61
  | _ => false
  end.

Section ssh.

Variables (user host identity_file : string).

Local Abbreviation attempt := (ssh_connect user host identity_file 3).

(** The runs of [get_ssh_client] with a given fuel: any number of failed
    attempts, each followed by a sleep of 5 seconds, and then one of: the
    fuel is used up and the loop is still running; an attempt succeeds; an
    attempt fails with a failure that is not retried; a sleep is itself
    interrupted. *)
Inductive ssh_run (print_status : bool) : nat -> outcome SSHClient -> list event -> Prop :=
| ssh_still_trying : ssh_run print_status 0 Spinning []
| ssh_online fuel :
    ssh_run print_status (S fuel) (Returned host)
      (Called attempt (Ok tt)
         :: if print_status
            then [Called (print stdout ("[" +:+ host +:+ "] SSH online.")) tt]
            else [])
| ssh_fatal fuel e :
    retried e = false →
    ssh_run print_status (S fuel) (Raised e) [Called attempt (Err e)]
| ssh_interrupted fuel e e' :
    retried e = true →
    ssh_run print_status (S fuel) (Raised e') [Called attempt (Err e); Called (time_sleep 5) (Err e')]
| ssh_retry fuel e o tr :
    retried e = true →
    ssh_run print_status fuel o tr →
    ssh_run print_status (S fuel) o
      (Called attempt (Err e) :: Called (time_sleep 5) (Ok tt) :: tr).

(** The attempts of a trace that failed, and the sleeps that were cut
    short. *)
Definition failed_attempts (tr : list event) : list exn :=
  omap (fun ev =>
          match ev with
          | Called (ssh_connect _ _ _ _) (Err e) => Some e
          | _ => None
          end) tr.

Definition interrupted_sleeps (tr : list event) : list exn :=
  omap (fun ev =>
          match ev with
          | Called (time_sleep _) (Err e) => Some e
          | _ => None
          end) tr.

Definition slept (tr : list event) : list Z :=
  omap (fun ev =>
          match ev with
          | Called (time_sleep seconds) _ => Some seconds
          | _ => None
          end) tr.

Definition succeeded (tr : list event) : bool :=
  existsb (fun ev =>
             match ev with
             | Called (ssh_connect _ _ _ _) (Ok _) => true
             | _ => false
             end) tr.

Lemma ssh_run_raised print_status fuel o tr e :
  ssh_run print_status fuel o tr → o = Raised e →
  (retried e = false ∧ last (failed_attempts tr) = Some e ∧ interrupted_sleeps tr = [])
  ∨ interrupted_sleeps tr = [e].
Proof.
  induction 1 as [|fuel|fuel e0 He0|fuel e0 e' He0|fuel e0 o tr He0 Hrun IH]; intros Ho.
  - done.
  - done.
  - injection Ho as ->. by left.
  - injection Ho as ->. by right.
  - destruct (IH Ho) as [(Hr & Hlast & Hint)|Hint]; [left|right]; simpl.
    + split_and!; [done| |done].
      destruct (failed_attempts tr); [done|]. by rewrite last_cons, Hlast.
    + done.
Qed.

Lemma ssh_run_backoff print_status fuel o tr :
  ssh_run print_status fuel o tr →
  Forall (fun seconds => seconds = 5) (slept tr)
  ∧ (interrupted_sleeps tr = [] → succeeded tr = false →
     Forall (fun e => retried e = true) (failed_attempts tr) →
     o = Spinning ∧ length (failed_attempts tr) = fuel
     ∧ length (slept tr) = fuel).
Proof.
  induction 1 as [|fuel|fuel e0 He0|fuel e0 e' He0|fuel e0 o tr He0 Hrun [IH1 IH2]].
  - done.
  - split; [by destruct print_status|]. intros _ Hs. by destruct print_status.
  - split; [done|]. intros _ _ Hall. simpl in Hall. apply Forall_inv in Hall. congruence.
  - split; [by repeat constructor|]. done.
  - split; [by constructor|]. simpl. intros Hint Hs Hall.
    apply Forall_cons in Hall as [_ Hall].
    destruct (IH2 Hint Hs Hall) as (-> & <- & <-). done.
Qed.

Context {W : Type}.
Variable handler : forall X : Type, call X -> W -> X * W.
Variable body_of : Job -> prog unit.
Variable schedule : list nat.

Local Abbreviation run := (run handler body_of schedule).

Lemma get_ssh_client_run print_status fuel (w : W) :
  ssh_run print_status fuel (run (get_ssh_client fuel user host identity_file print_status) w).1.1
    (run (get_ssh_client fuel user host identity_file print_status) w).2.
Proof.
  revert w. induction fuel as [|fuel IH]; intros w; simpl; [constructor|].
  destruct (handler _ attempt w) as [[[]|e] w1] eqn:Hattempt.
  - destruct print_status; simpl.
    + destruct (handler _ (print stdout ("[" +:+ host +:+ "] SSH online.")) w1) as [[] w2].
      simpl. apply (ssh_online true fuel).
    + apply (ssh_online false fuel).
  - assert (retried e = true →
            ssh_run print_status (S fuel)
              (run (perform (time_sleep 5);;
                    get_ssh_client fuel user host identity_file print_status) w1).1.1
              (Called attempt (Err e)
                 :: (run (perform (time_sleep 5);;
                          get_ssh_client fuel user host identity_file print_status) w1).2))
      as Hretry.
    { intros He. simpl. destruct (handler _ (time_sleep 5) w1) as [[[]|e'] w2]; simpl.
      - specialize (IH w2).
        destruct (run (get_ssh_client fuel user host identity_file print_status) w2)
          as [[o w3] tr].
        by apply ssh_retry.
      - by apply ssh_interrupted. }
    destruct e; simpl;
      try (apply ssh_fatal; reflexivity);
      try (specialize (Hretry eq_refl); simpl in Hretry;
           destruct (handler _ (time_sleep 5) w1) as [[[]|e'] w2]; simpl in *;
           [destruct (run (get_ssh_client fuel user host identity_file print_status) w2)
              as [[o w3] tr]|]; exact Hretry).
    destruct (errno =? 61) eqn:Herrno; simpl.
    + specialize (Hretry Herrno). simpl in Hretry.
      destruct (handler _ (time_sleep 5) w1) as [[[]|e'] w2]; simpl in *;
        [destruct (run (get_ssh_client fuel user host identity_file print_status) w2)
           as [[o w3] tr]|]; exact Hretry.
    + by apply ssh_fatal.
Qed.

(** The connect loop as the source has it.  Whatever the outside world
    does, a run of the loop is a sequence of failed attempts, each one a
    timeout, a [socket.error] with [errno] 61 or an authentication failure
    and each followed by a sleep of 5 seconds, that ends only when an
    attempt succeeds, when an attempt fails in another way (that failure
    is raised), or when a sleep is itself interrupted.  In particular it
    raises no failure of these three kinds, every back-off is 5 seconds,
    and as long as the attempts fail in those three ways the loop is still
    running, however long one waits. *)
Theorem get_ssh_client_retries print_status fuel (w : W) :
  let o := (run (get_ssh_client fuel user host identity_file print_status) w).1.1 in
  let tr := (run (get_ssh_client fuel user host identity_file print_status) w).2 in
  ssh_run print_status fuel o tr
  ∧ (∀ e, o = Raised e →
       (retried e = false ∧ last (failed_attempts tr) = Some e ∧ interrupted_sleeps tr = [])
       ∨ interrupted_sleeps tr = [e])
  ∧ Forall (fun seconds => seconds = 5) (slept tr)
  ∧ (interrupted_sleeps tr = [] → succeeded tr = false →
     Forall (fun e => retried e = true) (failed_attempts tr) →
     o = Spinning ∧ length (failed_attempts tr) = fuel ∧ length (slept tr) = fuel).
Proof.
  intros o tr. pose proof (get_ssh_client_run print_status fuel w) as Hrun. fold o tr in Hrun.
  split_and!.
  - done.
  - intros e He. by eapply ssh_run_raised.
  - by apply (ssh_run_backoff print_status fuel o tr).
  - by apply (ssh_run_backoff print_status fuel o tr).
Qed.

(** C9.  The loop does not retry every refused connection.  The source
    recognises a refused connection by the number 61, which is
    [ECONNREFUSED] on macOS and BSD; on Linux a refused connection is a
    [socket.error] with [errno] 111.  An attempt that fails with a
    [socket.error] whose [errno] is not 61 ends the loop at once: the
    error is raised, with no back-off and no further attempt. *)
Theorem get_ssh_client_refused print_status fuel errno (w : W) :
  errno ≠ 61 →
  (handler _ attempt w).1 = Err (socket_error errno) →
  run (get_ssh_client (S fuel) user host identity_file print_status) w
  = (Raised (socket_error errno), (handler _ attempt w).2,
     [Called attempt (Err (socket_error errno))]).
Proof.
  intros Herrno Hattempt. cbn [get_ssh_client run bind ask].
  destruct (handler _ attempt w) as [answer w1]. cbn [fst snd] in *. subst answer.
  by destruct (Z.eqb_spec errno 61).
Qed.

End ssh.

(** A node that answers the first connection attempts as a script says
    and accepts the following ones. *)
Definition scripted (X : Type) (c : call X) (s : list (result unit) * World)
  : X * (list (result unit) * World) :=
  match c in call X return X * (list (result unit) * World) with
  | ssh_connect _ _ _ _ =>
      match s.1 with
      | r :: rest => (r, (rest, s.2))
      | [] => (Ok tt, s)
      end
  | c' => let '(x, w) := fake _ c' s.2 in (x, (s.1, w))
  end.

Example get_ssh_client_refused_twice :
  (run scripted (job_prog 0) []
     (get_ssh_client 10 "ec2-user" "10.0.0.1" "id.pem" false)
     ([Err (socket_error 61); Err socket_timeout], world_of [])).1.1
  = Returned "10.0.0.1".
Proof. reflexivity. Qed.

Example get_ssh_client_errno_111 :
  (run scripted (job_prog 0) []
     (get_ssh_client 10 "ec2-user" "10.0.0.1" "id.pem" false)
     ([Err (socket_error 111)], world_of [])).1.1
  = Raised (socket_error 111).
Proof. reflexivity. Qed.

(** A node on which nothing listens yet, reached from Linux: the first
    attempt is refused with [errno] 111 and the loop gives up, though the
    second attempt would have been accepted. *)
Lemma get_ssh_client_refused_witness :
  111 ≠ 61
  ∧ run scripted (job_prog 0) []
      (get_ssh_client 10 "ec2-user" "10.0.0.1" "id.pem" true)
      ([Err (socket_error 111)], world_of [])
    = (Raised (socket_error 111), ([], world_of []),
       [Called (ssh_connect "ec2-user" "10.0.0.1" "id.pem" 3) (Err (socket_error 111))]).
Proof.
  split; [lia|].
  apply (get_ssh_client_refused "ec2-user" "10.0.0.1" "id.pem" scripted (job_prog 0) []
           true 9 111 ([Err (socket_error 111)], world_of [])); [lia|reflexivity].
Defined.

(** ** Rendering a template *)

Lemma append_cons (x : ascii) (a b : string) : String x a +:+ b = String x (a +:+ b).
Proof. reflexivity. Qed.

Lemma chars_app s1 s2 : chars (s1 +:+ s2) = chars s1 ++ chars s2.
Proof.
  unfold chars. induction s1 as [|c s1 IH]; [done|].
  rewrite append_cons. simpl. by rewrite IH.
Qed.

Lemma text_chars s : text (chars s) = s.
Proof. apply string_of_list_ascii_of_string. Qed.

Lemma append_assoc (a b c : string) : (a +:+ b) +:+ c = a +:+ (b +:+ c).
Proof. induction a as [|x a IH]; [done|]. rewrite !append_cons. by rewrite IH. Qed.

Lemma length_append (a b : string) :
  String.length (a +:+ b) = (String.length a + String.length b)%nat.
Proof. induction a as [|x a IH]; [done|]. rewrite append_cons. simpl. by rewrite IH. Qed.

Lemma append_nil_r (a : string) : a +:+ "" = a.
Proof. induction a as [|x a IH]; [done|]. rewrite append_cons. by rewrite IH. Qed.

(** A template written as a sequence of pieces. *)
Inductive piece :=
| Text (s : string)
| OpenBrace
| CloseBrace
| Placeholder (key : string).

Definition is_brace (c : ascii) : bool := Ascii.eqb c "{"%char || Ascii.eqb c "}"%char.

(** The characters a plain placeholder name is made of: anything but the
    ones that end the name or start a lookup, a conversion or a format
    specification. *)
Definition name_char (c : ascii) : bool :=
  negb (Ascii.eqb c "{"%char || Ascii.eqb c "["%char || Ascii.eqb c "}"%char
        || Ascii.eqb c ":"%char || Ascii.eqb c "!"%char || Ascii.eqb c "."%char).

(** Text without braces; a placeholder name of name characters that does
    not start with a decimal digit (and so is not empty): a name that
    starts with digits is read as a number as far as the digits go. *)
Definition plain_text (s : string) : Prop := Forall (fun c => is_brace c = false) (chars s).

Definition plain_key (key : string) : Prop :=
  Forall (fun c => name_char c = true) (chars key)
  ∧ match chars key with
    | c :: _ => is_digit c = false
    | [] => False
    end.

Definition plain (p : piece) : Prop :=
  match p with
  | Text s => plain_text s
  | OpenBrace | CloseBrace => True
  | Placeholder key => plain_key key
  end.

(** How a piece is written in the template. *)
Definition written (p : piece) : string :=
  match p with
  | Text s => s
  | OpenBrace => "{{"
  | CloseBrace => "}}"
  | Placeholder key => "{" +:+ key +:+ "}"
  end.

(** What the specification says a piece becomes. *)
Definition rendered (mapping : gmap string pyval) (p : piece) : string :=
  match p with
  | Text s => s
  | OpenBrace => "{"
  | CloseBrace => "}"
  | Placeholder key =>
      match mapping !! key with
      | Some v => str v
      | None => "{" +:+ key +:+ "}"
      end
  end.

Definition concat_strings (l : list string) : string := foldr String.append "" l.

Section format.

Variable mapping : gmap string pyval.

Lemma scan_text out cs rest :
  Forall (fun c => is_brace c = false) cs →
  format_scan mapping Literal out (cs ++ rest)
  = format_scan mapping Literal (out +:+ text cs) rest.
Proof.
  intros Hcs. revert out. induction Hcs as [|c cs Hc _ IH]; intros out; simpl.
  - by rewrite append_nil_r.
  - unfold is_brace in Hc. apply orb_false_elim in Hc as [-> ->].
    rewrite IH. by rewrite append_assoc.
Qed.

Lemma name_char_tests c :
  name_char c = true →
  Ascii.eqb c "{"%char = false ∧ Ascii.eqb c "["%char = false
  ∧ Ascii.eqb c "}"%char = false ∧ Ascii.eqb c ":"%char = false
  ∧ Ascii.eqb c "!"%char = false ∧ Ascii.eqb c "."%char = false.
Proof.
  unfold name_char. intros H. apply negb_true_iff in H.
  repeat (apply orb_false_elim in H as [H ?]). done.
Qed.

Lemma scan_name rname out cs rest :
  Forall (fun c => name_char c = true) cs →
  format_scan mapping (FieldName rname false) out (cs ++ "}"%char :: rest)
  = match render_field mapping (rev rname ++ cs) None [] with
    | Formatted s => format_scan mapping Literal (out +:+ s) rest
    | other => other
    end.
Proof.
  intros Hcs. revert rname. induction Hcs as [|c cs Hc _ IH]; intros rname.
  - simpl. by rewrite app_nil_r.
  - destruct (name_char_tests c Hc) as (H1 & H2 & H3 & H4 & H5 & _).
    simpl. rewrite H1, H2, H3, H4, H5. rewrite IH. simpl. by rewrite <- app_assoc.
Qed.

Lemma first_part_plain cs :
  Forall (fun c => name_char c = true) cs → first_part cs = (cs, []).
Proof.
  induction 1 as [|c cs Hc _ IH]; simpl; [done|].
  destruct (name_char_tests c Hc) as (_ & H2 & _ & _ & _ & H6).
  by rewrite H6, H2, IH.
Qed.

Lemma render_field_plain key :
  plain_key key →
  render_field mapping (chars key) None []
  = Formatted (rendered mapping (Placeholder key)).
Proof.
  intros [Hname Hdigit]. unfold render_field.
  rewrite (first_part_plain _ Hname).
  destruct (chars key) as [|c cs] eqn:Hkey; [done|].
  unfold get_integer. cbn [get_integer_from]. rewrite Hdigit, <- Hkey, text_chars.
  unfold TemplateDict_getitem. simpl. by destruct (mapping !! key).
Qed.

Lemma scan_piece out p rest :
  plain p →
  format_scan mapping Literal out (chars (written p) ++ rest)
  = format_scan mapping Literal (out +:+ rendered mapping p) rest.
Proof.
  destruct p as [s| | |key]; simpl; intros Hp.
  - rewrite (scan_text out (chars s) rest Hp). by rewrite text_chars.
  - done.
  - done.
  - pose proof (render_field_plain key Hp) as Hfield.
    destruct Hp as [Hname Hdigit].
    rewrite !chars_app. simpl. rewrite <- app_assoc. simpl.
    destruct (chars key) as [|c cs] eqn:Hkey; [done|].
    apply Forall_cons in Hname as [Hc Hcs].
    destruct (name_char_tests c Hc) as (H1 & H2 & H3 & H4 & H5 & _).
    simpl. rewrite H1, H2, H3, H4, H5.
    rewrite (scan_name [c] out cs rest Hcs). simpl rev. simpl app.
    by rewrite Hfield.
Qed.

Lemma scan_pieces out ps :
  Forall plain ps →
  format_scan mapping Literal out (chars (concat_strings (map written ps)))
  = Formatted (out +:+ concat_strings (map (rendered mapping) ps)).
Proof.
  intros Hps. revert out. induction Hps as [|p ps Hp _ IH]; intros out; simpl.
  - by rewrite append_nil_r.
  - rewrite chars_app, (scan_piece out p _ Hp), IH. by rewrite append_assoc.
Qed.

(** C8, amended.  A template made of text without braces, doubled braces
    and plain placeholders [{key}] (the name not empty, not starting with
    a decimal digit, and free of the characters that start an attribute or
    index lookup, a conversion or a format specification) renders in one
    pass: text stays,
    a doubled brace becomes a single one, a placeholder whose name is
    bound becomes the [str] of the value, and a placeholder whose name is
    not bound stays [{key}].  What a substitution brings in is not scanned
    again. *)
Theorem format_map_plain ps :
  Forall plain ps →
  format_map (concat_strings (map written ps)) mapping
  = Formatted (concat_strings (map (rendered mapping) ps)).
Proof.
  intros Hps. unfold format_map. by rewrite (scan_pieces "" ps Hps).
Qed.

End format.

Definition bindings : gmap string pyval :=
  {[ "master_host" := py_str "ec2-1.compute-1.amazonaws.com";
     "spark_master_opts" := py_str "{name}";
     "name" := py_str "c" ]}.

Definition spark_env : list piece :=
  [Text "export SPARK_MASTER_IP="; Placeholder "master_host"; Text " OPTS=";
   Placeholder "spark_master_opts"; Text " HOME=$"; Placeholder "HOME"; Text " ";
   OpenBrace; Text "x"; CloseBrace].

Lemma format_map_plain_witness :
  Forall plain spark_env
  ∧ format_map (concat_strings (map written spark_env)) bindings
    = Formatted "export SPARK_MASTER_IP=ec2-1.compute-1.amazonaws.com OPTS={name} HOME=${HOME} {x}".
Proof.
  assert (Forall plain spark_env) as H.
  { repeat constructor; by vm_compute. }
  split; [exact H|]. exact (format_map_plain bindings spark_env H).
Defined.

(** C8 as stated fails on placeholders with unbound names that are not
    left as they are written: a placeholder with a conversion loses it, an
    empty placeholder makes the rendering raise, and so does a name that
    starts with more digits than a machine integer holds. *)
Lemma format_map_not_verbatim :
  format_map "{HOME!s}" ∅ = Formatted "{HOME}"
  ∧ format_map "${}" ∅ = FormatRaises (ValueError "Format string contains positional fields")
  ∧ format_map "{99999999999999999999x}" ∅
    = FormatRaises (ValueError "Too many decimal digits in format string")
  ∧ bindings !! "HOME" = None.
Proof. split_and!; by vm_compute. Qed.

Example format_map_field_names :
  format_map "{9223372036854775807x}" ∅ = Formatted "{9223372036854775807x}"
  ∧ format_map "{9223372036854775808x}" ∅
    = FormatRaises (ValueError "Too many decimal digits in format string")
  ∧ format_map "{12}" ∅ = FormatRaises (ValueError "Format string contains positional fields")
  ∧ format_map "{HOME!x}" ∅ = FormatRaises (ValueError "Unknown conversion specifier x")
  ∧ format_map "{HOME! }" ∅ = FormatRaises (ValueError "Unknown conversion specifier \x20").
Proof. split_and!; by vm_compute. Qed.

(** ** Describing clusters *)

(** The lines [print_cluster_info_ec2] prints for a cluster. *)
Definition nodes_block (cluster_instances : list Instance) : string :=
  join (nl +:+ "    - ") ("  nodes:" :: map public_dns_name cluster_instances).

Definition cluster_lines (cluster_name : string) (cluster_instances : list Instance)
  : list string :=
  [cluster_name +:+ ":";
   "  state: " +:+ get_cluster_state_ec2 cluster_instances;
   "  node-count: " +:+ str_nat (length cluster_instances)]
  ++ (if String.eqb (get_cluster_state_ec2 cluster_instances) "running"
      then [nodes_block cluster_instances]
      else []).

(** The clusters [describe_ec2] finds among the instances EC2 lists, and
    the members it files under each. *)
Definition listed_clusters (cluster_instances : list Instance) : list string :=
  sorted
    (map (fun n => drop_prefix n "flintrock-")
       (elements
          (list_to_set
             (map group_name
                (List.filter (fun g => startswith (group_name g) "flintrock-")
                   (concat (map groups cluster_instances)))) : gset string))).

Definition members_of (cluster_name : string) (cluster_instances : list Instance)
  : list Instance :=
  List.filter
    (fun instance => bool_decide ("flintrock-" +:+ cluster_name ∈ group_names instance))
    cluster_instances.

Lemma printed_app file tr1 tr2 :
  printed file (tr1 ++ tr2) = printed file tr1 ++ printed file tr2.
Proof. unfold printed. apply omap_app. Qed.

Lemma length_insert_sorted x l : length (insert_sorted x l) = S (length l).
Proof.
  induction l as [|y l IH]; [done|]. simpl.
  destruct (String.leb x y); simpl; by rewrite ?IH.
Qed.

Lemma length_sorted l : length (sorted l) = length l.
Proof.
  induction l as [|x l IH]; [done|]. simpl.
  by rewrite length_insert_sorted, IH.
Qed.

Lemma for_each_cons {A : Type} (x : A) (xs : list A) (body : A -> prog unit) :
  for_each (x :: xs) body = (body x ;; for_each xs body).
Proof. reflexivity. Qed.

Section describe.

Context {W : Type}.
Variable handler : forall X : Type, call X -> W -> X * W.
Variable body_of : Job -> prog unit.
Variable schedule : list nat.

Local Abbreviation run := (run handler body_of schedule).

Lemma print_cluster_info_ec2_run cluster_name cluster_instances (w : W) :
  (run (print_cluster_info_ec2 cluster_name cluster_instances) w).1.1 = Returned tt
  ∧ printed stdout (run (print_cluster_info_ec2 cluster_name cluster_instances) w).2
    = cluster_lines cluster_name cluster_instances.
Proof.
  unfold print_cluster_info_ec2, cluster_lines, nodes_block. simpl.
  destruct (handler _ (print stdout (cluster_name +:+ ":")) w) as [[] w1]. simpl.
  destruct (handler _ (print stdout
              ("  state: " +:+ get_cluster_state_ec2 cluster_instances)) w1) as [[] w2].
  simpl.
  destruct (handler _ (print stdout
              ("  node-count: " +:+ str_nat (length cluster_instances))) w2) as [[] w3].
  simpl.
  destruct (String.eqb (get_cluster_state_ec2 cluster_instances) "running"); simpl; [|done].
  by destruct (handler _ (print stdout _) w3) as [[] w4].
Qed.

Lemma describe_loop_run names cluster_instances (w : W) :
  (run (for_each names
          (fun n => print_cluster_info_ec2 n (members_of n cluster_instances))) w).1.1
  = Returned tt
  ∧ printed stdout
      (run (for_each names
              (fun n => print_cluster_info_ec2 n (members_of n cluster_instances))) w).2
    = concat (map (fun n => cluster_lines n (members_of n cluster_instances)) names).
Proof.
  revert w. induction names as [|n names IH]; intros w; [done|].
  rewrite for_each_cons, run_bind.
  destruct (print_cluster_info_ec2_run n (members_of n cluster_instances) w) as [Ho Hp].
  destruct (run (print_cluster_info_ec2 n (members_of n cluster_instances)) w)
    as [[o w1] tr1].
  simpl in Ho, Hp. subst o.
  destruct (IH w1) as [Ho2 Hp2].
  destruct (run (for_each names _) w1) as [[o2 w2] tr2].
  simpl in *. by rewrite printed_app, Hp, Hp2.
Qed.

(** C7, amended.  For every cluster it lists, [describe_ec2] prints the
    cluster name, the aggregated state and the node count; it prints the
    node hostnames when, and only when, the aggregated state is
    [running]. *)
Theorem describe_ec2_prints cluster_name master_hostname_only region
    (w w1 w2 : W) connection filters cluster_instances :
  handler _ (connect_to_region region) w = (Ok (Some connection), w1) →
  handler _ (get_only_instances connection filters) w1 = (Ok cluster_instances, w2) →
  filters = [("instance.group-name",
              match cluster_name with
              | Some n => if String.eqb n "" then "flintrock" else "flintrock-" +:+ n
              | None => "flintrock"
              end)] →
  let names := listed_clusters cluster_instances in
  (run (describe_ec2 cluster_name master_hostname_only region) w).1.1 = Returned tt
  ∧ printed stdout (run (describe_ec2 cluster_name master_hostname_only region) w).2
    = (str_nat (length names) +:+ " cluster"
         +:+ (if decide (length names = 1%nat) then "" else "s") +:+ " found.")
      :: match names with
         | [] => []
         | _ :: _ =>
             "---" :: concat (map (fun n => cluster_lines n (members_of n cluster_instances))
                                names)
         end
  ∧ ∀ n, n ∈ names →
      let members := members_of n cluster_instances in
      cluster_lines n members
      = [n +:+ ":";
         "  state: " +:+ get_cluster_state_ec2 members;
         "  node-count: " +:+ str_nat (length members)]
        ++ (if String.eqb (get_cluster_state_ec2 members) "running"
            then [join (nl +:+ "    - ") ("  nodes:" :: map public_dns_name members)]
            else []).
Proof.
  intros H1 H2 -> names. unfold describe_ec2, connect. simpl.
  rewrite H1. simpl. rewrite H2. simpl.
  fold (listed_clusters cluster_instances). fold names.
  set (unsorted := map (fun n => drop_prefix n "flintrock-") _).
  assert (length unsorted = length names) as Hlen.
  { unfold names, listed_clusters. by rewrite length_sorted. }
  rewrite Hlen.
  destruct (handler _ (print stdout _) w2) as [[] w3]. simpl.
  assert (∀ w4 : W,
            (run (for_each names
                    (fun cluster_name0 : string =>
                       print_cluster_info_ec2 cluster_name0
                         (List.filter
                            (fun instance : Instance =>
                               bool_decide
                                 ("flintrock-" +:+ cluster_name0 ∈ group_names instance))
                            cluster_instances))) w4).1.1 = Returned tt
            ∧ printed stdout
                (run (for_each names
                        (fun cluster_name0 : string =>
                           print_cluster_info_ec2 cluster_name0
                             (List.filter
                                (fun instance : Instance =>
                                   bool_decide
                                     ("flintrock-" +:+ cluster_name0 ∈ group_names instance))
                                cluster_instances))) w4).2
              = concat (map (fun n => cluster_lines n (members_of n cluster_instances))
                          names)) as Hloop.
  { intros w4. apply describe_loop_run. }
  split_and!.
  - destruct unsorted as [|u us] eqn:Hu; [done|]. simpl.
    destruct (handler _ (print stdout "---") w3) as [[] w4]. simpl.
    destruct (Hloop w4) as [Ho _].
    destruct (run (for_each _ _) w4) as [[o w5] tr]. simpl in *. by subst o.
  - destruct unsorted as [|u us] eqn:Hu.
    + destruct names; [done|]. simpl in Hlen. lia.
    + simpl.
      destruct (handler _ (print stdout "---") w3) as [[] w4]. simpl.
      destruct (Hloop w4) as [Ho Hp].
      destruct (run (for_each _ _) w4) as [[o w5] tr]. simpl in *. subst o.
      f_equal. destruct names; [simpl in Hlen; lia|]. simpl. f_equal. exact Hp.
  - done.
Qed.

End describe.

Definition running_cluster : list Instance :=
  [member "c" "i-0" "running" (Some "master"); member "c" "i-1" "running" (Some "slave")].

Definition mixed_cluster : list Instance :=
  [member "c" "i-0" "running" (Some "master"); member "c" "i-1" "stopped" (Some "slave")].

Lemma describe_ec2_prints_witness :
  let names := listed_clusters running_cluster in
  (run fake (job_prog 0) [] (describe_ec2 (Some "c") false (Some "us-east-1"))
     (world_of running_cluster)).1.1 = Returned tt
  ∧ printed stdout
      (run fake (job_prog 0) [] (describe_ec2 (Some "c") false (Some "us-east-1"))
         (world_of running_cluster)).2
    = (str_nat (length names) +:+ " cluster"
         +:+ (if decide (length names = 1%nat) then "" else "s") +:+ " found.")
      :: match names with
         | [] => []
         | _ :: _ =>
             "---" :: concat (map (fun n => cluster_lines n (members_of n running_cluster))
                                names)
         end
  ∧ ∀ n, n ∈ names →
      let members := members_of n running_cluster in
      cluster_lines n members
      = [n +:+ ":";
         "  state: " +:+ get_cluster_state_ec2 members;
         "  node-count: " +:+ str_nat (length members)]
        ++ (if String.eqb (get_cluster_state_ec2 members) "running"
            then [join (nl +:+ "    - ") ("  nodes:" :: map public_dns_name members)]
            else []).
Proof.
  apply (describe_ec2_prints fake (job_prog 0) [] (Some "c") false (Some "us-east-1")
           (world_of running_cluster) (world_of running_cluster) (world_of running_cluster)
           {| region_of := "us-east-1" |} [("instance.group-name", "flintrock-c")]
           running_cluster);
    reflexivity.
Defined.

Example describe_ec2_running :
  printed stdout
    (run fake (job_prog 0) [] (describe_ec2 (Some "c") false (Some "us-east-1"))
       (world_of running_cluster)).2
  = ["1 cluster found."; "---"; "c:"; "  state: running"; "  node-count: 2";
     "  nodes:" +:+ nl +:+ "    - ec2-i-0.compute-1.amazonaws.com"
       +:+ nl +:+ "    - ec2-i-1.compute-1.amazonaws.com"].
Proof. vm_compute. reflexivity. Qed.

(** C7 as stated fails for a cluster that is not [running]: here one node
    runs and has a hostname, the other is stopped, the aggregated state is
    [inconsistent], and no hostname is printed. *)
Lemma describe_ec2_no_hostnames :
  printed stdout
    (run fake (job_prog 0) [] (describe_ec2 (Some "c") false (Some "us-east-1"))
       (world_of mixed_cluster)).2
  = ["1 cluster found."; "---"; "c:"; "  state: inconsistent"; "  node-count: 2"]
  ∧ map public_dns_name mixed_cluster = ["ec2-i-0.compute-1.amazonaws.com"; ""].
Proof. split; vm_compute; reflexivity. Qed.

(** ** Stepping through a run *)

Section steps.

Context {W : Type}.
Variable handler : forall X : Type, call X -> W -> X * W.
Variable body_of : Job -> prog unit.
Variable schedule : list nat.

Local Abbreviation run := (run handler body_of schedule).

Lemma run_ask {X : Type} (c : call X) (w : W) :
  run (ask c) w = ((Returned (handler X c w).1, (handler X c w).2), [Called c (handler X c w).1]).
Proof. unfold ask. simpl. by destruct (handler X c w). Qed.

Lemma run_ret {A : Type} (a : A) (w : W) : run (Ret a) w = (Returned a, w, []).
Proof. reflexivity. Qed.

Lemma run_raise {A : Type} (e : exn) (w : W) : run (Raise e : prog A) w = (Raised e, w, []).
Proof. reflexivity. Qed.

Lemma run_print (file : stream) (line : string) (w : W) :
  run (ask (print file line)) w
  = (Returned tt, (handler _ (print file line) w).2, [Called (print file line) tt]).
Proof. rewrite run_ask. by destruct (handler _ (print file line) w) as [[] w1]. Qed.

Lemma run_perform_ok {A : Type} (c : call (result A)) (w w1 : W) (a : A) :
  handler _ c w = (Ok a, w1) → run (perform c) w = (Returned a, w1, [Called c (Ok a)]).
Proof. intros H. unfold perform. simpl. by rewrite H. Qed.

Lemma run_perform_err {A : Type} (c : call (result A)) (w w1 : W) (e : exn) :
  handler _ c w = (Err e, w1) → run (perform c) w = (Raised e, w1, [Called c (Err e)]).
Proof. intros H. unfold perform. simpl. by rewrite H. Qed.

Lemma run_bind_returned {A B : Type} (p : prog A) (f : A -> prog B) (w w1 : W) a tr1 :
  run p w = (Returned a, w1, tr1) →
  run (bind p f) w = ((run (f a) w1).1, tr1 ++ (run (f a) w1).2).
Proof. intros H. rewrite run_bind, H. by destruct (run (f a) w1) as [[o w2] tr2]. Qed.

Lemma run_bind_raised {A B : Type} (p : prog A) (f : A -> prog B) (w w1 : W) e tr1 :
  run p w = (Raised e, w1, tr1) → run (bind p f) w = (Raised e, w1, tr1).
Proof. intros H. by rewrite run_bind, H. Qed.

Lemma run_bind_spinning {A B : Type} (p : prog A) (f : A -> prog B) (w w1 : W) tr1 :
  run p w = (Spinning, w1, tr1) → run (bind p f) w = (Spinning, w1, tr1).
Proof. intros H. by rewrite run_bind, H. Qed.

Lemma run_seq {A B : Type} (p : prog A) (f : A -> prog B) (w w1 w2 : W) a o tr1 tr2 tr :
  run p w = (Returned a, w1, tr1) →
  run (f a) w1 = (o, w2, tr2) →
  tr = tr1 ++ tr2 →
  run (bind p f) w = (o, w2, tr).
Proof. intros H1 H2 ->. by rewrite run_bind, H1, H2. Qed.

Lemma run_bind_trace {A B : Type} (p : prog A) (f : A -> prog B) (w : W) :
  ∃ rest, (run (bind p f) w).2 = (run p w).2 ++ rest.
Proof.
  rewrite run_bind. destruct (run p w) as [[o w1] tr1].
  destruct o as [a|e|]; simpl.
  - destruct (run (f a) w1) as [[o2 w2] tr2]. by exists tr2.
  - exists []. by rewrite app_nil_r.
  - exists []. by rewrite app_nil_r.
Qed.

Lemma run_connect region method (w w1 : W) connection :
  handler _ (connect_to_region region) w = (Ok (Some connection), w1) →
  run (connect region method) w
  = (Returned connection, w1, [Called (connect_to_region region) (Ok (Some connection))]).
Proof. intros H. unfold connect, perform. simpl. by rewrite H. Qed.

End steps.

(** ** A cluster that is not there, a cluster that is *)

Section lifecycle.

Context {W : Type}.
Variable handler : forall X : Type, call X -> W -> X * W.
Variable body_of : Job -> prog unit.
Variable schedule : list nat.

Variables (cluster_name : string) (num_slaves : Z) (modules : list Module).
Variables (key_name identity_file instance_type region availability_zone ami user : string).
Variables (vpc_id : option string).
Variables (subnet_id placement_group tenancy : string) (ebs_optimized : bool).
Variables (instance_initiated_shutdown_behavior : string).

Local Abbreviation run := (run handler body_of schedule).
Local Abbreviation lookup_filter := [("instance.group-name", "flintrock-" +:+ cluster_name)].
Local Abbreviation launch_ec2' :=
  (launch_ec2 cluster_name num_slaves modules key_name identity_file instance_type region
     availability_zone ami user vpc_id subnet_id placement_group tenancy ebs_optimized
     instance_initiated_shutdown_behavior).

(** The world answers the cluster lookup with the list [l]: first the
    clock is read (by [timeit]), then the region is connected to, then the
    instances of the cluster's group are listed. *)
Variables (w w0 w1 w2 : W) (now : Z) (connection : Connection) (l : list Instance).
Hypothesis clock : handler _ datetime_now w = (now, w0).
Hypothesis connected :
  handler _ (connect_to_region (Some region)) w0 = (Ok (Some connection), w1).
Hypothesis listed :
  handler _ (get_only_instances connection lookup_filter) w1 = (Ok l, w2).

Local Abbreviation looked_up :=
  [Called (connect_to_region (Some region)) (Ok (Some connection));
   Called (get_only_instances connection lookup_filter) (Ok l)].

Lemma run_clock : run (ask datetime_now) w = (Returned now, w0, [Called datetime_now now]).
Proof. by rewrite run_ask, clock. Qed.

(** The existence check of [launch_ec2]: [True] when the lookup returns,
    [False] when it raises [ClusterNotFound]. *)
Lemma run_existence_check :
  run (try_except (get_cluster_instances_ec2 cluster_name region;; Ret true)
         (fun e => match e with ClusterNotFound _ => Some (Ret false) | _ => None end)) w0
  = ( match (run (get_cluster_instances_ec2 cluster_name region) w0).1.1 with
      | Returned _ => Returned true
      | Raised (ClusterNotFound _) => Returned false
      | Raised e => Raised e
      | Spinning => Spinning
      end, w2, looked_up ).
Proof.
  rewrite run_try_except, run_bind.
  rewrite (get_cluster_instances_ec2_run handler body_of schedule cluster_name region
             w0 w1 w2 connection l connected listed).
  simpl.
  destruct l as [|i l']; simpl; [by rewrite ?app_nil_r|].
  destruct (py_filter role_eq_master (i :: l')) as [[|m ms]|e]; simpl.
  - done.
  - destruct (py_filter role_ne_master (i :: l')) as [ss|e]; simpl.
    + by rewrite ?app_nil_r.
    + destruct e; simpl; by rewrite ?app_nil_r.
  - destruct e; simpl; by rewrite ?app_nil_r.
Qed.

(** [launch_ec2] when the cluster is there and has its master: exit code
    1, the message on standard error, and nothing but the lookup and the
    message happened. *)
Lemma launch_ec2_existing fuel master_instance slave_instances :
  (run (get_cluster_instances_ec2 cluster_name region) w0).1.1
  = Returned (master_instance, slave_instances) →
  run (launch_ec2' fuel) w
  = (Raised (SystemExit 1),
     (handler _ (print stderr ("Cluster already exists: " +:+ cluster_name)) w2).2,
     Called datetime_now now
       :: looked_up
       ++ [Called (print stderr ("Cluster already exists: " +:+ cluster_name)) tt]).
Proof.
  intros Hlookup. unfold launch_ec2, timeit.
  pose proof run_existence_check as Hcheck. rewrite Hlookup in Hcheck.
  eapply run_seq; [apply run_clock| |reflexivity].
  apply run_bind_raised.
  eapply run_seq; [exact Hcheck| |reflexivity].
  apply run_bind_raised.
  eapply run_seq; [apply run_print| |reflexivity].
  done.
Qed.

(** [launch_ec2] when the lookup itself fails with something other than
    [ClusterNotFound]: the failure is what [launch_ec2] raises. *)
Lemma launch_ec2_lookup_fails fuel e :
  (run (get_cluster_instances_ec2 cluster_name region) w0).1.1 = Raised e →
  (∀ msg, e ≠ ClusterNotFound msg) →
  run (launch_ec2' fuel) w = (Raised e, w2, Called datetime_now now :: looked_up).
Proof.
  intros Hlookup Hne. unfold launch_ec2, timeit.
  pose proof run_existence_check as Hcheck. rewrite Hlookup in Hcheck.
  assert (match e with
          | ClusterNotFound _ => Returned false
          | _ => Raised e
          end = Raised e) as He.
  { destruct e; try done. by destruct (Hne msg). }
  rewrite He in Hcheck.
  eapply run_seq; [apply run_clock| |reflexivity].
  apply run_bind_raised. by apply run_bind_raised.
Qed.

(** [launch_ec2] when the cluster is not there: it goes on to the security
    groups. *)
Lemma launch_ec2_missing fuel :
  l = [] →
  ∃ rest,
    (run (launch_ec2' fuel) w).2
    = Called datetime_now now
        :: looked_up
        ++ (run (get_or_create_ec2_security_groups cluster_name vpc_id region) w2).2
        ++ rest.
Proof.
  intros Hl. unfold launch_ec2, timeit.
  assert (run (try_except (get_cluster_instances_ec2 cluster_name region;; Ret true)
                 (fun e => match e with ClusterNotFound _ => Some (Ret false) | _ => None end))
              w0
          = (Returned false, w2, looked_up)) as Hcheck.
  { rewrite run_existence_check.
    rewrite (get_cluster_instances_ec2_run handler body_of schedule cluster_name region
               w0 w1 w2 connection l connected listed).
    by rewrite Hl. }
  rewrite run_bind, run_clock. cbv beta iota zeta.
  match goal with
  | |- context [run (bind ?p ?f) w0] =>
      destruct (run_bind_trace handler body_of schedule p f w0) as [rest1 H1];
      destruct (run (bind p f) w0) as [[o3 w3] tr3]
  end.
  rewrite run_bind, Hcheck in H1. cbv beta iota zeta in H1.
  rewrite run_bind, run_ret in H1. cbv beta iota zeta in H1.
  match type of H1 with
  | context [run (bind ?p ?f) w2] =>
      destruct (run_bind_trace handler body_of schedule p f w2) as [rest2 H2];
      destruct (run (bind p f) w2) as [[o4 w4] tr4]
  end.
  cbn [fst snd] in H1, H2. subst tr3 tr4. cbn [fst snd].
  exists (rest2 ++ rest1). cbn [app]. by rewrite <- !app_assoc.
Qed.

Lemma destroy_ec2_missing assume_yes :
  l = [] →
  run (destroy_ec2 cluster_name assume_yes region) w0
  = (Raised (SystemExit 0), (handler _ (print stdout "No such cluster.") w2).2,
     looked_up ++ [Called (print stdout "No such cluster.") tt]).
Proof.
  intros Hl. unfold destroy_ec2.
  eapply run_seq; [by apply run_connect| |reflexivity].
  eapply run_seq; [by apply run_perform_ok| |reflexivity].
  rewrite Hl. apply run_bind_raised.
  eapply run_seq; [apply run_print| |reflexivity]. done.
Qed.

Lemma stop_ec2_missing fuel assume_yes :
  l = [] →
  run (stop_ec2 cluster_name region fuel assume_yes) w
  = (Raised (SystemExit 0), (handler _ (print stdout "No such cluster.") w2).2,
     Called datetime_now now :: looked_up ++ [Called (print stdout "No such cluster.") tt]).
Proof.
  intros Hl. unfold stop_ec2, timeit.
  eapply run_seq; [apply run_clock| |reflexivity].
  apply run_bind_raised.
  eapply run_seq; [by apply run_connect| |reflexivity].
  eapply run_seq; [by apply run_perform_ok| |reflexivity].
  rewrite Hl. apply run_bind_raised.
  eapply run_seq; [apply run_print| |reflexivity]. done.
Qed.

Lemma start_ec2_missing fuel :
  l = [] →
  run (start_ec2 cluster_name identity_file region user fuel) w
  = (Raised (SystemExit 0),
     (handler _ (print stdout ("No such cluster: " +:+ cluster_name)) w2).2,
     Called datetime_now now
       :: looked_up ++ [Called (print stdout ("No such cluster: " +:+ cluster_name)) tt]).
Proof.
  intros Hl. unfold start_ec2, timeit.
  eapply run_seq; [apply run_clock| |reflexivity].
  apply run_bind_raised. apply run_bind_raised.
  rewrite run_try_except, run_bind.
  rewrite (get_cluster_instances_ec2_run handler body_of schedule cluster_name region
             w0 w1 w2 connection l connected listed).
  rewrite Hl. cbv beta iota zeta.
  rewrite run_bind, run_print. cbv beta iota zeta. by rewrite run_raise.
Qed.

(** C5, amended.  When the cluster lookup yields zero nodes, [destroy],
    [stop] and [start] print a message ([No such cluster.], and for [start]
    [No such cluster: <name>]) and terminate with exit code 0, having done
    nothing else; [launch] goes on to set up the security groups. *)
Theorem zero_nodes fuel assume_yes :
  l = [] →
  (exit_status (run (destroy_ec2 cluster_name assume_yes region) w0).1.1 = Some 0
   ∧ (run (destroy_ec2 cluster_name assume_yes region) w0).2
     = looked_up ++ [Called (print stdout "No such cluster.") tt])
  ∧ (exit_status (run (stop_ec2 cluster_name region fuel assume_yes) w).1.1 = Some 0
     ∧ (run (stop_ec2 cluster_name region fuel assume_yes) w).2
       = Called datetime_now now
           :: looked_up ++ [Called (print stdout "No such cluster.") tt])
  ∧ (exit_status (run (start_ec2 cluster_name identity_file region user fuel) w).1.1 = Some 0
     ∧ (run (start_ec2 cluster_name identity_file region user fuel) w).2
       = Called datetime_now now
           :: looked_up
           ++ [Called (print stdout ("No such cluster: " +:+ cluster_name)) tt])
  ∧ (∃ rest,
       (run (launch_ec2' fuel) w).2
       = Called datetime_now now
           :: looked_up
           ++ (run (get_or_create_ec2_security_groups cluster_name vpc_id region) w2).2
           ++ rest).
Proof.
  intros Hl.
  rewrite (destroy_ec2_missing assume_yes Hl), (stop_ec2_missing fuel assume_yes Hl),
    (start_ec2_missing fuel Hl).
  split_and!; try done. by apply launch_ec2_missing.
Qed.

(** Where the cluster under that name is there and is well formed
    (every instance carries its role and one is the master): [launch_ec2]
    prints [Cluster already exists: <name>] on standard error and exits
    with code 1; all it did was to look the cluster up. *)
Lemma launch_ec2_cluster_exists fuel :
  l ≠ [] → Forall has_role_tag l → (∃ m, m ∈ l ∧ is_master m = true) →
  exit_status (run (launch_ec2' fuel) w).1.1 = Some 1
  ∧ printed stderr (run (launch_ec2' fuel) w).2 = ["Cluster already exists: " +:+ cluster_name]
  ∧ (run (launch_ec2' fuel) w).2
    = Called datetime_now now
        :: looked_up
        ++ [Called (print stderr ("Cluster already exists: " +:+ cluster_name)) tt].
Proof.
  intros Hne Hall (m & Hin & Hm).
  pose proof (get_cluster_instances_ec2_tagged handler body_of schedule cluster_name region
                w0 w1 w2 connection l connected listed Hne Hall) as Hlookup.
  destruct (List.find is_master l) as [m'|] eqn:Hfind.
  - by rewrite (launch_ec2_existing fuel m' _ Hlookup).
  - apply list_elem_of_In in Hin. pose proof (find_none _ _ Hfind m Hin). congruence.
Qed.

End lifecycle.

(** A launch of cluster [c] with two slaves. *)
Definition demo_launch (fuel : nat) : prog unit :=
  launch_ec2 "c" 2 [Spark "1.5.0"] "key" "id.pem" "m3.medium" "us-east-1" "us-east-1a"
    "ami-1" "ec2-user" None "subnet-1" "" "default" false "stop" fuel.

Lemma zero_nodes_witness :
  (exit_status (run fake (job_prog 5) [] (destroy_ec2 "c" true "us-east-1")
                  (world_of [])).1.1 = Some 0
   ∧ (run fake (job_prog 5) [] (destroy_ec2 "c" true "us-east-1") (world_of [])).2
     = [Called (connect_to_region (Some "us-east-1")) (Ok (Some {| region_of := "us-east-1" |}));
        Called (get_only_instances {| region_of := "us-east-1" |}
                  [("instance.group-name", "flintrock-c")]) (Ok [])]
       ++ [Called (print stdout "No such cluster.") tt])
  ∧ (exit_status (run fake (job_prog 5) [] (stop_ec2 "c" "us-east-1" 5 true)
                    (world_of [])).1.1 = Some 0
     ∧ (run fake (job_prog 5) [] (stop_ec2 "c" "us-east-1" 5 true) (world_of [])).2
       = Called datetime_now 0
           :: [Called (connect_to_region (Some "us-east-1"))
                 (Ok (Some {| region_of := "us-east-1" |}));
               Called (get_only_instances {| region_of := "us-east-1" |}
                         [("instance.group-name", "flintrock-c")]) (Ok [])]
           ++ [Called (print stdout "No such cluster.") tt])
  ∧ (exit_status (run fake (job_prog 5) [] (start_ec2 "c" "id.pem" "us-east-1" "ec2-user" 5)
                    (world_of [])).1.1 = Some 0
     ∧ (run fake (job_prog 5) [] (start_ec2 "c" "id.pem" "us-east-1" "ec2-user" 5)
          (world_of [])).2
       = Called datetime_now 0
           :: [Called (connect_to_region (Some "us-east-1"))
                 (Ok (Some {| region_of := "us-east-1" |}));
               Called (get_only_instances {| region_of := "us-east-1" |}
                         [("instance.group-name", "flintrock-c")]) (Ok [])]
           ++ [Called (print stdout ("No such cluster: " +:+ "c")) tt])
  ∧ (∃ rest,
       (run fake (job_prog 5) [] (demo_launch 5) (world_of [])).2
       = Called datetime_now 0
           :: [Called (connect_to_region (Some "us-east-1"))
                 (Ok (Some {| region_of := "us-east-1" |}));
               Called (get_only_instances {| region_of := "us-east-1" |}
                         [("instance.group-name", "flintrock-c")]) (Ok [])]
           ++ (run fake (job_prog 5) []
                 (get_or_create_ec2_security_groups "c" None "us-east-1") (world_of [])).2
           ++ rest).
Proof.
  apply (zero_nodes fake (job_prog 5) [] "c" 2 [Spark "1.5.0"] "key" "id.pem" "m3.medium"
           "us-east-1" "us-east-1a" "ami-1" "ec2-user" None "subnet-1" "" "default" false
           "stop" (world_of []) (world_of []) (world_of []) (world_of []) 0
           {| region_of := "us-east-1" |} [] eq_refl eq_refl eq_refl 5%nat true eq_refl).
Defined.

(** C5 as stated fails: with no node under the name, [destroy], [stop] and
    [start] end with exit code 0. *)
Lemma zero_nodes_exit_zero :
  exit_status (run fake (job_prog 5) [] (destroy_ec2 "c" true "us-east-1")
                 (world_of [])).1.1 = Some 0
  ∧ exit_status (run fake (job_prog 5) [] (stop_ec2 "c" "us-east-1" 5 true)
                   (world_of [])).1.1 = Some 0
  ∧ exit_status (run fake (job_prog 5) [] (start_ec2 "c" "id.pem" "us-east-1" "ec2-user" 5)
                   (world_of [])).1.1 = Some 0.
Proof. split_and!; reflexivity. Qed.

(** The cluster [c] after its master is gone, and the instances of a
    launch of [c] that was interrupted before they were tagged. *)
Definition masterless_cluster : list Instance :=
  [member "c" "i-1" "running" (Some "slave"); member "c" "i-2" "running" (Some "slave")].

Definition untagged_cluster : list Instance :=
  [member "c" "i-0" "pending" None; member "c" "i-1" "pending" None].

(** C1 at a cluster without a master: [launch_ec2] does not print the
    message and exit, it fails on the unguarded index (or, for instances
    without the tag, on the tag lookup).  Nothing was changed at the
    provider. *)
Theorem launch_ec2_masterless_cluster :
  (run fake (job_prog 5) [] (demo_launch 5) (world_of masterless_cluster)).1.1
  = Raised IndexError
  ∧ printed stderr (run fake (job_prog 5) [] (demo_launch 5) (world_of masterless_cluster)).2
    = []
  ∧ (run fake (job_prog 5) [] (demo_launch 5) (world_of masterless_cluster)).1.2
    = world_of masterless_cluster
  ∧ (run fake (job_prog 5) [] (demo_launch 5) (world_of untagged_cluster)).1.1
    = Raised (KeyError "flintrock-role")
  ∧ printed stderr (run fake (job_prog 5) [] (demo_launch 5) (world_of untagged_cluster)).2
    = [].
Proof. split_and!; reflexivity. Qed.

Example launch_ec2_existing_cluster :
  (run fake (job_prog 5) [] (demo_launch 5) (world_of running_cluster)).1.1
  = Raised (SystemExit 1)
  ∧ printed stderr (run fake (job_prog 5) [] (demo_launch 5) (world_of running_cluster)).2
    = ["Cluster already exists: c"].
Proof. split; reflexivity. Qed.

(** ** Security groups *)

Definition duplicate : exn := EC2ResponseError "InvalidPermission.Duplicate".

(** The answers of [authorize] after which the loop goes on to the next
    rule. *)
Definition goes_on (answer : result unit) : bool :=
  match answer with
  | Ok _ => true
  | Err (EC2ResponseError error_code) => String.eqb error_code "InvalidPermission.Duplicate"
  | Err _ => false
  end.

Section authorize.

Context {W : Type}.
Variable handler : forall X : Type, call X -> W -> X * W.
Variable body_of : Job -> prog unit.
Variable schedule : list nat.

Local Abbreviation run := (run handler body_of schedule).

Lemma authorize_rule_run group rule (w : W) :
  run (authorize_rule group rule) w
  = let answer := (handler _ (authorize group rule) w).1 in
    let w1 := (handler _ (authorize group rule) w).2 in
    match answer with
    | Ok _ => (Returned tt, w1, [Called (authorize group rule) answer])
    | Err (EC2ResponseError error_code) =>
        if String.eqb error_code "InvalidPermission.Duplicate"
        then (Returned tt, w1, [Called (authorize group rule) answer])
        else (Raised (EC2ResponseError error_code),
              (handler _ (print stdout ("Error adding rule: " +:+ repr_rule rule)) w1).2,
              [Called (authorize group rule) answer;
               Called (print stdout ("Error adding rule: " +:+ repr_rule rule)) tt])
    | Err e => (Raised e, w1, [Called (authorize group rule) answer])
    end.
Proof.
  unfold authorize_rule. rewrite run_try_except. unfold perform. simpl.
  destruct (handler _ (authorize group rule) w) as [[[]|e] w1]; simpl; [done|].
  destruct e; simpl; try done.
  destruct (String.eqb error_code "InvalidPermission.Duplicate"); simpl; [done|].
  by destruct (handler _ (print stdout _) w1) as [[] w2].
Qed.

(** The rule loops: after an answer that is a success or a duplicate the
    loop goes on with the remaining rules; any other answer ends the loop
    and is raised, with no further rule attempted. *)
Lemma authorize_rules_run group rule rules (w : W) :
  let answer := (handler _ (authorize group rule) w).1 in
  let w1 := (handler _ (authorize group rule) w).2 in
  (goes_on answer = true →
   run (for_each (rule :: rules) (authorize_rule group)) w
   = ((run (for_each rules (authorize_rule group)) w1).1,
      Called (authorize group rule) answer
        :: (run (for_each rules (authorize_rule group)) w1).2))
  ∧ (∀ e, answer = Err e → goes_on answer = false →
     (run (for_each (rule :: rules) (authorize_rule group)) w).1.1 = Raised e
     ∧ ∃ said,
         (run (for_each (rule :: rules) (authorize_rule group)) w).2
         = Called (authorize group rule) answer :: said
         ∧ Forall (fun ev => match ev with Called (print _ _) _ => True | _ => False end) said).
Proof.
  intros answer w1. rewrite for_each_cons, run_bind, authorize_rule_run.
  fold answer w1. split.
  - intros Hgo. destruct answer as [[]|e]; simpl.
    + by destruct (run (for_each rules (authorize_rule group)) w1) as [[o w2] tr].
    + destruct e; try done. simpl in Hgo. rewrite Hgo. simpl.
      by destruct (run (for_each rules (authorize_rule group)) w1) as [[o w2] tr].
  - intros e -> Hstop. destruct e; simpl; try (split; [done|]; by exists []).
    simpl in Hstop. rewrite Hstop. simpl. split; [done|].
    eexists. split; [done|]. by repeat constructor.
Qed.

End authorize.

(** *** On the in-memory provider *)

Abbreviation groups_table := (list (SecurityGroup * list SecurityGroupRule)).

(** The rule is among the rules of the group with the given id. *)
Definition rule_in (g : string) (r : SecurityGroupRule) (gs : groups_table) : Prop :=
  match List.find (fun sg => String.eqb (sg_id sg.1) g) gs with
  | Some (_, rules) => r ∈ rules
  | None => False
  end.

Lemma add_rule_ok g r gs gs' :
  add_rule g r gs = Ok gs' →
  rule_in g r gs' ∧ map fst gs' = map fst gs
  ∧ ∀ g' r', rule_in g' r' gs → rule_in g' r' gs'.
Proof.
  revert gs'. induction gs as [|[sg rules] gs IH]; intros gs' H; simpl in H; [done|].
  destruct (String.eqb (sg_id sg) g) eqn:Hid.
  - destruct (bool_decide (r ∈ rules)); [done|]. injection H as <-.
    unfold rule_in. simpl. rewrite Hid. split_and!; [set_solver|done|].
    intros g' r'. simpl. destruct (String.eqb (sg_id sg) g'); [set_solver|done].
  - destruct (add_rule g r gs) as [rest'|e]; [|done]. injection H as <-.
    destruct (IH rest' eq_refl) as (H1 & H2 & H3).
    unfold rule_in in *. simpl. rewrite Hid. split_and!; [done|by rewrite H2|].
    intros g' r'. simpl. destruct (String.eqb (sg_id sg) g'); [done|apply H3].
Qed.

Lemma add_rule_err g r gs e :
  add_rule g r gs = Err e → e = duplicate → rule_in g r gs.
Proof.
  induction gs as [|[sg rules] gs IH]; intros H He; simpl in H.
  - injection H as <-. done.
  - unfold rule_in. simpl. destruct (String.eqb (sg_id sg) g) eqn:Hid.
    + destruct (bool_decide (r ∈ rules)) eqn:Hin; [|done].
      by apply bool_decide_eq_true in Hin.
    + destruct (add_rule g r gs) as [rest'|e']; [done|]. injection H as ->.
      by apply IH.
Qed.

Lemma add_rule_present g r gs : rule_in g r gs → add_rule g r gs = Err duplicate.
Proof.
  unfold rule_in. induction gs as [|[sg rules] gs IH]; simpl; [done|].
  destruct (String.eqb (sg_id sg) g) eqn:Hid.
  - intros Hin. by rewrite bool_decide_true.
  - intros Hin. by rewrite (IH Hin).
Qed.

Lemma rule_in_app g r gs more : rule_in g r gs → rule_in g r (gs ++ more).
Proof.
  unfold rule_in. induction gs as [|[sg rules] gs IH]; simpl; [done|].
  by destruct (String.eqb (sg_id sg) g).
Qed.

Lemma find_filter {A : Type} (P Q : A -> bool) (l : list A) :
  (∀ x, P x = true → Q x = true) → List.find P (List.filter Q l) = List.find P l.
Proof.
  intros HPQ. induction l as [|x l IH]; [done|]. simpl.
  destruct (Q x) eqn:HQ; simpl.
  - by destruct (P x).
  - destruct (P x) eqn:HP; [|done]. rewrite (HPQ x HP) in HQ. done.
Qed.

Lemma find_app_some {A : Type} (P : A -> bool) (l more : list A) x :
  List.find P l = Some x → List.find P (l ++ more) = Some x.
Proof.
  induction l as [|y l IH]; [done|]. simpl. by destruct (P y).
Qed.

Lemma find_app_none {A : Type} (P : A -> bool) (l more : list A) :
  List.find P l = None → List.find P (l ++ more) = List.find P more.
Proof.
  induction l as [|y l IH]; [done|]. simpl. by destruct (P y).
Qed.

(** The address the next call of the echo service will report. *)
Definition address_seen (w : World) : option string :=
  (fun ip => strip (ip +:+ nl)) <$> head (w_checkip w).

Section provider.

Variable body_of : Job -> prog unit.
Variable schedule : list nat.

Local Abbreviation run := (run fake body_of schedule).

Lemma run_bind_inv {A B : Type} (p : prog A) (f : A -> prog B) (w w' : World) b tr :
  run (bind p f) w = (Returned b, w', tr) →
  ∃ a w1 tr1 tr2,
    run p w = (Returned a, w1, tr1) ∧ run (f a) w1 = (Returned b, w', tr2) ∧ tr = tr1 ++ tr2.
Proof.
  rewrite run_bind. destruct (run p w) as [[o w1] tr1].
  destruct o as [a|e|]; [|done..].
  destruct (run (f a) w1) as [[o2 w2] tr2] eqn:H2.
  intros [= -> -> <-]. by exists a, w1, tr1, tr2.
Qed.

(** The replies to [authorize], in order. *)
Definition authorize_replies (tr : list event) : list (result unit) :=
  omap (fun ev =>
          match ev with
          | Called (authorize _ _) answer => Some answer
          | _ => None
          end) tr.

Lemma authorize_replies_app tr1 tr2 :
  authorize_replies (tr1 ++ tr2) = authorize_replies tr1 ++ authorize_replies tr2.
Proof. apply omap_app. Qed.

Lemma authorize_rule_fake group rule (w : World) :
  run (authorize_rule group rule) w
  = match add_rule (sg_id group) rule (w_groups w) with
    | Ok gs => (Returned tt, set_groups gs w, [Called (authorize group rule) (Ok tt)])
    | Err e =>
        if goes_on (Err e)
        then (Returned tt, w, [Called (authorize group rule) (Err e)])
        else (Raised e, w,
              Called (authorize group rule) (Err e)
                :: match e with
                   | EC2ResponseError _ =>
                       [Called (print stdout ("Error adding rule: " +:+ repr_rule rule)) tt]
                   | _ => []
                   end)
    end.
Proof.
  rewrite authorize_rule_run. simpl.
  destruct (add_rule (sg_id group) rule (w_groups w)) as [gs|e]; simpl; [done|].
  by destruct e.
Qed.

(** A rule loop that comes back leaves every rule of the loop in the
    group, adds no group, and takes no rule away. *)
Lemma authorize_loop_returned group rules (w w' : World) tr :
  run (for_each rules (authorize_rule group)) w = (Returned tt, w', tr) →
  ∃ gs,
    w' = set_groups gs w
    ∧ map fst gs = map fst (w_groups w)
    ∧ (∀ r, r ∈ rules → rule_in (sg_id group) r gs)
    ∧ (∀ g' r', rule_in g' r' (w_groups w) → rule_in g' r' gs).
Proof.
  revert w tr. induction rules as [|rule rules IH]; intros w tr H.
  - injection H as <- <-. exists (w_groups w). split_and!; [by destruct w|done|set_solver|done].
  - rewrite for_each_cons in H. apply run_bind_inv in H as ([] & w1 & tr1 & tr2 & H1 & H2 & ->).
    rewrite authorize_rule_fake in H1.
    destruct (add_rule (sg_id group) rule (w_groups w)) as [gs1|e] eqn:Hadd.
    + injection H1 as <- <-.
      destruct (add_rule_ok _ _ _ _ Hadd) as (Hin & Hfst & Hmono).
      destruct (IH _ _ H2) as (gs & -> & Hfst' & Hall & Hmono').
      exists gs. simpl in *. split_and!; [done|congruence| |by auto].
      intros r [->|Hr]%elem_of_cons; [by apply Hmono'|by apply Hall].
    + destruct (goes_on (Err e)) eqn:Hgo; [|done]. injection H1 as <- <-.
      assert (e = duplicate) as He.
      { destruct e; try done. simpl in Hgo. apply String.eqb_eq in Hgo. by subst. }
      pose proof (add_rule_err _ _ _ _ Hadd He) as Hin.
      destruct (IH _ _ H2) as (gs & -> & Hfst' & Hall & Hmono').
      exists gs. split_and!; [done..| |done].
      intros r [->|Hr]%elem_of_cons; [by apply Hmono'|by apply Hall].
Qed.

(** A rule loop over rules the group already has changes nothing: every
    reply is a duplicate. *)
Lemma authorize_loop_present group rules (w : World) :
  (∀ r, r ∈ rules → rule_in (sg_id group) r (w_groups w)) →
  ∃ tr,
    run (for_each rules (authorize_rule group)) w = (Returned tt, w, tr)
    ∧ authorize_replies tr = map (fun _ => Err duplicate) rules.
Proof.
  induction rules as [|rule rules IH]; intros Hall; [by exists []|].
  destruct IH as (tr & Hrun & Hreplies); [set_solver|].
  exists (Called (authorize group rule) (Err duplicate) :: tr). split.
  - rewrite for_each_cons.
    eapply run_seq;
      [rewrite authorize_rule_fake,
         (add_rule_present _ _ _ (Hall rule ltac:(set_solver))); reflexivity
      |exact Hrun|reflexivity].
  - simpl. by rewrite Hreplies.
Qed.

End provider.

Lemma address_seen_set_groups g (w : World) : address_seen (set_groups g w) = address_seen w.
Proof. reflexivity. Qed.

Section idempotence.

Variable body_of : Job -> prog unit.
Variable schedule : list nat.
Variables (cluster_name : string) (vpc_id : option string) (region : string).

Local Abbreviation run := (run fake body_of schedule).
Local Abbreviation named n := (fun sg : SecurityGroup => String.eqb (sg_name sg) n).

Lemma found_by_name n (w : World) :
  n = "flintrock" ∨ n = "flintrock-" +:+ cluster_name →
  List.find (named n)
    (List.filter
       (fun sg => bool_decide (sg_name sg ∈ ["flintrock"; "flintrock-" +:+ cluster_name]))
       (map fst (w_groups w)))
  = List.find (named n) (map fst (w_groups w)).
Proof.
  intros Hn. apply find_filter. intros sg Hsg. apply String.eqb_eq in Hsg.
  apply bool_decide_eq_true. rewrite Hsg. set_solver.
Qed.

Lemma base_is_not_cluster : String.eqb "flintrock" ("flintrock-" +:+ cluster_name) = false.
Proof.
  apply String.eqb_neq. intros H. apply (f_equal String.length) in H.
  change ("flintrock-" +:+ cluster_name)
    with ("flintrock" +:+ String "-" cluster_name) in H.
  rewrite length_append in H. simpl in H. lia.
Qed.

(** The group of a given name: the one that is there, or a new one. *)
Lemma ensure_group_fake n description found (w w' : World) g tr :
  run match found with
      | Some g => Ret g
      | None =>
          perform (create_security_group {| region_of := region |} n description vpc_id)
      end w
  = (Returned g, w', tr) →
  ∃ more,
    w' = set_groups (w_groups w ++ more) w
    ∧ authorize_replies tr = []
    ∧ (found = Some g ∧ more = [] ∨ found = None ∧ more = [(g, [])] ∧ sg_name g = n).
Proof.
  destruct found as [g0|]; simpl.
  - intros [= -> <- <-]. exists []. rewrite app_nil_r. split_and!; [by destruct w|done|by left].
  - intros [= <- <- <-]. eexists. split_and!; [done..|by right].
Qed.

Lemma urlopen_fake url (w w' : World) page tr :
  run (perform (urlopen_read url)) w = (Returned page, w', tr) →
  w_groups w' = w_groups w ∧ address_seen w = Some (strip page) ∧ authorize_replies tr = [].
Proof.
  unfold address_seen. simpl. destruct (w_checkip w) as [|ip [|ip' later]]; simpl; [done|..].
  - by intros [= <- <- <-].
  - by intros [= <- <- <-].
Qed.

Lemma urlopen_fake_again url (w : World) address :
  address_seen w = Some address →
  ∃ page w' tr,
    run (perform (urlopen_read url)) w = (Returned page, w', tr)
    ∧ strip page = address ∧ w_groups w' = w_groups w ∧ authorize_replies tr = [].
Proof.
  unfold address_seen. simpl. destruct (w_checkip w) as [|ip [|ip' later]]; simpl; [done|..].
  - intros [= <-]. by eexists _, _, _.
  - intros [= <-]. by eexists _, _, _.
Qed.

Lemma get_or_create_again (w w1 : World) gs tr :
  run (get_or_create_ec2_security_groups cluster_name vpc_id region) w = (Returned gs, w1, tr) →
  address_seen w1 = address_seen w →
  ∃ w2 tr2,
    run (get_or_create_ec2_security_groups cluster_name vpc_id region) w1
    = (Returned gs, w2, tr2)
    ∧ w_groups w2 = w_groups w1
    ∧ authorize_replies tr2 = replicate 6 (Err duplicate).
Proof.
  intros H Haddr. unfold get_or_create_ec2_security_groups in H.
  apply run_bind_inv in H as (c & wa & tra & t1 & Ha & H & ->).
  injection Ha as <- <- <-.
  apply run_bind_inv in H as (search & wb & trb & t2 & Hb & H & ->).
  injection Hb as <- <- <-.
  rewrite !found_by_name in H by auto.
  apply run_bind_inv in H as (fg & wc & trc & t3 & Hc & H & ->).
  apply run_bind_inv in H as (page & wd & trd & t4 & Hd & H & ->).
  apply run_bind_inv in H as ([] & we & tre & t5 & He & H & ->).
  apply run_bind_inv in H as (cg & wf & trf & t6 & Hf & H & ->).
  apply run_bind_inv in H as ([] & wg & trg & t7 & Hg & H & ->).
  injection H as <- <- <-.
  apply ensure_group_fake in Hc as (m1 & -> & _ & Hm1).
  apply urlopen_fake in Hd as (Hgd & Hseen & _).
  apply authorize_loop_returned in He as (ge & -> & Hfe & Hine & _).
  apply ensure_group_fake in Hf as (m2 & -> & _ & Hm2).
  apply authorize_loop_returned in Hg as (gg & -> & Hfg & Hing & Hmono).
  simpl in * |-.
  assert (map fst gg = map fst (w_groups w) ++ map fst m1 ++ map fst m2) as Hshape.
  { rewrite Hfg, map_app, Hfe, Hgd, map_app. by rewrite <- app_assoc. }
  assert (List.find (named "flintrock") (map fst gg) = Some fg) as Hfind1.
  { rewrite Hshape. destruct Hm1 as [[Hfound ->]|(Hfound & -> & Hname)].
    - by apply find_app_some.
    - rewrite (find_app_none _ _ _ Hfound). simpl. by rewrite Hname. }
  assert (List.find (named ("flintrock-" +:+ cluster_name)) (map fst gg) = Some cg) as Hfind2.
  { rewrite Hshape. destruct Hm2 as [[Hfound ->]|(Hfound & -> & Hname)].
    - by apply find_app_some.
    - rewrite (find_app_none _ _ _ Hfound).
      destruct Hm1 as [[_ ->]|(_ & -> & Hname1)]; simpl.
      + by rewrite Hname, String.eqb_refl.
      + by rewrite Hname1, base_is_not_cluster, Hname, String.eqb_refl. }
  rewrite address_seen_set_groups in Hseen.
  set (wg := set_groups gg _) in *.
  rewrite Hseen in Haddr.
  destruct (urlopen_fake_again "http://checkip.amazonaws.com/" wg (strip page) Haddr)
    as (page2 & wd2 & trd2 & Hd2 & Hpage & Hgd2 & Hrd2).
  destruct (authorize_loop_present body_of schedule fg
              (client_rules (strip page +:+ "/32")) wd2) as (tre2 & He2 & Hre2).
  { intros r Hr. rewrite Hgd2. simpl. apply Hmono. apply rule_in_app. by apply Hine. }
  destruct (authorize_loop_present body_of schedule cg (cluster_rules cg) wd2)
    as (trg2 & Hg2 & Hrg2).
  { intros r Hr. rewrite Hgd2. simpl. by apply Hing. }
  exists wd2. eexists. split_and!.
  - unfold get_or_create_ec2_security_groups.
    eapply run_seq; [reflexivity| |reflexivity].
    eapply run_seq; [reflexivity| |reflexivity].
    rewrite !found_by_name by auto. unfold wg at 1 2. simpl w_groups.
    rewrite Hfind1, Hfind2.
    eapply run_seq; [reflexivity| |reflexivity].
    eapply run_seq; [exact Hd2| |reflexivity].
    rewrite Hpage.
    eapply run_seq; [exact He2| |reflexivity].
    eapply run_seq; [reflexivity| |reflexivity].
    eapply run_seq; [exact Hg2| |reflexivity].
    reflexivity.
  - done.
  - rewrite !authorize_replies_app, Hrd2, Hre2, Hrg2. done.
Qed.

End idempotence.

(** C3.  In every invocation and for every rule of the two rule sets, a
    duplicate-rule error of the provider is swallowed and the loop goes on
    with the remaining rules, and any other error of [authorize] is raised
    with no further rule attempted.  Hence, on a provider that refuses a
    rule a group already has as a duplicate, running the operation a
    second time for the same caller (the echo service reports the address
    it reported to the first run) returns the same groups and leaves the
    rule sets as the first run left them: every rule of the second run is
    refused as a duplicate. *)
Theorem security_groups_twice {W : Type} (handler : forall X : Type, call X -> W -> X * W)
    (body_of : Job -> prog unit) (schedule : list nat)
    (cluster_name : string) (vpc_id : option string) (region : string)
    (w w1 : World) gs tr :
  run fake body_of schedule
    (get_or_create_ec2_security_groups cluster_name vpc_id region) w
  = (Returned gs, w1, tr) →
  address_seen w1 = address_seen w →
  (∀ group rule rules (v : W),
     let answer := (handler _ (authorize group rule) v).1 in
     let v1 := (handler _ (authorize group rule) v).2 in
     (goes_on answer = true →
      run handler body_of schedule (for_each (rule :: rules) (authorize_rule group)) v
      = ((run handler body_of schedule (for_each rules (authorize_rule group)) v1).1,
         Called (authorize group rule) answer
           :: (run handler body_of schedule (for_each rules (authorize_rule group)) v1).2))
     ∧ (∀ e, answer = Err e → goes_on answer = false →
        (run handler body_of schedule
           (for_each (rule :: rules) (authorize_rule group)) v).1.1 = Raised e
        ∧ authorize_replies
            (run handler body_of schedule
               (for_each (rule :: rules) (authorize_rule group)) v).2 = [answer]))
  ∧ ∃ w2 tr2,
      run fake body_of schedule
        (get_or_create_ec2_security_groups cluster_name vpc_id region) w1
      = (Returned gs, w2, tr2)
      ∧ w_groups w2 = w_groups w1
      ∧ authorize_replies tr2 = replicate 6 (Err duplicate).
Proof.
  intros Hfirst Haddr. split.
  - intros group rule rules v answer v1.
    destruct (authorize_rules_run handler body_of schedule group rule rules v) as [Hon Hoff].
    split; [exact Hon|].
    intros e He Hstop. destruct (Hoff e He Hstop) as (Ho & said & Htr & Hsaid).
    split; [exact Ho|]. fold answer in Htr. rewrite Htr. simpl. f_equal.
    clear Htr. induction Hsaid as [|ev said Hev _ IH]; [done|].
    simpl. destruct ev as [X c x| | | | | |]; try done. by destruct c.
  - by eapply get_or_create_again.
Qed.

(** A world in which the caller's address stays the same, and one in which
    it changes between two runs. *)
Definition fixed_address : World := world_of [].

Definition moving_address : World :=
  {| w_instances := []; w_groups := []; w_checkip := ["203.0.113.7"; "198.51.100.9"];
     w_next := 0; w_clock := 0; w_template := "" |}.

Definition ensure (w : World) : outcome (list SecurityGroup) * World * list event :=
  run fake (job_prog 0) [] (get_or_create_ec2_security_groups "c" None "us-east-1") w.

Lemma security_groups_twice_witness :
  ∃ w2 tr2,
    ensure (ensure fixed_address).1.2 = (Returned [
      {| sg_id := "sg-flintrock"; sg_name := "flintrock"; sg_vpc_id := None |};
      {| sg_id := "sg-flintrock-c"; sg_name := "flintrock-c"; sg_vpc_id := None |}], w2, tr2)
    ∧ w_groups w2 = w_groups (ensure fixed_address).1.2
    ∧ authorize_replies tr2 = replicate 6 (Err duplicate).
Proof.
  refine (proj2 (security_groups_twice fake (job_prog 0) [] "c" None "us-east-1"
                   fixed_address (ensure fixed_address).1.2 _ (ensure fixed_address).2 _ _));
    reflexivity.
Defined.

(** The client rules follow the caller's address: a run from another
    address adds the client rules for that address to the base group,
    beside the ones that are there. *)
Example security_groups_twice_new_address :
  (ensure moving_address).1.1 = (ensure (ensure moving_address).1.2).1.1
  ∧ authorize_replies (ensure (ensure moving_address).1.2).2
    = [Ok tt; Ok tt; Ok tt; Err duplicate; Err duplicate; Err duplicate]
  ∧ map (fun g => length g.2) (w_groups (ensure moving_address).1.2) = [3; 3]%nat
  ∧ map (fun g => length g.2) (w_groups (ensure (ensure moving_address).1.2).1.2)
    = [6; 3]%nat.
Proof. split_and!; reflexivity. Qed.

(** ** The executor *)

(** The events of the executor's threads: their calls and the completion
    of their jobs. *)
Definition of_workers (ev : event) : Prop :=
  match ev with
  | Worker _ _ _ | Finished _ _ => True
  | _ => False
  end.

(** A thread as the pool holds it: waiting on a call, done, or spinning. *)
Definition settled (p : prog unit) : Prop :=
  match p with
  | Mark _ _ | Fork _ _ => False
  | _ => True
  end.

Lemma settle_settled p : settled (settle p).
Proof. induction p; simpl; auto. Qed.

Definition result_of (o : outcome unit) : option (result unit) :=
  match o with
  | Returned a => Some (Ok a)
  | Raised e => Some (Err e)
  | Spinning => None
  end.

Lemma all_results_lookup outs results i r :
  all_results outs = Some results → results !! i = Some r →
  ∃ o, outs !! i = Some o ∧ result_of o = Some r.
Proof.
  revert results i. induction outs as [|o outs IH]; intros results i H Hi; simpl in H.
  - injection H as <-. done.
  - destruct o as [a|e|]; [| |done];
      destruct (all_results outs) as [rest|] eqn:Hrest; simpl in H; try done;
      injection H as <-; (destruct i as [|i]; simpl in Hi;
        [injection Hi as <-; eexists; by split | by apply (IH rest)]).
Qed.

Lemma all_results_length outs results :
  all_results outs = Some results → length results = length outs.
Proof.
  revert results. induction outs as [|o outs IH]; intros results H; simpl in H.
  - by injection H as <-.
  - destruct o as [a|e|]; [| |done];
      destruct (all_results outs) as [rest|] eqn:Hrest; simpl in H; try done;
      injection H as <-; simpl; by rewrite (IH rest).
Qed.

Section executor.

Context {W : Type}.
Variable handler : forall X : Type, call X -> W -> X * W.
Variable body_of : Job -> prog unit.
Variable schedule : list nat.

Lemma run_thread_workers job p (w : W) :
  Forall of_workers (run_thread handler job p w).2.
Proof.
  revert w. induction p as [a|e| |X c k IH|m k IH|jobs k IH]; intros w; simpl; try done.
  destruct (handler X c w) as [x w1]. specialize (IH x w1).
  destruct (run_thread handler job (k x) w1) as [[o w2] tr]. by constructor.
Qed.

Lemma run_thread_done job p (w : W) :
  settled p →
  match p with
  | Ret a => (run_thread handler job p w).1.1 = Returned a
  | Raise e => (run_thread handler job p w).1.1 = Raised e
  | Spin => (run_thread handler job p w).1.1 = Spinning
  | _ => True
  end.
Proof. by destruct p. Qed.

Lemma done_event_workers i p : Forall of_workers (done_event i p).
Proof. destruct p; simpl; by repeat constructor. Qed.

Lemma done_outcome_workers i o : Forall of_workers (done_outcome i o).
Proof. destruct o; simpl; by repeat constructor. Qed.

Lemma par_steps_spec sched pool (w : W) :
  let '(pool', w', tr) := par_steps handler sched pool w in
  length pool' = length pool
  ∧ Forall of_workers tr
  ∧ (Forall settled pool → Forall settled pool')
  ∧ ∀ i p', pool' !! i = Some p' →
      pool !! i = Some p' ∨ (∀ ev, ev ∈ done_event i p' → ev ∈ tr).
Proof.
  revert pool w. induction sched as [|i0 sched IH]; intros pool w; simpl.
  - split_and!; [done|done|done|]. intros i p' Hp'. by left.
  - destruct (pool !! i0) as [p0|] eqn:Hp0; [|apply IH].
    destruct p0 as [a|e| |X c k|m k|jobs k]; try apply IH.
    destruct (handler X c w) as [x w1].
    specialize (IH (<[i0 := settle (k x)]> pool) w1).
    destruct (par_steps handler sched (<[i0 := settle (k x)]> pool) w1) as [[pool' w2] tr].
    destruct IH as (Hlen & Hworkers & Hsettled & Hdone).
    split_and!.
    + by rewrite Hlen, length_insert.
    + constructor; [done|]. apply Forall_app. split; [apply done_event_workers|done].
    + intros Hall. apply Hsettled. apply Forall_insert; [done|apply settle_settled].
    + intros i p' Hp'. destruct (Hdone i p' Hp') as [Hsame|Hlogged].
      * destruct (decide (i = i0)) as [->|Hne].
        -- right. intros ev Hev.
           rewrite list_lookup_insert_eq in Hsame
             by (by apply lookup_lt_Some in Hp0).
           injection Hsame as <-. set_solver.
        -- left. by rewrite list_lookup_insert_ne in Hsame.
      * right. intros ev Hev. set_solver.
Qed.

Lemma drain_spec job pool (w : W) :
  let '(outs, w', tr) := drain handler job pool w in
  length outs = length pool
  ∧ Forall of_workers tr
  ∧ ∀ i p o, pool !! i = Some p → outs !! i = Some o → settled p →
      match p with
      | Ret a => o = Returned a
      | Raise e => o = Raised e
      | Spin => o = Spinning
      | _ => ∀ ev, ev ∈ done_outcome (job + i) o → ev ∈ tr
      end.
Proof.
  revert job w. induction pool as [|p pool IH]; intros job w; simpl; [done|].
  pose proof (run_thread_workers job p w) as Hworkers.
  pose proof (run_thread_done job p w) as Hdone.
  destruct (run_thread handler job p w) as [[o w1] tr1].
  specialize (IH (S job) w1).
  destruct (drain handler (S job) pool w1) as [[os w2] tr2].
  destruct IH as (Hlen & Hworkers2 & Hrest).
  split_and!.
  - simpl. by rewrite Hlen.
  - apply Forall_app. split; [done|]. apply Forall_app. split; [|done].
    destruct p; try done. apply done_outcome_workers.
  - intros i p' o' Hp' Ho' Hsettled. destruct i as [|i]; simpl in Hp', Ho'.
    + injection Hp' as <-. injection Ho' as <-. specialize (Hdone Hsettled).
      destruct p; try done. rewrite Nat.add_0_r. intros ev Hev. set_solver.
    + specialize (Hrest i p' o' Hp' Ho' Hsettled).
      destruct p'; try done. intros ev Hev.
      replace (job + S i)%nat with (S job + i)%nat in Hev by lia.
      specialize (Hrest ev Hev). set_solver.
Qed.

(** A join sees every job: when all jobs are done, the completion of each
    of them, with the result the join hands on, is among the events of
    the fork; and these events are the threads' own. *)
Lemma fork_join_spec jobs (w : W) :
  let '(outs, w', tr) := fork_join handler body_of schedule jobs w in
  ∃ workers,
    tr = Forked jobs :: workers
    ∧ Forall of_workers workers
    ∧ length outs = length jobs
    ∧ ∀ results, all_results outs = Some results →
        ∀ i r, results !! i = Some r → Finished i r ∈ workers.
Proof.
  unfold fork_join.
  set (pool := map (fun j => settle (body_of j)) jobs).
  assert (Forall settled pool) as Hpool.
  { apply Forall_map. apply Forall_true. intros j. apply settle_settled. }
  pose proof (par_steps_spec schedule pool w) as Hsteps.
  destruct (par_steps handler schedule pool w) as [[pool1 w1] tr1].
  destruct Hsteps as (Hlen1 & Hworkers1 & Hsettled1 & Hdone1).
  pose proof (drain_spec 0 pool1 w1) as Hdrain.
  destruct (drain handler 0 pool1 w1) as [[outs w2] tr2].
  destruct Hdrain as (Hlen2 & Hworkers2 & Hdone2).
  eexists. split_and!; [done| | |].
  - apply Forall_app. split; [|by apply Forall_app].
    apply Forall_concat. apply Forall_forall.
    intros l [i [p [-> Hp]]]%elem_of_lookup_imap. apply done_event_workers.
  - rewrite Hlen2, Hlen1. unfold pool. by rewrite length_map.
  - intros results Hall i r Hr.
    destruct (all_results_lookup outs results i r Hall Hr) as (o & Ho & Hresult).
    destruct (lookup_lt_is_Some_2 pool1 i) as [p1 Hp1].
    { rewrite <- Hlen2. by apply lookup_lt_Some in Ho. }
    specialize (Hsettled1 Hpool).
    assert (settled p1) as Hs1.
    { rewrite Forall_forall in Hsettled1. apply Hsettled1.
      by apply list_elem_of_lookup_2 in Hp1. }
    specialize (Hdone2 i p1 o Hp1 Ho Hs1). simpl in Hdone2.
    assert (∀ ev, ev ∈ done_event i p1 → ev ∈ concat (imap done_event pool) ++ tr1)
      as Hearly.
    { intros ev Hev. destruct (Hdone1 i p1 Hp1) as [Hsame|Hlogged].
      - apply elem_of_app. left. apply list_elem_of_In, in_concat.
        exists (done_event i p1). split; [|by apply list_elem_of_In].
        apply list_elem_of_In, elem_of_lookup_imap. by exists i, p1.
      - apply elem_of_app. right. by apply Hlogged. }
    destruct p1 as [a|e| |X c k|m k|js k]; try done.
    + subst o. injection Hresult as <-.
      rewrite app_assoc. apply elem_of_app. left. apply Hearly. simpl. set_solver.
    + subst o. injection Hresult as <-.
      rewrite app_assoc. apply elem_of_app. left. apply Hearly. simpl. set_solver.
    + by subst o.
    + apply elem_of_app. right. apply elem_of_app. right. apply Hdone2.
      destruct o; simpl in *; [injection Hresult as <-|injection Hresult as <-|done];
        set_solver.
Qed.

(** A wait that is ended by an exception leaves the events of the threads
    up to then. *)
Lemma fork_interrupted_spec jobs (w w' : W) e tr :
  fork_interrupted handler body_of schedule jobs w = Some (e, w', tr) →
  ∃ workers, tr = Forked jobs :: workers ∧ Forall of_workers workers.
Proof.
  unfold fork_interrupted.
  set (pool := map (fun j => settle (body_of j)) jobs).
  pose proof (par_steps_spec schedule pool w) as Hsteps.
  destruct (par_steps handler schedule pool w) as [[pool1 w1] tr1].
  destruct Hsteps as (_ & Hworkers1 & _ & _).
  destruct (handler _ loop_wait w1) as [[[]|e'] w2]; [done|].
  intros [= <- <- <-]. eexists. split; [done|].
  apply Forall_app. split; [|done].
  apply Forall_concat. apply Forall_forall.
  intros l [i [p [-> Hp]]]%elem_of_lookup_imap. apply done_event_workers.
Qed.

End executor.

(** ** What a run shows of the orchestration

    The orderings are read from the marks, the fork, the completions and
    the join, and from the main thread's calls that launch and tag
    instances.  A wait that is cut short shows nothing of its own: the
    main thread goes on with the exception. *)

Definition provisioning {X : Type} (c : call X) : bool :=
  match c with
  | run_instances _ _ | create_tags _ _ _ => true
  | _ => false
  end.

Definition visible (ev : event) : bool :=
  match ev with
  | Called c _ => provisioning c
  | Worker _ _ _ | Interrupted _ => false
  | _ => true
  end.

Definition view (tr : list event) : list event := List.filter visible tr.

Lemma view_app tr1 tr2 : view (tr1 ++ tr2) = view tr1 ++ view tr2.
Proof. apply List.filter_app. Qed.

Lemma view_elem ev tr : ev ∈ view tr → ev ∈ tr.
Proof. unfold view. rewrite !list_elem_of_In, filter_In. tauto. Qed.

Lemma elem_view ev tr : ev ∈ tr → visible ev = true → ev ∈ view tr.
Proof. unfold view. rewrite !list_elem_of_In, filter_In. tauto. Qed.

(** A program that shows nothing: no mark, no fork, no launching or
    tagging. *)
Inductive silent {A : Type} : prog A -> Prop :=
| silent_Ret a : silent (Ret a)
| silent_Raise e : silent (Raise e)
| silent_Spin : silent Spin
| silent_Do {X : Type} (c : call X) k :
    provisioning c = false → (∀ x, silent (k x)) → silent (Do c k).

Create HintDb silent.
#[local] Hint Constructors silent : silent.

Lemma silent_bind {A B : Type} (p : prog A) (f : A -> prog B) :
  silent p → (∀ a, silent (f a)) → silent (bind p f).
Proof. induction 1; simpl; auto with silent. Qed.

Lemma silent_try_except {A : Type} (p : prog A) h :
  silent p → (∀ e q, h e = Some q → silent q) → silent (try_except p h).
Proof.
  induction 1 as [a|e| |X c k Hc Hk IH]; intros Hh; simpl; auto with silent.
  destruct (h e) as [q|] eqn:Hq; eauto with silent.
Qed.

Lemma silent_try_finally {A : Type} (p : prog A) q :
  silent p → silent q → silent (try_finally p q).
Proof.
  induction 1; intros Hq; simpl; auto using silent_bind with silent.
Qed.

Lemma silent_for_each {A : Type} (xs : list A) body :
  (∀ x, silent (body x)) → silent (for_each xs body).
Proof. intros Hbody. induction xs; simpl; auto using silent_bind with silent. Qed.

Lemma silent_ask {X : Type} (c : call X) : provisioning c = false → silent (ask c).
Proof. intros Hc. unfold ask. auto with silent. Qed.

Lemma silent_perform {A : Type} (c : call (result A)) :
  provisioning c = false → silent (perform c).
Proof.
  intros Hc. unfold perform. constructor; [done|]. intros [a|e]; auto with silent.
Qed.

Lemma silent_of_result {A : Type} (r : result A) : silent (of_result r).
Proof. destruct r; simpl; auto with silent. Qed.

Lemma silent_item0 {A : Type} (l : list A) : silent (item0 l).
Proof. destruct l; simpl; auto with silent. Qed.

#[local] Hint Resolve silent_bind silent_try_except silent_try_finally silent_for_each
  silent_ask silent_perform silent_of_result silent_item0 : silent.

Ltac silence_with known :=
  repeat first
    [ progress intros
    | known
    | reflexivity
    | apply silent_for_each
    | apply silent_try_finally
    | apply silent_ask
    | apply silent_perform
    | apply silent_of_result
    | apply silent_item0
    | apply silent_Ret
    | apply silent_Raise
    | apply silent_Spin
    | apply silent_bind
    | apply silent_Do
    | match goal with
      | |- silent (match ?x with _ => _ end) => destruct x
      | |- silent (if ?x then _ else _) => destruct x
      | |- silent (let '(_, _) := ?x in _) => destruct x
      end ].

Ltac silence := silence_with fail.

Lemma silent_connect region method : silent (connect region method).
Proof. unfold connect. silence. Qed.

Lemma silent_authorize_rule group rule : silent (authorize_rule group rule).
Proof.
  unfold authorize_rule. apply silent_try_except; [silence|].
  intros e q. destruct e; try done. intros [= <-]. silence.
Qed.

Lemma silent_get_or_create_ec2_security_groups cluster_name vpc_id region :
  silent (get_or_create_ec2_security_groups cluster_name vpc_id region).
Proof.
  unfold get_or_create_ec2_security_groups.
  silence_with ltac:(first [apply silent_connect | apply silent_authorize_rule]).
Qed.

Lemma silent_get_cluster_instances_ec2 cluster_name region :
  silent (get_cluster_instances_ec2 cluster_name region).
Proof. unfold get_cluster_instances_ec2. silence_with ltac:(apply silent_connect). Qed.

Lemma silent_wait_for_state awaited fuel instances :
  silent (wait_for_state awaited fuel instances).
Proof.
  revert instances. induction fuel as [|fuel IH]; intros instances; simpl;
    destruct (first_not_in awaited instances 0) as [[position instance]|];
    silence_with ltac:(apply IH).
Qed.

Lemma silent_get_ssh_client fuel user host identity_file print_status :
  silent (get_ssh_client fuel user host identity_file print_status).
Proof.
  induction fuel as [|fuel IH]; simpl; [constructor|].
  constructor; [done|]. intros [[]|e].
  - silence.
  - destruct e; silence_with ltac:(apply IH).
Qed.

Lemma silent_ssh_check_output client command : silent (ssh_check_output client command).
Proof. unfold ssh_check_output. silence. Qed.

Lemma silent_configure_master module client cluster_info :
  silent (configure_master module client cluster_info).
Proof.
  unfold configure_master. silence_with ltac:(apply silent_ssh_check_output).
Qed.

Lemma silent_health_check module master_host : silent (health_check module master_host).
Proof.
  unfold health_check. apply silent_bind; [|silence].
  apply silent_try_except; [silence|].
  intros e q. destruct (is_Exception e); [|done]. intros [= <-]. silence.
Qed.

Section view.

Context {W : Type}.
Variable handler : forall X : Type, call X -> W -> X * W.
Variable body_of : Job -> prog unit.
Variable schedule : list nat.

Local Abbreviation run := (run handler body_of schedule).

Lemma silent_run {A : Type} (p : prog A) (w : W) : silent p → view (run p w).2 = [].
Proof.
  intros Hp. revert w. induction Hp as [a|e| |X c k Hc Hk IH]; intros w; simpl; try done.
  destruct (handler X c w) as [x w1]. specialize (IH x w1).
  destruct (run (k x) w1) as [[o w2] tr]. simpl in *. by rewrite Hc.
Qed.

(** A silent step in front of a program shows nothing of its own. *)
Lemma view_bind_silent {A B : Type} (p : prog A) (f : A -> prog B) (w : W) :
  silent p →
  view (run (bind p f) w).2
  = match (run p w).1.1 with
    | Returned a => view (run (f a) (run p w).1.2).2
    | _ => []
    end.
Proof.
  intros Hp. rewrite run_bind. pose proof (silent_run p w Hp) as Hview.
  destruct (run p w) as [[o w1] tr1]. simpl in *.
  destruct o as [a|e|]; simpl; [|done..].
  destruct (run (f a) w1) as [[o2 w2] tr2]. simpl. by rewrite view_app, Hview.
Qed.

Lemma outcome_bind {A B : Type} (p : prog A) (f : A -> prog B) (w : W) :
  (run (bind p f) w).1.1
  = match (run p w).1.1 with
    | Returned a => (run (f a) (run p w).1.2).1.1
    | Raised e => Raised e
    | Spinning => Spinning
    end.
Proof.
  rewrite run_bind. destruct (run p w) as [[o w1] tr1]. simpl.
  destruct o as [a|e|]; simpl; [|done..].
  by destruct (run (f a) w1) as [[o2 w2] tr2].
Qed.

End view.

(** ** The order of a launch *)

Definition round (position : nat) (module : Module) : list event :=
  [Marked (invoke "configure_master" position module);
   Marked (complete "configure_master" position module);
   Marked (invoke "health_check" position module);
   Marked (complete "health_check" position module)].

Fixpoint rounds (position : nat) (modules : list Module) : list event :=
  match modules with
  | [] => []
  | module :: rest => round position module ++ rounds (S position) rest
  end.

Definition is_finished (ev : event) : Prop :=
  match ev with
  | Finished _ _ => True
  | _ => False
  end.

Lemma split_at {A : Type} (x : A) (l1 l2 a b : list A) :
  l1 ++ x :: l2 = a ++ b → x ∉ a → ∃ c, l1 = a ++ c ∧ b = c ++ x :: l2.
Proof.
  revert l1. induction a as [|y a IH]; intros l1 H Hx; simpl in *.
  - exists l1. by split.
  - destruct l1 as [|z l1]; simpl in H.
    + injection H as -> _. set_solver.
    + injection H as -> H. destruct (IH l1 H) as (c & -> & ->); [set_solver|].
      by exists c.
Qed.

Lemma view_of_workers tr : Forall of_workers tr → Forall is_finished (view tr).
Proof.
  induction 1 as [|ev tr Hev _ IH]; [constructor|].
  destruct ev; simpl in *; try done. by constructor.
Qed.

Section order.

Context {W : Type}.
Variable handler : forall X : Type, call X -> W -> X * W.
Variable body_of : Job -> prog unit.
Variable schedule : list nat.

Local Abbreviation run := (run handler body_of schedule).

Lemma view_bind {A B : Type} (p : prog A) (f : A -> prog B) (w : W) :
  view (run (bind p f) w).2
  = view (run p w).2
    ++ match (run p w).1.1 with
       | Returned a => view (run (f a) (run p w).1.2).2
       | _ => []
       end.
Proof.
  rewrite run_bind. destruct (run p w) as [[o w1] tr1]. simpl.
  destruct o as [a|e|]; simpl; [|by rewrite app_nil_r..].
  destruct (run (f a) w1) as [[o2 w2] tr2]. simpl. by rewrite view_app.
Qed.

Lemma view_mark {A : Type} (m : marker) (q : prog A) (w : W) :
  view (run (mark m;; q) w).2 = Marked m :: view (run q w).2
  ∧ (run (mark m;; q) w).1.1 = (run q w).1.1.
Proof. simpl. by destruct (run q w) as [[o w1] tr]. Qed.

Lemma view_try_finally_silent {A : Type} (p : prog A) (q : prog unit) (w : W) :
  silent q →
  view (run (try_finally p q) w).2 = view (run p w).2
  ∧ ∀ a, (run (try_finally p q) w).1.1 = Returned a → (run p w).1.1 = Returned a.
Proof.
  intros Hq. rewrite run_try_finally. destruct (run p w) as [[o w1] tr1]. simpl.
  destruct o as [a|e|]; simpl.
  - pose proof (silent_run handler body_of schedule (q ;; Ret a) w1
                  ltac:(silence_with ltac:(exact Hq))) as Hv.
    pose proof (outcome_bind handler body_of schedule q (fun _ => Ret a) w1) as Ho.
    destruct (run (q;; Ret a) w1) as [[o2 w2] tr2]. simpl in *.
    rewrite view_app, Hv, app_nil_r. split; [done|].
    intros a' ->. destruct ((run q w1).1.1); simpl in Ho; congruence.
  - pose proof (silent_run handler body_of schedule (q ;; Raise e : prog A) w1
                  ltac:(silence_with ltac:(exact Hq))) as Hv.
    pose proof (outcome_bind handler body_of schedule q (fun _ => Raise e : prog A) w1)
      as Ho.
    destruct (run (q;; Raise e) w1) as [[o2 w2] tr2]. simpl in *.
    rewrite view_app, Hv, app_nil_r. split; [done|].
    intros a' ->. destruct ((run q w1).1.1); done.
  - done.
Qed.

Variables (master_ssh_client : SSHClient) (cluster_info : ClusterInfo).

(** One turn of the master-side loop, as [launch_cluster] writes it. *)
Definition bring_up (position : nat) (module : Module) : prog unit :=
  mark (invoke "configure_master" position module);;
  configure_master module master_ssh_client cluster_info;;
  mark (complete "configure_master" position module);;
  perform (time_sleep 30);;
  mark (invoke "health_check" position module);;
  health_check module (master_host cluster_info);;
  mark (complete "health_check" position module).

Lemma bring_up_view position module (w : W) :
  view (run (bring_up position module) w).2 `prefix_of` round position module
  ∧ ((run (bring_up position module) w).1.1 = Returned tt →
     view (run (bring_up position module) w).2 = round position module).
Proof.
  unfold bring_up, round.
  destruct (view_mark (invoke "configure_master" position module)
              (configure_master module master_ssh_client cluster_info;;
               mark (complete "configure_master" position module);;
               perform (time_sleep 30);;
               mark (invoke "health_check" position module);;
               health_check module (master_host cluster_info);;
               mark (complete "health_check" position module)) w) as [-> ->].
  rewrite view_bind_silent, outcome_bind by apply silent_configure_master.
  destruct (run (configure_master module master_ssh_client cluster_info) w)
    as [[o1 w1] tr1]. cbn [fst snd].
  destruct o1 as [[]|e|]; [|split; [by eexists|done]..].
  destruct (view_mark (complete "configure_master" position module)
              (perform (time_sleep 30);;
               mark (invoke "health_check" position module);;
               health_check module (master_host cluster_info);;
               mark (complete "health_check" position module)) w1) as [-> ->].
  rewrite view_bind_silent, outcome_bind by (by apply silent_perform).
  destruct (run (perform (time_sleep 30)) w1) as [[o2 w2] tr2]. cbn [fst snd].
  destruct o2 as [[]|e|]; [|split; [by eexists|done]..].
  destruct (view_mark (invoke "health_check" position module)
              (health_check module (master_host cluster_info);;
               mark (complete "health_check" position module)) w2) as [-> ->].
  rewrite view_bind_silent, outcome_bind by apply silent_health_check.
  destruct (run (health_check module (master_host cluster_info)) w2) as [[o3 w3] tr3].
  cbn [fst snd].
  destruct o3 as [[]|e|]; [|split; [by eexists|done]..].
  split; [by exists []|done].
Qed.

Lemma master_loop_view position modules (w : W) :
  view (run (for_each_module modules position bring_up) w).2
    `prefix_of` rounds position modules
  ∧ ((run (for_each_module modules position bring_up) w).1.1 = Returned tt →
     view (run (for_each_module modules position bring_up) w).2 = rounds position modules).
Proof.
  revert position w. induction modules as [|module modules IH]; intros position w.
  - split; [by exists []|done].
  - change (for_each_module (module :: modules) position bring_up)
      with (bring_up position module;; for_each_module modules (S position) bring_up).
    rewrite view_bind, outcome_bind.
    change (rounds position (module :: modules))
      with (round position module ++ rounds (S position) modules).
    destruct (bring_up_view position module w) as [Hprefix Hfull].
    destruct (run (bring_up position module) w) as [[o1 w1] tr1]. cbn [fst snd] in *.
    destruct o1 as [[]|e|].
    + rewrite (Hfull eq_refl). destruct (IH (S position) w1) as [Hp Hf].
      split; [by apply prefix_app|]. intros Hr. by rewrite (Hf Hr).
    + rewrite app_nil_r. split; [|done]. by apply prefix_app_r.
    + rewrite app_nil_r. split; [|done]. by apply prefix_app_r.
Qed.

End order.

Lemma first_not_in_none awaited instances position :
  first_not_in awaited instances position = None →
  Forall (fun instance => state instance = awaited) instances.
Proof.
  revert position. induction instances as [|instance rest IH]; intros position H;
    [constructor|]. simpl in H.
  destruct (String.eqb (state instance) awaited) eqn:Hstate; [|done].
  constructor; [by apply String.eqb_eq|by eapply IH].
Qed.

Lemma first_not_in_some awaited instances position found instance :
  first_not_in awaited instances position = Some (found, instance) →
  (position <= found)%nat ∧ instances !! (found - position)%nat = Some instance.
Proof.
  revert position. induction instances as [|x rest IH]; intros position H; [done|].
  simpl in H. destruct (String.eqb (state x) awaited).
  - destruct (IH _ H) as [Hle Hlookup]. split; [lia|].
    by replace (found - position)%nat with (S (found - S position)) by lia.
  - injection H as <- <-. split; [lia|]. by rewrite Nat.sub_diag.
Qed.

(** One step of the main thread at a fork. *)
Ltac run_fork := cbn [run].

Section story.

Context {W : Type}.
Variable handler : forall X : Type, call X -> W -> X * W.
Variable body_of : Job -> prog unit.
Variable schedule : list nat.

Local Abbreviation run := (run handler body_of schedule).

(** Refreshing a handle leaves its id alone. *)
Definition update_keeps_id : Prop :=
  ∀ (instance refreshed : Instance) (w : W),
    (handler _ (instance_update instance) w).1 = Ok refreshed →
    instance_id refreshed = instance_id instance.

Lemma outcome_perform {A B : Type} (c : call (result A)) (f : A -> prog B) (w : W) :
  (run (x ← perform c; f x) w).1.1
  = match (handler _ c w).1 with
    | Ok a => (run (f a) (handler _ c w).2).1.1
    | Err e => Raised e
    end.
Proof.
  simpl. destruct (handler _ c w) as [[a|e] w1]; simpl; [|done].
  by destruct (run (f a) w1) as [[o w2] tr].
Qed.

Lemma view_perform {A B : Type} (c : call (result A)) (f : A -> prog B) (w : W) :
  view (run (x ← perform c; f x) w).2
  = (if provisioning c then [Called c (handler _ c w).1] else [])
    ++ match (handler _ c w).1 with
       | Ok a => view (run (f a) (handler _ c w).2).2
       | Err e => []
       end.
Proof.
  simpl. destruct (handler _ c w) as [[a|e] w1]; simpl.
  - destruct (run (f a) w1) as [[o w2] tr]. simpl. by destruct (provisioning c).
  - by destruct (provisioning c).
Qed.

Lemma wait_for_state_returned awaited fuel instances (w : W) waited :
  (run (wait_for_state awaited fuel instances) w).1.1 = Returned waited →
  Forall (fun instance => state instance = awaited) waited
  ∧ length waited = length instances
  ∧ (update_keeps_id → map instance_id waited = map instance_id instances).
Proof.
  revert instances w. induction fuel as [|fuel IH]; intros instances w;
    cbn [wait_for_state];
    destruct (first_not_in awaited instances 0) as [[position instance]|] eqn:Hscan.
  - done.
  - intros [= <-]. eauto using first_not_in_none.
  - rewrite outcome_perform.
    destruct (handler _ (instance_update instance) w) as [[refreshed|e] w1] eqn:Hupdate;
      [|done].
    cbn [fst snd]. rewrite outcome_perform.
    destruct (handler _ (time_sleep 3) w1) as [[[]|e] w2]; [|done].
    cbn [fst snd]. intros Hrun. destruct (IH _ _ Hrun) as (Hstate & Hlength & Hids).
    split_and!; [done|by rewrite Hlength, length_insert|].
    intros Hkeeps. rewrite (Hids Hkeeps), list_fmap_insert.
    apply list_insert_id. rewrite list_lookup_fmap.
    destruct (first_not_in_some _ _ _ _ _ Hscan) as [_ Hlookup].
    rewrite Nat.sub_0_r in Hlookup. rewrite Hlookup. simpl. f_equal.
    symmetry. apply (Hkeeps instance refreshed w). by rewrite Hupdate.
  - intros [= <-]. eauto using first_not_in_none.
Qed.

(** The check after the join: [future.result()] on every future. *)
Definition check (done : list (result unit)) (i : nat) : prog unit :=
  match done !! i with
  | Some (Err e) => Raise e
  | _ => Ret tt
  end.

Lemma check_returned done positions (w : W) :
  (run (for_each positions (check done)) w).1.1 = Returned tt →
  ∀ i e, i ∈ positions → done !! i ≠ Some (Err e).
Proof.
  induction positions as [|p positions IH]; intros Hrun i e Hi; [by inversion Hi|].
  rewrite for_each_cons, outcome_bind in Hrun.
  assert (check done p = match done !! p with Some (Err e) => Raise e | _ => Ret tt end)
    as Hcheck by reflexivity.
  destruct (done !! p) as [[[]|e']|] eqn:Hp; rewrite Hcheck in Hrun; simpl in Hrun;
    [|done|];
    (apply elem_of_cons in Hi as [->|Hi]; [by rewrite Hp|by apply IH]).
Qed.

Lemma join_story jobs (rest : prog unit) (w : W) :
  ∃ workers,
    Forall is_finished workers
    ∧ (((run (run_until_complete_wait jobs;; rest) w).1.1 ≠ Returned tt
        ∧ view (run (run_until_complete_wait jobs;; rest) w).2
            `prefix_of` Forked jobs :: workers ++ [Joined])
       ∨ (∃ w',
            (∀ i, (i < length jobs)%nat → Finished i (Ok tt) ∈ workers)
            ∧ view (run (run_until_complete_wait jobs;; rest) w).2
              = Forked jobs :: workers ++ Joined :: view (run rest w').2
            ∧ (run (run_until_complete_wait jobs;; rest) w).1.1 = (run rest w').1.1)).
Proof.
  destruct jobs as [|job jobs].
  { exists []. split; [constructor|]. left. simpl. split; [done|]. apply prefix_nil. }
  set (tasks := job :: jobs).
  change (run_until_complete_wait tasks;; rest)
    with (Fork tasks
            (fun waited =>
               match waited with
               | Err e => Raise e
               | Ok done =>
                   order ← ask (iter_order (length done));
                   for_each (order ++ seq 0 (length done)) (check done)
               end;; rest)).
  run_fork.
  destruct (fork_interrupted handler body_of schedule tasks w) as [[[e w1] tr1]|]
    eqn:Hinterrupted.
  { apply fork_interrupted_spec in Hinterrupted as (workers & -> & Hworkers).
    exists (view workers). split; [by apply view_of_workers|].
    left. cbn [bind run fst snd]. split; [done|].
    change (view ((Forked tasks :: workers) ++ [Interrupted e]))
      with (Forked tasks :: view (workers ++ [Interrupted e])).
    rewrite view_app. change (view [Interrupted e]) with (@nil event).
    rewrite app_nil_r. apply prefix_cons, prefix_app_r. done. }
  pose proof (fork_join_spec handler body_of schedule tasks w) as Hfork.
  destruct (fork_join handler body_of schedule tasks w) as [[outs w1] tr1].
  destruct Hfork as (workers & -> & Hworkers & Hlength & Hfinished).
  exists (view workers). split; [by apply view_of_workers|].
  destruct (all_results outs) as [results|] eqn:Hresults.
  - set (checks := order ← ask (iter_order (length results));
                   for_each (order ++ seq 0 (length results)) (check results)).
    assert (silent checks) as Hsilent.
    { unfold checks. apply silent_bind; [by apply silent_ask|]. intros order.
      apply silent_for_each. intros i. unfold check.
      destruct (results !! i) as [[[]|e]|]; constructor. }
    pose proof (view_bind_silent handler body_of schedule checks (fun _ => rest) w1
                  Hsilent) as Hview.
    pose proof (outcome_bind handler body_of schedule checks (fun _ => rest) w1)
      as Houtcome.
    destruct (run (checks;; rest) w1) as [[o w2] tr2]. cbn [fst snd] in *.
    change (view (Forked tasks :: workers ++ Joined :: tr2))
      with (Forked tasks :: view (workers ++ Joined :: tr2)).
    rewrite view_app.
    change (view (Joined :: tr2)) with (Joined :: view tr2). rewrite Hview, Houtcome.
    destruct ((run checks w1).1.1) as [[]|e|] eqn:Hchecks.
    + right. exists (run checks w1).1.2. split_and!; [|done..].
      intros i Hi. apply elem_view; [|done]. apply (Hfinished results eq_refl).
      unfold checks in Hchecks. rewrite outcome_bind, run_ask in Hchecks.
      cbn [fst snd] in Hchecks.
      pose proof (check_returned _ _ _ Hchecks i) as Hok.
      apply all_results_length in Hresults.
      destruct (results !! i) as [[[]|e]|] eqn:Hi'.
      * done.
      * exfalso. apply (Hok e); [|done]. apply elem_of_app. right.
        apply elem_of_seq. lia.
      * apply lookup_ge_None in Hi'. lia.
    + left. split; [done|]. by apply prefix_cons, prefix_app, prefix_cons, prefix_nil.
    + left. split; [done|]. by apply prefix_cons, prefix_app, prefix_cons, prefix_nil.
  - left. split; [done|]. cbn [fst snd].
    change (view (Forked tasks :: workers)) with (Forked tasks :: view workers).
    apply prefix_cons, prefix_app_r. done.
Qed.

End story.

Section launch_story.

Context {W : Type}.
Variable handler : forall X : Type, call X -> W -> X * W.
Variable body_of : Job -> prog unit.
Variable schedule : list nat.
Variables (cluster_name : string) (num_slaves : Z) (modules : list Module).
Variables (key_name identity_file instance_type region availability_zone ami user : string).
Variable (vpc_id : option string).
Variables (subnet_id placement_group tenancy : string) (ebs_optimized : bool).
Variable (instance_initiated_shutdown_behavior : string).

Local Abbreviation run := (run handler body_of schedule).
Local Abbreviation request :=
  (launch_request num_slaves key_name instance_type availability_zone ami subnet_id
     placement_group tenancy ebs_optimized instance_initiated_shutdown_behavior).
Local Abbreviation cluster :=
  (launch_cluster cluster_name num_slaves modules key_name identity_file instance_type
     region availability_zone ami user subnet_id placement_group tenancy ebs_optimized
     instance_initiated_shutdown_behavior).

(** The tasks handed to the executor, one for each instance. *)
Definition provision_jobs (cluster_info : ClusterInfo) (instances : list Instance)
  : list Job :=
  map (fun instance =>
         partial_provision_ec2_node modules user (ip_address instance) identity_file
           cluster_info)
      instances.

(** What a launch that goes through shows, in order: the launch call, the
    tagging of the master and of the slaves, the building of the
    [ClusterInfo], the fan-out with the completions of its tasks, the
    join, and a round for each module. *)
Definition storyline (connection : Connection) (security_groups : list SecurityGroup)
    (handles : result (list Instance)) (instances : list Instance) (master : Instance)
    (key_pair : KeyPair) (tagged_master tagged_slaves : result unit)
    (workers : list event) : list event :=
  let cluster_info :=
    build_cluster_info cluster_name (Some key_pair) master (tail instances) in
  [Called (run_instances connection (request security_groups)) handles;
   Called (create_tags connection [instance_id master] (master_tags cluster_name))
     tagged_master;
   Called (create_tags connection (map instance_id (tail instances))
             (slave_tags cluster_name)) tagged_slaves;
   Marked (cluster_info_built cluster_info instances);
   Forked (provision_jobs cluster_info instances)]
  ++ workers ++ Joined :: rounds 0 modules.

Definition nobody : Instance :=
  {| instance_id := ""; state := ""; public_dns_name := ""; ip_address := "";
     tags := ∅; groups := [] |}.

Lemma launch_cluster_story fuel security_groups (w : W) :
  ∃ connection handles instances master key_pair tagged_master tagged_slaves workers,
    view (run (cluster fuel security_groups) w).2
      `prefix_of` storyline connection security_groups handles instances master key_pair
                    tagged_master tagged_slaves workers
    ∧ Forall is_finished workers
    ∧ ((3 < length (view (run (cluster fuel security_groups) w).2))%nat →
       ∃ launched,
         handles = Ok launched
         ∧ length instances = length launched
         ∧ Forall (fun instance => state instance = "running") instances
         ∧ head instances = Some master
         ∧ tagged_master = Ok tt
         ∧ tagged_slaves = Ok tt
         ∧ (update_keeps_id handler →
            map instance_id instances = map instance_id launched))
    ∧ ((6 + length workers < length (view (run (cluster fuel security_groups) w).2))%nat →
       ∀ i, (i < length instances)%nat → Finished i (Ok tt) ∈ workers)
    ∧ ((run (cluster fuel security_groups) w).1.1 = Returned tt →
       view (run (cluster fuel security_groups) w).2
       = storyline connection security_groups handles instances master key_pair
           tagged_master tagged_slaves workers).
Proof.
  unfold launch_cluster.
  rewrite view_bind_silent, outcome_bind by apply silent_connect.
  destruct (run (connect (Some region) "run_instances") w) as [[[connection|e|] w1] t1];
    cbn [fst snd].
  2,3: exists {| region_of := "" |}, (Ok []), [], nobody, {| public := ""; private := "" |},
         (Ok tt), (Ok tt), [];
       split_and!; [apply prefix_nil|constructor|simpl; lia|simpl; lia|done].
  rewrite view_bind_silent, outcome_bind by (by apply silent_ask).
  rewrite run_ask. cbn [fst snd].
  set (w2 := (handler _ (print stdout _) w1).2). clearbody w2.
  rewrite view_perform, outcome_perform. cbn [provisioning].
  destruct (handler _ (run_instances connection (request security_groups)) w2)
    as [[launched|e] w3]; cbn [fst snd].
  2: exists connection, (Err e), [], nobody, {| public := ""; private := "" |},
       (Ok tt), (Ok tt), [];
     split_and!; [apply prefix_cons, prefix_nil|constructor|simpl; lia|simpl; lia|done].
  rewrite view_perform, outcome_perform. cbn [provisioning app].
  destruct (handler _ (time_sleep 10) w3) as [[[]|e] w4]; cbn [fst snd].
  2: exists connection, (Ok launched), [], nobody, {| public := ""; private := "" |},
       (Ok tt), (Ok tt), [];
     split_and!; [apply prefix_cons, prefix_nil|constructor|simpl; lia|simpl; lia|done].
  rewrite view_bind_silent, outcome_bind by apply silent_wait_for_state.
  pose proof (wait_for_state_returned handler body_of schedule "running" fuel launched w4)
    as Hwait.
  destruct (run (wait_for_state "running" fuel launched) w4)
    as [[[instances|e|] w5] t5]; cbn [fst snd] in *.
  2,3: exists connection, (Ok launched), [], nobody, {| public := ""; private := "" |},
         (Ok tt), (Ok tt), [];
       split_and!; [apply prefix_cons, prefix_nil|constructor|simpl; lia|simpl; lia|done].
  destruct (Hwait instances eq_refl) as (Hrunning & Hlength & Hids). clear Hwait.
  destruct instances as [|master slaves]; cbn [item0 bind tail].
  { exists connection, (Ok launched), [], nobody, {| public := ""; private := "" |},
      (Ok tt), (Ok tt), [].
    split_and!; [apply prefix_cons, prefix_nil|constructor|simpl; lia|simpl; lia|done]. }
  rewrite view_perform, outcome_perform. cbn [provisioning app].
  destruct (handler _ (create_tags connection [instance_id master] _) w5)
    as [[[]|e] w6]; cbn [fst snd].
  2: exists connection, (Ok launched), (master :: slaves), master,
       {| public := ""; private := "" |}, (Err e), (Ok tt), [];
     split_and!; [apply prefix_cons, prefix_cons, prefix_nil|constructor|simpl; lia
                 |simpl; lia|done].
  rewrite view_perform, outcome_perform. cbn [provisioning app].
  destruct (handler _ (create_tags connection (map instance_id slaves) _) w6)
    as [[[]|e] w7]; cbn [fst snd].
  2: exists connection, (Ok launched), (master :: slaves), master,
       {| public := ""; private := "" |}, (Ok tt), (Err e), [];
     split_and!; [apply prefix_cons, prefix_cons, prefix_cons, prefix_nil|constructor
                 |simpl; lia|simpl; lia|done].
  unfold generate_ssh_key_pair.
  rewrite view_perform, outcome_perform. cbn [provisioning app].
  destruct (handler _ ssh_keygen w7) as [[key_pair|e] w8]; cbn [fst snd].
  2: exists connection, (Ok launched), (master :: slaves), master,
       {| public := ""; private := "" |}, (Ok tt), (Ok tt), [];
     split_and!; [apply prefix_cons, prefix_cons, prefix_cons, prefix_nil|constructor
                 |simpl; lia|simpl; lia|done].
  set (cluster_info := build_cluster_info cluster_name (Some key_pair) master slaves).
  match goal with
  | |- context [run (mark ?m;; ?q) w8] =>
      destruct (view_mark handler body_of schedule m q w8) as [-> ->]
  end.
  match goal with
  | |- context [run (run_until_complete_wait ?jobs;; ?q) w8] =>
      destruct (join_story handler body_of schedule jobs q w8)
        as (workers & Hworkers & [[Hfailed Hprefix]|(w9 & Hfinished & -> & ->)])
  end.
  { exists connection, (Ok launched), (master :: slaves), master, key_pair, (Ok tt), (Ok tt),
      workers.
    pose proof (prefix_length _ _ Hprefix) as Hshort.
    cbn [length] in Hshort. rewrite length_app in Hshort. cbn [length] in Hshort.
    split_and!; [|done| | |done].
    - do 4 apply prefix_cons. etrans; [exact Hprefix|].
      apply prefix_cons, prefix_app, prefix_cons, prefix_nil.
    - intros _. eauto 12.
    - cbn [length]. lia. }
  exists connection, (Ok launched), (master :: slaves), master, key_pair, (Ok tt), (Ok tt),
    workers.
  assert (∀ i, (i < length (master :: slaves))%nat → Finished i (Ok tt) ∈ workers)
    as Hall.
  { intros i Hi. apply Hfinished. by rewrite length_map. }
  rewrite view_bind_silent, outcome_bind by (by apply silent_ask).
  rewrite run_ask. cbn [fst snd].
  set (w10 := (handler _ (print stdout _) w9).2). clearbody w10.
  rewrite view_bind_silent, outcome_bind by apply silent_get_ssh_client.
  destruct (run (get_ssh_client fuel user (ip_address master) identity_file false) w10)
    as [[[master_ssh_client|e|] w11] t11]; cbn [fst snd].
  2,3: split_and!; [|done|intros _; eauto 12|done|done];
       do 5 apply prefix_cons; apply prefix_app, prefix_cons, prefix_nil.
  unfold with_client.
  match goal with
  | |- context [for_each_module modules 0 ?body] =>
      change body with (bring_up master_ssh_client cluster_info)
  end.
  match goal with
  | |- context [run (try_finally ?p ?q) w11] =>
      destruct (view_try_finally_silent handler body_of schedule p q w11
                  ltac:(by apply silent_ask)) as [-> Hreturned];
      destruct (master_loop_view handler body_of schedule master_ssh_client cluster_info
                  0 modules w11) as [Hprefix Hfull]
  end.
  split_and!; [|done|intros _; eauto 12|done|].
  - do 5 apply prefix_cons. by apply prefix_app, prefix_cons.
  - intros Hrun. apply Hreturned in Hrun. unfold storyline. cbn [tail app].
    by rewrite (Hfull Hrun).
Qed.

End launch_story.

(** ** What is read from a run *)

(** The launch calls of a run, with what they were asked and answered. *)
Definition launched (ev : event)
  : option (Connection * RunInstances * result (list Instance)) :=
  match ev with
  | Called c x =>
      match c in call X return X -> option _ with
      | run_instances connection request => fun x => Some (connection, request, x)
      | _ => fun _ => None
      end x
  | _ => None
  end.

(** The tagging calls. *)
Definition tagged (ev : event)
  : option (Connection * list string * list (string * string) * result unit) :=
  match ev with
  | Called c x =>
      match c in call X return X -> option _ with
      | create_tags connection resource_ids new_tags =>
          fun x => Some (connection, resource_ids, new_tags, x)
      | _ => fun _ => None
      end x
  | _ => None
  end.

(** The [ClusterInfo] records built, with the handles they were built
    from. *)
Definition built (ev : event) : option (ClusterInfo * list Instance) :=
  match ev with
  | Marked (cluster_info_built cluster_info instances) => Some (cluster_info, instances)
  | _ => None
  end.

Definition launches (tr : list event) := omap launched tr.
Definition taggings (tr : list event) := omap tagged tr.
Definition records (tr : list event) := omap built tr.

Definition is_round (ev : event) : Prop :=
  match ev with
  | Marked (invoke _ _ _) | Marked (complete _ _ _) => True
  | _ => False
  end.

Lemma omap_view {B : Type} (f : event -> option B) tr :
  (∀ ev, visible ev = false → f ev = None) → omap f (view tr) = omap f tr.
Proof.
  intros Hf. induction tr as [|ev tr IH]; [done|].
  change (view (ev :: tr)) with (if visible ev then ev :: view tr else view tr).
  destruct (visible ev) eqn:Hev.
  - change (omap f (ev :: view tr))
      with (from_option (.:: omap f (view tr)) (omap f (view tr)) (f ev)).
    change (omap f (ev :: tr)) with (from_option (.:: omap f tr) (omap f tr) (f ev)).
    by rewrite IH.
  - change (omap f (ev :: tr)) with (from_option (.:: omap f tr) (omap f tr) (f ev)).
    by rewrite (Hf ev Hev).
Qed.

Lemma omap_none {A B : Type} (f : A -> option B) (P : A -> Prop) l :
  Forall P l → (∀ x, P x → f x = None) → omap f l = [].
Proof.
  intros Hl Hf. induction Hl as [|x l Hx _ IH]; [done|]. simpl. by rewrite (Hf x Hx).
Qed.

Lemma rounds_are_rounds position modules : Forall is_round (rounds position modules).
Proof.
  revert position. induction modules as [|module modules IH]; intros position;
    [constructor|].
  simpl. repeat constructor. apply IH.
Qed.

Lemma rounds_health_check position modules before k module after :
  rounds position modules = before ++ Marked (invoke "health_check" k module) :: after →
  Marked (complete "configure_master" k module) ∈ before.
Proof.
  revert position before. induction modules as [|m modules IH]; intros position before H.
  - by destruct before.
  - simpl in H.
    destruct before as [|e1 [|e2 [|e3 [|e4 before]]]]; simplify_eq/=.
    + set_solver.
    + do 4 right. by eapply IH.
Qed.

Lemma seen_before tr before ev after shown head rest :
  tr = before ++ ev :: after → visible ev = true →
  view tr `prefix_of` shown → shown = head ++ rest → ev ∉ head →
  ∃ between later,
    view before = head ++ between
    ∧ rest = between ++ ev :: later
    ∧ (length head + length between < length (view tr))%nat.
Proof.
  intros -> Hev [more ->] Hshown Hhead. rewrite view_app in *.
  change (view (ev :: after)) with (if visible ev then ev :: view after else view after)
    in *.
  rewrite Hev in *. rewrite <- app_assoc in Hshown. simpl in Hshown.
  destruct (split_at _ _ _ _ _ Hshown Hhead) as (between & Hbefore & Hrest).
  exists between, (view after ++ more). split_and!; [done..|].
  rewrite Hbefore, !length_app. simpl. lia.
Qed.

(** The provider honoured the count of a launch call: it answered with as
    many handles as [max_count] asks for, or with an error. *)
Definition honoured (l : Connection * RunInstances * result (list Instance)) : Prop :=
  match l.2 with
  | Ok handles => Z.of_nat (length handles) = Req.max_count l.1.2
  | Err _ => True
  end.

Section catching.

Context {W : Type}.
Variable handler : forall X : Type, call X -> W -> X * W.
Variable body_of : Job -> prog unit.
Variable schedule : list nat.

Local Abbreviation run := (run handler body_of schedule).

Lemma view_try_except {A : Type} (p : prog A) h (w : W) :
  (∀ e q, h e = Some q → silent q) →
  view (run (try_except p h) w).2 = view (run p w).2.
Proof.
  intros Hh. rewrite run_try_except. destruct (run p w) as [[[a|e|] w1] tr1]; try done.
  destruct (h e) as [q|] eqn:Hq; [|done].
  pose proof (silent_run handler body_of schedule q w1 (Hh e q Hq)) as Hview.
  destruct (run q w1) as [[o2 w2] tr2]. simpl in *. by rewrite view_app, Hview, app_nil_r.
Qed.

Lemma outcome_try_except {A : Type} (p : prog A) h (w : W) a :
  (∀ e q w', h e = Some q → (run q w').1.1 ≠ Returned a) →
  (run (try_except p h) w).1.1 = Returned a → (run p w).1.1 = Returned a.
Proof.
  intros Hh. rewrite run_try_except. destruct (run p w) as [[[a'|e|] w1] tr1]; try done.
  destruct (h e) as [q|] eqn:Hq; [|done]. specialize (Hh e q w1 Hq).
  by destruct (run q w1) as [[o2 w2] tr2].
Qed.

Lemma silent_head {A B : Type} (p : prog A) (f : A -> prog B) (w : W) :
  silent p →
  (view (run (bind p f) w).2 = [] ∧ ∀ b, (run (bind p f) w).1.1 ≠ Returned b)
  ∨ ∃ a w1,
      view (run (bind p f) w).2 = view (run (f a) w1).2
      ∧ (run (bind p f) w).1.1 = (run (f a) w1).1.1.
Proof.
  intros Hp. rewrite run_bind.
  pose proof (silent_run handler body_of schedule p w Hp) as Hview.
  destruct (run p w) as [[[a|e|] w1] tr1]; simpl in Hview.
  - right. exists a, w1. destruct (run (f a) w1) as [[o2 w2] tr2]. simpl.
    by rewrite view_app, Hview.
  - by left.
  - by left.
Qed.

Lemma timeit_story {A : Type} func_name (func : prog A) (w : W) :
  ∃ w1,
    view (run (timeit func_name func) w).2 = view (run func w1).2
    ∧ ∀ a, (run (timeit func_name func) w).1.1 = Returned a →
           (run func w1).1.1 = Returned a.
Proof.
  unfold timeit. rewrite run_bind, run_ask. cbn [fst snd].
  set (start := (handler _ datetime_now w).1). clearbody start.
  exists (handler _ datetime_now w).2.
  rewrite run_bind. destruct (run func (handler _ datetime_now w).2) as [[[a|e|] w2] tr2];
    [|done..].
  match goal with
  | |- context [run ?p w2] =>
      pose proof (silent_run handler body_of schedule p w2
                    ltac:(silence)) as Hview;
      assert ((run p w2).1.1 = Returned a) as Houtcome
        by (rewrite outcome_bind, run_ask; cbn [fst snd];
            by rewrite outcome_bind, run_print);
      destruct (run p w2) as [[o3 w3] tr3]
  end.
  simpl in *. rewrite !view_app, Hview, app_nil_r. split; [done|]. congruence.
Qed.

End catching.

Section launch_order.

Context {W : Type}.
Variable handler : forall X : Type, call X -> W -> X * W.
Variable worker_fuel : nat.
Variable schedule : list nat.
Variables (cluster_name : string) (num_slaves : Z) (modules : list Module).
Variables (key_name identity_file instance_type region availability_zone ami user : string).
Variable (vpc_id : option string).
Variables (subnet_id placement_group tenancy : string) (ebs_optimized : bool).
Variable (instance_initiated_shutdown_behavior : string).

Local Abbreviation body_of := (job_prog worker_fuel).
Local Abbreviation run := (run handler body_of schedule).
Local Abbreviation request :=
  (launch_request num_slaves key_name instance_type availability_zone ami subnet_id
     placement_group tenancy ebs_optimized instance_initiated_shutdown_behavior).
Local Abbreviation cluster :=
  (launch_cluster cluster_name num_slaves modules key_name identity_file instance_type
     region availability_zone ami user subnet_id placement_group tenancy ebs_optimized
     instance_initiated_shutdown_behavior).
Local Abbreviation launch :=
  (launch_ec2 cluster_name num_slaves modules key_name identity_file instance_type
     region availability_zone ami user vpc_id subnet_id placement_group tenancy
     ebs_optimized instance_initiated_shutdown_behavior).
Local Abbreviation story :=
  (storyline cluster_name num_slaves modules key_name identity_file instance_type
     availability_zone ami user subnet_id placement_group tenancy ebs_optimized
     instance_initiated_shutdown_behavior).

(** What [launch_ec2] shows is what its [try] block shows. *)
Lemma launch_ec2_story fuel (w : W) :
  (view (run (launch fuel) w).2 = [] ∧ (run (launch fuel) w).1.1 ≠ Returned tt)
  ∨ ∃ security_groups w',
      view (run (launch fuel) w).2 = view (run (cluster fuel security_groups) w').2
      ∧ ((run (launch fuel) w).1.1 = Returned tt →
         (run (cluster fuel security_groups) w').1.1 = Returned tt).
Proof.
  unfold launch_ec2.
  match goal with
  | |- context [run (timeit ?n ?p) w] =>
      destruct (timeit_story handler body_of schedule n p w) as (w1 & -> & Hreturned)
  end.
  match goal with
  | |- context [run (bind ?p ?f) w1] =>
      destruct (silent_head handler body_of schedule p f w1) as
        [[-> Hnot]|(found & w2 & -> & Houtcome)]
  end.
  { apply silent_try_except.
    - silence_with ltac:(apply silent_get_cluster_instances_ec2).
    - intros e q. destruct e; try done. intros [= <-]. constructor. }
  { left. split; [done|]. intros H. by apply Hreturned, Hnot in H. }
  match goal with
  | |- context [run (bind ?p ?f) w2] =>
      destruct (silent_head handler body_of schedule p f w2) as
        [[-> Hnot]|([] & w3 & -> & Houtcome2)]
  end.
  { destruct found; silence. }
  { left. split; [done|]. intros H. apply Hreturned in H. rewrite Houtcome in H.
    by apply Hnot in H. }
  match goal with
  | |- context [run (bind ?p ?f) w3] =>
      destruct (silent_head handler body_of schedule p f w3) as
        [[-> Hnot]|(security_groups & w4 & -> & Houtcome3)]
  end.
  { apply silent_get_or_create_ec2_security_groups. }
  { left. split; [done|]. intros H. apply Hreturned in H.
    rewrite Houtcome, Houtcome2 in H. by apply Hnot in H. }
  right. exists security_groups, w4. split.
  - apply view_try_except. intros e q. destruct e; try done. intros [= <-]. silence.
  - intros H. apply Hreturned in H. rewrite Houtcome, Houtcome2, Houtcome3 in H.
    revert H. apply outcome_try_except.
    intros e q w'. destruct e; try done. intros [= <-]. simpl.
    by destruct (handler _ (print stdout "Exiting...") w').
Qed.

Lemma launch_ec2_shape fuel (w : W) :
  ∃ connection security_groups handles instances master key_pair tagged_master
    tagged_slaves workers,
    view (run (launch fuel) w).2
      `prefix_of` story connection security_groups handles instances master key_pair
                    tagged_master tagged_slaves workers
    ∧ Forall is_finished workers
    ∧ ((3 < length (view (run (launch fuel) w).2))%nat →
       ∃ launched,
         handles = Ok launched
         ∧ length instances = length launched
         ∧ Forall (fun instance => state instance = "running") instances
         ∧ head instances = Some master
         ∧ tagged_master = Ok tt
         ∧ tagged_slaves = Ok tt
         ∧ (update_keeps_id handler →
            map instance_id instances = map instance_id launched))
    ∧ ((6 + length workers < length (view (run (launch fuel) w).2))%nat →
       ∀ i, (i < length instances)%nat → Finished i (Ok tt) ∈ workers)
    ∧ ((run (launch fuel) w).1.1 = Returned tt →
       view (run (launch fuel) w).2
       = story connection security_groups handles instances master key_pair
           tagged_master tagged_slaves workers).
Proof.
  destruct (launch_ec2_story fuel w) as [[-> Hnot]|(security_groups & w' & -> & Hreturned)].
  - exists {| region_of := "" |}, [], (Ok []), [], nobody, {| public := ""; private := "" |},
      (Ok tt), (Ok tt), [].
    split_and!; [apply prefix_nil|constructor|simpl; lia|simpl; lia|done].
  - destruct (launch_cluster_story handler body_of schedule cluster_name num_slaves modules
                key_name identity_file instance_type region availability_zone ami user
                subnet_id placement_group tenancy ebs_optimized
                instance_initiated_shutdown_behavior fuel security_groups w')
      as (connection & handles & instances & master & key_pair & tagged_master
          & tagged_slaves & workers & Hprefix & Hworkers & Hbuilt & Hjoined & Hfull).
    exists connection, security_groups, handles, instances, master, key_pair, tagged_master,
      tagged_slaves, workers.
    split_and!; [done..|]. intros H. by apply Hfull, Hreturned.
Qed.

(** C2.  In every run of [launch_ec2], whatever the provider, the hosts
    and the scheduling of the executor's threads do: (a) when the
    [ClusterInfo] record is built, every handle it is built from is in
    state [running], and these are the handles of the instances launched
    before; (b) when [configure_master] is invoked for a module, whichever
    it is, the task [provision_ec2_node] of every instance has been handed
    to the executor and has completed without raising; (c) when
    [health_check] is invoked for a module, [configure_master] of that
    module has completed. *)
Theorem launch_ec2_order fuel (w : W) :
  let tr := (run (launch fuel) w).2 in
  (∀ before cluster_info instances after,
     tr = before ++ Marked (cluster_info_built cluster_info instances) :: after →
     Forall (fun instance => state instance = "running") instances
     ∧ ∃ connection security_groups launched master key_pair,
         Called (run_instances connection (request security_groups)) (Ok launched) ∈ before
         ∧ length instances = length launched
         ∧ head instances = Some master
         ∧ cluster_info
           = build_cluster_info cluster_name (Some key_pair) master (tail instances))
  ∧ (∀ before position module after,
       tr = before ++ Marked (invoke "configure_master" position module) :: after →
       ∃ cluster_info instances,
         Marked (cluster_info_built cluster_info instances) ∈ before
         ∧ Forked (provision_jobs modules identity_file user cluster_info instances) ∈ before
         ∧ ∀ i, (i < length instances)%nat → Finished i (Ok tt) ∈ before)
  ∧ (∀ before position module after,
       tr = before ++ Marked (invoke "health_check" position module) :: after →
       Marked (complete "configure_master" position module) ∈ before).
Proof.
  cbv zeta.
  destruct (launch_ec2_shape fuel w)
    as (connection & security_groups & handles & instances & master & key_pair
        & tagged_master & tagged_slaves & workers & Hprefix & Hworkers & Hbuilt & Hjoined
        & _).
  pose proof (rounds_are_rounds 0 modules) as Hrounds.
  split_and!.
  - intros before cluster_info instances' after Htr.
    destruct (seen_before _ _ _ _ _
                [Called (run_instances connection (request security_groups)) handles;
                 Called (create_tags connection [instance_id master]
                           (master_tags cluster_name)) tagged_master;
                 Called (create_tags connection (map instance_id (tail instances))
                           (slave_tags cluster_name)) tagged_slaves]
                _ Htr eq_refl Hprefix eq_refl)
      as (between & later & Hbefore & Hrest & Hlength).
    { intros Hin. repeat (apply elem_of_cons in Hin as [Hin|Hin]; [done|]).
      by inversion Hin. }
    destruct between as [|ev between].
    + injection Hrest as <- <- _. cbn [length] in Hlength.
      destruct (Hbuilt Hlength) as (launched & -> & Hlen & Hrunning & Hmaster & _).
      split; [done|]. exists connection, security_groups, launched, master, key_pair.
      split_and!; [|done..]. apply (view_elem _ before). rewrite Hbefore. set_solver.
    + exfalso. injection Hrest as _ Hrest.
      assert (Marked (cluster_info_built cluster_info instances')
                ∈ Forked (provision_jobs modules identity_file user
                            (build_cluster_info cluster_name (Some key_pair) master
                               (tail instances)) instances)
                  :: workers ++ Joined :: rounds 0 modules) as Hin.
      { rewrite Hrest. set_solver. }
      apply elem_of_cons in Hin as [Hin|Hin]; [done|].
      apply elem_of_app in Hin as [Hin|Hin].
      * by apply (proj1 (Forall_forall _ _) Hworkers) in Hin.
      * apply elem_of_cons in Hin as [Hin|Hin]; [done|].
        by apply (proj1 (Forall_forall _ _) Hrounds) in Hin.
  - intros before position module after Htr.
    destruct (seen_before _ _ _ _ _
                ([Called (run_instances connection (request security_groups)) handles;
                  Called (create_tags connection [instance_id master]
                            (master_tags cluster_name)) tagged_master;
                  Called (create_tags connection (map instance_id (tail instances))
                            (slave_tags cluster_name)) tagged_slaves;
                  Marked (cluster_info_built
                            (build_cluster_info cluster_name (Some key_pair) master
                               (tail instances)) instances);
                  Forked (provision_jobs modules identity_file user
                            (build_cluster_info cluster_name (Some key_pair) master
                               (tail instances)) instances)]
                 ++ workers ++ [Joined])
                (rounds 0 modules) Htr eq_refl Hprefix)
      as (between & later & Hbefore & Hrest & Hlength).
    { unfold storyline. by rewrite <- !app_assoc. }
    { intros Hin. apply elem_of_app in Hin as [Hin|Hin].
      - repeat (apply elem_of_cons in Hin as [Hin|Hin]; [done|]). by inversion Hin.
      - apply elem_of_app in Hin as [Hin|Hin].
        + by apply (proj1 (Forall_forall _ _) Hworkers) in Hin.
        + apply elem_of_cons in Hin as [Hin|Hin]; [done|]. by inversion Hin. }
    rewrite !length_app in Hlength. cbn [length] in Hlength.
    exists (build_cluster_info cluster_name (Some key_pair) master (tail instances)),
      instances.
    split_and!.
    + apply (view_elem _ before). rewrite Hbefore. set_solver.
    + apply (view_elem _ before). rewrite Hbefore. set_solver.
    + intros i Hi. apply (view_elem _ before). rewrite Hbefore.
      assert (Finished i (Ok tt) ∈ workers) by (apply Hjoined; [lia|done]).
      set_solver.
  - intros before position module after Htr.
    destruct (seen_before _ _ _ _ _
                ([Called (run_instances connection (request security_groups)) handles;
                  Called (create_tags connection [instance_id master]
                            (master_tags cluster_name)) tagged_master;
                  Called (create_tags connection (map instance_id (tail instances))
                            (slave_tags cluster_name)) tagged_slaves;
                  Marked (cluster_info_built
                            (build_cluster_info cluster_name (Some key_pair) master
                               (tail instances)) instances);
                  Forked (provision_jobs modules identity_file user
                            (build_cluster_info cluster_name (Some key_pair) master
                               (tail instances)) instances)]
                 ++ workers ++ [Joined])
                (rounds 0 modules) Htr eq_refl Hprefix)
      as (between & later & Hbefore & Hrest & Hlength).
    { unfold storyline. by rewrite <- !app_assoc. }
    { intros Hin. apply elem_of_app in Hin as [Hin|Hin].
      - repeat (apply elem_of_cons in Hin as [Hin|Hin]; [done|]). by inversion Hin.
      - apply elem_of_app in Hin as [Hin|Hin].
        + by apply (proj1 (Forall_forall _ _) Hworkers) in Hin.
        + apply elem_of_cons in Hin as [Hin|Hin]; [done|]. by inversion Hin. }
    apply (view_elem _ before). rewrite Hbefore. apply elem_of_app. right.
    by eapply rounds_health_check.
Qed.

Lemma omap_story {B : Type} (f : event -> option B) connection security_groups handles
    instances master key_pair tagged_master tagged_slaves workers :
  Forall is_finished workers →
  (∀ ev, is_finished ev → f ev = None) → (∀ ev, is_round ev → f ev = None) →
  f Joined = None →
  omap f (story connection security_groups handles instances master key_pair tagged_master
            tagged_slaves workers)
  = omap f
      [Called (run_instances connection (request security_groups)) handles;
       Called (create_tags connection [instance_id master] (master_tags cluster_name))
         tagged_master;
       Called (create_tags connection (map instance_id (tail instances))
                 (slave_tags cluster_name)) tagged_slaves;
       Marked (cluster_info_built
                 (build_cluster_info cluster_name (Some key_pair) master (tail instances))
                 instances);
       Forked (provision_jobs modules identity_file user
                 (build_cluster_info cluster_name (Some key_pair) master (tail instances))
                 instances)].
Proof.
  intros Hworkers Hfinished Hround Hjoined. unfold storyline.
  rewrite omap_app, omap_app. rewrite (omap_none f is_finished workers Hworkers Hfinished).
  change (omap f (Joined :: rounds 0 modules))
    with (from_option (.:: omap f (rounds 0 modules)) (omap f (rounds 0 modules))
            (f Joined)).
  rewrite Hjoined. simpl from_option.
  rewrite (omap_none f is_round _ (rounds_are_rounds 0 modules) Hround).
  by rewrite !app_nil_r.
Qed.

(** C4, amended.  A launch that goes through, with [num_slaves = N], made
    one launch call, asking for [N + 1] instances ([min_count] and
    [max_count]); the first handle of the reservation is the one tagged as
    the master and the one whose hostname is [master_host]; the one
    [ClusterInfo] record built has [N] slave hosts.  The hostnames are
    taken as the provider gives them and are not compared:
    [master_host] is outside [slave_hosts] exactly when no slave handle
    reads the master's public DNS name.  The provider is taken to honour
    the count of the launch call and to leave the id of a handle alone
    when the handle is refreshed. *)
Theorem launch_ec2_cluster_info fuel (w : W) :
  (run (launch fuel) w).1.1 = Returned tt →
  Forall honoured (launches (run (launch fuel) w).2) →
  update_keeps_id handler →
  ∃ connection security_groups handles instances master key_pair,
    launches (run (launch fuel) w).2
    = [(connection, request security_groups, Ok handles)]
    ∧ Req.min_count (request security_groups) = num_slaves + 1
    ∧ Req.max_count (request security_groups) = num_slaves + 1
    ∧ Z.of_nat (length handles) = num_slaves + 1
    ∧ map instance_id instances = map instance_id handles
    ∧ head instances = Some master
    ∧ taggings (run (launch fuel) w).2
      = [(connection, [instance_id master], master_tags cluster_name, Ok tt);
         (connection, map instance_id (tail instances), slave_tags cluster_name, Ok tt)]
    ∧ records (run (launch fuel) w).2
      = [(build_cluster_info cluster_name (Some key_pair) master (tail instances),
          instances)]
    ∧ master_host (build_cluster_info cluster_name (Some key_pair) master (tail instances))
      = public_dns_name master
    ∧ (master_host (build_cluster_info cluster_name (Some key_pair) master (tail instances))
       ∉ slave_hosts
           (build_cluster_info cluster_name (Some key_pair) master (tail instances))
       ↔ ∀ slave, slave ∈ tail instances → public_dns_name slave ≠ public_dns_name master)
    ∧ Z.of_nat
        (length
           (slave_hosts
              (build_cluster_info cluster_name (Some key_pair) master (tail instances))))
      = num_slaves.
Proof.
  intros Hreturned Hcount Hids.
  destruct (launch_ec2_shape fuel w)
    as (connection & security_groups & handles & instances & master & key_pair
        & tagged_master & tagged_slaves & workers & _ & Hworkers & Hbuilt & _ & Hfull).
  specialize (Hfull Hreturned).
  assert (launches (run (launch fuel) w).2
          = [(connection, request security_groups, handles)]) as Hlaunches.
  { unfold launches. rewrite <- omap_view by (by intros [X []| | | | | |]).
    rewrite Hfull, omap_story; [done|done|by intros []|by intros [| |[]| | | |]|done]. }
  assert (taggings (run (launch fuel) w).2
          = [(connection, [instance_id master], master_tags cluster_name, tagged_master);
             (connection, map instance_id (tail instances), slave_tags cluster_name,
              tagged_slaves)]) as Htaggings.
  { unfold taggings. rewrite <- omap_view by (by intros [X []| | | | | |]).
    rewrite Hfull, omap_story; [done|done|by intros []|by intros [| |[]| | | |]|done]. }
  assert (records (run (launch fuel) w).2
          = [(build_cluster_info cluster_name (Some key_pair) master (tail instances),
              instances)]) as Hrecords.
  { unfold records. rewrite <- omap_view by (by intros [X []| | | | | |]).
    rewrite Hfull, omap_story; [done|done|by intros []|by intros [| |[]| | | |]|done]. }
  assert (3 < length (view (run (launch fuel) w).2))%nat as Hlong.
  { rewrite Hfull. unfold storyline. rewrite length_app. cbn [length]. lia. }
  destruct (Hbuilt Hlong)
    as (launched & -> & Hlength & _ & Hmaster & -> & -> & Hsame).
  rewrite Hlaunches, Forall_singleton in Hcount.
  unfold honoured in Hcount. cbn [fst snd] in Hcount.
  destruct instances as [|first others]; [done|]. injection Hmaster as ->.
  cbn [map tail] in *.
  exists connection, security_groups, launched, (master :: others), master, key_pair.
  cbn [tail build_cluster_info master_host slave_hosts].
  split_and!; try done.
  - by apply Hsame.
  - split.
    + intros Hfresh slave Hslave Hname. apply Hfresh. rewrite <- Hname.
      by apply (list_elem_of_fmap_2 public_dns_name).
    + intros Hfresh (slave & Hname & Hslave)%list_elem_of_fmap_1. by apply (Hfresh slave).
  - rewrite length_map. cbn [length] in Hlength. cbn [launch_request Req.max_count] in Hcount.
    lia.
Qed.

End launch_order.

(** ** A launch against the in-memory provider *)

Lemma change_id f i l y l' :
  (∀ x, instance_id (f x) = instance_id x) → change f i l = Some (y, l') →
  instance_id y = i.
Proof.
  intros Hf. revert y l'. induction l as [|x l IH]; intros y l' H; [done|].
  simpl in H. destruct (String.eqb (instance_id x) i) eqn:Hx.
  - injection H as <- _. rewrite Hf. by apply String.eqb_eq.
  - destruct (change f i l) as [[z rest]|]; [|done]. injection H as <- _. by eapply IH.
Qed.

Lemma fake_keeps_id : update_keeps_id fake.
Proof.
  intros instance refreshed w. simpl. unfold change_instance.
  destruct (change _ (instance_id instance) (w_instances w)) as [[y l]|] eqn:Hchange;
    [|done].
  simpl. intros [= <-]. by eapply change_id, Hchange.
Qed.

(** What an event of the orchestration is, in a word. *)
Definition caption (ev : event) : string :=
  match ev with
  | Called c _ =>
      match c with
      | run_instances _ request => "run_instances " +:+ str_Z (Req.max_count request)
      | create_tags _ resource_ids _ => "create_tags " +:+ join "," resource_ids
      | _ => "call"
      end
  | Worker job _ _ => "worker " +:+ str_nat job
  | Marked (cluster_info_built cluster_info instances) =>
      "ClusterInfo " +:+ join "," (map state instances)
  | Marked (invoke method position _) => method +:+ " " +:+ str_nat position
  | Marked (complete method position _) => method +:+ " " +:+ str_nat position +:+ " done"
  | Forked jobs => "fork " +:+ str_nat (length jobs)
  | Finished job (Ok _) => "finished " +:+ str_nat job
  | Finished job (Err _) => "failed " +:+ str_nat job
  | Joined => "join"
  | Interrupted _ => "interrupted"
  end.

(** The launch of a cluster with two slaves, the executor's threads taking
    turns. *)
Example launch_ec2_demo :
  map caption (view (run fake (job_prog 5) (replicate 40 2 ++ replicate 40 1)%nat
                       (demo_launch 5) (world_of [])).2)
  = ["run_instances 3"; "create_tags i-0"; "create_tags i-1,i-2";
     "ClusterInfo running,running,running"; "fork 3"; "finished 2"; "finished 1";
     "finished 0"; "join"; "configure_master 0"; "configure_master 0 done";
     "health_check 0"; "health_check 0 done"].
Proof. by vm_compute. Qed.

Lemma launch_ec2_cluster_info_witness :
  ∃ connection security_groups handles instances master key_pair,
    launches (run fake (job_prog 5) (replicate 40 2 ++ replicate 40 1)%nat (demo_launch 5)
                (world_of [])).2
    = [(connection,
        launch_request 2 "key" "m3.medium" "us-east-1a" "ami-1" "subnet-1" "" "default"
          false "stop" security_groups,
        Ok handles)]
    ∧ Z.of_nat (length handles) = 3
    ∧ map instance_id instances = map instance_id handles
    ∧ head instances = Some master
    ∧ records (run fake (job_prog 5) (replicate 40 2 ++ replicate 40 1)%nat (demo_launch 5)
                 (world_of [])).2
      = [(build_cluster_info "c" (Some key_pair) master (tail instances), instances)]
    ∧ (public_dns_name master ∉ map public_dns_name (tail instances)
       ↔ ∀ slave, slave ∈ tail instances → public_dns_name slave ≠ public_dns_name master)
    ∧ length (tail instances) = 2%nat.
Proof.
  destruct (launch_ec2_cluster_info fake 5 (replicate 40 2 ++ replicate 40 1)%nat
              "c" 2 [Spark "1.5.0"] "key" "id.pem" "m3.medium" "us-east-1" "us-east-1a"
              "ami-1" "ec2-user" None "subnet-1" "" "default" false "stop" 5 (world_of []))
    as (connection & security_groups & handles & instances & master & key_pair
        & Hlaunches & _ & _ & Hcount & Hids & Hmaster & _ & Hrecords & _ & Hfresh
        & Hslaves).
  - by vm_compute.
  - vm_compute. by repeat constructor.
  - exact fake_keeps_id.
  - exists connection, security_groups, handles, instances, master, key_pair.
    cbn [build_cluster_info master_host slave_hosts] in *.
    rewrite length_map in Hslaves. split_and!; [done..|lia].
Defined.

(** A provider whose instances have a public address and no public DNS
    name, as in a VPC with DNS hostnames switched off: every handle reads
    the empty name. *)
Definition unnamed (i : Instance) : Instance :=
  {| instance_id := instance_id i; state := state i; public_dns_name := "";
     ip_address := ip_address i; tags := tags i; groups := groups i |}.

Definition without_hostnames (X : Type) (c : call X) (w : World) : X * World :=
  match c in call X return X * World -> X * World with
  | instance_update _ =>
      fun answer =>
        (match answer.1 with Ok i => Ok (unnamed i) | Err e => Err e end, answer.2)
  | _ => fun answer => answer
  end (fake X c w).

(** C4 as stated fails on such a provider: a launch of a master and two
    slaves without modules ([--no-install-spark]) goes through, the count
    of the launch call is honoured, and the master's hostname, the empty
    name, is one of the slave hosts. *)
Lemma launch_ec2_shared_hostname :
  let r := run without_hostnames (job_prog 5) []
             (launch_ec2 "c" 2 [] "key" "id.pem" "m3.medium" "us-east-1" "us-east-1a"
                "ami-1" "ec2-user" (Some "vpc-1") "subnet-1" "" "default" false "stop" 5)
             (world_of []) in
  r.1.1 = Returned tt
  ∧ Forall honoured (launches r.2)
  ∧ ∃ cluster_info instances,
      records r.2 = [(cluster_info, instances)]
      ∧ map state instances = ["running"; "running"; "running"]
      ∧ master_host cluster_info = ""
      ∧ slave_hosts cluster_info = [""; ""]
      ∧ master_host cluster_info ∈ slave_hosts cluster_info.
Proof.
  cbv zeta. split; [by vm_compute|]. split; [vm_compute; by repeat constructor|].
  eexists _, _. split; [by vm_compute|]. split_and!; [by vm_compute..|].
  vm_compute. set_solver.
Qed.

(** * Configuration files

    [cli] reads [config.yaml] with [yaml.safe_load] and turns it into the
    defaults of the commands' options with [config_to_click] and
    [normalize_keys]. *)

(** What [yaml.safe_load] gives: the scalars [None], [bool], [int] and
    [str], lists, and mappings whose keys are strings.  A [dict] is the
    list of its items in the order in which Python iterates over it; the
    keys of a [dict] are pairwise distinct. *)
#[local] Unset Elimination Schemes.
Inductive pyobj :=
| o_None
| o_bool (b : bool)
| o_int (n : Z)
| o_str (s : string)
| o_list (l : list pyobj)
| o_dict (items : list (string * pyobj)).
#[local] Set Elimination Schemes.

Module Py.

(** The exceptions of the interpreter met here; of a [TypeError] and an
    [AttributeError] the type of the object is kept, of a [KeyError] the
    key. *)
Inductive error :=
| KeyError (key : string)
| TypeError (type_name : string)
| AttributeError (type_name attribute : string).

Inductive answer (A : Type) :=
| Value (a : A)
| Raises (e : error).
Arguments Value {A} a.
Arguments Raises {A} e.

Definition bind {A B : Type} (x : answer A) (f : A -> answer B) : answer B :=
  match x with
  | Value a => f a
  | Raises e => Raises e
  end.

End Py.

Definition type_name (obj : pyobj) : string :=
  match obj with
  | o_None => "NoneType"
  | o_bool _ => "bool"
  | o_int _ => "int"
  | o_str _ => "str"
  | o_list _ => "list"
  | o_dict _ => "dict"
  end.

(** [bool(obj)] *)
Definition truthy (obj : pyobj) : bool :=
  match obj with
  | o_None => false
  | o_bool b => b
  | o_int n => negb (n =? 0)
  | o_str s => negb (String.eqb s "")
  | o_list l => match l with [] => false | _ :: _ => true end
  | o_dict items => match items with [] => false | _ :: _ => true end
  end.

(** [d.get(key)] *)
Fixpoint dict_get {A : Type} (key : string) (d : list (string * A)) : option A :=
  match d with
  | [] => None
  | (k, v) :: rest => if String.eqb k key then Some v else dict_get key rest
  end.

(** [d[key] = value]: a key the [dict] has keeps its place. *)
Fixpoint dict_set {A : Type} (key : string) (value : A) (d : list (string * A))
  : list (string * A) :=
  match d with
  | [] => [(key, value)]
  | (k, v) :: rest =>
      if String.eqb k key then (k, value) :: rest else (k, v) :: dict_set key value rest
  end.

(** [d.update(pairs)] *)
Definition dict_update {A : Type} (d : list (string * A)) (pairs : list (string * A))
  : list (string * A) :=
  foldl (fun d kv => dict_set kv.1 kv.2 d) d pairs.

(** [dict(pairs)], and a [dict] comprehension over [pairs] *)
Definition dict {A : Type} (pairs : list (string * A)) : list (string * A) :=
  dict_update [] pairs.

(** [obj[key]] for a key that is a [str] *)
Definition getitem (obj : pyobj) (key : string) : Py.answer pyobj :=
  match obj with
  | o_dict items =>
      match dict_get key items with
      | Some v => Py.Value v
      | None => Py.Raises (Py.KeyError key)
      end
  | _ => Py.Raises (Py.TypeError (type_name obj))
  end.

(** [obj.items()] *)
Definition items_of (obj : pyobj) : Py.answer (list (string * pyobj)) :=
  match obj with
  | o_dict items => Py.Value items
  | _ => Py.Raises (Py.AttributeError (type_name obj) "items")
  end.

(** [obj.keys()] *)
Definition keys (obj : pyobj) : Py.answer (list string) :=
  match obj with
  | o_dict items => Py.Value (map fst items)
  | _ => Py.Raises (Py.AttributeError (type_name obj) "keys")
  end.

(** [s.replace(old, new)] for one-character [old] and [new] *)
Definition replace (s : string) (old new : ascii) : string :=
  text (map (fun c => if Ascii.eqb c old then new else c) (chars s)).

Fixpoint normalize_keys (obj : pyobj) : pyobj :=
  match obj with
  | o_dict items =>
      o_dict (dict (map (fun kv => (replace kv.1 "-" "_", normalize_keys kv.2)) items))
  | _ => obj
  end.

(** The loop over [config['modules'].keys()]. *)
Fixpoint module_options (modules : pyobj) (names : list string)
    (module_configs : list (string * pyobj)) : Py.answer (list (string * pyobj)) :=
  match names with
  | [] => Py.Value module_configs
  | module :: rest =>
      Py.bind (getitem modules module) (fun section =>
      Py.bind (items_of section) (fun options =>
      module_options modules rest
        (dict_update module_configs
           (dict (map (fun kv => (module +:+ "-" +:+ kv.1, kv.2)) options)))))
  end.

Definition config_to_click (config : pyobj) : Py.answer pyobj :=
  Py.bind (getitem config "modules") (fun modules =>
  Py.bind (if truthy modules
           then Py.bind (keys modules) (fun names => module_options modules names [])
           else Py.Value []) (fun module_configs =>
  Py.bind (getitem config "providers") (fun providers =>
  Py.bind (getitem providers "ec2") (fun ec2 =>
  Py.bind (items_of ec2) (fun ec2_options =>
  let ec2_configs := dict (map (fun kv => ("ec2-" +:+ kv.1, kv.2)) ec2_options) in
  Py.bind (getitem config "launch") (fun launch =>
  Py.bind (items_of launch) (fun launch_options =>
  Py.Value
    (o_dict
       (dict [("launch", o_dict (dict (launch_options ++ ec2_configs ++ module_configs)));
              ("describe", o_dict ec2_configs);
              ("login", o_dict ec2_configs);
              ("start", o_dict ec2_configs);
              ("stop", o_dict ec2_configs)]))))))))).

(** ** Properties of the configuration functions *)

Lemma pyobj_ind (P : pyobj -> Prop) :
  P o_None → (∀ b, P (o_bool b)) → (∀ n, P (o_int n)) → (∀ s, P (o_str s)) →
  (∀ l, P (o_list l)) →
  (∀ items, Forall (fun kv => P kv.2) items → P (o_dict items)) →
  ∀ obj, P obj.
Proof.
  intros HNone Hbool Hint Hstr Hlist Hdict. fix IH 1.
  intros [|b|n|s|l|items]; [done..|].
  apply Hdict. induction items as [|[k v] items IHitems]; constructor; [apply IH|done].
Qed.

(** The keys of a [dict] and of the [dict]s among its values, at any
    depth. *)
Fixpoint all_keys (obj : pyobj) : list string :=
  match obj with
  | o_dict items => flat_map (fun kv => kv.1 :: all_keys kv.2) items
  | _ => []
  end.

(** The value that the last of [pairs] with this key gives: what a
    [dict] built from [pairs] holds under the key. *)
Definition last_value {A : Type} (key : string) (pairs : list (string * A)) : option A :=
  dict_get key (rev pairs).

Lemma elem_of_rev {A : Type} (x : A) l : x ∈ rev l ↔ x ∈ l.
Proof. rewrite !list_elem_of_In. symmetry. apply in_rev. Qed.

Lemma elem_key {A : Type} (k : string) (v : A) d : (k, v) ∈ d → k ∈ map fst d.
Proof. intros H. by apply (list_elem_of_fmap_2 fst) in H. Qed.

Lemma dict_get_app {A : Type} key (d1 d2 : list (string * A)) :
  dict_get key (d1 ++ d2)
  = match dict_get key d1 with Some v => Some v | None => dict_get key d2 end.
Proof.
  induction d1 as [|[k v] d1 IH]; [done|]. simpl. by destruct (String.eqb k key).
Qed.

Lemma dict_get_none {A : Type} key (d : list (string * A)) :
  dict_get key d = None ↔ key ∉ map fst d.
Proof.
  induction d as [|[k v] d IH]; simpl.
  - split; [|done]. intros _ H. inversion H.
  - destruct (String.eqb_spec k key) as [->|Hne].
    + split; [done|]. intros H. exfalso. apply H. by left.
    + rewrite IH. split.
      * intros H [Heq|Hin]%elem_of_cons; [by subst|done].
      * intros H Hin. apply H. by right.
Qed.

Lemma dict_get_some {A : Type} key (d : list (string * A)) v :
  dict_get key d = Some v → (key, v) ∈ d.
Proof.
  induction d as [|[k v'] d IH]; [done|]. simpl.
  destruct (String.eqb_spec k key) as [->|Hne].
  - intros [= ->]. by left.
  - intros H. right. by apply IH.
Qed.

Lemma dict_get_unique {A : Type} key (d : list (string * A)) v :
  NoDup (map fst d) → (key, v) ∈ d → dict_get key d = Some v.
Proof.
  induction d as [|[k v'] d IH]; intros Hd Hin; [by inversion Hin|].
  simpl in *. apply NoDup_cons in Hd as [Hk Hd].
  apply elem_of_cons in Hin as [[= -> ->]|Hin].
  - by rewrite String.eqb_refl.
  - destruct (String.eqb_spec k key) as [->|Hne]; [|by apply IH].
    exfalso. apply Hk. eauto using elem_key.
Qed.

Lemma dict_get_set {A : Type} key k (v : A) d :
  dict_get key (dict_set k v d) = if String.eqb k key then Some v else dict_get key d.
Proof.
  induction d as [|[k' v'] d IH]; simpl; [done|].
  destruct (String.eqb_spec k' k) as [->|Hne]; simpl.
  - by destruct (String.eqb k key).
  - rewrite IH. destruct (String.eqb_spec k' key) as [->|Hne2]; [|done].
    destruct (String.eqb_spec k key) as [->|]; done.
Qed.

Lemma dict_set_keys {A : Type} k (v : A) d :
  map fst (dict_set k v d)
  = if bool_decide (k ∈ map fst d) then map fst d else map fst d ++ [k].
Proof.
  induction d as [|[k' v'] d IH]; simpl; [done|].
  destruct (String.eqb_spec k' k) as [->|Hne]; simpl.
  - rewrite bool_decide_eq_true_2; [done|by left].
  - rewrite IH. destruct (decide (k ∈ map fst d)) as [Hin|Hout].
    + rewrite !bool_decide_eq_true_2; [done|by right|done].
    + rewrite !bool_decide_eq_false_2; [done| |done].
      intros [->|H]%elem_of_cons; done.
Qed.

Lemma dict_set_NoDup {A : Type} k (v : A) d :
  NoDup (map fst d) → NoDup (map fst (dict_set k v d)).
Proof.
  intros Hd. rewrite dict_set_keys. case_bool_decide as Hk; [done|].
  apply NoDup_app. split_and!; [done| |apply NoDup_singleton].
  intros x Hx ->%list_elem_of_singleton. done.
Qed.

Lemma dict_set_elem {A : Type} k (v : A) d kv :
  kv ∈ dict_set k v d → kv = (k, v) ∨ kv ∈ d.
Proof.
  induction d as [|[k' v'] d IH]; simpl.
  - intros ->%list_elem_of_singleton. by left.
  - destruct (String.eqb_spec k' k) as [->|Hne].
    + intros [->|H]%elem_of_cons; [by left|]. right. by right.
    + intros [->|H]%elem_of_cons; [right; by left|].
      destruct (IH H) as [->|Hin]; [by left|]. right. by right.
Qed.

Lemma dict_update_get {A : Type} key (d pairs : list (string * A)) :
  dict_get key (dict_update d pairs)
  = match last_value key pairs with Some v => Some v | None => dict_get key d end.
Proof.
  unfold dict_update, last_value. revert d.
  induction pairs as [|[k v] pairs IH]; intros d; simpl; [done|].
  rewrite IH, dict_get_app, dict_get_set. simpl.
  destruct (dict_get key (rev pairs)); [done|]. by destruct (String.eqb k key).
Qed.

Lemma dict_update_NoDup {A : Type} (d pairs : list (string * A)) :
  NoDup (map fst d) → NoDup (map fst (dict_update d pairs)).
Proof.
  unfold dict_update. revert d. induction pairs as [|[k v] pairs IH]; intros d Hd; [done|].
  simpl. apply IH. by apply dict_set_NoDup.
Qed.

Lemma dict_update_elem {A : Type} (d pairs : list (string * A)) kv :
  kv ∈ dict_update d pairs → kv ∈ d ∨ kv ∈ pairs.
Proof.
  unfold dict_update. revert d. induction pairs as [|[k v] pairs IH]; intros d; simpl.
  - by left.
  - intros [[->|H]%dict_set_elem|H]%IH.
    + right. by left.
    + by left.
    + right. by right.
Qed.

Lemma dict_update_keys {A : Type} (d pairs : list (string * A)) k :
  k ∈ map fst (dict_update d pairs) ↔ k ∈ map fst d ∨ k ∈ map fst pairs.
Proof.
  destruct (dict_get k (dict_update d pairs)) as [v|] eqn:Hget.
  - split.
    + intros _. rewrite dict_update_get in Hget. unfold last_value in Hget.
      destruct (dict_get k (rev pairs)) as [v'|] eqn:Hlast.
      * right. apply dict_get_some in Hlast. rewrite elem_of_rev in Hlast.
        eauto using elem_key.
      * left. apply dict_get_some in Hget. eauto using elem_key.
    + intros _. apply dict_get_some in Hget. eauto using elem_key.
  - split.
    + intros H. by apply dict_get_none in Hget.
    + intros H. exfalso. rewrite dict_update_get in Hget. unfold last_value in Hget.
      destruct (dict_get k (rev pairs)) as [v'|] eqn:Hlast; [done|].
      apply dict_get_none in Hget, Hlast. destruct H as [H|H]; [done|].
      apply Hlast. rewrite map_rev. by apply elem_of_rev.
Qed.

Lemma dict_get_last {A : Type} key (pairs : list (string * A)) :
  dict_get key (dict pairs) = last_value key pairs.
Proof. unfold dict. rewrite dict_update_get. by destruct (last_value key pairs). Qed.

Lemma dict_set_fresh {A : Type} k (v : A) d :
  k ∉ map fst d → dict_set k v d = d ++ [(k, v)].
Proof.
  induction d as [|[k' v'] d IH]; intros Hk; [done|]. simpl in *.
  destruct (String.eqb_spec k' k) as [->|Hne].
  - exfalso. apply Hk. by left.
  - rewrite IH; [done|]. intros H. apply Hk. by right.
Qed.

Lemma dict_update_fresh {A : Type} (d pairs : list (string * A)) :
  NoDup (map fst (d ++ pairs)) → dict_update d pairs = d ++ pairs.
Proof.
  unfold dict_update. revert d. induction pairs as [|[k v] pairs IH]; intros d Hd; simpl.
  - by rewrite app_nil_r.
  - rewrite dict_set_fresh.
    + rewrite IH; rewrite <- app_assoc; done.
    + rewrite fmap_app in Hd. apply NoDup_app in Hd as (_ & Hd & _).
      intros H. apply (Hd k H). by left.
Qed.

Lemma dict_NoDup {A : Type} (pairs : list (string * A)) :
  NoDup (map fst pairs) → dict pairs = pairs.
Proof. intros H. unfold dict. by rewrite dict_update_fresh. Qed.

Lemma last_value_NoDup {A : Type} key (pairs : list (string * A)) :
  NoDup (map fst pairs) → last_value key pairs = dict_get key pairs.
Proof.
  intros H. unfold last_value.
  destruct (dict_get key pairs) as [v|] eqn:Hget.
  - apply dict_get_unique.
    + rewrite map_rev. apply NoDup_ListNoDup, NoDup_rev. by apply NoDup_ListNoDup.
    + apply elem_of_rev. by apply dict_get_some.
  - apply dict_get_none. apply dict_get_none in Hget.
    rewrite map_rev. by rewrite elem_of_rev.
Qed.

Lemma dict_get_only {A : Type} key (d : list (string * A)) v :
  (key, v) ∈ d → (∀ v', (key, v') ∈ d → v' = v) → dict_get key d = Some v.
Proof.
  induction d as [|[k v0] d IH]; intros Hin Honly; [by inversion Hin|]. simpl.
  destruct (String.eqb_spec k key) as [->|Hne].
  - f_equal. apply Honly. by left.
  - apply IH.
    + apply elem_of_cons in Hin as [[= -> ->]|Hin]; done.
    + intros v' Hv'. apply Honly. by right.
Qed.

Lemma chars_text l : chars (text l) = l.
Proof. apply list_ascii_of_string_of_list_ascii. Qed.

Lemma replace_chars s old new :
  chars (replace s old new) = map (fun c => if Ascii.eqb c old then new else c) (chars s).
Proof. unfold replace. by rewrite chars_text. Qed.

Lemma replace_gone s old new : old ≠ new → old ∉ chars (replace s old new).
Proof.
  intros Hne. rewrite replace_chars. induction (chars s) as [|c cs IH]; simpl.
  - intros H. inversion H.
  - intros [Heq|Hin]%elem_of_cons; [|done].
    destruct (Ascii.eqb_spec c old) as [->|Hc]; congruence.
Qed.

Lemma replace_replace s old new :
  old ≠ new → replace (replace s old new) old new = replace s old new.
Proof.
  intros Hne. unfold replace at 1. rewrite replace_chars. unfold replace. f_equal.
  induction (chars s) as [|c cs IH]; simpl; [done|]. rewrite IH. f_equal.
  destruct (Ascii.eqb_spec c old) as [->|Hc].
  - by destruct (Ascii.eqb_spec new old) as [->|].
  - by destruct (Ascii.eqb_spec c old).
Qed.

(** X1.  [normalize_keys] leaves no dash in a key: not in the keys of the
    [dict] it is given, and not in the keys of the [dict]s among the
    values, at any depth. *)
Theorem normalize_keys_no_dash obj :
  Forall (fun key => "-"%char ∉ chars key) (all_keys (normalize_keys obj)).
Proof.
  apply Forall_forall.
  induction obj as [|b|n|s|l|items IH] using pyobj_ind; intros key;
    try (intros H; by inversion H).
  simpl. intros (kv & Hkv & Hkey)%list_elem_of_In%in_flat_map.
  apply list_elem_of_In in Hkv. apply dict_update_elem in Hkv as [Hkv|Hkv];
    [by inversion Hkv|].
  apply list_elem_of_In, in_map_iff in Hkv as ([k v] & <- & Hitem). simpl in Hkey.
  destruct Hkey as [<-|Hkey].
  - by apply replace_gone.
  - apply list_elem_of_In in Hitem.
    apply (proj1 (Forall_forall _ _) IH _ Hitem). by apply list_elem_of_In.
Qed.

(** X2.  Normalizing twice is normalizing once. *)
Theorem normalize_keys_idempotent obj :
  normalize_keys (normalize_keys obj) = normalize_keys obj.
Proof.
  induction obj as [|b|n|s|l|items IH] using pyobj_ind; try done.
  simpl. f_equal.
  set (g := fun kv : string * pyobj => (replace kv.1 "-" "_", normalize_keys kv.2)).
  assert (Forall (fun kv => g kv = kv) (dict (map g items))) as Hfixed.
  { apply Forall_forall. intros kv [Hkv|Hkv]%dict_update_elem; [by inversion Hkv|].
    apply list_elem_of_In, in_map_iff in Hkv as ([k v] & <- & Hitem).
    apply list_elem_of_In in Hitem. unfold g. simpl. f_equal.
    - by apply replace_replace.
    - apply (proj1 (Forall_forall _ _) IH _ Hitem). }
  assert (map g (dict (map g items)) = dict (map g items)) as ->.
  { induction Hfixed as [|kv d Hkv _ IHd]; [done|]. simpl. by rewrite Hkv, IHd. }
  apply dict_NoDup. by apply dict_update_NoDup, NoDup_nil.
Qed.

Lemma normalized_get items key value :
  NoDup (map fst items) →
  dict_get key items = Some value →
  (∀ other, other ∈ map fst items →
            replace other "-" "_" = replace key "-" "_" → other = key) →
  getitem (normalize_keys (o_dict items)) (replace key "-" "_")
  = Py.Value (normalize_keys value).
Proof.
  intros Hkeys Hget Hclash. simpl. rewrite dict_get_last. unfold last_value.
  rewrite (dict_get_only _ _ (normalize_keys value)); [done| |].
  - apply elem_of_rev, list_elem_of_In, in_map_iff. exists (key, value).
    split; [done|]. by apply list_elem_of_In, dict_get_some.
  - intros v' Hv'. apply elem_of_rev, list_elem_of_In, in_map_iff in Hv'
      as ([k v] & [= Hk <-] & Hitem).
    apply list_elem_of_In in Hitem. simpl in Hk.
    assert (k = key) as -> by (apply Hclash; eauto using elem_key).
    rewrite (dict_get_unique _ _ _ Hkeys Hitem) in Hget. congruence.
Qed.

(** X3.  Where the keys of a [dict] stay apart when dashes become
    underscores, the normalized [dict] holds, under the key of an item
    with its dashes replaced, the normalized value of that item; and it
    holds nothing under a key with a dash. *)
Theorem normalize_keys_lookup items key value :
  NoDup (map fst items) →
  dict_get key items = Some value →
  (∀ other, other ∈ map fst items →
            replace other "-" "_" = replace key "-" "_" → other = key) →
  getitem (normalize_keys (o_dict items)) (replace key "-" "_")
  = Py.Value (normalize_keys value)
  ∧ ∀ dashed, "-"%char ∈ chars dashed →
      getitem (normalize_keys (o_dict items)) dashed = Py.Raises (Py.KeyError dashed).
Proof.
  intros Hkeys Hget Hclash. split; [by apply normalized_get|].
  intros dashed Hdash. simpl.
  destruct (dict_get dashed _) as [v|] eqn:Hv; [|done].
  exfalso. apply dict_get_some, elem_key, dict_update_keys in Hv as [Hv|Hv];
    [by inversion Hv|].
  apply list_elem_of_In, in_map_iff in Hv as (kv & <- & Hkv).
  apply in_map_iff in Hkv as ([k v'] & <- & _). simpl in Hdash.
  by apply replace_gone in Hdash.
Qed.

Definition ec2_section : list (string * pyobj) :=
  [("key-name", o_str "key"); ("identity-file", o_str "key.pem");
   ("tags", o_list [o_dict [("a-b", o_int 1)]]);
   ("user", o_str "ec2-user")].

Lemma normalize_keys_lookup_witness :
  getitem (normalize_keys (o_dict ec2_section)) "identity_file" = Py.Value (o_str "key.pem")
  ∧ ∀ dashed, "-"%char ∈ chars dashed →
      getitem (normalize_keys (o_dict ec2_section)) dashed = Py.Raises (Py.KeyError dashed).
Proof.
  apply (normalize_keys_lookup ec2_section "identity-file" (o_str "key.pem")).
  - repeat constructor; set_solver.
  - reflexivity.
  - intros other Hother Hsame. repeat (apply elem_of_cons in Hother as [->|Hother]);
      try done. by inversion Hother.
Defined.

(** The options of the modules as [config_to_click] names them: the option
    [k] of the module [m] under [m-k]. *)
Definition section_pairs (ms : list (string * pyobj)) (names : list string)
  : list (string * pyobj) :=
  flat_map
    (fun module =>
       match dict_get module ms with
       | Some (o_dict options) => map (fun kv => (module +:+ "-" +:+ kv.1, kv.2)) options
       | _ => []
       end)
    names.

Definition module_pairs (modules : pyobj) : list (string * pyobj) :=
  if truthy modules
  then match modules with
       | o_dict ms => section_pairs ms (map fst ms)
       | _ => []
       end
  else [].

Definition ec2_pairs (ec2_options : list (string * pyobj)) : list (string * pyobj) :=
  map (fun kv => ("ec2-" +:+ kv.1, kv.2)) ec2_options.

(** [config['modules']] is nothing, or a [dict] of [dict]s. *)
Definition sections_are_dicts (modules : pyobj) : Prop :=
  truthy modules = false
  ∨ ∃ ms, modules = o_dict ms
          ∧ ∀ module, module ∈ map fst ms →
              ∃ options, dict_get module ms = Some (o_dict options).

(** The configurations [config_to_click] accepts. *)
Definition well_formed (config : pyobj) : Prop :=
  ∃ modules providers ec2_options launch_options,
    getitem config "modules" = Py.Value modules
    ∧ sections_are_dicts modules
    ∧ getitem config "providers" = Py.Value providers
    ∧ getitem providers "ec2" = Py.Value (o_dict ec2_options)
    ∧ getitem config "launch" = Py.Value (o_dict launch_options).

Lemma last_value_app {A : Type} key (l1 l2 : list (string * A)) :
  last_value key (l1 ++ l2)
  = match last_value key l2 with Some v => Some v | None => last_value key l1 end.
Proof. unfold last_value. by rewrite rev_app_distr, dict_get_app. Qed.

Lemma module_options_value ms names acc :
  (∀ module, module ∈ names → ∃ options, dict_get module ms = Some (o_dict options)) →
  ∃ module_configs,
    module_options (o_dict ms) names acc = Py.Value module_configs
    ∧ (NoDup (map fst acc) → NoDup (map fst module_configs))
    ∧ ∀ key, dict_get key module_configs
             = match last_value key (section_pairs ms names) with
               | Some v => Some v
               | None => dict_get key acc
               end.
Proof.
  revert acc. induction names as [|module names IH]; intros acc Hsections.
  - by exists acc.
  - destruct (Hsections module) as [options Hoptions]; [by left|].
    simpl. rewrite Hoptions. simpl.
    destruct (IH (dict_update acc
                    (dict (map (fun kv => (module +:+ "-" +:+ kv.1, kv.2)) options))))
      as (module_configs & -> & Hkeys & Hget).
    { intros m Hm. apply Hsections. by right. }
    exists module_configs. split_and!; [done| |].
    + intros Hacc. by apply Hkeys, dict_update_NoDup.
    + intros key. rewrite Hget, last_value_app, dict_update_get.
      destruct (last_value key (section_pairs ms names)); [done|].
      rewrite last_value_NoDup by (by apply dict_update_NoDup, NoDup_nil).
      by rewrite dict_get_last.
Qed.

Lemma module_options_raises ms names acc module_configs :
  module_options (o_dict ms) names acc = Py.Value module_configs →
  ∀ module, module ∈ names → ∃ options, dict_get module ms = Some (o_dict options).
Proof.
  revert acc. induction names as [|name names IH]; intros acc Hrun module Hin;
    [by inversion Hin|].
  simpl in Hrun. destruct (dict_get name ms) as [section|] eqn:Hsection; [|done].
  simpl in Hrun. destruct section as [| | | | |options]; try done. simpl in Hrun.
  apply elem_of_cons in Hin as [->|Hin]; [by exists options|]. by eapply IH.
Qed.

Lemma module_configs_value modules :
  sections_are_dicts modules →
  ∃ module_configs,
    (if truthy modules
     then Py.bind (keys modules) (fun names => module_options modules names [])
     else Py.Value [])
    = Py.Value module_configs
    ∧ NoDup (map fst module_configs)
    ∧ ∀ key, dict_get key module_configs = last_value key (module_pairs modules).
Proof.
  unfold module_pairs. intros [Hfalsy|(ms & -> & Hsections)].
  - rewrite Hfalsy. exists []. split_and!; [done|constructor|done].
  - destruct (truthy (o_dict ms)); [|exists []; split_and!; [done|constructor|done]].
    simpl. destruct (module_options_value ms (map fst ms) [] Hsections)
      as (module_configs & -> & Hkeys & Hget).
    exists module_configs. split_and!; [done|apply Hkeys; constructor|].
    intros key. rewrite Hget. by destruct (last_value key _).
Qed.

Lemma config_to_click_value config modules providers ec2_options launch_options :
  getitem config "modules" = Py.Value modules →
  sections_are_dicts modules →
  getitem config "providers" = Py.Value providers →
  getitem providers "ec2" = Py.Value (o_dict ec2_options) →
  getitem config "launch" = Py.Value (o_dict launch_options) →
  ∃ module_configs,
    NoDup (map fst module_configs)
    ∧ (∀ key, dict_get key module_configs = last_value key (module_pairs modules))
    ∧ config_to_click config
      = Py.Value
          (o_dict
             [("launch",
               o_dict (dict (launch_options ++ dict (ec2_pairs ec2_options)
                               ++ module_configs)));
              ("describe", o_dict (dict (ec2_pairs ec2_options)));
              ("login", o_dict (dict (ec2_pairs ec2_options)));
              ("start", o_dict (dict (ec2_pairs ec2_options)));
              ("stop", o_dict (dict (ec2_pairs ec2_options)))]).
Proof.
  intros Hmodules Hsections Hproviders Hec2 Hlaunch.
  destruct (module_configs_value modules Hsections) as (module_configs & Hrun & Hkeys & Hget).
  exists module_configs. split_and!; [done..|].
  unfold config_to_click. rewrite Hmodules. simpl. rewrite Hrun. simpl.
  rewrite Hproviders. simpl. rewrite Hec2. simpl. rewrite Hlaunch. simpl. done.
Qed.

Lemma config_to_click_sections config click :
  config_to_click config = Py.Value click → well_formed config.
Proof.
  unfold config_to_click, well_formed. intros Hrun.
  destruct (getitem config "modules") as [modules|] eqn:Hmodules; [|done].
  simpl in Hrun.
  assert (sections_are_dicts modules
          ∧ ∃ module_configs,
              (if truthy modules
               then Py.bind (keys modules) (fun names => module_options modules names [])
               else Py.Value [])
              = Py.Value module_configs) as [Hsections [module_configs Hmc]].
  { destruct (truthy modules) eqn:Htruthy; [|split; [by left|by eexists]].
    destruct modules as [| | | | |ms]; try done. simpl in Hrun.
    destruct (module_options (o_dict ms) (map fst ms) []) as [module_configs|] eqn:Hmc;
      [|done].
    split; [|by eexists]. right. exists ms. split; [done|].
    by eapply module_options_raises. }
  rewrite Hmc in Hrun. simpl in Hrun.
  destruct (getitem config "providers") as [providers|] eqn:Hproviders; [|done].
  simpl in Hrun.
  destruct (getitem providers "ec2") as [ec2|] eqn:Hec2; [|done]. simpl in Hrun.
  destruct ec2 as [| | | | |ec2_options]; try done. simpl in Hrun.
  destruct (getitem config "launch") as [launch|] eqn:Hlaunch; [|done]. simpl in Hrun.
  destruct launch as [| | | | |launch_options]; try done.
  by exists modules, providers, ec2_options, launch_options.
Qed.

(** X4.  [config_to_click] returns for the configurations that hold
    [modules] (nothing, or a [dict] of [dict]s), [providers] with a [dict]
    under [ec2], and a [dict] under [launch], and raises for every other
    one. *)
Theorem config_to_click_accepts config :
  (∃ click, config_to_click config = Py.Value click) ↔ well_formed config.
Proof.
  split.
  - intros [click Hclick]. by eapply config_to_click_sections.
  - intros (modules & providers & ec2_options & launch_options & Hmodules & Hsections
            & Hproviders & Hec2 & Hlaunch).
    destruct (config_to_click_value config modules providers ec2_options launch_options)
      as (module_configs & _ & _ & ->); [done..|]. by eexists.
Qed.

Lemma append_inj (p a b : string) : p +:+ a = p +:+ b → a = b.
Proof.
  induction p as [|c p IH]; [done|]. rewrite !append_cons. intros [= H]. by apply IH.
Qed.

Lemma text_app l1 l2 : text (l1 ++ l2) = text l1 +:+ text l2.
Proof. induction l1 as [|c l1 IH]; [done|]. simpl. by rewrite append_cons, <- IH. Qed.

Lemma replace_app a b old new :
  replace (a +:+ b) old new = replace a old new +:+ replace b old new.
Proof. unfold replace. by rewrite chars_app, map_app, text_app. Qed.

Lemma dict_get_renamed {A : Type} (f : string -> string) key (d : list (string * A)) :
  (∀ a b, f a = f b → a = b) →
  dict_get (f key) (map (fun kv => (f kv.1, kv.2)) d) = dict_get key d.
Proof.
  intros Hf. induction d as [|[k v] d IH]; [done|]. simpl. rewrite IH.
  destruct (String.eqb_spec k key) as [->|Hne].
  - by rewrite String.eqb_refl.
  - destruct (String.eqb_spec (f k) (f key)) as [Heq|]; [|done]. by apply Hf in Heq.
Qed.

Lemma last_value_renamed {A : Type} (f : string -> string) key (d : list (string * A)) :
  (∀ a b, f a = f b → a = b) →
  last_value (f key) (map (fun kv => (f kv.1, kv.2)) d) = last_value key d.
Proof. intros Hf. unfold last_value. rewrite <- map_rev. by apply dict_get_renamed. Qed.

Lemma ec2_pairs_get key ec2_options :
  last_value ("ec2-" +:+ key) (ec2_pairs ec2_options) = last_value key ec2_options.
Proof. apply (last_value_renamed (String.append "ec2-")). intros a b. apply append_inj. Qed.

Lemma ec2_pairs_NoDup ec2_options :
  NoDup (map fst ec2_options) → NoDup (map fst (ec2_pairs ec2_options)).
Proof.
  unfold ec2_pairs. rewrite map_map. simpl.
  rewrite <- (map_map fst (String.append "ec2-")).
  apply NoDup_fmap_2. intros a b. apply append_inj.
Qed.

Lemma config_to_click_inv config click modules providers ec2_options launch_options :
  config_to_click config = Py.Value click →
  getitem config "modules" = Py.Value modules →
  getitem config "providers" = Py.Value providers →
  getitem providers "ec2" = Py.Value (o_dict ec2_options) →
  getitem config "launch" = Py.Value (o_dict launch_options) →
  ∃ module_configs,
    NoDup (map fst module_configs)
    ∧ (∀ key, dict_get key module_configs = last_value key (module_pairs modules))
    ∧ click
      = o_dict
          [("launch",
            o_dict (dict (launch_options ++ dict (ec2_pairs ec2_options) ++ module_configs)));
           ("describe", o_dict (dict (ec2_pairs ec2_options)));
           ("login", o_dict (dict (ec2_pairs ec2_options)));
           ("start", o_dict (dict (ec2_pairs ec2_options)));
           ("stop", o_dict (dict (ec2_pairs ec2_options)))].
Proof.
  intros Hclick Hmodules Hproviders Hec2 Hlaunch.
  destruct (config_to_click_sections config click Hclick)
    as (modules' & providers' & ec2' & launch' & Hm & Hsections & Hp & He & Hl).
  rewrite Hmodules in Hm. injection Hm as <-.
  destruct (config_to_click_value config modules providers ec2_options launch_options)
    as (module_configs & Hkeys & Hget & Hvalue); [done..|].
  exists module_configs. split_and!; [done..|]. congruence.
Qed.

(** X5.  What [config_to_click] returns has the five commands [launch],
    [describe], [login], [start] and [stop]; the last four share one
    [dict], which holds each option [k] of [providers.ec2] under [ec2-k]
    and nothing else. *)
Theorem config_to_click_ec2 config click providers ec2_options :
  config_to_click config = Py.Value click →
  getitem config "providers" = Py.Value providers →
  getitem providers "ec2" = Py.Value (o_dict ec2_options) →
  keys click = Py.Value ["launch"; "describe"; "login"; "start"; "stop"]
  ∧ ∃ ec2_configs,
      Forall (fun command => getitem click command = Py.Value (o_dict ec2_configs))
        ["describe"; "login"; "start"; "stop"]
      ∧ (∀ k, dict_get ("ec2-" +:+ k) ec2_configs = last_value k ec2_options)
      ∧ Forall (fun key => ∃ k, key = "ec2-" +:+ k ∧ k ∈ map fst ec2_options)
          (map fst ec2_configs)
      ∧ (NoDup (map fst ec2_options) → ec2_configs = ec2_pairs ec2_options).
Proof.
  intros Hclick Hproviders Hec2.
  destruct (config_to_click_sections config click Hclick)
    as (modules & providers' & ec2' & launch_options & Hm & _ & Hp & He & Hl).
  rewrite Hproviders in Hp. injection Hp as <-.
  rewrite Hec2 in He. injection He as <-.
  destruct (config_to_click_inv config click modules providers ec2_options launch_options)
    as (module_configs & _ & _ & ->); [done..|].
  split; [done|]. exists (dict (ec2_pairs ec2_options)). split_and!.
  - by repeat constructor.
  - intros k. by rewrite dict_get_last, ec2_pairs_get.
  - apply Forall_forall. intros key Hkey.
    apply dict_update_keys in Hkey as [Hkey|Hkey]; [by inversion Hkey|].
    unfold ec2_pairs in Hkey. rewrite map_map in Hkey. simpl in Hkey.
    apply list_elem_of_In, in_map_iff in Hkey as ([k v] & <- & Hkv).
    exists k. split; [done|]. apply list_elem_of_In in Hkv. eauto using elem_key.
  - intros Hkeys. by apply dict_NoDup, ec2_pairs_NoDup.
Qed.

(** X6.  The defaults of [launch] are the options of the [launch] section,
    overridden by those of [providers.ec2] under [ec2-k], overridden by
    those of the modules under [module-k]: of several values for one
    name, the last in this order is the one kept. *)
Theorem config_to_click_launch config click modules providers ec2_options launch_options :
  config_to_click config = Py.Value click →
  getitem config "modules" = Py.Value modules →
  getitem config "providers" = Py.Value providers →
  getitem providers "ec2" = Py.Value (o_dict ec2_options) →
  getitem config "launch" = Py.Value (o_dict launch_options) →
  ∃ launch_configs,
    getitem click "launch" = Py.Value (o_dict launch_configs)
    ∧ NoDup (map fst launch_configs)
    ∧ ∀ key, dict_get key launch_configs
             = last_value key
                 (launch_options ++ ec2_pairs ec2_options ++ module_pairs modules).
Proof.
  intros Hclick Hmodules Hproviders Hec2 Hlaunch.
  destruct (config_to_click_inv config click modules providers ec2_options launch_options)
    as (module_configs & Hkeys & Hget & ->); [done..|].
  eexists. split_and!; [done| |].
  - apply dict_update_NoDup. constructor.
  - intros key. rewrite dict_get_last, !last_value_app.
    rewrite (last_value_NoDup key module_configs Hkeys), Hget.
    destruct (last_value key (module_pairs modules)); [done|].
    rewrite last_value_NoDup by (apply dict_update_NoDup; constructor).
    by rewrite dict_get_last.
Qed.

(** X7.  [cli] hands Click [normalize_keys(config_to_click(raw_config))].
    Where the names of the options of [providers.ec2] stay apart when
    dashes become underscores, the default of the parameter [ec2_<name>]
    of [describe], [login], [start] and [stop] is the value the
    configuration gives the option, normalized. *)
Theorem cli_default_map config click providers ec2_options key value command :
  config_to_click config = Py.Value click →
  getitem config "providers" = Py.Value providers →
  getitem providers "ec2" = Py.Value (o_dict ec2_options) →
  NoDup (map fst ec2_options) →
  dict_get key ec2_options = Some value →
  (∀ other, other ∈ map fst ec2_options →
            replace other "-" "_" = replace key "-" "_" → other = key) →
  command ∈ ["describe"; "login"; "start"; "stop"] →
  ∃ defaults,
    getitem (normalize_keys click) command = Py.Value defaults
    ∧ getitem defaults ("ec2_" +:+ replace key "-" "_") = Py.Value (normalize_keys value).
Proof.
  intros Hclick Hproviders Hec2 Hkeys Hget Hclash Hcommand.
  destruct (config_to_click_sections config click Hclick)
    as (modules & providers' & ec2' & launch_options & Hm & _ & Hp & He & Hl).
  rewrite Hproviders in Hp. injection Hp as <-.
  rewrite Hec2 in He. injection He as <-.
  destruct (config_to_click_inv config click modules providers ec2_options launch_options)
    as (module_configs & _ & _ & ->); [done..|].
  rewrite (dict_NoDup (ec2_pairs ec2_options)) by (by apply ec2_pairs_NoDup).
  exists (normalize_keys (o_dict (ec2_pairs ec2_options))). split.
  - repeat (apply elem_of_cons in Hcommand as [->|Hcommand]); try reflexivity.
    by inversion Hcommand.
  - change ("ec2_" +:+ replace key "-" "_") with (replace "ec2-" "-" "_" +:+ replace key "-" "_").
    rewrite <- replace_app. apply normalized_get.
    + by apply ec2_pairs_NoDup.
    + unfold ec2_pairs. by rewrite (dict_get_renamed (String.append "ec2-")) by apply append_inj.
    + intros other Hother Hsame. unfold ec2_pairs in Hother.
      rewrite map_map in Hother. simpl in Hother.
      apply list_elem_of_In, in_map_iff in Hother as ([k v] & <- & Hkv). simpl.
      rewrite !replace_app in Hsame. apply append_inj in Hsame. f_equal.
      apply Hclash; [|done]. apply list_elem_of_In in Hkv. eauto using elem_key.
Qed.

(** A configuration file, and what [config_to_click] makes of it. *)
Definition sample_config : pyobj :=
  o_dict
    [("modules", o_dict [("spark", o_dict [("version", o_str "1.5.0")])]);
     ("providers", o_dict [("ec2", o_dict ec2_section)]);
     ("launch",
      o_dict [("num-slaves", o_int 2); ("ec2-user", o_str "root");
              ("install-spark", o_bool true)])].

Definition sample_click : pyobj :=
  match config_to_click sample_config with
  | Py.Value click => click
  | Py.Raises _ => o_None
  end.

Lemma config_to_click_ec2_witness :
  keys sample_click = Py.Value ["launch"; "describe"; "login"; "start"; "stop"]
  ∧ ∃ ec2_configs,
      Forall (fun command => getitem sample_click command = Py.Value (o_dict ec2_configs))
        ["describe"; "login"; "start"; "stop"]
      ∧ (∀ k, dict_get ("ec2-" +:+ k) ec2_configs = last_value k ec2_section)
      ∧ Forall (fun key => ∃ k, key = "ec2-" +:+ k ∧ k ∈ map fst ec2_section)
          (map fst ec2_configs)
      ∧ (NoDup (map fst ec2_section) → ec2_configs = ec2_pairs ec2_section).
Proof.
  apply (config_to_click_ec2 sample_config sample_click (o_dict [("ec2", o_dict ec2_section)])
           ec2_section); reflexivity.
Defined.

Lemma config_to_click_launch_witness :
  ∃ launch_configs,
    getitem sample_click "launch" = Py.Value (o_dict launch_configs)
    ∧ NoDup (map fst launch_configs)
    ∧ ∀ key, dict_get key launch_configs
             = last_value key
                 ([("num-slaves", o_int 2); ("ec2-user", o_str "root");
                   ("install-spark", o_bool true)]
                    ++ ec2_pairs ec2_section
                    ++ module_pairs (o_dict [("spark", o_dict [("version", o_str "1.5.0")])])).
Proof.
  apply (config_to_click_launch sample_config sample_click
           (o_dict [("spark", o_dict [("version", o_str "1.5.0")])])
           (o_dict [("ec2", o_dict ec2_section)]) ec2_section); reflexivity.
Defined.

Lemma cli_default_map_witness :
  ∃ defaults,
    getitem (normalize_keys sample_click) "login" = Py.Value defaults
    ∧ getitem defaults ("ec2_" +:+ replace "identity-file" "-" "_")
      = Py.Value (normalize_keys (o_str "key.pem")).
Proof.
  apply (cli_default_map sample_config sample_click (o_dict [("ec2", o_dict ec2_section)])
           ec2_section "identity-file" (o_str "key.pem") "login"); try reflexivity.
  - repeat constructor; set_solver.
  - intros other Hother Hsame. repeat (apply elem_of_cons in Hother as [->|Hother]);
      try done. by inversion Hother.
  - set_solver.
Defined.

(** The defaults of [launch] for the sample: the user of the [launch]
    section gives way to the one of [providers.ec2]. *)
Example sample_launch_defaults :
  getitem (normalize_keys sample_click) "launch"
  = Py.Value
      (o_dict
         [("num_slaves", o_int 2); ("ec2_user", o_str "ec2-user");
          ("install_spark", o_bool true); ("ec2_key_name", o_str "key");
          ("ec2_identity_file", o_str "key.pem");
          ("ec2_tags", o_list [o_dict [("a-b", o_int 1)]]);
          ("spark_version", o_str "1.5.0")]).
Proof. reflexivity. Qed.

(** * The calls a command makes

    Every call is of one kind; a program stays within a set of kinds when
    each call on each of its paths is of one of them. *)

Inductive kind :=
| k_connect_to_region | k_get_only_instances | k_get_all_security_groups
| k_create_security_group | k_authorize | k_run_instances | k_create_tags
| k_update | k_start | k_stop | k_terminate
| k_urlopen | k_ssh_connect | k_getpeername | k_exec_command | k_ssh_close
| k_ssh_keygen | k_read_file | k_subprocess | k_sleep | k_now | k_confirm | k_print
| k_format | k_iter.

Definition kind_of {X : Type} (c : call X) : kind :=
  match c with
  | connect_to_region _ => k_connect_to_region
  | get_only_instances _ _ => k_get_only_instances
  | get_all_security_groups _ _ => k_get_all_security_groups
  | create_security_group _ _ _ _ => k_create_security_group
  | authorize _ _ => k_authorize
  | run_instances _ _ => k_run_instances
  | create_tags _ _ _ => k_create_tags
  | instance_update _ => k_update
  | instance_start _ => k_start
  | instance_stop _ => k_stop
  | instance_terminate _ => k_terminate
  | urlopen_read _ | urlopen_json _ => k_urlopen
  | ssh_connect _ _ _ _ => k_ssh_connect
  | transport_getpeername _ => k_getpeername
  | exec_command _ _ => k_exec_command
  | ssh_close _ => k_ssh_close
  | ssh_keygen => k_ssh_keygen
  | read_file _ => k_read_file
  | subprocess_call _ => k_subprocess
  | time_sleep _ => k_sleep
  | datetime_now => k_now
  | click_confirm _ => k_confirm
  | print _ _ => k_print
  | python_format_map _ _ | health_report _ => k_format
  | iter_order _ | loop_wait => k_iter
  end.

(** The kind of the call an event records, on the main thread or on a
    thread of the executor. *)
Definition event_kind (ev : event) : option kind :=
  match ev with
  | Called c _ | Worker _ c _ => Some (kind_of c)
  | _ => None
  end.

Section footprint.

Variable allowed : forall X : Type, call X -> bool.
Variable forks spins : bool.

Inductive within {A : Type} : prog A -> Prop :=
| within_Ret a : within (Ret a)
| within_Raise e : within (Raise e)
| within_Spin : spins = true → within Spin
| within_Do {X : Type} (c : call X) k :
    allowed _ c = true → (∀ x, within (k x)) → within (Do c k)
| within_Mark m k : within k → within (Mark m k)
| within_Fork jobs k : forks = true → (∀ results, within (k results)) → within (Fork jobs k).

Definition event_within (ev : event) : Prop :=
  match ev with
  | Called c _ | Worker _ c _ => allowed _ c = true
  | _ => True
  end.

Lemma within_bind {A B : Type} (p : prog A) (f : A -> prog B) :
  within p → (∀ a, within (f a)) → within (bind p f).
Proof. induction 1; intros Hf; simpl; try constructor; auto. Qed.

Lemma within_try_except {A : Type} (p : prog A) h :
  within p → (∀ e q, h e = Some q → within q) → within (try_except p h).
Proof.
  induction 1 as [a|e| |X c k Hc Hk IH|m k Hk IH|jobs k Hf Hk IH]; intros Hh; simpl;
    try constructor; auto.
  destruct (h e) as [q|] eqn:Hq; [eauto|constructor].
Qed.

Lemma within_try_finally {A : Type} (p : prog A) q :
  within p → within q → within (try_finally p q).
Proof.
  induction 1; intros Hq; simpl; try constructor; auto;
    apply within_bind; auto; intros; constructor.
Qed.

Lemma within_for_each {A : Type} (xs : list A) body :
  (∀ x, within (body x)) → within (for_each xs body).
Proof.
  intros Hbody. induction xs; simpl; [constructor|]. apply within_bind; auto.
Qed.

Lemma within_ask {X : Type} (c : call X) : allowed _ c = true → within (ask c).
Proof. intros Hc. constructor; [done|]. intros x. constructor. Qed.

Lemma within_perform {A : Type} (c : call (result A)) :
  allowed _ c = true → within (perform c).
Proof. intros Hc. constructor; [done|]. intros [a|e]; constructor. Qed.

Lemma within_of_result {A : Type} (r : result A) : within (of_result r).
Proof. destruct r; constructor. Qed.

Lemma within_item0 {A : Type} (l : list A) : within (item0 l).
Proof. destruct l; constructor. Qed.

Lemma within_Do_inv {A X : Type} (c : call X) (k : X -> prog A) :
  within (Do c k) → allowed _ c = true ∧ ∀ x, within (k x).
Proof.
  intros H.
  change (match Do c k with
          | Do c' k' => allowed _ c' = true ∧ ∀ x, within (k' x)
          | _ => True
          end).
  by destruct H.
Qed.

Lemma within_settle p : within p → within (settle p).
Proof. induction 1; simpl; try constructor; auto. Qed.

Section runs.

Context {W : Type}.
Variable handler : forall X : Type, call X -> W -> X * W.
Variable body_of : Job -> prog unit.
Variable schedule : list nat.
Hypothesis jobs_within : forks = true → ∀ job, within (body_of job).

Lemma done_event_within i p : Forall event_within (done_event i p).
Proof. destruct p; simpl; by repeat constructor. Qed.

Lemma done_outcome_within i o : Forall event_within (done_outcome i o).
Proof. destruct o; simpl; by repeat constructor. Qed.

Lemma run_thread_within job p (w : W) :
  within p → Forall event_within (run_thread handler job p w).2.
Proof.
  intros Hp. revert w.
  induction Hp as [a|e| |X c k Hc Hk IH|m k Hk IH|jobs k Hf Hk IH]; intros w; simpl;
    try done.
  destruct (handler X c w) as [x w1]. specialize (IH x w1).
  destruct (run_thread handler job (k x) w1) as [[o w2] tr]. by constructor.
Qed.

Lemma par_steps_within sched pool (w : W) :
  Forall within pool →
  Forall within (par_steps handler sched pool w).1.1
  ∧ Forall event_within (par_steps handler sched pool w).2.
Proof.
  revert pool w. induction sched as [|i sched IH]; intros pool w Hpool; simpl; [done|].
  destruct (pool !! i) as [p|] eqn:Hp; [|by apply IH].
  pose proof (proj1 (Forall_forall _ _) Hpool p (list_elem_of_lookup_2 _ _ _ Hp)) as Hwithin.
  destruct p as [a|e| |X c k|m k|jobs k]; try by apply IH.
  apply within_Do_inv in Hwithin as [Hc Hk].
  destruct (handler X c w) as [x w1].
  destruct (IH (<[i := settle (k x)]> pool) w1) as [Hpool' Htr].
  { apply Forall_insert; [done|]. apply within_settle, Hk. }
  destruct (par_steps handler sched (<[i := settle (k x)]> pool) w1) as [[pool' w2] tr].
  split; [done|]. constructor; [done|]. apply Forall_app. split; [|done].
  apply done_event_within.
Qed.

Lemma drain_within job pool (w : W) :
  Forall within pool → Forall event_within (drain handler job pool w).2.
Proof.
  revert job w. induction pool as [|p pool IH]; intros job w Hpool; simpl; [done|].
  apply Forall_cons in Hpool as [Hp Hpool].
  pose proof (run_thread_within job p w Hp) as Hthread.
  destruct (run_thread handler job p w) as [[o w1] tr1].
  specialize (IH (S job) w1 Hpool).
  destruct (drain handler (S job) pool w1) as [[os w2] tr2].
  apply Forall_app. split; [done|]. apply Forall_app. split; [|done].
  destruct p; try done. apply done_outcome_within.
Qed.

Lemma fork_join_within jobs (w : W) :
  forks = true → Forall event_within (fork_join handler body_of schedule jobs w).2.
Proof.
  intros Hforks. unfold fork_join.
  set (pool := map (fun j => settle (body_of j)) jobs).
  assert (Forall within pool) as Hpool.
  { apply Forall_map, Forall_true. intros j. by apply within_settle, jobs_within. }
  destruct (par_steps_within schedule pool w Hpool) as [Hpool1 Htr1].
  destruct (par_steps handler schedule pool w) as [[pool1 w1] tr1].
  pose proof (drain_within 0 pool1 w1 Hpool1) as Htr2.
  destruct (drain handler 0 pool1 w1) as [[outs w2] tr2].
  constructor; [done|]. apply Forall_app. split; [|by apply Forall_app].
  apply Forall_concat, Forall_forall.
  intros l [i [p [-> Hp]]]%elem_of_lookup_imap. apply done_event_within.
Qed.

Lemma fork_interrupted_within jobs (w w' : W) e tr :
  forks = true → fork_interrupted handler body_of schedule jobs w = Some (e, w', tr) →
  Forall event_within tr.
Proof.
  intros Hforks. unfold fork_interrupted.
  set (pool := map (fun j => settle (body_of j)) jobs).
  assert (Forall within pool) as Hpool.
  { apply Forall_map, Forall_true. intros j. by apply within_settle, jobs_within. }
  destruct (par_steps_within schedule pool w Hpool) as [_ Htr1].
  destruct (par_steps handler schedule pool w) as [[pool1 w1] tr1].
  destruct (handler _ loop_wait w1) as [[[]|e'] w2]; [done|].
  intros [= <- <- <-]. constructor; [done|]. apply Forall_app. split; [|done].
  apply Forall_concat, Forall_forall.
  intros l [i [p [-> Hp]]]%elem_of_lookup_imap. apply done_event_within.
Qed.

(** A program that stays within the allowed kinds, run with jobs that do,
    makes calls of these kinds only. *)
Lemma run_within {A : Type} (p : prog A) (w : W) :
  within p → Forall event_within (run handler body_of schedule p w).2.
Proof.
  intros Hp. revert w.
  induction Hp as [a|e| |X c k Hc Hk IH|m k Hk IH|jobs k Hf Hk IH]; intros w; simpl;
    try done.
  - destruct (handler X c w) as [x w1]. specialize (IH x w1).
    destruct (run handler body_of schedule (k x) w1) as [[o w2] tr]. by constructor.
  - specialize (IH w). destruct (run handler body_of schedule k w) as [[o w1] tr].
    by constructor.
  - destruct (fork_interrupted handler body_of schedule jobs w) as [[[e w1] tr1]|]
      eqn:Hinterrupted.
    { pose proof (fork_interrupted_within jobs w w1 e tr1 Hf Hinterrupted) as Hfork.
      specialize (IH (Err e) w1).
      destruct (run handler body_of schedule (k (Err e)) w1) as [[o w2] tr2].
      apply Forall_app. split; [done|]. by constructor. }
    pose proof (fork_join_within jobs w Hf) as Hfork.
    destruct (fork_join handler body_of schedule jobs w) as [[outs w1] tr1].
    destruct (all_results outs) as [results|]; [|done].
    specialize (IH (Ok results) w1).
    destruct (run handler body_of schedule (k (Ok results)) w1) as [[o w2] tr2].
    apply Forall_app. split; [done|]. by constructor.
Qed.

End runs.

End footprint.

Lemma within_mono (allowed allowed' : forall X : Type, call X -> bool)
    (forks forks' spins spins' : bool) {A : Type} (p : prog A) :
  (∀ X (c : call X), allowed X c = true → allowed' X c = true) →
  (forks = true → forks' = true) → (spins = true → spins' = true) →
  within allowed forks spins p → within allowed' forks' spins' p.
Proof. intros Hmono Hforks Hspins. induction 1; constructor; auto. Qed.

Section halting.

Context {W : Type}.
Variable handler : forall X : Type, call X -> W -> X * W.
Variable body_of : Job -> prog unit.
Variable schedule : list nat.

(** A program without a polling loop and without a fork comes to an end. *)
Lemma run_halts allowed {A : Type} (p : prog A) (w : W) :
  within allowed false false p → (run handler body_of schedule p w).1.1 ≠ Spinning.
Proof.
  intros Hp. revert w.
  induction Hp as [a|e|Hs|X c k Hc Hk IH|m k Hk IH|jobs k Hf Hk IH]; intros w; simpl;
    try done.
  - destruct (handler X c w) as [x w1]. specialize (IH x w1).
    by destruct (run handler body_of schedule (k x) w1) as [[o w2] tr].
  - specialize (IH w). by destruct (run handler body_of schedule k w) as [[o w1] tr].
Qed.

End halting.

#[global] Instance kind_eq_dec : EqDecision kind.
Proof. solve_decision. Defined.

(** The kinds in a list. *)
Definition among (kinds : list kind) (X : Type) (c : call X) : bool :=
  bool_decide (kind_of c ∈ kinds).

Ltac stay_with known :=
  repeat first
    [ progress intros
    | known
    | reflexivity
    | apply within_for_each
    | apply within_try_finally
    | apply within_ask
    | apply within_perform
    | apply within_of_result
    | apply within_item0
    | apply within_Ret
    | apply within_Raise
    | apply within_Spin; reflexivity
    | apply within_Mark
    | apply within_Fork; [reflexivity|]
    | apply within_bind
    | apply within_Do
    | match goal with
      | |- within _ _ _ (match ?x with _ => _ end) => destruct x
      | |- within _ _ _ (if ?x then _ else _) => destruct x
      | |- within _ _ _ (let '(_, _) := ?x in _) => destruct x
      end ].

Ltac stay := stay_with fail.

(** A part of a program that stays within fewer kinds. *)
Ltac part lemma :=
  eapply within_mono; [| | |solve [apply lemma]];
  [by intros X []|first [exact (fun H => H)|done]..].

Lemma within_for_each_handle (allowed : forall X : Type, call X -> bool) forks spins method
    instances :
  (∀ instance, allowed _ (method instance) = true) →
  within allowed forks spins (for_each_handle method instances).
Proof.
  intros Hmethod. induction instances; simpl;
    stay_with ltac:(first [apply IHinstances | apply Hmethod]).
Qed.

Lemma within_for_each_module (allowed : forall X : Type, call X -> bool) forks spins modules
    position body :
  (∀ k module, within allowed forks spins (body k module)) →
  within allowed forks spins (for_each_module modules position body).
Proof.
  intros Hbody. revert position. induction modules; intros position; simpl;
    stay_with ltac:(first [apply Hbody | apply IHmodules]).
Qed.

Lemma within_timeit (allowed : forall X : Type, call X -> bool) forks spins {A : Type}
    func_name (func : prog A) :
  allowed _ datetime_now = true → (∀ file line, allowed _ (print file line) = true) →
  within allowed forks spins func → within allowed forks spins (timeit func_name func).
Proof.
  intros Hnow Hprint Hfunc. unfold timeit.
  stay_with ltac:(first [assumption | apply Hprint]).
Qed.

Lemma within_connect forks spins region method :
  within (among [k_connect_to_region]) forks spins (connect region method).
Proof. unfold connect. stay. Qed.

Lemma within_get_cluster_instances_ec2 forks spins cluster_name region :
  within (among [k_connect_to_region; k_get_only_instances]) forks spins
    (get_cluster_instances_ec2 cluster_name region).
Proof. unfold get_cluster_instances_ec2. stay_with ltac:(part within_connect). Qed.

Lemma within_authorize_rule forks spins group rule :
  within (among [k_authorize; k_print]) forks spins (authorize_rule group rule).
Proof.
  unfold authorize_rule. apply within_try_except; [stay|].
  intros e q. destruct e; try done. intros [= <-]. stay.
Qed.

Lemma within_get_or_create_ec2_security_groups forks spins cluster_name vpc_id region :
  within (among [k_connect_to_region; k_get_all_security_groups; k_create_security_group;
                 k_urlopen; k_authorize; k_print]) forks spins
    (get_or_create_ec2_security_groups cluster_name vpc_id region).
Proof.
  unfold get_or_create_ec2_security_groups.
  stay_with ltac:(first [part within_connect | part within_authorize_rule]).
Qed.

Lemma within_wait_for_state forks awaited fuel instances :
  within (among [k_update; k_sleep]) forks true (wait_for_state awaited fuel instances).
Proof.
  revert instances. induction fuel as [|fuel IH]; intros instances; simpl;
    destruct (first_not_in awaited instances 0) as [[position instance]|];
    stay_with ltac:(apply IH).
Qed.

Lemma within_get_ssh_client forks fuel user host identity_file print_status :
  within (among [k_ssh_connect; k_print; k_sleep]) forks true
    (get_ssh_client fuel user host identity_file print_status).
Proof.
  induction fuel as [|fuel IH]; simpl; [by constructor|].
  constructor; [done|]. intros [[]|e].
  - stay.
  - destruct e; stay_with ltac:(apply IH).
Qed.

Lemma within_ssh_check_output (allowed : forall X : Type, call X -> bool) forks spins client
    command :
  allowed _ (exec_command client command) = true →
  within allowed forks spins (ssh_check_output client command).
Proof. intros Hcommand. unfold ssh_check_output. stay_with ltac:(assumption). Qed.

Lemma within_get_formatted_template forks spins path mapping :
  within (among [k_read_file; k_format]) forks spins (get_formatted_template path mapping).
Proof. unfold get_formatted_template. stay. Qed.

Lemma within_install forks spins module client cluster_info :
  within (among [k_getpeername; k_print; k_read_file; k_format; k_exec_command]) forks spins
    (install module client cluster_info).
Proof.
  unfold install, getpeername. destruct module as [version].
  apply within_bind; [stay|]. intros h. apply within_bind; [stay|]. intros _.
  apply within_try_except.
  - stay_with ltac:(first [part within_get_formatted_template
                          | by apply within_ssh_check_output]).
  - intros e q. destruct (is_Exception e); [|done]. intros [= <-]. stay.
Qed.

Lemma within_configure forks spins module client cluster_info :
  within (among [k_read_file; k_format; k_exec_command]) forks spins
    (configure module client cluster_info).
Proof.
  unfold configure.
  stay_with ltac:(first [part within_get_formatted_template
                        | by apply within_ssh_check_output]).
Qed.

Lemma within_configure_master forks spins module client cluster_info :
  within (among [k_getpeername; k_print; k_exec_command]) forks spins
    (configure_master module client cluster_info).
Proof.
  unfold configure_master, getpeername. stay_with ltac:(by apply within_ssh_check_output).
Qed.

Lemma within_health_check forks spins module master_host :
  within (among [k_urlopen; k_format; k_print]) forks spins (health_check module master_host).
Proof.
  unfold health_check. apply within_bind; [|stay].
  apply within_try_except; [stay|].
  intros e q. destruct (is_Exception e); [|done]. intros [= <-]. stay.
Qed.

(** What a job of the executor does on its node. *)
Definition node_kinds : list kind :=
  [k_ssh_connect; k_sleep; k_print; k_getpeername; k_exec_command; k_read_file; k_format;
   k_ssh_close].

Lemma within_provision_ec2_node forks fuel modules user host identity_file cluster_info :
  within (among node_kinds) forks true
    (provision_ec2_node fuel modules user host identity_file cluster_info).
Proof.
  unfold provision_ec2_node, with_client, key_pair_of.
  stay_with ltac:(first [part within_get_ssh_client | by apply within_ssh_check_output
                        | part within_install | part within_configure]).
Qed.

Lemma within_start_ec2_node forks fuel modules user host identity_file cluster_info :
  within (among node_kinds) forks true
    (start_ec2_node fuel modules user host identity_file cluster_info).
Proof.
  unfold start_ec2_node, with_client.
  stay_with ltac:(first [part within_get_ssh_client | part within_configure]).
Qed.

Lemma within_job_prog forks fuel job : within (among node_kinds) forks true (job_prog fuel job).
Proof.
  destruct job; [apply within_provision_ec2_node|apply within_start_ec2_node].
Qed.

Lemma within_print_cluster_info_ec2 forks spins cluster_name cluster_instances :
  within (among [k_print]) forks spins (print_cluster_info_ec2 cluster_name cluster_instances).
Proof. unfold print_cluster_info_ec2. stay. Qed.

(** The kinds of the calls of the commands. *)
Definition describe_kinds : list kind :=
  [k_connect_to_region; k_get_only_instances; k_print].

Definition login_kinds : list kind :=
  [k_connect_to_region; k_get_only_instances; k_subprocess].

Definition destroy_kinds : list kind :=
  [k_connect_to_region; k_get_only_instances; k_print; k_confirm; k_terminate].

Definition stop_kinds : list kind :=
  [k_now; k_connect_to_region; k_get_only_instances; k_print; k_confirm; k_stop;
   k_update; k_sleep].

Definition start_kinds : list kind :=
  [k_now; k_connect_to_region; k_get_only_instances; k_print; k_start; k_update; k_sleep;
   k_iter; k_urlopen] ++ node_kinds.

Definition launch_kinds : list kind :=
  [k_now; k_connect_to_region; k_get_only_instances; k_get_all_security_groups;
   k_create_security_group; k_authorize; k_urlopen; k_print; k_run_instances; k_update;
   k_create_tags; k_ssh_keygen; k_iter] ++ node_kinds.

Lemma within_describe_ec2 forks spins cluster_name master_hostname_only region :
  within (among describe_kinds) forks spins (describe_ec2 cluster_name master_hostname_only region).
Proof.
  unfold describe_ec2.
  stay_with ltac:(first [part within_connect | part within_print_cluster_info_ec2]).
Qed.

Lemma within_login_ec2 forks spins cluster_name region identity_file user :
  within (among login_kinds) forks spins (login_ec2 cluster_name region identity_file user).
Proof. unfold login_ec2, ssh. stay_with ltac:(part within_connect). Qed.

Lemma within_destroy_ec2 forks spins cluster_name assume_yes region :
  within (among destroy_kinds) forks spins (destroy_ec2 cluster_name assume_yes region).
Proof.
  unfold destroy_ec2.
  stay_with ltac:(first [part within_connect | part within_print_cluster_info_ec2
                        | by apply within_for_each_handle]).
Qed.

Lemma within_stop_ec2 forks cluster_name region fuel assume_yes :
  within (among stop_kinds) forks true (stop_ec2 cluster_name region fuel assume_yes).
Proof.
  unfold stop_ec2. apply within_timeit; [done..|].
  stay_with ltac:(first [part within_connect | part within_print_cluster_info_ec2
                        | part within_wait_for_state
                        | by apply within_for_each_handle]).
Qed.

Lemma within_run_until_complete_wait tasks :
  within (among [k_iter]) true true (run_until_complete_wait tasks).
Proof. unfold run_until_complete_wait. destruct tasks; stay. Qed.

Lemma within_start_ec2 cluster_name identity_file region user fuel :
  within (among start_kinds) true true (start_ec2 cluster_name identity_file region user fuel).
Proof.
  unfold start_ec2, with_client. apply within_timeit; [done..|].
  apply within_bind.
  { apply within_try_except.
    - stay_with ltac:(part within_get_cluster_instances_ec2).
    - intros e q. destruct e; try done. intros [= <-]. stay. }
  stay_with ltac:(first [part within_wait_for_state | part within_get_ssh_client
                        | part within_run_until_complete_wait
                        | part within_configure_master | part within_health_check
                        | by apply within_for_each_handle]).
Qed.

Lemma within_launch_cluster cluster_name num_slaves modules key_name identity_file
    instance_type region availability_zone ami user subnet_id placement_group tenancy
    ebs_optimized instance_initiated_shutdown_behavior fuel security_groups :
  within (among launch_kinds) true true
    (launch_cluster cluster_name num_slaves modules key_name identity_file instance_type
       region availability_zone ami user subnet_id placement_group tenancy ebs_optimized
       instance_initiated_shutdown_behavior fuel security_groups).
Proof.
  unfold launch_cluster, with_client, generate_ssh_key_pair, mark.
  stay_with ltac:(first [part within_connect | part within_wait_for_state
                        | part within_get_ssh_client
                        | part within_run_until_complete_wait
                        | part within_configure_master | part within_health_check
                        | apply within_for_each_module ]).
Qed.

Lemma within_launch_ec2 cluster_name num_slaves modules key_name identity_file
    instance_type region availability_zone ami user vpc_id subnet_id placement_group
    tenancy ebs_optimized instance_initiated_shutdown_behavior fuel :
  within (among launch_kinds) true true
    (launch_ec2 cluster_name num_slaves modules key_name identity_file instance_type
       region availability_zone ami user vpc_id subnet_id placement_group tenancy
       ebs_optimized instance_initiated_shutdown_behavior fuel).
Proof.
  unfold launch_ec2. apply within_timeit; [done..|].
  apply within_bind.
  { apply within_try_except.
    - stay_with ltac:(part within_get_cluster_instances_ec2).
    - intros e q. destruct e; try done. intros [= <-]. stay. }
  intros found. apply within_bind; [destruct found; stay|]. intros _.
  apply within_bind; [part within_get_or_create_ec2_security_groups|].
  intros security_groups. apply within_try_except; [apply within_launch_cluster|].
  intros e q. destruct e; try done. intros [= <-]. stay.
Qed.

(** Every call of the trace is of one of these kinds. *)
Definition calls_among (kinds : list kind) (tr : list event) : Prop :=
  Forall (fun ev => match event_kind ev with Some k => k ∈ kinds | None => True end) tr.

Lemma calls_among_within kinds tr :
  Forall (event_within (among kinds)) tr → calls_among kinds tr.
Proof.
  intros H. eapply Forall_impl; [exact H|]. intros ev. unfold event_within, among.
  destruct ev; simpl; try done; apply bool_decide_eq_true_1.
Qed.

Section footprints.

Context {W : Type}.
Variable handler : forall X : Type, call X -> W -> X * W.
Variable body_of : Job -> prog unit.
Variable worker_fuel : nat.
Variable schedule : list nat.

(** X8.  [describe_ec2] and [login_ec2] change nothing at EC2: besides
    printing, and running [ssh] for a login, they connect to the region
    and list instances, whatever they are answered. *)
Theorem describe_login_read_only cluster_name master_hostname_only region
    name login_region identity_file user (w : W) :
  calls_among [k_connect_to_region; k_get_only_instances; k_print]
    (run handler body_of schedule (describe_ec2 cluster_name master_hostname_only region) w).2
  ∧ calls_among [k_connect_to_region; k_get_only_instances; k_subprocess]
      (run handler body_of schedule (login_ec2 name login_region identity_file user) w).2.
Proof.
  split; apply calls_among_within; apply (run_within _ false false); try done.
  - apply within_describe_ec2.
  - apply within_login_ec2.
Qed.

(** X9.  Whatever fails during a launch, [launch_ec2] neither terminates
    nor stops an instance, and asks the user nothing: the instances it
    launched stay as they are.  Its calls, and those of the provisioning
    jobs, are of the kinds of [launch_kinds]. *)
Theorem launch_ec2_calls cluster_name num_slaves modules key_name identity_file
    instance_type region availability_zone ami user vpc_id subnet_id placement_group
    tenancy ebs_optimized instance_initiated_shutdown_behavior fuel (w : W) :
  calls_among launch_kinds
    (run handler (job_prog worker_fuel) schedule
       (launch_ec2 cluster_name num_slaves modules key_name identity_file instance_type
          region availability_zone ami user vpc_id subnet_id placement_group tenancy
          ebs_optimized instance_initiated_shutdown_behavior fuel) w).2
  ∧ Forall (fun k => k ∉ launch_kinds) [k_terminate; k_stop; k_start; k_confirm].
Proof.
  split.
  - apply calls_among_within, (run_within _ true true).
    + intros _ job. eapply within_mono; [| | |apply (within_job_prog true)]; try done.
      by intros X [].
    + apply within_launch_ec2.
  - repeat apply Forall_cons_2; try apply Forall_nil_2;
      apply (bool_decide_eq_false_1 (_ ∈ _)); by vm_compute.
Qed.

(** X10.  [destroy_ec2] changes instances only by terminating them,
    [stop_ec2] only by stopping them and [start_ec2] only by starting
    them; none of them touches a security group or launches an
    instance. *)
Theorem lifecycle_calls cluster_name identity_file region user assume_yes fuel (w : W) :
  calls_among destroy_kinds
    (run handler body_of schedule (destroy_ec2 cluster_name assume_yes region) w).2
  ∧ calls_among stop_kinds
      (run handler body_of schedule (stop_ec2 cluster_name region fuel assume_yes) w).2
  ∧ calls_among start_kinds
      (run handler (job_prog worker_fuel) schedule
         (start_ec2 cluster_name identity_file region user fuel) w).2
  ∧ Forall (fun k => k ∉ destroy_kinds ++ stop_kinds ++ start_kinds)
      [k_run_instances; k_create_tags; k_get_all_security_groups; k_create_security_group;
       k_authorize]
  ∧ Forall (fun k => k ∉ destroy_kinds) [k_stop; k_start]
  ∧ Forall (fun k => k ∉ stop_kinds) [k_terminate; k_start]
  ∧ Forall (fun k => k ∉ start_kinds) [k_terminate; k_stop; k_confirm].
Proof.
  split_and!; try apply calls_among_within.
  - apply (run_within _ false true); [done|apply within_destroy_ec2].
  - apply (run_within _ false true); [done|apply within_stop_ec2].
  - apply (run_within _ true true); [|apply within_start_ec2].
    intros _ job. eapply within_mono; [| | |apply (within_job_prog true)]; try done.
    by intros X [].
  - repeat apply Forall_cons_2; try apply Forall_nil_2;
      apply (bool_decide_eq_false_1 (_ ∈ _)); by vm_compute.
  - repeat apply Forall_cons_2; try apply Forall_nil_2;
      apply (bool_decide_eq_false_1 (_ ∈ _)); by vm_compute.
  - repeat apply Forall_cons_2; try apply Forall_nil_2;
      apply (bool_decide_eq_false_1 (_ ∈ _)); by vm_compute.
  - repeat apply Forall_cons_2; try apply Forall_nil_2;
      apply (bool_decide_eq_false_1 (_ ∈ _)); by vm_compute.
Qed.

End footprints.

(** ** Connections to the nodes *)

(** The connections closed, in order. *)
Definition closes (tr : list event) : list string :=
  omap (fun ev =>
          match ev with
          | Called c _ =>
              match c with
              | ssh_close hostname => Some hostname
              | _ => None
              end
          | _ => None
          end) tr.

(** The calls that are not the closing of a connection. *)
Definition keeps_open (X : Type) (c : call X) : bool :=
  match c with
  | ssh_close _ => false
  | _ => true
  end.

(** The calls that are not the installation of Java. *)
Definition spares_java (X : Type) (c : call X) : bool :=
  match c with
  | exec_command _ sh_install_java => false
  | _ => true
  end.

Lemma closes_app tr1 tr2 : closes (tr1 ++ tr2) = closes tr1 ++ closes tr2.
Proof. unfold closes. apply omap_app. Qed.

Lemma closes_kept tr : Forall (event_within keeps_open) tr → closes tr = [].
Proof.
  induction 1 as [|ev tr Hev _ IH]; [done|].
  destruct ev as [X c x| | | | | |]; try done. by destruct c.
Qed.

Section connections.

Context {W : Type}.
Variable handler : forall X : Type, call X -> W -> X * W.
Variable body_of : Job -> prog unit.
Variable schedule : list nat.

Local Abbreviation run := (run handler body_of schedule).

Lemma with_client_run {A : Type} client (body : prog A) (w : W) :
  within keeps_open false false body →
  (run (with_client client body) w).1.1 = (run body w).1.1
  ∧ (run (with_client client body) w).2
    = (run body w).2 ++ [Called (ssh_close client) tt]
  ∧ closes (run (with_client client body) w).2 = [client].
Proof.
  intros Hbody. unfold with_client. rewrite run_try_finally.
  pose proof (run_halts handler body_of schedule keeps_open body w Hbody) as Hhalts.
  pose proof (run_within keeps_open false false handler body_of schedule
                ltac:(done) body w Hbody) as Hkept.
  destruct (run body w) as [[[a|e|] w1] tr1]; [| |done]; simpl in *;
    destruct (handler _ (ssh_close client) w1) as [[] w2]; simpl;
    (split_and!; [done..|]); by rewrite closes_app, (closes_kept tr1 Hkept).
Qed.

Lemma node_closes fuel user host identity_file (body : SSHClient -> prog unit) (w : W) :
  (∀ client, within keeps_open false false (body client)) →
  match (run (get_ssh_client fuel user host identity_file true) w).1.1 with
  | Returned client =>
      closes (run (client ← get_ssh_client fuel user host identity_file true;
                   with_client client (body client)) w).2 = [client]
      ∧ last (run (client ← get_ssh_client fuel user host identity_file true;
                   with_client client (body client)) w).2
        = Some (Called (ssh_close client) tt)
  | _ =>
      closes (run (client ← get_ssh_client fuel user host identity_file true;
                   with_client client (body client)) w).2 = []
  end.
Proof.
  intros Hbody. rewrite run_bind.
  assert (Forall (event_within keeps_open)
            (run (get_ssh_client fuel user host identity_file true) w).2) as Hconnect.
  { apply (run_within keeps_open false true); [done|].
    eapply within_mono; [| | |apply (within_get_ssh_client false)]; try done.
    by intros X []. }
  destruct (run (get_ssh_client fuel user host identity_file true) w)
    as [[[client|e|] w1] tr1]; simpl in *; [|by apply closes_kept..].
  destruct (with_client_run client (body client) w1 (Hbody client)) as (_ & Htr & Hcloses).
  destruct (run (with_client client (body client)) w1) as [[o w2] tr2]. simpl in *.
  rewrite closes_app, (closes_kept tr1 Hconnect), Hcloses. split; [done|].
  rewrite Htr, app_assoc. apply last_snoc.
Qed.

(** X11.  A job of the executor closes the connection to its node exactly
    once, as the last thing it does, whenever [get_ssh_client] gave it
    one: whether the provisioning went through or raised.  Without a
    connection it closes nothing. *)
Theorem node_connection_closed fuel modules user host identity_file cluster_info (w : W) :
  match (run (get_ssh_client fuel user host identity_file true) w).1.1 with
  | Returned client =>
      closes (run (provision_ec2_node fuel modules user host identity_file cluster_info)
                w).2 = [client]
      ∧ last (run (provision_ec2_node fuel modules user host identity_file cluster_info)
                w).2 = Some (Called (ssh_close client) tt)
      ∧ closes (run (start_ec2_node fuel modules user host identity_file cluster_info)
                  w).2 = [client]
      ∧ last (run (start_ec2_node fuel modules user host identity_file cluster_info)
                w).2 = Some (Called (ssh_close client) tt)
  | _ =>
      closes (run (provision_ec2_node fuel modules user host identity_file cluster_info)
                w).2 = []
      ∧ closes (run (start_ec2_node fuel modules user host identity_file cluster_info)
                  w).2 = []
  end.
Proof.
  pose proof (node_closes fuel user host identity_file
                (fun client =>
                   keys ← key_pair_of cluster_info "private";
                   ssh_check_output client
                     (sh_install_keys (shlex_quote (private keys))
                        (shlex_quote (public keys)));;
                   java_home ← ssh_check_output client sh_echo_java_home;
                   (if String.eqb (strip java_home) ""
                    then ask (print stdout ("[" +:+ host +:+ "] Installing Java..."));;
                         ssh_check_output client sh_install_java;;
                         Ret tt
                    else Ret tt);;
                   for_each modules
                     (fun module =>
                        install module client cluster_info;;
                        configure module client cluster_info)) w) as Hprovision.
  pose proof (node_closes fuel user host identity_file
                (fun client =>
                   for_each modules (fun module => configure module client cluster_info))
                w) as Hstart.
  change (provision_ec2_node fuel modules user host identity_file cluster_info)
    with (client ← get_ssh_client fuel user host identity_file true;
          with_client client
            (keys ← key_pair_of cluster_info "private";
             ssh_check_output client
               (sh_install_keys (shlex_quote (private keys)) (shlex_quote (public keys)));;
             java_home ← ssh_check_output client sh_echo_java_home;
             (if String.eqb (strip java_home) ""
              then ask (print stdout ("[" +:+ host +:+ "] Installing Java..."));;
                   ssh_check_output client sh_install_java;;
                   Ret tt
              else Ret tt);;
             for_each modules
               (fun module =>
                  install module client cluster_info;;
                  configure module client cluster_info))).
  change (start_ec2_node fuel modules user host identity_file cluster_info)
    with (client ← get_ssh_client fuel user host identity_file true;
          with_client client
            (for_each modules (fun module => configure module client cluster_info))).
  assert (∀ client module, within keeps_open false false
                             (configure module client cluster_info)) as Hconfigure.
  { intros client module. eapply within_mono; [| | |apply (within_configure false false)];
      try done. by intros X []. }
  assert (∀ client module, within keeps_open false false
                             (install module client cluster_info)) as Hinstall.
  { intros client module. eapply within_mono; [| | |apply (within_install false false)];
      try done. by intros X []. }
  destruct ((run (get_ssh_client fuel user host identity_file true) w).1.1)
    as [client|e|].
  - destruct Hprovision as [Hp1 Hp2].
    { intros c. unfold key_pair_of.
      stay_with ltac:(first [by apply within_ssh_check_output | apply Hinstall
                            | apply Hconfigure]). }
    destruct Hstart as [Hs1 Hs2]; [|done].
    intros c. stay_with ltac:(apply Hconfigure).
  - split; [apply Hprovision|apply Hstart].
    + intros c. unfold key_pair_of.
      stay_with ltac:(first [by apply within_ssh_check_output | apply Hinstall
                            | apply Hconfigure]).
    + intros c. stay_with ltac:(apply Hconfigure).
  - split; [apply Hprovision|apply Hstart].
    + intros c. unfold key_pair_of.
      stay_with ltac:(first [by apply within_ssh_check_output | apply Hinstall
                            | apply Hconfigure]).
    + intros c. stay_with ltac:(apply Hconfigure).
Qed.

End connections.

Section provisioning.

Context {W : Type}.
Variable handler : forall X : Type, call X -> W -> X * W.
Variable body_of : Job -> prog unit.
Variable schedule : list nat.

Local Abbreviation run := (run handler body_of schedule).

Lemma get_ssh_client_host fuel user host identity_file print_status (w : W) client :
  (run (get_ssh_client fuel user host identity_file print_status) w).1.1 = Returned client →
  client = host.
Proof.
  pose proof (get_ssh_client_run user host identity_file handler body_of schedule
                print_status fuel w) as Hssh.
  revert Hssh.
  generalize (run (get_ssh_client fuel user host identity_file print_status) w).2.
  generalize (run (get_ssh_client fuel user host identity_file print_status) w).1.1.
  intros o tr Hssh ->. remember (Returned client) as o eqn:Ho.
  induction Hssh; try done; [by injection Ho|by apply IHHssh].
Qed.

Lemma run_bind_all (P : event -> Prop) {A B : Type} (p : prog A) (f : A -> prog B) (w : W) :
  Forall P (run p w).2 →
  (∀ a, (run p w).1.1 = Returned a → Forall P (run (f a) (run p w).1.2).2) →
  Forall P (run (bind p f) w).2.
Proof.
  intros Hp Hf. rewrite run_bind. destruct (run p w) as [[[a|e|] w1] tr1]; simpl in *;
    try done.
  specialize (Hf a eq_refl). destruct (run (f a) w1) as [[o2 w2] tr2].
  apply Forall_app. by split.
Qed.

Lemma run_try_finally_all (P : event -> Prop) {A : Type} (p : prog A) q (w : W) :
  Forall P (run p w).2 → (∀ w1, Forall P (run q w1).2) →
  Forall P (run (try_finally p q) w).2.
Proof.
  intros Hp Hq. rewrite run_try_finally.
  destruct (run p w) as [[[a|e|] w1] tr1]; simpl in *; try done.
  - pose proof (run_bind_all P q (fun _ => Ret a) w1 (Hq w1) ltac:(done)) as H.
    destruct (run (q;; Ret a) w1) as [[o2 w2] tr2]. apply Forall_app. by split.
  - pose proof (run_bind_all P q (fun _ => Raise e : prog A) w1 (Hq w1) ltac:(done)) as H.
    destruct (run (q;; Raise e) w1) as [[o2 w2] tr2]. apply Forall_app. by split.
Qed.

(** X12.  On a node whose [JAVA_HOME] is not blank, [provision_ec2_node]
    does not install Java. *)
Theorem provision_ec2_node_java fuel modules user host identity_file cluster_info (w : W) :
  (∀ w' out err,
     (handler _ (exec_command host sh_echo_java_home) w').1 = Ok (0, out, err) →
     strip (rstrip_newlines out) ≠ "") →
  Forall (event_within spares_java)
    (run (provision_ec2_node fuel modules user host identity_file cluster_info) w).2.
Proof.
  intros Hjava. unfold provision_ec2_node.
  apply run_bind_all.
  { apply (run_within spares_java false true); [done|].
    eapply within_mono; [| | |apply (within_get_ssh_client false)]; try done.
    by intros X []. }
  intros client ->%get_ssh_client_host.
  set (w1 := (run (get_ssh_client fuel user host identity_file true) w).1.2). clearbody w1.
  apply run_try_finally_all;
    [|intros w'; apply (run_within spares_java false false); [done|stay]].
  apply run_bind_all.
  { apply (run_within spares_java false false); [done|]. unfold key_pair_of. stay. }
  intros keys _.
  set (w2 := (run (key_pair_of cluster_info "private") w1).1.2). clearbody w2.
  apply run_bind_all.
  { apply (run_within spares_java false false); [done|].
    by apply within_ssh_check_output. }
  intros _ _.
  match goal with |- context [(run ?p w2).1.2] => set (w3 := (run p w2).1.2) end.
  clearbody w3.
  apply run_bind_all.
  { apply (run_within spares_java false false); [done|].
    by apply within_ssh_check_output. }
  intros java_home Hecho.
  assert (String.eqb (strip java_home) "" = false) as ->.
  { unfold ssh_check_output in Hecho. rewrite outcome_perform in Hecho.
    specialize (Hjava w3).
    destruct ((handler _ (exec_command host sh_echo_java_home) w3).1)
      as [[[status out] err]|e]; [|done].
    cbn [fst snd] in Hecho.
    destruct (Z.eqb_spec status 0) as [->|Hne]; [|done].
    injection Hecho as <-. apply String.eqb_neq. by eapply Hjava. }
  apply (run_within spares_java false false); [done|].
  assert (∀ module, within spares_java false false (install module host cluster_info))
    as Hinstall.
  { intros [version]. unfold install, getpeername.
    apply within_bind; [stay|]. intros h. apply within_bind; [stay|]. intros _.
    apply within_try_except.
    - stay_with ltac:(first [by apply within_ssh_check_output
                            | eapply within_mono;
                              [| | |apply (within_get_formatted_template false false)];
                              [by intros X []|done..]]).
    - intros e q. destruct (is_Exception e); [|done]. intros [= <-]. stay. }
  assert (∀ module, within spares_java false false (configure module host cluster_info))
    as Hconfigure.
  { intros module. unfold configure.
    stay_with ltac:(first [by apply within_ssh_check_output
                          | eapply within_mono;
                            [| | |apply (within_get_formatted_template false false)];
                            [by intros X []|done..]]). }
  stay_with ltac:(first [apply Hinstall | apply Hconfigure]).
Qed.

End provisioning.

Definition one_node_info : ClusterInfo :=
  {| name := "c";
     ssh_key_pair := Some {| public := "ssh-rsa AAAA flintrock"; private := "PRIVATE KEY" |};
     master_host := "10.0.0.1"; slave_hosts := [];
     spark_scratch_dir := "/mnt/spark"; spark_master_opts := "" |}.

Lemma provision_ec2_node_java_witness :
  Forall (event_within spares_java)
    (run fake (job_prog 5) []
       (provision_ec2_node 5 [Spark "1.5.0"] "ec2-user" "10.0.0.1" "id.pem" one_node_info)
       (world_of [])).2.
Proof.
  apply provision_ec2_node_java.
  intros w' out err [= <-]. by vm_compute.
Defined.

(** ** Terminating and stopping a cluster *)

(** What [destroy_ec2] and [stop_ec2] have in common: the instances of the
    cluster are listed, the user is asked unless [assume_yes], and each
    instance is acted on. *)
Definition act_on_cluster {A : Type} (cluster_name region : string) (assume_yes : bool)
    (message verb : string) (method : Instance -> call (result Instance))
    (rest : list Instance -> prog A) : prog A :=
  connection ← connect (Some region) "get_only_instances";
  cluster_instances ←
    perform (get_only_instances connection
               [("instance.group-name", "flintrock-" +:+ cluster_name)]);
  (match cluster_instances with
   | [] => ask (print stdout "No such cluster.");; Raise (SystemExit 0)
   | _ :: _ => Ret tt
   end);;
  (if negb assume_yes
   then print_cluster_info_ec2 cluster_name cluster_instances;;
        ask (print stdout "---");;
        perform (click_confirm message);;
        Ret tt
   else Ret tt);;
  ask (print stdout (verb +:+ " " +:+ str_nat (length cluster_instances) +:+ " instances..."));;
  refreshed ← for_each_handle method cluster_instances;
  rest refreshed.

Lemma destroy_ec2_acts cluster_name assume_yes region :
  destroy_ec2 cluster_name assume_yes region
  = act_on_cluster cluster_name region assume_yes destroy_message "Terminating"
      instance_terminate (fun _ => Ret tt).
Proof. reflexivity. Qed.

Lemma stop_ec2_acts cluster_name region fuel assume_yes :
  stop_ec2 cluster_name region fuel assume_yes
  = timeit "stop_ec2"
      (act_on_cluster cluster_name region assume_yes stop_message "Stopping" instance_stop
         (fun cluster_instances =>
            wait_for_state "stopped" fuel cluster_instances;;
            ask (print stdout (cluster_name +:+ " is now stopped.")))).
Proof. reflexivity. Qed.

(** The calls of [method] on the instances, one after the other, with what
    they were answered. *)
Definition acts (method : Instance -> call (result Instance)) (instances : list Instance)
    (replies : list (result Instance)) : list event :=
  zip_with (fun instance reply => Called (method instance) reply) instances replies.

(** The lines of [print_cluster_info_ec2], as events. *)
Definition shown (cluster_name : string) (cluster_instances : list Instance) : list event :=
  map (fun line => Called (print stdout line) tt) (cluster_lines cluster_name cluster_instances).

(** The instances that were terminated, and those that were stopped, with
    what EC2 answered. *)
Definition terminated (tr : list event) : list (Instance * result Instance) :=
  omap (fun ev =>
          match ev with
          | Called c x =>
              match c in call X return X -> option (Instance * result Instance) with
              | instance_terminate instance => fun reply => Some (instance, reply)
              | _ => fun _ => None
              end x
          | _ => None
          end) tr.

Definition stopped (tr : list event) : list (Instance * result Instance) :=
  omap (fun ev =>
          match ev with
          | Called c x =>
              match c in call X return X -> option (Instance * result Instance) with
              | instance_stop instance => fun reply => Some (instance, reply)
              | _ => fun _ => None
              end x
          | _ => None
          end) tr.

(** One step of a run: the next call, its answer taken apart. *)
Ltac step := cbn [run bind perform ask of_result fst snd].

Section acting.

Context {W : Type}.
Variable handler : forall X : Type, call X -> W -> X * W.
Variable body_of : Job -> prog unit.
Variable schedule : list nat.

Local Abbreviation run := (run handler body_of schedule).

Lemma for_each_handle_run method instances (w : W) :
  ∃ replies,
    (run (for_each_handle method instances) w).2 = acts method instances replies
    ∧ match (run (for_each_handle method instances) w).1.1 with
      | Returned refreshed =>
          replies = map Ok refreshed ∧ length refreshed = length instances
      | Raised e => ∃ oks, replies = map Ok oks ++ [Err e] ∧ (length oks < length instances)%nat
      | Spinning => False
      end.
Proof.
  revert w. induction instances as [|instance rest IH]; intros w.
  - by exists [].
  - cbn [for_each_handle]. simpl.
    destruct (handler _ (method instance) w) as [[refreshed|e] w1].
    + simpl. rewrite run_bind. destruct (IH w1) as (replies & Htrace & Hreplies).
      destruct (run (for_each_handle method rest) w1) as [[[others|e|] w2] tr]; simpl in *.
      * exists (Ok refreshed :: replies). destruct Hreplies as [-> Hlength].
        rewrite Htrace, app_nil_r. split; [done|]. split; [done|]. by rewrite Hlength.
      * exists (Ok refreshed :: replies). destruct Hreplies as (oks & -> & Hlength).
        rewrite Htrace. split; [reflexivity|]. exists (refreshed :: oks). split; [done|].
        simpl. lia.
      * done.
    + simpl. exists [Err e]. split; [by destruct rest|]. exists []. split; [done|].
      simpl. lia.
Qed.

Lemma shown_run cluster_name cluster_instances (w : W) :
  (run (print_cluster_info_ec2 cluster_name cluster_instances) w).1.1 = Returned tt
  ∧ (run (print_cluster_info_ec2 cluster_name cluster_instances) w).2
    = shown cluster_name cluster_instances.
Proof.
  unfold print_cluster_info_ec2, shown, cluster_lines, nodes_block. simpl.
  destruct (handler _ (print stdout (cluster_name +:+ ":")) w) as [[] w1]. simpl.
  destruct (handler _ (print stdout
              ("  state: " +:+ get_cluster_state_ec2 cluster_instances)) w1) as [[] w2].
  simpl.
  destruct (handler _ (print stdout
              ("  node-count: " +:+ str_nat (length cluster_instances))) w2) as [[] w3].
  simpl.
  destruct (String.eqb (get_cluster_state_ec2 cluster_instances) "running"); [|done].
  simpl. by destruct (handler _ _ w3) as [[] w4].
Qed.

Lemma shown_calls cluster_name cluster_instances kinds :
  k_print ∈ kinds → calls_among kinds (shown cluster_name cluster_instances).
Proof. intros Hprint. unfold shown. apply Forall_map. by apply Forall_true. Qed.

Lemma act_on_cluster_run {A : Type} cluster_name region assume_yes message verb method
    (rest : list Instance -> prog A) (w : W) :
  let r := run (act_on_cluster cluster_name region assume_yes message verb method rest) w in
  ((∃ e, r.1.1 = Raised e)
   ∧ calls_among [k_connect_to_region; k_get_only_instances; k_print; k_confirm] r.2)
  ∨ ∃ connection listed asked replies,
      listed ≠ []
      ∧ (if assume_yes then asked = []
         else ∃ b, asked = shown cluster_name listed
                           ++ [Called (print stdout "---") tt;
                               Called (click_confirm message) (Ok b)])
      ∧ let before :=
          Called (connect_to_region (Some region)) (Ok (Some connection))
            :: Called (get_only_instances connection
                         [("instance.group-name", "flintrock-" +:+ cluster_name)])
                 (Ok listed)
            :: asked
            ++ Called (print stdout (verb +:+ " " +:+ str_nat (length listed)
                                       +:+ " instances...")) tt
            :: acts method listed replies in
        (∃ oks e, replies = map Ok oks ++ [Err e] ∧ (length oks < length listed)%nat
                  ∧ r.1.1 = Raised e ∧ r.2 = before)
        ∨ (∃ refreshed w', replies = map Ok refreshed ∧ length refreshed = length listed
                           ∧ r.1.1 = (run (rest refreshed) w').1.1
                           ∧ r.2 = before ++ (run (rest refreshed) w').2).
Proof.
  assert (∀ k, k ∈ [k_connect_to_region; k_get_only_instances; k_print; k_confirm]
             ↔ bool_decide (k ∈ [k_connect_to_region; k_get_only_instances; k_print;
                                 k_confirm]) = true) as Hkind.
  { intros k. split; [apply bool_decide_eq_true_2|apply bool_decide_eq_true_1]. }
  unfold act_on_cluster, connect. step.
  destruct (handler _ (connect_to_region (Some region)) w) as [[[connection|]|e] w1]; step;
    [|left; split; [eauto|repeat constructor; by apply Hkind]..].
  destruct (handler _ (get_only_instances connection _) w1) as [[listed|e] w2]; step;
    [|left; split; [eauto|repeat constructor; by apply Hkind]].
  destruct listed as [|first others]; step.
  { destruct (handler _ (print stdout "No such cluster.") w2) as [[] w3]. step.
    left; split; [eauto|repeat constructor; by apply Hkind]. }
  set (listed := first :: others).
  match goal with
  | |- context [run (bind ?p ?f) w2] => set (ask_user := p); set (go_on := f)
  end.
  assert ((∃ e, (run ask_user w2).1.1 = Raised e
                ∧ calls_among [k_connect_to_region; k_get_only_instances; k_print; k_confirm]
                    (run ask_user w2).2)
          ∨ ∃ asked,
              (if assume_yes then asked = []
               else ∃ b, asked = shown cluster_name listed
                                 ++ [Called (print stdout "---") tt;
                                     Called (click_confirm message) (Ok b)])
              ∧ (run ask_user w2).1.1 = Returned tt ∧ (run ask_user w2).2 = asked) as Hask.
  { unfold ask_user. destruct assume_yes; cbn [negb].
    { right. by exists []. }
    rewrite run_bind.
    destruct (shown_run cluster_name listed w2) as [Hreturned Hshown].
    destruct (run (print_cluster_info_ec2 cluster_name listed) w2) as [[o w3] tr].
    cbn [fst snd] in Hreturned, Hshown. subst o tr. step.
    destruct (handler _ (print stdout "---") w3) as [[] w4]. step.
    destruct (handler _ (click_confirm message) w4) as [[b|e] w5]; step.
    - right. eexists. split; [by exists b|done].
    - left. exists e. split; [done|]. apply Forall_app. split.
      + apply shown_calls. by apply Hkind.
      + repeat constructor; by apply Hkind. }
  rewrite run_bind.
  destruct Hask as [(e & Hraised & Hcalls)|(asked & Hasked & Hreturned & Htrace)].
  { destruct (run ask_user w2) as [[o w3] tr]. cbn [fst snd] in Hraised, Hcalls. subst o.
    cbn [fst snd]. left. split; [eauto|]. repeat constructor; try by apply Hkind. done. }
  destruct (run ask_user w2) as [[o w3] tr]. cbn [fst snd] in Hreturned, Htrace. subst o tr.
  unfold go_on. step.
  destruct (handler _ (print stdout _) w3) as [[] w4]. step.
  rewrite run_bind.
  destruct (for_each_handle_run method listed w4) as (replies & Hacts & Hreplies).
  right. exists connection, listed, asked, replies. split; [done|]. split; [done|].
  destruct (run (for_each_handle method listed) w4) as [[[refreshed|e|] w5] tr];
    cbn [fst snd] in Hacts, Hreplies; subst tr; [| |done].
  - right. destruct Hreplies as [-> Hlength]. exists refreshed, w5.
    destruct (run (rest refreshed) w5) as [[o w6] tr]. cbn [fst snd].
    split; [done|]. split; [done|]. split; [done|].
    cbn [app]. do 2 f_equal. by rewrite <- app_assoc.
  - left. destruct Hreplies as (oks & -> & Hlength). exists oks, e. cbn [fst snd].
    by split_and!.
Qed.

End acting.

(** Whether a kind is in a list of kinds, by computation. *)
Ltac kinds :=
  first [by apply (bool_decide_eq_true_1 (_ ∈ _)) | by apply (bool_decide_eq_false_1 (_ ∈ _))].

Lemma terminated_app tr1 tr2 : terminated (tr1 ++ tr2) = terminated tr1 ++ terminated tr2.
Proof. apply omap_app. Qed.

Lemma stopped_app tr1 tr2 : stopped (tr1 ++ tr2) = stopped tr1 ++ stopped tr2.
Proof. apply omap_app. Qed.

Lemma terminated_acts instances replies :
  terminated (acts instance_terminate instances replies) = zip instances replies.
Proof.
  revert replies. induction instances as [|i instances IH]; intros [|r replies]; try done.
  simpl. by rewrite <- IH.
Qed.

Lemma stopped_acts instances replies :
  stopped (acts instance_stop instances replies) = zip instances replies.
Proof.
  revert replies. induction instances as [|i instances IH]; intros [|r replies]; try done.
  simpl. by rewrite <- IH.
Qed.

Lemma terminated_none kinds tr :
  calls_among kinds tr → k_terminate ∉ kinds → terminated tr = [].
Proof.
  intros Hcalls Hkind. induction Hcalls as [|ev tr Hev _ IH]; [done|].
  destruct ev as [X c x| | | | | |]; try done.
  destruct c; done.
Qed.

Lemma stopped_none kinds tr : calls_among kinds tr → k_stop ∉ kinds → stopped tr = [].
Proof.
  intros Hcalls Hkind. induction Hcalls as [|ev tr Hev _ IH]; [done|].
  destruct ev as [X c x| | | | | |]; try done.
  destruct c; done.
Qed.

Lemma asked_calls cluster_name listed message (assume_yes : bool) asked :
  (if assume_yes then asked = []
   else ∃ b, asked = shown cluster_name listed
                     ++ [Called (print stdout "---") tt;
                         Called (click_confirm message) (Ok b)]) →
  calls_among [k_print; k_confirm] asked.
Proof.
  destruct assume_yes; [intros ->; constructor|]. intros [b ->]. apply Forall_app. split.
  - apply shown_calls. kinds.
  - repeat constructor; kinds.
Qed.

Section destroying.

Context {W : Type}.
Variable handler : forall X : Type, call X -> W -> X * W.
Variable body_of : Job -> prog unit.
Variable schedule : list nat.

Local Abbreviation run := (run handler body_of schedule).

(** X13.  [destroy_ec2] terminates the instances EC2 lists for the
    cluster's group, in the order of the listing, after [click.confirm]
    has returned (unless [assume_yes]; with [abort=True] it raises when
    the user declines, and what it returns is not looked at), and stops
    at the first call that fails: the instances after it are left
    running.  When the connection or the listing fails, nothing is
    listed or the confirmation raises, nothing is terminated. *)
Theorem destroy_ec2_terminates cluster_name assume_yes region (w : W) :
  let r := run (destroy_ec2 cluster_name assume_yes region) w in
  (terminated r.2 = [] ∧ ∃ e, r.1.1 = Raised e)
  ∨ ∃ connection listed asked replies,
      listed ≠ []
      ∧ (if assume_yes then asked = []
         else ∃ b, asked = shown cluster_name listed
                           ++ [Called (print stdout "---") tt;
                               Called (click_confirm destroy_message) (Ok b)])
      ∧ r.2 = Called (connect_to_region (Some region)) (Ok (Some connection))
                :: Called (get_only_instances connection
                             [("instance.group-name", "flintrock-" +:+ cluster_name)])
                     (Ok listed)
                :: asked
                ++ Called (print stdout ("Terminating " +:+ str_nat (length listed)
                                           +:+ " instances...")) tt
                :: acts instance_terminate listed replies
      ∧ terminated r.2 = zip listed replies
      ∧ match r.1.1 with
        | Returned _ => ∃ refreshed, replies = map Ok refreshed
                                     ∧ length refreshed = length listed
        | Raised e => ∃ oks, replies = map Ok oks ++ [Err e]
                             ∧ (length oks < length listed)%nat
        | Spinning => False
        end.
Proof.
  rewrite destroy_ec2_acts.
  destruct (act_on_cluster_run handler body_of schedule cluster_name region assume_yes
              destroy_message "Terminating" instance_terminate (fun _ => Ret tt) w)
    as [[Hraised Hcalls]|(connection & listed & asked & replies & Hlisted & Hasked & Hrun)];
    cbv zeta.
  { left. split; [|done]. apply (terminated_none _ _ Hcalls). kinds. }
  right. exists connection, listed, asked, replies. split; [done|]. split; [done|].
  assert (terminated asked = []) as Hquiet.
  { apply (terminated_none [k_print; k_confirm]); [by eapply asked_calls|kinds]. }
  cbv zeta in Hrun.
  destruct Hrun as [(oks & e & -> & Hlength & -> & ->)
                   |(refreshed & w' & -> & Hlength & -> & ->)].
  - split; [done|]. split; [|by exists oks].
    change (terminated (?a :: ?b :: ?l)) with (terminated l).
    rewrite terminated_app, Hquiet.
    change (terminated (?a :: ?l)) with (terminated l). apply terminated_acts.
  - cbn [run fst snd]. rewrite app_nil_r. split; [done|]. split; [|by exists refreshed].
    change (terminated (?a :: ?b :: ?l)) with (terminated l).
    rewrite terminated_app, Hquiet.
    change (terminated (?a :: ?l)) with (terminated l). apply terminated_acts.
Qed.

End destroying.

(** ** The polling loop *)

(** The handles refreshed, with what EC2 answered. *)
Definition polled (tr : list event) : list (Instance * result Instance) :=
  omap (fun ev =>
          match ev with
          | Called c x =>
              match c in call X return X -> option (Instance * result Instance) with
              | instance_update instance => fun reply => Some (instance, reply)
              | _ => fun _ => None
              end x
          | _ => None
          end) tr.

Lemma first_not_in_state awaited instances position found instance :
  first_not_in awaited instances position = Some (found, instance) →
  state instance ≠ awaited.
Proof.
  revert position. induction instances as [|x rest IH]; intros position H; [done|].
  simpl in H. destruct (String.eqb_spec (state x) awaited) as [Heq|Hne].
  - by eapply IH.
  - by injection H as <- <-.
Qed.

Lemma first_not_in_all awaited instances position :
  Forall (fun instance => state instance = awaited) instances →
  first_not_in awaited instances position = None.
Proof.
  intros H. revert position. induction H as [|x rest Hx _ IH]; intros position; [done|].
  simpl. rewrite Hx, String.eqb_refl. apply IH.
Qed.

Section polling.

Context {W : Type}.
Variable handler : forall X : Type, call X -> W -> X * W.
Variable body_of : Job -> prog unit.
Variable schedule : list nat.

Local Abbreviation run := (run handler body_of schedule).

Lemma wait_for_state_run awaited fuel instances (w : W) :
  let r := run (wait_for_state awaited fuel instances) w in
  Forall (fun p => state p.1 ≠ awaited) (polled r.2)
  ∧ Forall (fun seconds => seconds = 3) (slept r.2)
  ∧ (length (polled r.2) <= fuel)%nat
  ∧ match r.1.1 with
    | Returned waited => length (slept r.2) = length (polled r.2)
    | Raised e => True
    | Spinning => length (polled r.2) = fuel
    end.
Proof.
  cbv zeta. revert instances w. induction fuel as [|fuel IH]; intros instances w;
    cbn [wait_for_state];
    destruct (first_not_in awaited instances 0) as [[position instance]|] eqn:Hscan;
    try (by repeat constructor); try (by split_and!; try done; simpl; lia).
  step.
  destruct (handler _ (instance_update instance) w) as [[refreshed|e] w1]; step.
  - destruct (handler _ (time_sleep 3) w1) as [[[]|e] w2]; step.
    + destruct (IH (<[position := refreshed]> instances) w2) as (Hstate & Hslept & Hle & Ho).
      destruct (run (wait_for_state awaited fuel (<[position := refreshed]> instances)) w2)
        as [[o w3] tr]. cbn [fst snd] in *.
      split_and!.
      * constructor; [by eapply first_not_in_state|done].
      * by constructor.
      * simpl. lia.
      * destruct o; simpl; [lia|done|lia].
    + split_and!; try done.
      * constructor; [by eapply first_not_in_state|done].
      * by constructor.
      * simpl. lia.
  - split_and!; try done.
    + constructor; [by eapply first_not_in_state|done].
    + simpl. lia.
Qed.

(** X14.  The polling loop of [launch_ec2], [start_ec2] and [stop_ec2]
    refreshes only handles that do not read the awaited state, sleeps 3
    seconds after each refresh, and does nothing else.  It returns
    without a call when every handle reads the awaited state already;
    what it returns are as many handles, all reading that state.  It
    never gives up: a run cut off after [fuel] rounds has refreshed a
    handle [fuel] times. *)
Theorem wait_for_state_polls awaited fuel instances (w : W) :
  let r := run (wait_for_state awaited fuel instances) w in
  calls_among [k_update; k_sleep] r.2
  ∧ Forall (fun p => state p.1 ≠ awaited) (polled r.2)
  ∧ Forall (fun seconds => seconds = 3) (slept r.2)
  ∧ (Forall (fun instance => state instance = awaited) instances
     ↔ r = (Returned instances, w, []))
  ∧ match r.1.1 with
    | Returned waited =>
        Forall (fun instance => state instance = awaited) waited
        ∧ length waited = length instances
        ∧ length (slept r.2) = length (polled r.2)
    | Raised e => (length (polled r.2) <= fuel)%nat
    | Spinning => length (polled r.2) = fuel
    end.
Proof.
  cbv zeta.
  destruct (wait_for_state_run awaited fuel instances w) as (Hstate & Hslept & Hle & Ho).
  split_and!; [|done|done| |].
  - apply calls_among_within, (run_within _ false true); [done|].
    apply within_wait_for_state.
  - split.
    + intros Hall. destruct fuel; cbn [wait_for_state];
        by rewrite (first_not_in_all _ _ _ Hall).
    + intros Hrun.
      pose proof (wait_for_state_returned handler body_of schedule awaited fuel instances w
                    instances) as Hreturned.
      rewrite Hrun in Hreturned. by apply Hreturned.
  - destruct (run (wait_for_state awaited fuel instances) w).1.1 as [waited| |] eqn:Hrun;
      [|done..].
    destruct (wait_for_state_returned handler body_of schedule awaited fuel instances w
                waited Hrun) as (Hall & Hlength & _).
    done.
Qed.

End polling.

(** ** Timed commands *)

Section timing.

Context {W : Type}.
Variable handler : forall X : Type, call X -> W -> X * W.
Variable body_of : Job -> prog unit.
Variable schedule : list nat.

Local Abbreviation run := (run handler body_of schedule).

(** The report of [timeit], when the function returned. *)
Definition report (func_name : string) (start end_ : Z) : list event :=
  [Called datetime_now end_;
   Called (print stdout (func_name +:+ " finished in " +:+ str_timedelta (end_ - start)
                           +:+ ".")) tt].

Lemma timeit_run {A : Type} func_name (func : prog A) (w : W) :
  let start := (handler _ datetime_now w).1 in
  let r := run func (handler _ datetime_now w).2 in
  (run (timeit func_name func) w).1.1 = r.1.1
  ∧ (run (timeit func_name func) w).2
    = Called datetime_now start
        :: r.2 ++ match r.1.1 with
                  | Returned _ => report func_name start (handler _ datetime_now r.1.2).1
                  | _ => []
                  end.
Proof.
  cbv zeta. unfold timeit. step.
  destruct (handler _ datetime_now w) as [start w0]. step. rewrite run_bind.
  destruct (run func w0) as [[[a|e|] w1] tr]; step; [|by rewrite app_nil_r..].
  destruct (handler _ datetime_now w1) as [end_ w2]. step.
  by destruct (handler _ (print stdout _) w2) as [[] w3].
Qed.

(** X15.  [stop_ec2] stops the instances EC2 lists for the cluster's group,
    in the order of the listing, after [click.confirm] has returned
    (unless [assume_yes]).  A call that fails ends the command: the
    instances after it are left running and nothing more happens.  The
    handles are refreshed, and the cluster is reported stopped, only
    after every instance has been told to stop. *)
Theorem stop_ec2_stops cluster_name region fuel assume_yes (w : W) :
  let r := run (stop_ec2 cluster_name region fuel assume_yes) w in
  (stopped r.2 = [] ∧ ∃ e, r.1.1 = Raised e)
  ∨ ∃ start connection listed asked replies after,
      listed ≠ []
      ∧ (if assume_yes then asked = []
         else ∃ b, asked = shown cluster_name listed
                           ++ [Called (print stdout "---") tt;
                               Called (click_confirm stop_message) (Ok b)])
      ∧ r.2 = Called datetime_now start
                :: Called (connect_to_region (Some region)) (Ok (Some connection))
                :: Called (get_only_instances connection
                             [("instance.group-name", "flintrock-" +:+ cluster_name)])
                     (Ok listed)
                :: asked
                ++ Called (print stdout ("Stopping " +:+ str_nat (length listed)
                                           +:+ " instances...")) tt
                :: acts instance_stop listed replies ++ after
      ∧ stopped r.2 = zip listed replies
      ∧ ((∃ oks e, replies = map Ok oks ++ [Err e] ∧ (length oks < length listed)%nat
                   ∧ after = [] ∧ r.1.1 = Raised e)
         ∨ ∃ refreshed polls,
             replies = map Ok refreshed ∧ length refreshed = length listed
             ∧ calls_among [k_update; k_sleep] polls
             ∧ match r.1.1 with
               | Returned _ =>
                   ∃ end_, after = polls
                                   ++ Called (print stdout (cluster_name +:+ " is now stopped."))
                                        tt
                                   :: report "stop_ec2" start end_
               | _ => after = polls
               end).
Proof.
  rewrite stop_ec2_acts. cbv zeta.
  match goal with |- context [timeit _ ?p] => set (body := p) end.
  destruct (timeit_run "stop_ec2" body w) as [-> ->].
  set (start := (handler _ datetime_now w).1).
  set (w0 := (handler _ datetime_now w).2).
  set (end_ := (handler _ datetime_now (run body w0).1.2).1). clearbody end_.
  destruct (act_on_cluster_run handler body_of schedule cluster_name region assume_yes
              stop_message "Stopping" instance_stop
              (fun cluster_instances =>
                 wait_for_state "stopped" fuel cluster_instances;;
                 ask (print stdout (cluster_name +:+ " is now stopped."))) w0)
    as [[[e Hraised] Hcalls]|(connection & listed & asked & replies & Hlisted & Hasked & Hrun)];
    fold body in Hraised, Hcalls || fold body in Hrun.
  { left. rewrite Hraised, app_nil_r. split; [|by exists e].
    change (stopped (?a :: ?l)) with (stopped l).
    apply (stopped_none _ _ Hcalls). kinds. }
  right. exists start, connection, listed, asked, replies.
  assert (stopped asked = []) as Hquiet.
  { apply (stopped_none [k_print; k_confirm]); [by eapply asked_calls|kinds]. }
  cbv zeta in Hrun.
  destruct Hrun as [(oks & e & Hreplies & Hlength & Ho & Htrace)
                   |(refreshed & w' & Hreplies & Hlength & Ho & Htrace)].
  - exists []. rewrite Ho, Htrace, !app_nil_r. split; [done|]. split; [done|].
    split; [done|]. split; [|left; by exists oks, e].
    change (stopped (?a :: ?b :: ?c :: ?l)) with (stopped l).
    rewrite stopped_app, Hquiet.
    change (stopped (?a :: ?l)) with (stopped l). apply stopped_acts.
  - rewrite Ho, Htrace. clear Ho Htrace.
    match goal with |- context [run ?p w'] => set (rest := p) end.
    assert (∃ polls,
               calls_among [k_update; k_sleep] polls
               ∧ match (run rest w').1.1 with
                 | Returned _ =>
                     (run rest w').2
                     = polls ++ [Called (print stdout (cluster_name +:+ " is now stopped."))
                                   tt]
                 | _ => (run rest w').2 = polls
                 end) as (polls & Hpolls & Hrest).
    { unfold rest. rewrite run_bind.
      pose proof (run_within (among [k_update; k_sleep]) false true handler body_of schedule
                    ltac:(done) (wait_for_state "stopped" fuel refreshed) w'
                    (within_wait_for_state false "stopped" fuel refreshed)) as Hwithin.
      apply calls_among_within in Hwithin.
      destruct (run (wait_for_state "stopped" fuel refreshed) w') as [[[waited|e|] w1] tr];
        cbn [fst snd] in *; [|by exists tr..].
      step. destruct (handler _ (print stdout _) w1) as [[] w2]. by exists tr. }
    destruct (run rest w') as [[o w1] tr]. cbn [fst snd] in *.
    exists (tr ++ match o with
                  | Returned _ => report "stop_ec2" start end_
                  | _ => []
                  end).
    split; [done|]. split; [done|]. split.
    { cbn [app]. do 3 f_equal. by rewrite <- !app_assoc. }
    split.
    { cbn [app]. change (stopped (?a :: ?b :: ?c :: ?l)) with (stopped l).
      rewrite !stopped_app, Hquiet.
      change (stopped (?a :: ?l)) with (stopped l).
      rewrite stopped_acts.
      assert (stopped tr = []) as ->.
      { destruct o; subst tr; rewrite ?stopped_app;
          rewrite (stopped_none _ _ Hpolls) by kinds; done. }
      assert (stopped match o with
                      | Returned _ => report "stop_ec2" start end_
                      | _ => []
                      end = []) as -> by (by destruct o).
      by rewrite !app_nil_r. }
    right. exists refreshed, polls. split; [done|]. split; [done|]. split; [done|].
    destruct o as [[]|e|]; subst tr; [|by rewrite app_nil_r..].
    exists end_. by rewrite <- app_assoc.
Qed.

End timing.

(** ** The rules of the security groups *)

(** The rules added to security groups, with the group and the answer,
    and the groups created. *)
Definition authorized (tr : list event)
  : list (SecurityGroup * SecurityGroupRule * result unit) :=
  omap (fun ev =>
          match ev with
          | Called c x =>
              match c in call X
                    return X -> option (SecurityGroup * SecurityGroupRule * result unit) with
              | authorize group rule => fun answer => Some (group, rule, answer)
              | _ => fun _ => None
              end x
          | _ => None
          end) tr.

(** A rule of [group] that lets in the members of [group] itself, or one
    address on the ports of SSH and of the web interfaces of Spark. *)
Definition narrow (group : SecurityGroup) (rule : SecurityGroupRule) : Prop :=
  (src_group rule = Some group ∧ cidr_ip rule = None)
  ∨ (src_group rule = None
     ∧ ip_protocol rule = "tcp"
     ∧ (from_port rule, to_port rule) ∈ [(22, 22); (8080, 8081); (4040, 4040)]
     ∧ ∃ ip, cidr_ip rule = Some (ip +:+ "/32")).

Definition narrow_event (ev : event) : Prop :=
  match ev with
  | Called c _ =>
      match c with
      | authorize group rule => narrow group rule
      | _ => True
      end
  | _ => True
  end.

(** The creation of the group of that name, where the search did not find
    one. *)
Definition ensured (connection : Connection) (name description : string)
    (vpc_id : option string) (found : list SecurityGroup) (group : SecurityGroup)
  : list event :=
  match List.find (fun sg => String.eqb (sg_name sg) name) found with
  | Some _ => []
  | None => [Called (create_security_group connection name description vpc_id) (Ok group)]
  end.

Definition added (group : SecurityGroup) (rules : list SecurityGroupRule)
    (answers : list (result unit)) : list event :=
  zip_with (fun rule answer => Called (authorize group rule) answer) rules answers.
Arguments added : simpl never.

Lemma narrow_authorized tr :
  Forall narrow_event tr → Forall (fun a => narrow a.1.1 a.1.2) (authorized tr).
Proof.
  induction 1 as [|ev tr Hev _ IH]; [constructor|].
  destruct ev as [X c x| | | | | |]; try done. destruct c; try done. by constructor.
Qed.

Lemma narrow_among kinds tr :
  k_authorize ∉ kinds → Forall (event_within (among kinds)) tr → Forall narrow_event tr.
Proof.
  intros Hkind H. eapply Forall_impl; [exact H|]. intros [X c x| | | | | |]; try done.
  destruct c; try done. simpl. unfold among. simpl. intros Hin.
  by apply bool_decide_eq_true_1 in Hin.
Qed.

Section rules.

Context {W : Type}.
Variable handler : forall X : Type, call X -> W -> X * W.
Variable body_of : Job -> prog unit.
Variable schedule : list nat.

Local Abbreviation run := (run handler body_of schedule).

Lemma authorize_loop_run group rules (w : W) :
  let r := run (for_each rules (authorize_rule group)) w in
  ((∀ rule, rule ∈ rules → narrow group rule) → Forall narrow_event r.2)
  ∧ match r.1.1 with
    | Returned _ =>
        ∃ answers, r.2 = added group rules answers
                   ∧ length answers = length rules
                   ∧ Forall (fun answer => goes_on answer = true) answers
    | Raised _ => True
    | Spinning => False
    end.
Proof.
  cbv zeta. revert w. induction rules as [|rule rules IH]; intros w.
  { split; [constructor|]. by exists []. }
  rewrite for_each_cons, run_bind, authorize_rule_run. cbv zeta.
  set (answer := (handler _ (authorize group rule) w).1).
  set (w1 := (handler _ (authorize group rule) w).2).
  clearbody answer w1.
  destruct (IH w1) as [Hnarrow Hshape].
  assert ((∀ rule0, rule0 ∈ rule :: rules → narrow group rule0) →
          Forall narrow_event
            (Called (authorize group rule) answer
               :: (run (for_each rules (authorize_rule group)) w1).2)) as Hgoes.
  { intros Hrules. constructor; [apply Hrules; by left|].
    apply Hnarrow. intros rule0 Hin. apply Hrules. by right. }
  assert (∀ said,
            Forall (fun ev => match ev with Called (print _ _) _ => True | _ => False end)
              said →
            (∀ rule0, rule0 ∈ rule :: rules → narrow group rule0) →
            Forall narrow_event (Called (authorize group rule) answer :: said)) as Hstops.
  { intros said Hsaid Hrules. constructor; [apply Hrules; by left|].
    eapply Forall_impl; [exact Hsaid|]. intros [X c x| | | | | |]; try done. by destruct c. }
  clear Hnarrow.
  destruct answer as [[]|e].
  - cbv beta iota.
    destruct (run (for_each rules (authorize_rule group)) w1) as [[[[]|e|] w2] tr];
      cbn [fst snd] in *; [|done..].
    split; [done|]. destruct Hshape as (answers & -> & Hlength & Hgo).
    exists (Ok tt :: answers). split; [done|]. split; [simpl; by rewrite Hlength|].
    by constructor.
  - destruct e; try (split; [by apply (Hstops [])|done]).
    destruct (String.eqb error_code "InvalidPermission.Duplicate") eqn:Hcode.
    + cbv beta iota.
      destruct (run (for_each rules (authorize_rule group)) w1) as [[[[]|e|] w2] tr];
        cbn [fst snd] in *; [|done..].
      split; [done|]. destruct Hshape as (answers & -> & Hlength & Hgo).
      exists (Err (EC2ResponseError error_code) :: answers).
      split; [done|]. split; [simpl; by rewrite Hlength|]. by constructor.
    + split; [|done]. apply Hstops. by repeat constructor.
Qed.

Lemma client_rules_narrow group ip rule :
  rule ∈ client_rules (ip +:+ "/32") → narrow group rule.
Proof.
  intros Hin. right. unfold client_rules in Hin.
  repeat (apply elem_of_cons in Hin as [->|Hin]); try (by inversion Hin);
    (split; [done|]; split; [done|]; split; [|by exists ip]); cbn [from_port to_port];
    set_solver.
Qed.

Lemma cluster_rules_narrow group rule : rule ∈ cluster_rules group → narrow group rule.
Proof.
  intros Hin. left. unfold cluster_rules in Hin.
  repeat (apply elem_of_cons in Hin as [->|Hin]); try (by inversion Hin); done.
Qed.

(** X16.  Every rule [get_or_create_ec2_security_groups] adds, whatever
    happens, lets in either the members of the group the rule is added
    to, or one address ([<ip>/32]) over TCP on the ports 22, 8080 to 8081
    and 4040: no rule opens a port to a range of addresses.  When it
    returns, it has searched once for the two groups by name, created
    those the search did not give, and added the three client rules, for
    the address [checkip.amazonaws.com] answered, to the base group and
    then the three cluster rules to the cluster group; it returns the two
    groups in this order. *)
Theorem security_groups_rules cluster_name vpc_id region (w : W) :
  let r := run (get_or_create_ec2_security_groups cluster_name vpc_id region) w in
  Forall (fun a => narrow a.1.1 a.1.2) (authorized r.2)
  ∧ match r.1.1 with
    | Returned groups =>
        ∃ connection found base cluster page client_answers cluster_answers,
          groups = [base; cluster]
          ∧ r.2
            = Called (connect_to_region (Some region)) (Ok (Some connection))
                :: Called (get_all_security_groups connection
                             ["flintrock"; "flintrock-" +:+ cluster_name]) (Ok found)
                :: ensured connection "flintrock" "flintrock base group" vpc_id found base
                ++ Called (urlopen_read "http://checkip.amazonaws.com/") (Ok page)
                :: added base (client_rules (strip page +:+ "/32")) client_answers
                ++ ensured connection ("flintrock-" +:+ cluster_name)
                     "Flintrock cluster group" vpc_id found cluster
                ++ added cluster (cluster_rules cluster) cluster_answers
          ∧ (∀ g, List.find (fun sg => String.eqb (sg_name sg) "flintrock") found = Some g →
                  base = g)
          ∧ (∀ g, List.find (fun sg => String.eqb (sg_name sg)
                                         ("flintrock-" +:+ cluster_name)) found = Some g →
                  cluster = g)
          ∧ length client_answers = 3%nat ∧ length cluster_answers = 3%nat
          ∧ Forall (fun answer => goes_on answer = true) (client_answers ++ cluster_answers)
    | Raised _ => True
    | Spinning => False
    end.
Proof.
  cbv zeta. split.
  { apply narrow_authorized. unfold get_or_create_ec2_security_groups.
    apply run_bind_all.
    { apply (narrow_among [k_connect_to_region]); [kinds|].
      apply (run_within _ false false); [done|apply within_connect]. }
    intros connection _.
    match goal with |- context [(run ?p w).1.2] => generalize (run p w).1.2 end.
    intros w1. apply run_bind_all.
    { apply (narrow_among [k_get_all_security_groups]); [kinds|].
      apply (run_within _ false false); [done|stay]. }
    intros found _.
    match goal with |- context [(run ?p w1).1.2] => generalize (run p w1).1.2 end.
    intros w2. apply run_bind_all.
    { apply (narrow_among [k_create_security_group]); [kinds|].
      apply (run_within _ false false); [done|]. destruct (List.find _ found); stay. }
    intros base _.
    match goal with |- context [(run ?p w2).1.2] => generalize (run p w2).1.2 end.
    intros w3. apply run_bind_all.
    { apply (narrow_among [k_urlopen]); [kinds|].
      apply (run_within _ false false); [done|stay]. }
    intros page _.
    match goal with |- context [(run ?p w3).1.2] => generalize (run p w3).1.2 end.
    intros w4. apply run_bind_all.
    { apply authorize_loop_run. intros rule. apply client_rules_narrow. }
    intros _ _.
    match goal with |- context [(run ?p w4).1.2] => generalize (run p w4).1.2 end.
    intros w5. apply run_bind_all.
    { apply (narrow_among [k_create_security_group]); [kinds|].
      apply (run_within _ false false); [done|]. destruct (List.find _ found); stay. }
    intros cluster _.
    match goal with |- context [(run ?p w5).1.2] => generalize (run p w5).1.2 end.
    intros w6. apply run_bind_all; [|intros; constructor].
    apply authorize_loop_run. intros rule. apply cluster_rules_narrow. }
  unfold get_or_create_ec2_security_groups, connect. step.
  destruct (handler _ (connect_to_region (Some region)) w) as [[[connection|]|e] w1]; step;
    [|done..].
  destruct (handler _ (get_all_security_groups connection _) w1) as [[found|e] w2]; step;
    [|done].
  rewrite run_bind.
  set (find_base := List.find (fun sg => String.eqb (sg_name sg) "flintrock") found).
  set (find_cluster :=
         List.find (fun sg => String.eqb (sg_name sg) ("flintrock-" +:+ cluster_name)) found).
  assert (∃ base w3,
             (run match find_base with
                  | Some g => Ret g
                  | None => perform (create_security_group connection "flintrock"
                                       "flintrock base group" vpc_id)
                  end w2 = (Returned base, w3,
                            ensured connection "flintrock" "flintrock base group" vpc_id
                              found base)
              ∧ ∀ g, find_base = Some g → base = g)
             ∨ ∃ e tr, run match find_base with
                          | Some g => Ret g
                          | None => perform (create_security_group connection "flintrock"
                                               "flintrock base group" vpc_id)
                          end w2 = (Raised e, w3, tr)) as (base & w3 & Hbase).
  { unfold ensured. fold find_base. destruct find_base as [g|].
    - exists g, w2. left. split; [done|]. by intros ? [= <-].
    - step. destruct (handler _ (create_security_group _ _ _ _) w2) as [[base|e] w3].
      + exists base, w3. by left.
      + exists {| sg_id := ""; sg_name := ""; sg_vpc_id := None |}, w3. right. by eauto. }
  destruct Hbase as [[-> Hfound_base]|(e & tr & ->)]; [|done].
  cbv beta iota.
  match goal with |- context [run ?p w3] => set (rest := p) end.
  destruct (run rest w3) as [[o w4] tr] eqn:Hrest. unfold rest in Hrest. clear rest.
  revert Hrest. step.
  destruct (handler _ (urlopen_read _) w3) as [[page|e] w5]; step;
    [|intros [= <- _ <-]; done].
  rewrite run_bind.
  destruct (authorize_loop_run base (client_rules (strip page +:+ "/32")) w5)
    as [_ Hclient].
  destruct (run (for_each (client_rules (strip page +:+ "/32")) (authorize_rule base)) w5)
    as [[[[]|e|] w6] tr1]; cbn [fst snd] in Hclient; [|intros [= <- _ <-]; done|done].
  destruct Hclient as (client_answers & -> & Hlength1 & Hgo1).
  rewrite run_bind.
  assert (∃ cluster w7,
             (run match find_cluster with
                  | Some g => Ret g
                  | None => perform (create_security_group connection
                                       ("flintrock-" +:+ cluster_name)
                                       "Flintrock cluster group" vpc_id)
                  end w6 = (Returned cluster, w7,
                            ensured connection ("flintrock-" +:+ cluster_name)
                              "Flintrock cluster group" vpc_id found cluster)
              ∧ ∀ g, find_cluster = Some g → cluster = g)
             ∨ ∃ e tr, run match find_cluster with
                          | Some g => Ret g
                          | None => perform (create_security_group connection
                                               ("flintrock-" +:+ cluster_name)
                                               "Flintrock cluster group" vpc_id)
                          end w6 = (Raised e, w7, tr)) as (cluster & w7 & Hcluster).
  { unfold ensured. fold find_cluster. destruct find_cluster as [g|].
    - exists g, w6. left. split; [done|]. by intros ? [= <-].
    - step. destruct (handler _ (create_security_group _ _ _ _) w6) as [[cluster|e] w7].
      + exists cluster, w7. by left.
      + exists {| sg_id := ""; sg_name := ""; sg_vpc_id := None |}, w7. right. by eauto. }
  destruct Hcluster as [[-> Hfound_cluster]|(e & tr' & ->)]; [|intros [= <- _ <-]; done].
  rewrite run_bind.
  destruct (authorize_loop_run cluster (cluster_rules cluster) w7) as [_ Hrules].
  destruct (run (for_each (cluster_rules cluster) (authorize_rule cluster)) w7)
    as [[[[]|e|] w8] tr2]; cbn [fst snd] in Hrules; [|intros [= <- _ <-]; done|done].
  destruct Hrules as (cluster_answers & -> & Hlength2 & Hgo2).
  step. intros [= <- _ <-].
  exists connection, found, base, cluster, page, client_answers, cluster_answers.
  split; [done|]. split.
  { cbn [app]. by rewrite app_nil_r. }
  split; [done|]. split; [done|]. split; [done|]. split; [done|].
  apply Forall_app. by split.
Qed.

End rules.

(** ** Joining the jobs *)

Section joining.

Context {W : Type}.
Variable handler : forall X : Type, call X -> W -> X * W.
Variable body_of : Job -> prog unit.
Variable schedule : list nat.

Local Abbreviation run := (run handler body_of schedule).

Lemma check_run done positions (w : W) :
  run (for_each positions (check done)) w
  = (match (run (for_each positions (check done)) w).1.1 with
     | Returned _ => Returned tt
     | o => o
     end, w, [])
  ∧ match (run (for_each positions (check done)) w).1.1 with
    | Returned _ => ∀ i e, i ∈ positions → done !! i ≠ Some (Err e)
    | Raised e => ∃ i, i ∈ positions ∧ done !! i = Some (Err e)
    | Spinning => False
    end.
Proof.
  induction positions as [|p positions [IHrun IH]].
  { split; [done|]. intros i e Hi. by inversion Hi. }
  rewrite for_each_cons, run_bind.
  assert (check done p = match done !! p with Some (Err e) => Raise e | _ => Ret tt end)
    as -> by reflexivity.
  assert (∀ i e, i ∈ p :: positions → done !! p ≠ Some (Err e) →
                 (∀ i e, i ∈ positions → done !! i ≠ Some (Err e)) →
                 done !! i ≠ Some (Err e)) as Hcons.
  { intros i e [->|Hi]%elem_of_cons Hp Hrest; [done|by apply Hrest]. }
  destruct (done !! p) as [[[]|e]|] eqn:Hp; cbn [run].
  - rewrite IHrun. cbn [fst snd]. revert IH.
    destruct (run (for_each positions (check done)) w).1.1 as [[]|e|]; intros IH;
      [| |done].
    + split; [done|]. intros i e Hi. by apply Hcons.
    + split; [done|]. destruct IH as (i & Hi & Hdone). exists i. split; [by right|done].
  - split; [done|]. exists p. split; [by left|done].
  - rewrite IHrun. cbn [fst snd]. revert IH.
    destruct (run (for_each positions (check done)) w).1.1 as [[]|e|]; intros IH;
      [| |done].
    + split; [done|]. intros i e Hi. by apply Hcons.
    + split; [done|]. destruct IH as (i & Hi & Hdone). exists i. split; [by right|done].
Qed.

(** X17.  [run_until_complete_wait] hands every job to the executor and
    waits for all of them.  It returns only when the wait came to its end
    and every job has returned.  It raises either the exception that
    ended the wait before the jobs were done (an interrupt of the main
    thread: the jobs may still be running), or, after a wait that came to
    its end with every job finished, the exception of one of the jobs; a
    job that fails does not keep the other jobs from running to their
    end.  Without a job it raises [ValueError], as [asyncio.wait] does for
    an empty set. *)
Theorem run_until_complete_wait_joins tasks (w : W) :
  let r := run (run_until_complete_wait tasks) w in
  match tasks with
  | [] => r = (Raised (ValueError "Set of coroutines/Futures is empty."), w, [])
  | _ :: _ =>
      ∃ workers after,
        r.2 = Forked tasks :: workers ++ after
        ∧ Forall of_workers workers
        ∧ match r.1.1 with
          | Returned _ =>
              (∀ i, (i < length tasks)%nat → Finished i (Ok tt) ∈ workers)
              ∧ ∃ order, after = [Joined; Called (iter_order (length tasks)) order]
          | Raised e =>
              after = [Interrupted e]
              ∨ ((∀ i, (i < length tasks)%nat → ∃ r, Finished i r ∈ workers)
                 ∧ (∃ i, Finished i (Err e) ∈ workers)
                 ∧ ∃ order, after = [Joined; Called (iter_order (length tasks)) order])
          | Spinning => after = []
          end
  end.
Proof.
  destruct tasks as [|job jobs]; [done|]. cbv zeta.
  unfold run_until_complete_wait. set (tasks := job :: jobs). cbn [run].
  destruct (fork_interrupted handler body_of schedule tasks w) as [[[e w1] tr1]|]
    eqn:Hinterrupted.
  { apply fork_interrupted_spec in Hinterrupted as (workers & -> & Hworkers).
    exists workers, [Interrupted e]. cbn [run fst snd]. split_and!; [done..|by left]. }
  pose proof (fork_join_spec handler body_of schedule tasks w) as Hfork.
  destruct (fork_join handler body_of schedule tasks w) as [[outs w1] tr1].
  destruct Hfork as (workers & -> & Hworkers & Hlength & Hfinished).
  exists workers.
  destruct (all_results outs) as [results|] eqn:Hresults;
    [|exists []; cbn [fst snd]; rewrite app_nil_r; by split_and!].
  specialize (Hfinished results eq_refl).
  pose proof (all_results_length _ _ Hresults) as Hlen. rewrite Hlength in Hlen.
  step. destruct (handler _ (iter_order (length results)) w1) as [order w2]. step.
  destruct (check_run results (order ++ seq 0 (length results)) w2) as [Hrun Hcheck].
  fold (check results). rewrite Hrun. clear Hrun. cbn [fst snd].
  exists [Joined; Called (iter_order (length tasks)) order].
  assert (∀ i, (i < length tasks)%nat → ∃ r, results !! i = Some r) as Hall.
  { intros i Hi. apply lookup_lt_is_Some_2. by rewrite Hlen. }
  destruct (run (for_each (order ++ seq 0 (length results)) (check results)) w2).1.1
    as [[]|e|]; [| |done].
  - split; [by rewrite Hlen|]. split; [done|]. split; [|by exists order].
    intros i Hi. apply Hfinished. destruct (Hall i Hi) as [[[]|e] Hr]; [done|].
    exfalso. apply (Hcheck i e); [|done]. apply elem_of_app. right.
    apply elem_of_seq. lia.
  - split; [by rewrite Hlen|]. split; [done|]. right. split_and!; [| |by exists order].
    + intros i Hi. destruct (Hall i Hi) as [r Hr]. exists r. by apply Hfinished.
    + destruct Hcheck as (i & _ & Hi). exists i. by apply Hfinished.
Qed.

End joining.

(** ** Failures of a module *)

Lemma printed_none file kinds tr :
  calls_among kinds tr → k_print ∉ kinds → printed file tr = [].
Proof.
  intros Hcalls Hkind. induction Hcalls as [|ev tr Hev _ IH]; [done|].
  destruct ev as [X c x| | | | | |]; try done. destruct c; done.
Qed.

Section failures.

Context {W : Type}.
Variable handler : forall X : Type, call X -> W -> X * W.
Variable body_of : Job -> prog unit.
Variable schedule : list nat.

Local Abbreviation run := (run handler body_of schedule).

(** X18.  [Spark.install] first asks the transport for the peer's
    address; if that raises, the exception is passed on with nothing
    printed.  Otherwise it announces itself on standard output and then
    writes [Could not find package for Spark <version> / hadoop1.] on
    standard error exactly when what follows raised an [Exception],
    whatever went wrong (the template could not be read or formatted, or
    the script failed on the node); the exception itself is raised again.
    [Spark.health_check] writes [Spark health check failed.] on standard
    error exactly when fetching or decoding the master's status raised an
    [Exception]; a document that was fetched and cannot be read (a field
    is missing or of another type) raises with nothing written on
    standard error and no report. *)
Theorem module_failures version client cluster_info master (w : W) :
  let r := run (install (Spark version) client cluster_info) w in
  let h := run (health_check (Spark version) master) w in
  let url := "http://" +:+ master +:+ ":8080/json/" in
  (∃ peer,
     head r.2 = Some (Called (transport_getpeername client) peer)
     ∧ match peer with
       | Err e => r.1.1 = Raised e ∧ r.2 = [Called (transport_getpeername client) peer]
       | Ok host =>
           r.2 !! 1%nat
           = Some (Called (print stdout ("[" +:+ host +:+ "] Installing Spark...")) tt)
           ∧ printed stderr r.2
             = match r.1.1 with
               | Raised e =>
                   if is_Exception e
                   then ["Could not find package for Spark " +:+ version +:+ " / hadoop1."]
                   else []
               | _ => []
               end
       end
     ∧ r.1.1 ≠ Spinning)
  ∧ ∃ fetched,
      head h.2 = Some (Called (urlopen_json url) fetched)
      ∧ match fetched with
        | Ok spark_ui_info =>
            ∃ read,
              h.2 = Called (urlopen_json url) fetched
                      :: Called (health_report spark_ui_info) read
                      :: match read with
                         | Ok report => [Called (print stdout report) tt]
                         | Err _ => []
                         end
              ∧ h.1.1 = match read with
                        | Ok _ => Returned tt
                        | Err e => Raised e
                        end
        | Err e =>
            h.1.1 = Raised e
            ∧ h.2 = Called (urlopen_json url) fetched
                      :: if is_Exception e
                         then [Called (print stderr "Spark health check failed.") tt]
                         else []
        end.
Proof.
  cbv zeta. split.
  - unfold install, getpeername. step.
    destruct (handler _ (transport_getpeername client) w) as [[host|e] w0]; step;
      [|by exists (Err e)].
    exists (Ok host).
    destruct (handler _ (print stdout _) w0) as [[] w1]. step.
    rewrite run_try_except.
    match goal with |- context [run ?p w1] => set (body := p) end.
    assert (within (among [k_read_file; k_format; k_exec_command]) false false body)
      as Hbody.
    { unfold body.
      stay_with ltac:(first [part within_get_formatted_template
                            | by apply within_ssh_check_output]). }
    pose proof (run_within _ false false handler body_of schedule ltac:(done) body w1 Hbody)
      as Hcalls.
    apply calls_among_within in Hcalls.
    pose proof (printed_none stderr _ _ Hcalls ltac:(kinds)) as Hquiet.
    pose proof (run_halts handler body_of schedule _ body w1 Hbody) as Hhalts.
    destruct (run body w1) as [[[[]|e|] w2] tr]; cbn [fst snd] in *; [done| |done].
    destruct (is_Exception e) eqn:He; [|cbn [fst snd]; by rewrite He].
    step. destruct (handler _ (print stderr _) w2) as [[] w3]. step.
    rewrite He. split_and!; [done..| |done].
    change (printed stderr (?a :: ?b :: ?l)) with (printed stderr l).
    by rewrite printed_app, Hquiet.
  - unfold health_check. rewrite run_bind, run_try_except. step.
    destruct (handler _ (urlopen_json _) w) as [[info|e] w1]; step.
    + exists (Ok info).
      destruct (handler _ (health_report info) w1) as [[report|e] w2]; step.
      * destruct (handler _ (print stdout report) w2) as [[] w3]. step.
        split; [done|]. by exists (Ok report).
      * split; [done|]. by exists (Err e).
    + exists (Err e). destruct (is_Exception e); [|done].
      step. by destruct (handler _ (print stderr _) w1) as [[] w2].
Qed.

End failures.

(** ** Starting a cluster *)

(** The instances that were started, and the jobs handed to the
    executor. *)
Definition started (tr : list event) : list (Instance * result Instance) :=
  omap (fun ev =>
          match ev with
          | Called c x =>
              match c in call X return X -> option (Instance * result Instance) with
              | instance_start instance => fun reply => Some (instance, reply)
              | _ => fun _ => None
              end x
          | _ => None
          end) tr.

Definition forked (tr : list event) : list (list Job) :=
  omap (fun ev => match ev with Forked jobs => Some jobs | _ => None end) tr.

Lemma started_app tr1 tr2 : started (tr1 ++ tr2) = started tr1 ++ started tr2.
Proof. apply omap_app. Qed.

Lemma started_acts instances replies :
  started (acts instance_start instances replies) = zip instances replies.
Proof.
  revert replies. induction instances as [|i instances IH]; intros [|r replies]; try done.
  simpl. by rewrite <- IH.
Qed.

Lemma started_none kinds tr : calls_among kinds tr → k_start ∉ kinds → started tr = [].
Proof.
  intros Hcalls Hkind. induction Hcalls as [|ev tr Hev _ IH]; [done|].
  destruct ev as [X c x| | | | | |]; try done. destruct c; done.
Qed.

Lemma forked_app tr1 tr2 : forked (tr1 ++ tr2) = forked tr1 ++ forked tr2.
Proof. apply omap_app. Qed.

Lemma forked_view tr : forked (view tr) = forked tr.
Proof.
  induction tr as [|ev tr IH]; [done|].
  destruct ev as [X c x|job X c x|m|jobs|job r| |e]; simpl; rewrite ?IH; try done;
    unfold view; simpl; destruct (provisioning c); simpl; by rewrite <- IH.
Qed.

Lemma forked_silent {W : Type} (handler : forall X : Type, call X -> W -> X * W) body_of
    schedule {A : Type} (p : prog A) (w : W) :
  silent p → forked (run handler body_of schedule p w).2 = [].
Proof. intros Hp. by rewrite <- forked_view, (silent_run handler body_of schedule p w Hp). Qed.

Section starting.

Context {W : Type}.
Variable handler : forall X : Type, call X -> W -> X * W.
Variable body_of : Job -> prog unit.
Variable schedule : list nat.

Local Abbreviation run := (run handler body_of schedule).

Lemma get_cluster_instances_ec2_cases cluster_name region (w : W) :
  let r := run (get_cluster_instances_ec2 cluster_name region) w in
  match r.1.1 with
  | Returned (master, slaves) =>
      ∃ connection listed more,
        r.2 = [Called (connect_to_region (Some region)) (Ok (Some connection));
               Called (get_only_instances connection
                         [("instance.group-name", "flintrock-" +:+ cluster_name)])
                 (Ok listed)]
        ∧ py_filter role_eq_master listed = Ok (master :: more)
        ∧ py_filter role_ne_master listed = Ok slaves
  | Raised _ => calls_among [k_connect_to_region; k_get_only_instances] r.2
  | Spinning => False
  end.
Proof.
  cbv zeta.
  pose proof (run_within _ false false handler body_of schedule ltac:(done) _ w
                (within_get_cluster_instances_ec2 false false cluster_name region)) as Hcalls.
  apply calls_among_within in Hcalls. revert Hcalls.
  unfold get_cluster_instances_ec2, connect. step.
  destruct (handler _ (connect_to_region (Some region)) w) as [[[connection|]|e] w1]; step;
    [|done..].
  destruct (handler _ (get_only_instances connection _) w1) as [[listed|e] w2]; step;
    [|done].
  destruct listed as [|first others]; [done|]. set (listed := first :: others).
  destruct (py_filter role_eq_master listed) as [masters|e] eqn:Hmasters; step; [|done].
  destruct masters as [|master more]; step; [done|].
  destruct (py_filter role_ne_master listed) as [slaves|e] eqn:Hslaves; step; [|done].
  intros _. by exists connection, listed, more.
Qed.

End starting.

Section start_order.

Context {W : Type}.
Variable handler : forall X : Type, call X -> W -> X * W.
Variable worker_fuel : nat.
Variable schedule : list nat.
Variables (cluster_name identity_file region user : string).

Local Abbreviation run := (run handler (job_prog worker_fuel) schedule).

(** The tasks [start_ec2] hands to the executor, one for each instance. *)
Definition start_jobs (master : Instance) (instances : list Instance) : list Job :=
  map (fun instance =>
         partial_start_ec2_node [Spark "Who knows?!"] user (ip_address instance)
           identity_file (build_cluster_info cluster_name None master (tail instances)))
      instances.

(** What [start_ec2] does once every instance has been told to start. *)
Definition bring_back (fuel : nat) (cluster_instances : list Instance) : prog unit :=
  cluster_instances ← wait_for_state "running" fuel cluster_instances;
  master_instance ← item0 cluster_instances;
  let slave_instances := tail cluster_instances in
  let cluster_info := build_cluster_info cluster_name None master_instance slave_instances in
  let spark := Spark "Who knows?!" in
  let modules := [spark] in
  run_until_complete_wait
    (map (fun instance =>
            partial_start_ec2_node modules user (ip_address instance) identity_file
              cluster_info)
         cluster_instances);;
  master_ssh_client ←
    get_ssh_client fuel user (ip_address master_instance) identity_file false;
  with_client master_ssh_client
    (for_each modules
       (fun module => configure_master module master_ssh_client cluster_info));;
  perform (time_sleep 30);;
  health_check spark (ip_address master_instance).

Lemma within_bring_back fuel cluster_instances :
  within (among ([k_update; k_sleep; k_iter; k_urlopen] ++ node_kinds)) true true
    (bring_back fuel cluster_instances).
Proof.
  unfold bring_back, with_client.
  stay_with ltac:(first [part within_wait_for_state | part within_get_ssh_client
                        | part within_run_until_complete_wait
                        | part within_configure_master | part within_health_check]).
Qed.

Lemma bring_back_forked fuel cluster_instances (w : W) jobs :
  jobs ∈ forked (run (bring_back fuel cluster_instances) w).2 →
  ∃ running master,
    Forall (fun instance => state instance = "running") running
    ∧ length running = length cluster_instances
    ∧ head running = Some master
    ∧ jobs = start_jobs master running.
Proof.
  unfold bring_back. rewrite run_bind.
  pose proof (forked_silent handler (job_prog worker_fuel) schedule
                (wait_for_state "running" fuel cluster_instances) w
                (silent_wait_for_state _ _ _)) as Hpolls.
  pose proof (wait_for_state_returned handler (job_prog worker_fuel) schedule "running" fuel
                cluster_instances w) as Hwaited.
  destruct (run (wait_for_state "running" fuel cluster_instances) w)
    as [[[running|e|] w1] polls]; cbn [fst snd] in *;
    [|rewrite Hpolls; by intros ?%elem_of_nil..].
  destruct (Hwaited running eq_refl) as (Hstate & Hlength & _). clear Hwaited.
  destruct running as [|master others].
  { cbn [item0 bind run fst snd]. rewrite app_nil_r, Hpolls. by intros ?%elem_of_nil. }
  set (running := master :: others) in *.
  change (item0 running) with (Ret master : prog Instance). cbn [bind].
  match goal with
  | |- context [run (run_until_complete_wait ?tasks;; ?rest) w1] =>
      destruct (join_story handler (job_prog worker_fuel) schedule tasks rest w1)
        as (workers & Hworkers & Hjoin);
      assert (silent rest) as Hrest;
      [|destruct (run (run_until_complete_wait tasks;; rest) w1) as [[o w2] tr]]
  end.
  { unfold with_client.
    silence_with ltac:(first [apply silent_get_ssh_client | apply silent_configure_master
                             | apply silent_health_check]). }
  cbn [fst snd] in *. rewrite forked_app, Hpolls, app_nil_l, <- forked_view.
  assert (forked workers = []) as Hnone.
  { clear -Hworkers. induction Hworkers as [|ev workers Hev _ IH]; [done|].
    by destruct ev. }
  intros Hjobs. exists running, master. split; [done|]. split; [done|]. split; [done|].
  destruct Hjoin as [[_ Hprefix]|(w' & _ & Hview & _)].
  - destruct Hprefix as [more Hmore].
    assert (forked (view tr ++ more) = [start_jobs master running]) as Hforked.
    { rewrite <- Hmore. simpl. by rewrite forked_app, Hnone. }
    rewrite forked_app in Hforked.
    destruct (forked (view tr)) as [|jobs' rest']; [by apply elem_of_nil in Hjobs|].
    injection Hforked as -> Hrest'. apply app_eq_nil in Hrest' as [-> _].
    by apply list_elem_of_singleton in Hjobs.
  - rewrite Hview in Hjobs.
    change (forked (Forked ?j :: ?l)) with (j :: forked l) in Hjobs.
    rewrite forked_app, Hnone in Hjobs.
    change (forked (Joined :: ?l)) with (forked l) in Hjobs.
    rewrite forked_view, (forked_silent handler (job_prog worker_fuel) schedule _ w' Hrest)
      in Hjobs.
    by apply list_elem_of_singleton in Hjobs.
Qed.

Lemma start_ec2_brings_back fuel :
  start_ec2 cluster_name identity_file region user fuel
  = timeit "start_ec2"
      (found ←
         try_except
           (r ← get_cluster_instances_ec2 cluster_name region;
            let '(master_instance, slave_instances) := r in
            Ret (master_instance :: slave_instances))
           (fun e =>
              match e with
              | ClusterNotFound msg => Some (ask (print stdout msg);; Raise (SystemExit 0))
              | _ => None
              end);
       ask (print stdout ("Starting " +:+ str_nat (length found) +:+ " instances..."));;
       cluster_instances ← for_each_handle instance_start found;
       bring_back fuel cluster_instances).
Proof. reflexivity. Qed.

(** X19.  [start_ec2] starts the master, then the slaves as
    [get_cluster_instances_ec2] returns them, and stops at the first call
    that fails; when the lookup raises (the cluster is not there, an
    instance carries no role, there is no master) nothing is started.
    The nodes are handed to the executor only after every instance has
    been told to start and every handle reads [running]: one job for each
    handle, for the address the handle reads then, with the hostnames of
    a [ClusterInfo] built from the refreshed handles. *)
Theorem start_ec2_starts fuel (w : W) :
  let r := run (start_ec2 cluster_name identity_file region user fuel) w in
  (started r.2 = [] ∧ forked r.2 = [] ∧ ∃ e, r.1.1 = Raised e)
  ∨ ∃ start connection listed master more slaves replies after,
      py_filter role_eq_master listed = Ok (master :: more)
      ∧ py_filter role_ne_master listed = Ok slaves
      ∧ r.2 = Called datetime_now start
                :: Called (connect_to_region (Some region)) (Ok (Some connection))
                :: Called (get_only_instances connection
                             [("instance.group-name", "flintrock-" +:+ cluster_name)])
                     (Ok listed)
                :: Called (print stdout ("Starting " +:+ str_nat (S (length slaves))
                                           +:+ " instances...")) tt
                :: acts instance_start (master :: slaves) replies ++ after
      ∧ started r.2 = zip (master :: slaves) replies
      ∧ ((∃ oks e, replies = map Ok oks ++ [Err e] ∧ (length oks < S (length slaves))%nat
                   ∧ after = [] ∧ r.1.1 = Raised e)
         ∨ ∃ refreshed,
             replies = map Ok refreshed ∧ length refreshed = S (length slaves)
             ∧ ∀ jobs, jobs ∈ forked r.2 →
                 ∃ running first,
                   Forall (fun instance => state instance = "running") running
                   ∧ length running = length refreshed
                   ∧ head running = Some first
                   ∧ jobs = start_jobs first running).
Proof.
  rewrite start_ec2_brings_back. cbv zeta.
  match goal with |- context [timeit _ ?p] => set (body := p) end.
  destruct (timeit_run handler (job_prog worker_fuel) schedule "start_ec2" body w)
    as [-> ->].
  set (start := (handler _ datetime_now w).1).
  set (w0 := (handler _ datetime_now w).2).
  set (end_ := (handler _ datetime_now (run body w0).1.2).1). clearbody end_ start.
  assert (∀ o : outcome unit,
            started match o with Returned _ => report "start_ec2" start end_ | _ => [] end
            = []
            ∧ forked match o with Returned _ => report "start_ec2" start end_ | _ => [] end
              = []) as Hreport by (by intros [[]| |]).
  unfold body. rewrite run_bind, run_try_except, run_bind.
  pose proof (get_cluster_instances_ec2_cases handler (job_prog worker_fuel) schedule
                cluster_name region w0) as Hlookup.
  cbv zeta in Hlookup.
  pose proof (forked_silent handler (job_prog worker_fuel) schedule _ w0
                (silent_get_cluster_instances_ec2 cluster_name region)) as Hquiet.
  destruct (run (get_cluster_instances_ec2 cluster_name region) w0)
    as [[[[master slaves]|e|] w1] lookup]; cbn [fst snd] in Hlookup, Hquiet; [| |done].
  2: { left.
       assert (started lookup = []) as Hnone by (apply (started_none _ _ Hlookup); kinds).
       destruct e; cbn [run fst snd];
         try (rewrite app_nil_r; change (started (?a :: ?l)) with (started l);
              change (forked (?a :: ?l)) with (forked l); by eauto).
       step. destruct (handler _ (print stdout msg) w1) as [[] w2]. step.
       rewrite !app_nil_r. change (started (?a :: ?l)) with (started l).
       change (forked (?a :: ?l)) with (forked l).
       rewrite started_app, forked_app, Hnone, Hquiet. by eauto. }
  destruct Hlookup as (connection & listed & more & -> & Hmasters & Hslaves).
  clear Hquiet. right. step.
  destruct (handler _ (print stdout _) w1) as [[] w2]. step. rewrite run_bind.
  destruct (for_each_handle_run handler (job_prog worker_fuel) schedule instance_start
              (master :: slaves) w2) as (replies & Hacts & Hreplies).
  destruct (run (for_each_handle instance_start (master :: slaves)) w2)
    as [[[refreshed|e|] w3] tr]; cbn [fst snd] in Hacts, Hreplies; subst tr; [| |done].
  - destruct Hreplies as [-> Hlength].
    assert (started (run (bring_back fuel refreshed) w3).2 = []) as Hnone.
    { apply (started_none ([k_update; k_sleep; k_iter; k_urlopen] ++ node_kinds)); [|kinds].
      apply calls_among_within, (run_within _ true true); [|apply within_bring_back].
      intros _ job. eapply within_mono; [| | |apply (within_job_prog true)]; try done.
      by intros X []. }
    pose proof (bring_back_forked fuel refreshed w3) as Hforked.
    destruct (run (bring_back fuel refreshed) w3) as [[o w4] tr]. cbn [fst snd] in *.
    destruct (Hreport o) as [Hstarted_report Hforked_report].
    exists start, connection, listed, master, more, slaves, (map Ok refreshed).
    eexists. split; [done|]. split; [done|]. split.
    { cbn [app]. do 4 f_equal. rewrite <- app_assoc. reflexivity. }
    split.
    { cbn [app]. change (started (?a :: ?b :: ?c :: ?d :: ?l)) with (started l).
      by rewrite !started_app, started_acts, Hnone, Hstarted_report, !app_nil_r. }
    right. exists refreshed. split; [done|]. split; [done|].
    intros jobs. cbn [app].
    change (forked (?a :: ?b :: ?c :: ?d :: ?l)) with (forked l).
    rewrite !forked_app, Hforked_report, app_nil_r.
    assert (forked (acts instance_start (master :: slaves) (map Ok refreshed)) = []) as ->.
    { generalize (master :: slaves). clear. intros l. revert l.
      induction refreshed as [|x xs IH]; intros [|i l]; try done. apply IH. }
    apply Hforked.
  - destruct Hreplies as (oks & -> & Hlength). cbn [fst snd].
    exists start, connection, listed, master, more, slaves, (map Ok oks ++ [Err e]), [].
    split; [done|]. split; [done|]. split; [by rewrite !app_nil_r|]. split.
    { rewrite !app_nil_r. cbn [app].
      change (started (?a :: ?b :: ?c :: ?d :: ?l)) with (started l).
      by rewrite started_acts. }
    left. by exists oks, e.
Qed.

End start_order.

(** ** Logging in *)

Section login.

Context {W : Type}.
Variable handler : forall X : Type, call X -> W -> X * W.
Variable body_of : Job -> prog unit.
Variable schedule : list nat.

Local Abbreviation run := (run handler body_of schedule).

(** X20.  [login_ec2] asks EC2 for the instances of the cluster's group
    that are tagged as master and runs [ssh] to the public hostname of
    the first one listed, with the user and the identity file given;
    what [ssh] exits with is ignored.  When none is listed it raises an
    [Exception] that names the cluster and the region, and runs
    nothing. *)
Theorem login_ec2_master cluster_name region identity_file user (w : W) :
  let r := run (login_ec2 cluster_name region identity_file user) w in
  ∃ connected,
    head r.2 = Some (Called (connect_to_region (Some region)) connected)
    ∧ match connected with
      | Ok (Some connection) =>
          ∃ found,
            r.2 !! 1%nat
            = Some (Called (get_only_instances connection
                              [("instance.group-name", "flintrock-" +:+ cluster_name);
                               ("tag:flintrock-role", "master")]) found)
            ∧ match found with
              | Ok (master_instance :: _) =>
                  ∃ status,
                    drop 2 r.2
                    = [Called (subprocess_call
                                 ["ssh"; "-o"; "StrictHostKeyChecking=no"; "-i";
                                  identity_file;
                                  user +:+ "@" +:+ public_dns_name master_instance])
                         status]
                    ∧ r.1.1 = match status with
                              | Ok _ => Returned tt
                              | Err e => Raised e
                              end
              | Ok [] =>
                  drop 2 r.2 = []
                  ∧ r.1.1 = Raised (Exception
                                      ("Could not find a master for a cluster named '"
                                         +:+ cluster_name +:+ "' in the " +:+ region
                                         +:+ " region."))
              | Err e => drop 2 r.2 = [] ∧ r.1.1 = Raised e
              end
      | Ok None => (∃ message, r.1.1 = Raised (AttributeError message)) ∧ tail r.2 = []
      | Err e => r.1.1 = Raised e ∧ tail r.2 = []
      end.
Proof.
  cbv zeta. unfold login_ec2, connect, ssh. step.
  destruct (handler _ (connect_to_region (Some region)) w) as [[[connection|]|e] w1]; step.
  - destruct (handler _ (get_only_instances connection _) w1) as [[found|e] w2]; step.
    + destruct found as [|master_instance others].
      { exists (Ok (Some connection)). split; [done|]. by exists (Ok []). }
      step. destruct (handler _ (subprocess_call _) w2) as [[status|e] w3]; step;
        (exists (Ok (Some connection)); split; [done|];
         exists (Ok (master_instance :: others)); split; [done|]).
      * by exists (Ok status).
      * by exists (Err e).
    + exists (Ok (Some connection)). split; [done|]. by exists (Err e).
  - exists (Ok None). split; [done|]. split; [by eexists|done].
  - by exists (Err e).
Qed.

End login.

(** ** An interrupted launch *)

Section interrupt.

Context {W : Type}.
Variable handler : forall X : Type, call X -> W -> X * W.
Variable worker_fuel : nat.
Variable schedule : list nat.
Variables (cluster_name : string) (num_slaves : Z) (modules : list Module).
Variables (key_name identity_file instance_type region availability_zone ami user : string).
Variables (vpc_id : option string).
Variables (subnet_id placement_group tenancy : string) (ebs_optimized : bool).
Variables (instance_initiated_shutdown_behavior : string).

Local Abbreviation run := (run handler (job_prog worker_fuel) schedule).
Local Abbreviation launch :=
  (launch_ec2 cluster_name num_slaves modules key_name identity_file instance_type region
     availability_zone ami user vpc_id subnet_id placement_group tenancy ebs_optimized
     instance_initiated_shutdown_behavior).
Local Abbreviation try_block :=
  (launch_cluster cluster_name num_slaves modules key_name identity_file instance_type region
     availability_zone ami user subnet_id placement_group tenancy ebs_optimized
     instance_initiated_shutdown_behavior).






End interrupt.

(** ** Runs on the in-memory provider *)

(** A user who declines, and a user who interrupts the program while it
    asks for its address. *)
Definition declining (X : Type) (c : call X) (w : World) : X * World :=
  match c in call X return X * World -> X * World with
  | click_confirm _ => fun _ => (Err Abort, w)
  | _ => fun answer => answer
  end (fake X c w).

Definition interrupting (X : Type) (c : call X) (w : World) : X * World :=
  match c in call X return X * World -> X * World with
  | urlopen_read _ => fun _ => (Err KeyboardInterrupt, w)
  | _ => fun answer => answer
  end (fake X c w).

Example destroy_ec2_confirmed :
  let r := run fake (job_prog 0) [] (destroy_ec2 "c" false "us-east-1")
             (world_of running_cluster) in
  r.1.1 = Returned tt
  ∧ map (fun t => instance_id t.1) (terminated r.2) = ["i-0"; "i-1"]
  ∧ map state (w_instances r.1.2) = ["shutting-down"; "shutting-down"].
Proof. by vm_compute. Qed.

Example destroy_ec2_declined :
  let r := run declining (job_prog 0) [] (destroy_ec2 "c" false "us-east-1")
             (world_of running_cluster) in
  r.1.1 = Raised Abort ∧ terminated r.2 = []
  ∧ map state (w_instances r.1.2) = ["running"; "running"].
Proof. by vm_compute. Qed.

Example stop_ec2_confirmed :
  let r := run fake (job_prog 0) [] (stop_ec2 "c" "us-east-1" 5 false)
             (world_of running_cluster) in
  r.1.1 = Returned tt
  ∧ map (fun t => instance_id t.1) (stopped r.2) = ["i-0"; "i-1"]
  ∧ map state (w_instances r.1.2) = ["stopped"; "stopped"].
Proof. by vm_compute. Qed.

Example launch_ec2_interrupt :
  let r := run interrupting (job_prog 5) [] (demo_launch 5) (world_of []) in
  r.1.1 = Raised KeyboardInterrupt ∧ launches r.2 = [] ∧ w_instances r.1.2 = [].
Proof. by vm_compute. Qed.

(** A user who interrupts the program while it waits for the provisioning
    jobs: the launch exits with status 1 after [Exiting...], no job has
    finished, and the three instances stay. *)
Definition interrupting_wait (X : Type) (c : call X) (w : World) : X * World :=
  match c in call X return X * World -> X * World with
  | loop_wait => fun _ => (Err KeyboardInterrupt, w)
  | _ => fun answer => answer
  end (fake X c w).

Example launch_ec2_interrupted_wait :
  let r := run interrupting_wait (job_prog 5) [0; 1; 2; 0]%nat (demo_launch 5) (world_of []) in
  r.1.1 = Raised (SystemExit 1)
  ∧ map caption (view r.2)
    = ["run_instances 3"; "create_tags i-0"; "create_tags i-1,i-2";
       "ClusterInfo running,running,running"; "fork 3"]
  ∧ Interrupted KeyboardInterrupt ∈ r.2
  ∧ last r.2 = Some (Called (print stdout "Exiting...") tt)
  ∧ map state (w_instances r.1.2) = ["running"; "running"; "running"].
Proof.
  cbv zeta. split_and!; [by vm_compute..| |by vm_compute|by vm_compute].
  vm_compute. set_solver.
Qed.

(** ** The work on a node *)

(** What is done on a node, command by command.  The probe of
    [JAVA_HOME] is kept with its answer, on which the next step
    depends. *)
Inductive stage :=
| s_keys
| s_probe (answer : result (Z * string * string))
| s_java
| s_install (quoted_version : string)
| s_configure
| s_master.

Definition stage_of (command : Command) (answer : result (Z * string * string)) : stage :=
  match command with
  | sh_install_keys _ _ => s_keys
  | sh_echo_java_home => s_probe answer
  | sh_install_java => s_java
  | sh_install_spark _ spark_version _ => s_install spark_version
  | sh_write_file _ _ => s_configure
  | sh_start_master _ _ => s_master
  end.

(** The commands sent, as stages, and their answers. *)
Definition stages (tr : list event) : list stage :=
  omap (fun ev =>
          match ev with
          | Called c x =>
              match c in call X return X -> option stage with
              | exec_command _ command => fun answer => Some (stage_of command answer)
              | _ => fun _ => None
              end x
          | _ => None
          end) tr.

Definition answers (tr : list event) : list (result (Z * string * string)) :=
  omap (fun ev =>
          match ev with
          | Called c x =>
              match c in call X return X -> option (result (Z * string * string)) with
              | exec_command _ _ => fun answer => Some answer
              | _ => fun _ => None
              end x
          | _ => None
          end) tr.

(** A command went through: it was run and exited with status 0. *)
Definition went_through (answer : result (Z * string * string)) : bool :=
  match answer with
  | Ok (status, _, _) => status =? 0
  | Err _ => false
  end.

(** Whether the probe says that [JAVA_HOME] is blank. *)
Definition java_is_blank (answer : result (Z * string * string)) : bool :=
  match answer with
  | Ok (_, out, _) => String.eqb (strip (rstrip_newlines out)) ""
  | Err _ => false
  end.

Definition module_plan (modules : list Module) : list stage :=
  flat_map (fun module => let 'Spark version := module in
                          [s_install (shlex_quote version); s_configure]) modules.

(** The plan of [provision_ec2_node], given the answer of the probe, and
    the plan of [start_ec2_node]. *)
Definition provision_plan (answer : result (Z * string * string)) (modules : list Module)
  : list stage :=
  s_keys :: s_probe answer :: (if java_is_blank answer then [s_java] else [])
    ++ module_plan modules.

Definition start_plan (modules : list Module) : list stage :=
  map (fun _ => s_configure) modules.

(** A run follows a plan: its stages are the first stages of the plan,
    all of them when it returns; every command but the last went through,
    and the last too when it returns. *)
Definition follows {W A : Type} (plan : list stage) (r : outcome A * W * list event) : Prop :=
  stages r.2 `prefix_of` plan
  ∧ (∃ done rest, answers r.2 = done ++ rest
                  ∧ Forall (fun answer => went_through answer = true) done
                  ∧ (length rest <= 1)%nat)
  ∧ ((∃ a, r.1.1 = Returned a) →
     stages r.2 = plan ∧ Forall (fun answer => went_through answer = true) (answers r.2)).

Lemma stages_app tr1 tr2 : stages (tr1 ++ tr2) = stages tr1 ++ stages tr2.
Proof. apply omap_app. Qed.

Lemma answers_app tr1 tr2 : answers (tr1 ++ tr2) = answers tr1 ++ answers tr2.
Proof. apply omap_app. Qed.

Lemma no_command kinds tr :
  calls_among kinds tr → k_exec_command ∉ kinds → stages tr = [] ∧ answers tr = [].
Proof.
  intros Hcalls Hkind. induction Hcalls as [|ev tr Hev _ [IH1 IH2]]; [done|].
  destruct ev as [X c x| | | | | |]; try done. destruct c; done.
Qed.

Section plans.

Context {W : Type}.
Variable handler : forall X : Type, call X -> W -> X * W.
Variable body_of : Job -> prog unit.
Variable schedule : list nat.

Local Abbreviation run := (run handler body_of schedule).

Lemma follows_quiet kinds forks {A : Type} (p : prog A) (w : W) :
  k_exec_command ∉ kinds → forks = false → within (among kinds) forks true p →
  follows [] (run p w).
Proof.
  intros Hkind -> Hp.
  pose proof (run_within _ false true handler body_of schedule ltac:(done) p w Hp) as Hcalls.
  apply calls_among_within in Hcalls.
  destruct (no_command _ _ Hcalls Hkind) as [Hstages Hanswers].
  unfold follows. rewrite Hstages, Hanswers. split; [done|]. split; [|done].
  exists [], []. split; [done|]. split; [constructor|]. simpl. lia.
Qed.

Lemma follows_bind_at {A B : Type} plan1 plan2 (p : prog A) (f : A -> prog B) (w : W) :
  follows plan1 (run p w) →
  (∀ a, (run p w).1.1 = Returned a → follows plan2 (run (f a) (run p w).1.2)) →
  follows (plan1 ++ plan2) (run (bind p f) w).
Proof.
  intros (Hprefix & (done1 & rest1 & Hdone1 & Hok1 & Hrest1) & Hreturned) Hf.
  rewrite run_bind. destruct (run p w) as [[[a|e|] w1] tr1]; cbn [fst snd] in *.
  - destruct Hreturned as [Hplan Hall]; [by eexists|].
    destruct (Hf a eq_refl)
      as (Hprefix2 & (done2 & rest2 & Hdone2 & Hok2 & Hrest2) & Hreturned2).
    destruct (run (f a) w1) as [[o2 w2] tr2]. unfold follows. cbn [fst snd] in *.
    rewrite stages_app, answers_app, Hplan. split; [by apply prefix_app|]. split.
    + exists (answers tr1 ++ done2), rest2. rewrite Hdone2, app_assoc.
      split; [done|]. split; [by apply Forall_app|done].
    + intros Ho. destruct (Hreturned2 Ho) as [Hplan2 Hall2]. rewrite Hplan2.
      split; [done|]. by apply Forall_app.
  - unfold follows. cbn [fst snd]. split; [by apply prefix_app_r|].
    split; [by exists done1, rest1|]. by intros [? ?].
  - unfold follows. cbn [fst snd]. split; [by apply prefix_app_r|].
    split; [by exists done1, rest1|]. by intros [? ?].
Qed.

Lemma follows_bind {A B : Type} plan1 plan2 (p : prog A) (f : A -> prog B) (w : W) :
  follows plan1 (run p w) → (∀ a w', follows plan2 (run (f a) w')) →
  follows (plan1 ++ plan2) (run (bind p f) w).
Proof. intros Hp Hf. apply follows_bind_at; [done|]. intros a _. apply Hf. Qed.

Lemma follows_nothing {A : Type} (a : A) (w : W) : follows [] (run (Ret a) w).
Proof.
  split; [done|]. split; [|done]. exists [], []. split; [done|]. split; [constructor|].
  simpl. lia.
Qed.

Lemma follows_seq {A B : Type} plan (p : prog A) (f : A -> prog B) (w : W) :
  follows [] (run p w) → (∀ a w', follows plan (run (f a) w')) →
  follows plan (run (bind p f) w).
Proof. apply (follows_bind [] plan). Qed.

Lemma follows_last {A B : Type} plan (p : prog A) (f : A -> prog B) (w : W) :
  follows plan (run p w) → (∀ a w', follows [] (run (f a) w')) →
  follows plan (run (bind p f) w).
Proof. intros Hp Hf. rewrite <- (app_nil_r plan). by apply follows_bind. Qed.

Lemma follows_command client command (w : W) :
  follows [stage_of command (handler _ (exec_command client command) w).1]
    (run (ssh_check_output client command) w).
Proof.
  unfold ssh_check_output. step.
  destruct (handler _ (exec_command client command) w) as [[[[status out] err]|e] w1]; step.
  - destruct (Z.eqb_spec status 0) as [->|Hstatus]; unfold follows; cbn [run fst snd].
    + split; [done|]. split; [|by repeat constructor].
      exists [Ok (0, out, err)], []. split; [done|]. split; [by repeat constructor|].
      simpl. lia.
    + split; [done|]. split; [|by intros [? ?]].
      exists [], [Ok (status, out, err)]. split; [done|]. split; [constructor|]. simpl. lia.
  - unfold follows. cbn [fst snd]. split; [done|]. split; [|by intros [? ?]].
    exists [], [Err e]. split; [done|]. split; [constructor|]. simpl. lia.
Qed.

Lemma follows_try_except {A : Type} plan (p : prog A) h (w : W) :
  follows plan (run p w) →
  (∀ e q w', h e = Some q →
             stages (run q w').2 = [] ∧ answers (run q w').2 = []
             ∧ ∀ a, (run q w').1.1 ≠ Returned a) →
  follows plan (run (try_except p h) w).
Proof.
  intros Hp Hh. rewrite run_try_except.
  destruct (run p w) as [[[a|e|] w1] tr1]; try done.
  destruct (h e) as [q|] eqn:Hq; [|done].
  destruct (Hh e q w1 Hq) as (Hstages & Hanswers & Hraises).
  destruct (run q w1) as [[o2 w2] tr2]. unfold follows in *. cbn [fst snd] in *.
  rewrite stages_app, answers_app, Hstages, Hanswers, !app_nil_r.
  destruct Hp as (Hprefix & Hdone & _). split; [done|]. split; [done|].
  intros [a ->]. by destruct (Hraises a).
Qed.

Lemma follows_with_client {A : Type} plan client (body : prog A) (w : W) :
  follows plan (run body w) → follows plan (run (with_client client body) w).
Proof.
  intros Hbody. unfold with_client. rewrite run_try_finally.
  destruct (run body w) as [[[a|e|] w1] tr1]; try done; step;
    destruct (handler _ (ssh_close client) w1) as [[] w2]; step;
    unfold follows in *; cbn [fst snd] in *;
    rewrite stages_app, answers_app, !app_nil_r;
    destruct Hbody as (Hprefix & Hdone & Hreturned); (split; [done|]); (split; [done|]).
  - intros _. apply Hreturned. by eexists.
  - by intros [? ?].
Qed.

Lemma follows_for_each {A : Type} (plan : A -> list stage) (xs : list A) body (w : W) :
  (∀ x w', follows (plan x) (run (body x) w')) →
  follows (flat_map plan xs) (run (for_each xs body) w).
Proof.
  intros Hbody. revert w. induction xs as [|x xs IH]; intros w.
  - split; [done|]. split; [|done]. exists [], []. split; [done|]. split; [constructor|].
    simpl. lia.
  - rewrite for_each_cons. cbn [flat_map]. apply follows_bind; [apply Hbody|].
    intros _ w'. apply IH.
Qed.

Lemma follows_template path mapping (w : W) :
  follows [] (run (get_formatted_template path mapping) w).
Proof.
  apply (follows_quiet [k_read_file; k_format] false); [kinds|done|].
  apply within_mono with (allowed := among [k_read_file; k_format]) (forks := false)
                         (spins := false); try done.
  apply within_get_formatted_template.
Qed.

Lemma follows_print {A : Type} file line (rest : prog A) plan (w : W) :
  (∀ w', follows plan (run rest w')) → follows plan (run (ask (print file line);; rest) w).
Proof.
  intros Hrest. apply follows_seq; [|by intros].
  apply (follows_quiet [k_print] false); [kinds|done|]. stay.
Qed.

Lemma follows_install version client cluster_info (w : W) :
  follows [s_install (shlex_quote version)]
    (run (install (Spark version) client cluster_info) w).
Proof.
  unfold install, getpeername.
  apply follows_seq; [apply (follows_quiet [k_getpeername] false); [kinds|done|stay]|].
  intros h w0. apply follows_print. intros w1.
  apply follows_try_except.
  - apply follows_seq; [apply follows_template|]. intros template w2.
    apply follows_last; [apply (follows_command client)|]. intros _ w3.
    split; [done|]. split; [|done]. exists [], []. split; [done|]. split; [constructor|].
    simpl. lia.
  - intros e q w' Hq. destruct (is_Exception e); [|done]. injection Hq as <-. step.
    by destruct (handler _ (print stderr _) w') as [[] w2].
Qed.

Lemma follows_configure module client cluster_info (w : W) :
  follows [s_configure] (run (configure module client cluster_info) w).
Proof.
  unfold configure. apply follows_seq; [apply follows_template|]. intros template w1.
  apply follows_last; [apply (follows_command client)|]. intros _ w2.
  split; [done|]. split; [|done]. exists [], []. split; [done|]. split; [constructor|].
  simpl. lia.
Qed.

Lemma ssh_check_output_returned client command (w : W) a :
  (run (ssh_check_output client command) w).1.1 = Returned a →
  ∃ out err, (handler _ (exec_command client command) w).1 = Ok (0, out, err)
             ∧ a = rstrip_newlines out.
Proof.
  unfold ssh_check_output. step.
  destruct (handler _ (exec_command client command) w) as [[[[status out] err]|e] w1]; step;
    [|done].
  destruct (Z.eqb_spec status 0) as [->|Hstatus]; [|done]. intros [= <-]. by exists out, err.
Qed.

Lemma follows_modules client cluster_info modules (w : W) :
  follows (module_plan modules)
    (run (for_each modules
            (fun module =>
               install module client cluster_info;;
               configure module client cluster_info)) w).
Proof.
  apply (follows_for_each
           (fun module => let 'Spark version := module in
                          [s_install (shlex_quote version); s_configure])).
  intros [version] w'.
  apply (follows_bind [s_install (shlex_quote version)] [s_configure]).
  - apply follows_install.
  - intros _ w''. apply follows_configure.
Qed.

Lemma follows_provisioning host client cluster_info modules (w : W) :
  ∃ answer,
    follows (provision_plan answer modules)
      (run (keys ← key_pair_of cluster_info "private";
            ssh_check_output client
              (sh_install_keys (shlex_quote (private keys)) (shlex_quote (public keys)));;
            java_home ← ssh_check_output client sh_echo_java_home;
            (if String.eqb (strip java_home) ""
             then ask (print stdout ("[" +:+ host +:+ "] Installing Java..."));;
                  ssh_check_output client sh_install_java;;
                  Ret tt
             else Ret tt);;
            for_each modules
              (fun module =>
                 install module client cluster_info;;
                 configure module client cluster_info)) w).
Proof.
  unfold key_pair_of. destruct (ssh_key_pair cluster_info) as [keys|].
  2: { exists (Err IndexError). split; [apply prefix_nil|]. split; [|by intros [? ?]].
       exists [], []. split; [done|]. split; [constructor|]. simpl. lia. }
  cbn [bind].
  set (install_keys :=
         ssh_check_output client
           (sh_install_keys (shlex_quote (private keys)) (shlex_quote (public keys)))).
  set (w1 := (run install_keys w).1.2).
  exists (handler _ (exec_command client sh_echo_java_home) w1).1.
  apply (follows_bind_at [s_keys]); [apply (follows_command client)|].
  intros _ _. fold w1.
  apply (follows_bind_at [s_probe (handler _ (exec_command client sh_echo_java_home) w1).1]);
    [apply (follows_command client sh_echo_java_home)|].
  intros java_home (out & err & Hanswer & ->)%ssh_check_output_returned.
  rewrite Hanswer. cbn [java_is_blank].
  apply follows_bind; [|intros _ w'; apply follows_modules].
  destruct (String.eqb (strip (rstrip_newlines out)) "").
  - apply follows_print. intros w'.
    apply follows_last; [apply (follows_command client sh_install_java)|].
    intros _ w''. apply follows_nothing.
  - apply follows_nothing.
Qed.

(** X22.  [provision_ec2_node] works on its node in this order: it
    installs the key pair, probes [JAVA_HOME], installs Java if and only
    if the probe gave a blank value, and then, for each module in the
    order of the list, installs it and writes its configuration;
    [start_ec2_node] writes the configuration of each module.  A command
    that does not go through (it cannot be run, or exits with a status
    other than 0) ends the work on the node: no command is sent after
    it.  When the job returns, every command of the plan was sent and
    went through. *)
Theorem node_plan fuel modules user host identity_file cluster_info (w : W) :
  (∃ answer,
     follows (provision_plan answer modules)
       (run (provision_ec2_node fuel modules user host identity_file cluster_info) w))
  ∧ follows (start_plan modules)
      (run (start_ec2_node fuel modules user host identity_file cluster_info) w).
Proof.
  assert (∀ w', follows [] (run (get_ssh_client fuel user host identity_file true) w'))
    as Hconnect.
  { intros w'. apply (follows_quiet [k_ssh_connect; k_print; k_sleep] false); [kinds|done|].
    apply within_get_ssh_client. }
  split.
  - unfold provision_ec2_node.
    destruct ((run (get_ssh_client fuel user host identity_file true) w).1.1)
      as [client|e|] eqn:Hclient.
    + destruct (follows_provisioning host client cluster_info modules
                  (run (get_ssh_client fuel user host identity_file true) w).1.2)
        as [answer Hbody].
      exists answer. apply (follows_bind_at []); [apply Hconnect|].
      intros a Ha. rewrite Hclient in Ha. injection Ha as <-.
      by apply follows_with_client.
    + exists (Err IndexError). apply (follows_bind_at []); [apply Hconnect|].
      intros a Ha. congruence.
    + exists (Err IndexError). apply (follows_bind_at []); [apply Hconnect|].
      intros a Ha. congruence.
  - unfold start_ec2_node, start_plan. apply follows_seq; [apply Hconnect|].
    intros client w1. apply follows_with_client.
    assert (map (fun _ : Module => s_configure) modules
            = flat_map (fun _ : Module => [s_configure]) modules) as ->.
    { induction modules as [|m ms IH]; [done|]. simpl. by rewrite IH. }
    apply follows_for_each. intros module w2. apply follows_configure.
Qed.

End plans.

Example provision_ec2_node_stages :
  stages (run fake (job_prog 5) []
            (provision_ec2_node 5 [Spark "1.5.0"] "ec2-user" "10.0.0.1" "id.pem" one_node_info)
            (world_of [])).2
  = [s_keys; s_probe (Ok (0, "/usr/lib/jvm/jre" +:+ nl, "")); s_install "1.5.0"; s_configure].
Proof. by vm_compute. Qed.

(** A node that answers the probe with white space only, here a no-break
    space and a next-line control: the value is blank and Java is
    installed. *)
Definition blank_java_home : string := text ["160"%char; "133"%char] +:+ nl.

Definition without_java (X : Type) (c : call X) (w : World) : X * World :=
  match c in call X return X * World -> X * World with
  | exec_command _ command =>
      fun answer =>
        match command with
        | sh_echo_java_home => (Ok (0, blank_java_home, ""), w)
        | _ => answer
        end
  | _ => fun answer => answer
  end (fake X c w).

Example provision_ec2_node_blank_java_home :
  strip (rstrip_newlines blank_java_home) = ""
  ∧ stages (run without_java (job_prog 5) []
              (provision_ec2_node 5 [Spark "1.5.0"] "ec2-user" "10.0.0.1" "id.pem"
                 one_node_info)
              (world_of [])).2
    = [s_keys; s_probe (Ok (0, blank_java_home, "")); s_java; s_install "1.5.0";
       s_configure].
Proof. split; by vm_compute. Qed.
